(** * WhisperLiveKit: concurrency, resource and buffering layer

    A shallow embedding of the resource-management code of WhisperLiveKit
    (ring buffer, task pool, connection pool, rate limiter, wire compression,
    message batcher, adaptive token buffer) together with the properties
    its specification states about it.

    Conventions of the embedding:
    - Python [int] is [Z]; [float] quantities (time stamps, confidences,
      ratios, token counts of the rate limiter) are exact rationals [Qc];
    - [list] is [list], [dict] with string keys is [gmap string _] where the
      order of the entries does not matter and an association list where
      it does (JSON output);
    - a method that mutates [self] takes the object and returns the new one;
    - a method that can raise returns a [result];
    - every reading of [time.time()] is an explicit argument. *)

From Stdlib Require Import ZArith QArith Qcanon Lia Lqa List Strings.Byte Ascii String.
From stdpp Require Import base numbers option list sorting strings pretty gmap.

Open Scope Z_scope.

(** ** Python basics shared by the modules *)

Module Py.

(** Exceptions that the modelled code can meet.  [Unsupported] marks an
    input outside the modelled fragment of Python (a float in JSON text, a
    code point above 255, a text longer than the parser's fuel). *)
Inductive exn : Type :=
| ValueError (msg : string)
| StructError
| IndexError
| ZlibError
| OverflowError
| ZeroDivisionError
| QueueFull (msg : string)
| UnicodeDecodeError
| JSONDecodeError
| Unsupported (what : string).

(** What a call does: it returns, it raises, or it never comes back (a
    thread that waits for a lock it holds itself). *)
Inductive result (A : Type) : Type :=
| Ok (a : A)
| Raise (e : exn)
| Hang.
Arguments Ok {A} a.
Arguments Raise {A} e.
Arguments Hang {A}.

Definition bind {A B} (r : result A) (k : A -> result B) : result B :=
  match r with
  | Ok a => k a
  | Raise e => Raise e
  | Hang => Hang
  end.

(** [i] as a slice bound of a sequence of length [len]: negative bounds
    count from the end, and every bound is clipped to [0, len]. *)
Definition slice_bound (len i : Z) : Z :=
  if i <? 0 then Z.max 0 (i + len) else Z.min i len.

(** [l[start:stop]], with [None] for an omitted bound. *)
Definition slice {A} (l : list A) (start stop : option Z) : list A :=
  let len := Z.of_nat (length l) in
  let a := from_option (slice_bound len) 0 start in
  let b := from_option (slice_bound len) len stop in
  take (Z.to_nat (b - a)) (drop (Z.to_nat a) l).

(** [sep.join(parts)] *)
Fixpoint join (sep : string) (parts : list string) : string :=
  match parts with
  | [] => EmptyString
  | [p] => p
  | p :: rest => p +:+ sep +:+ join sep rest
  end.

(** An integer as a float. *)
Definition Qc_of_Z (z : Z) : Qc := Q2Qc (inject_Z z).

(** Truth value of an optional float: [None] and [0.0] are false. *)
Definition truthy (p : option Qc) : bool :=
  match p with
  | None => false
  | Some q => bool_decide (q <> 0%Qc)
  end.

End Py.

Notation "'let!' x ':=' r 'in' k" := (Py.bind r (fun x => k))
  (at level 10, x name, r at level 100, k at level 200, only parsing).
Notation "'let!' ' p ':=' r 'in' k" := (Py.bind r (fun p => k))
  (at level 10, p strict pattern, r at level 100, k at level 200, only parsing).

(** ** Python values, [json] and UTF-8 *)

Module json.

(** The values a message is made of. [float] is left out; a [str] is a
    sequence of code points below 256, one per character. A [dict] keeps
    its entries in insertion order and has string keys. *)
#[warnings="-register-all"]
Inductive pyval : Type :=
| PyNone
| PyBool (b : bool)
| PyInt (z : Z)
| PyStr (s : string)
| PyList (items : list pyval)
| PyTuple (items : list pyval)
| PyDict (entries : list (string * pyval)).

(** The double quote, code point 34. *)
Definition dquote : ascii := ascii_of_nat 34.

Definition hex_digit (n : nat) : ascii :=
  ascii_of_nat (if (n <? 10)%nat then 48 + n else 87 + n).

(** ["\\u00XX"] for a code point below 256. *)
Definition u_escape (n : nat) : string :=
  String "\" (String "u" (String "0" (String "0"
    (String (hex_digit (n / 16)) (String (hex_digit (n mod 16)) EmptyString))))).

(** The replacement of one character within a JSON string: the escapes of
    [ESCAPE_DCT], and with [ensure_ascii] every character outside the
    printable ASCII range as well. *)
Definition escape_char (ensure_ascii : bool) (c : ascii) : string :=
  let n := nat_of_ascii c in
  if (n =? 34)%nat then String "\" (String dquote EmptyString)
  else if (n =? 92)%nat then "\\"
  else if (n =? 8)%nat then "\b"
  else if (n =? 12)%nat then "\f"
  else if (n =? 10)%nat then "\n"
  else if (n =? 13)%nat then "\r"
  else if (n =? 9)%nat then "\t"
  else if (n <? 32)%nat then u_escape n
  else if ensure_ascii && (126 <? n)%nat then u_escape n
  else String c EmptyString.

Fixpoint escape (ensure_ascii : bool) (s : string) : string :=
  match s with
  | EmptyString => EmptyString
  | String c rest => escape_char ensure_ascii c +:+ escape ensure_ascii rest
  end.

(** [encode_basestring] and [encode_basestring_ascii] *)
Definition quote (ensure_ascii : bool) (s : string) : string :=
  String dquote (escape ensure_ascii s +:+ String dquote EmptyString).

(** [json.dumps(v, ensure_ascii=..., separators=(',', ':'))] *)
Fixpoint dumps (ensure_ascii : bool) (v : pyval) : string :=
  match v with
  | PyNone => "null"
  | PyBool true => "true"
  | PyBool false => "false"
  | PyInt z => pretty z
  | PyStr s => quote ensure_ascii s
  | PyList items | PyTuple items =>
    "[" +:+ Py.join "," (map (dumps ensure_ascii) items) +:+ "]"
  | PyDict entries =>
    "{" +:+ Py.join ","
              (map (fun kv => quote ensure_ascii (fst kv) +:+ ":"
                              +:+ dumps ensure_ascii (snd kv)) entries)
        +:+ "}"
  end.

(** *** [json.loads] *)

Definition is_ws (c : ascii) : bool :=
  let n := nat_of_ascii c in
  (n =? 32)%nat || (n =? 9)%nat || (n =? 10)%nat || (n =? 13)%nat.

Fixpoint skip_ws (s : string) : string :=
  match s with
  | String c rest => if is_ws c then skip_ws rest else s
  | EmptyString => s
  end.

Definition digit_value (c : ascii) : option Z :=
  let n := nat_of_ascii c in
  if (48 <=? n)%nat && (n <=? 57)%nat then Some (Z.of_nat (n - 48)) else None.

Definition hex_value (c : ascii) : option nat :=
  let n := nat_of_ascii c in
  if (48 <=? n)%nat && (n <=? 57)%nat then Some (n - 48)%nat
  else if (97 <=? n)%nat && (n <=? 102)%nat then Some (n - 87)%nat
  else if (65 <=? n)%nat && (n <=? 70)%nat then Some (n - 55)%nat
  else None.

(** The character that a one-letter escape stands for. *)
Definition unescape (c : ascii) : option ascii :=
  let n := nat_of_ascii c in
  if (n =? 34)%nat then Some dquote
  else if (n =? 92)%nat then Some (ascii_of_nat 92)
  else if (n =? 47)%nat then Some (ascii_of_nat 47)
  else if (n =? 98)%nat then Some (ascii_of_nat 8)
  else if (n =? 102)%nat then Some (ascii_of_nat 12)
  else if (n =? 110)%nat then Some (ascii_of_nat 10)
  else if (n =? 114)%nat then Some (ascii_of_nat 13)
  else if (n =? 116)%nat then Some (ascii_of_nat 9)
  else None.

(** The scanner of strings, started after the opening quote: the string
    read and the text after the closing quote. *)
Fixpoint parse_string (s : string) : Py.result (string * string) :=
  match s with
  | EmptyString => Py.Raise Py.JSONDecodeError
  | String c rest =>
    let n := nat_of_ascii c in
    if (n =? 34)%nat then Py.Ok (EmptyString, rest)
    else if (n =? 92)%nat then
      match rest with
      | EmptyString => Py.Raise Py.JSONDecodeError
      | String e rest1 =>
        if (nat_of_ascii e =? 117)%nat then
          match rest1 with
          | String h1 (String h2 (String h3 (String h4 rest2))) =>
            match hex_value h1, hex_value h2, hex_value h3, hex_value h4 with
            | Some a, Some b, Some c, Some d =>
              let cp := (((a * 16 + b) * 16 + c) * 16 + d)%nat in
              if (cp <? 256)%nat then
                let! '(str, tail) := parse_string rest2 in
                Py.Ok (String (ascii_of_nat cp) str, tail)
              else Py.Raise (Py.Unsupported "code point above 255")
            | _, _, _, _ => Py.Raise Py.JSONDecodeError
            end
          | _ => Py.Raise Py.JSONDecodeError
          end
        else
          match unescape e with
          | Some x =>
            let! '(str, tail) := parse_string rest1 in
            Py.Ok (String x str, tail)
          | None => Py.Raise Py.JSONDecodeError
          end
      end
    else if (n <? 32)%nat then Py.Raise Py.JSONDecodeError
    else
      let! '(str, tail) := parse_string rest in
      Py.Ok (String c str, tail)
  end.

(** The digits at the head of [s], read after the value [acc]. *)
Fixpoint take_digits (s : string) (acc : Z) : Z * string :=
  match s with
  | EmptyString => (acc, s)
  | String c rest =>
    match digit_value c with
    | Some d => take_digits rest (acc * 10 + d)
    | None => (acc, s)
    end
  end.

Definition starts_with_digit (s : string) : bool :=
  match s with
  | String c _ => bool_decide (is_Some (digit_value c))
  | EmptyString => false
  end.

(** Whether a fraction or an exponent follows the integer part, which
    makes the number a [float]. *)
Definition float_follows (s : string) : bool :=
  match s with
  | String c rest =>
    let n := nat_of_ascii c in
    if (n =? 46)%nat then starts_with_digit rest
    else if (n =? 101)%nat || (n =? 69)%nat then
      match rest with
      | String sign rest1 =>
        if (nat_of_ascii sign =? 43)%nat || (nat_of_ascii sign =? 45)%nat
        then starts_with_digit rest1 else starts_with_digit rest
      | EmptyString => false
      end
    else false
  | EmptyString => false
  end.

(** [s] without the prefix [p], if it has it. *)
Fixpoint strip_prefix (p s : string) : option string :=
  match p, s with
  | EmptyString, _ => Some s
  | String a p, String b s => if decide (a = b) then strip_prefix p s else None
  | String _ _, EmptyString => None
  end.

(** Numbers, after the pattern of the scanner: an optional minus sign, then
    a zero or a digit other than zero with more digits; a fraction or an
    exponent after it makes a [float]. *)
Definition parse_number (s : string) : Py.result (pyval * string) :=
  let '(negative, body) :=
    match s with
    | String c rest => if (nat_of_ascii c =? 45)%nat then (true, rest) else (false, s)
    | EmptyString => (false, s)
    end in
  match body with
  | String c rest =>
    match digit_value c with
    | Some d =>
      let '(magnitude, tail) := if d =? 0 then (0, rest) else take_digits rest d in
      if float_follows tail then Py.Raise (Py.Unsupported "float")
      else Py.Ok (PyInt (if negative : bool then - magnitude else magnitude), tail)
    | None => Py.Raise Py.JSONDecodeError
    end
  | EmptyString => Py.Raise Py.JSONDecodeError
  end.

(** The constants and the numbers. *)
Definition parse_atom (s : string) : Py.result (pyval * string) :=
  match strip_prefix "null" s with
  | Some tail => Py.Ok (PyNone, tail)
  | None =>
  match strip_prefix "true" s with
  | Some tail => Py.Ok (PyBool true, tail)
  | None =>
  match strip_prefix "false" s with
  | Some tail => Py.Ok (PyBool false, tail)
  | None =>
    if bool_decide (is_Some (strip_prefix "NaN" s))
       || bool_decide (is_Some (strip_prefix "Infinity" s))
       || bool_decide (is_Some (strip_prefix "-Infinity" s))
    then Py.Raise (Py.Unsupported "float")
    else parse_number s
  end end end.

(** [dict(pairs)], one pair at a time: a key met again keeps its place and
    takes the new value. *)
Fixpoint dict_set (d : list (string * pyval)) (k : string) (v : pyval)
  : list (string * pyval) :=
  match d with
  | [] => [(k, v)]
  | (k', v') :: d => if decide (k' = k) then (k, v) :: d else (k', v') :: dict_set d k v
  end.

(** The scanner of values. [fuel] bounds the depth of the calls; a text of
    [n] characters needs less than [2 * n + 2]. [parse_items] reads the
    elements of an array from the first one on, [parse_members] the pairs
    of an object from the quote of the first key on. *)
Fixpoint parse_value (fuel : nat) (s : string) : Py.result (pyval * string) :=
  match fuel with
  | O => Py.Raise (Py.Unsupported "nesting")
  | S fuel =>
    match s with
    | EmptyString => Py.Raise Py.JSONDecodeError
    | String c rest =>
      let n := nat_of_ascii c in
      if (n =? 34)%nat then
        let! '(str, tail) := parse_string rest in
        Py.Ok (PyStr str, tail)
      else if (n =? 123)%nat then
        match skip_ws rest with
        | String c1 rest1 =>
          if (nat_of_ascii c1 =? 125)%nat then Py.Ok (PyDict [], rest1)
          else parse_members fuel (String c1 rest1) []
        | EmptyString => Py.Raise Py.JSONDecodeError
        end
      else if (n =? 91)%nat then
        match skip_ws rest with
        | String c1 rest1 =>
          if (nat_of_ascii c1 =? 93)%nat then Py.Ok (PyList [], rest1)
          else parse_items fuel (String c1 rest1) []
        | EmptyString => Py.Raise Py.JSONDecodeError
        end
      else parse_atom s
    end
  end
with parse_items (fuel : nat) (s : string) (acc : list pyval)
  : Py.result (pyval * string) :=
  match fuel with
  | O => Py.Raise (Py.Unsupported "nesting")
  | S fuel =>
    let! '(v, tail) := parse_value fuel s in
    match skip_ws tail with
    | String c rest =>
      if (nat_of_ascii c =? 44)%nat then parse_items fuel (skip_ws rest) (acc ++ [v])
      else if (nat_of_ascii c =? 93)%nat then Py.Ok (PyList (acc ++ [v]), rest)
      else Py.Raise Py.JSONDecodeError
    | EmptyString => Py.Raise Py.JSONDecodeError
    end
  end
with parse_members (fuel : nat) (s : string) (acc : list (string * pyval))
  : Py.result (pyval * string) :=
  match fuel with
  | O => Py.Raise (Py.Unsupported "nesting")
  | S fuel =>
    match s with
    | String q rest =>
      if (nat_of_ascii q =? 34)%nat then
        let! '(key, tail) := parse_string rest in
        match skip_ws tail with
        | String colon tail1 =>
          if (nat_of_ascii colon =? 58)%nat then
            let! '(v, tail2) := parse_value fuel (skip_ws tail1) in
            match skip_ws tail2 with
            | String c rest2 =>
              if (nat_of_ascii c =? 44)%nat
              then parse_members fuel (skip_ws rest2) (dict_set acc key v)
              else if (nat_of_ascii c =? 125)%nat
              then Py.Ok (PyDict (dict_set acc key v), rest2)
              else Py.Raise Py.JSONDecodeError
            | EmptyString => Py.Raise Py.JSONDecodeError
            end
          else Py.Raise Py.JSONDecodeError
        | EmptyString => Py.Raise Py.JSONDecodeError
        end
      else Py.Raise Py.JSONDecodeError
    | EmptyString => Py.Raise Py.JSONDecodeError
    end
  end.

(** [json.loads(s)] *)
Definition loads (s : string) : Py.result pyval :=
  let s := skip_ws s in
  let! '(v, tail) := parse_value (2 * String.length s + 2) s in
  match skip_ws tail with
  | EmptyString => Py.Ok v
  | String _ _ => Py.Raise Py.JSONDecodeError
  end.

(** *** UTF-8 *)

Definition byte_of_Z (z : Z) : byte := default x00 (Byte.of_N (Z.to_N z)).
Definition Z_of_byte (b : byte) : Z := Z.of_N (Byte.to_N b).

(** [s.encode('utf-8')] for code points below 256: one byte below 128, two
    bytes from 128 on. *)
Fixpoint utf8_encode (s : string) : list byte :=
  match s with
  | EmptyString => []
  | String c rest =>
    let n := Z.of_nat (nat_of_ascii c) in
    if n <? 128 then byte_of_Z n :: utf8_encode rest
    else byte_of_Z (192 + n / 64) :: byte_of_Z (128 + n mod 64) :: utf8_encode rest
  end.

(** [b.decode('utf-8')]. A lead byte from [0xE0] on starts a code point
    above 255, which the strings here do not hold. *)
Fixpoint utf8_decode (b : list byte) : Py.result string :=
  match b with
  | [] => Py.Ok EmptyString
  | b0 :: rest =>
    let n := Z_of_byte b0 in
    if n <? 128 then
      let! s := utf8_decode rest in
      Py.Ok (String (ascii_of_nat (Z.to_nat n)) s)
    else if (194 <=? n) && (n <? 224) then
      match rest with
      | b1 :: rest1 =>
        let m := Z_of_byte b1 in
        if (128 <=? m) && (m <? 192) then
          let cp := (n - 192) * 64 + (m - 128) in
          if cp <? 256 then
            let! s := utf8_decode rest1 in
            Py.Ok (String (ascii_of_nat (Z.to_nat cp)) s)
          else Py.Raise (Py.Unsupported "code point above 255")
        else Py.Raise Py.UnicodeDecodeError
      | [] => Py.Raise Py.UnicodeDecodeError
      end
    else if (224 <=? n) && (n <? 245) then
      Py.Raise (Py.Unsupported "code point above 255")
    else Py.Raise Py.UnicodeDecodeError
  end.

(** *** The values [json] keeps, and the fuel of the scanner *)

(** What may follow a value in the text that [dumps] writes: nothing, a
    comma, or the bracket or brace that closes the container. *)
Definition closes (tail : string) : Prop :=
  match tail with
  | EmptyString => True
  | String c _ => c = ","%char \/ c = "]"%char \/ c = "}"%char
  end.

(** The values that [json] gives back as they are: no tuple anywhere, and
    no key twice in a dictionary. *)
Fixpoint json_native (v : pyval) : bool :=
  match v with
  | PyNone | PyBool _ | PyInt _ | PyStr _ => true
  | PyList items => forallb json_native items
  | PyTuple _ => false
  | PyDict entries =>
    bool_decide (NoDup (map fst entries))
    && forallb (fun kv => json_native (snd kv)) entries
  end.

(** A bound on the depth of calls that the scanner needs for a value. *)
Fixpoint weight (v : pyval) : nat :=
  match v with
  | PyList items | PyTuple items =>
    S (fold_right (fun x acc => S (weight x) + acc)%nat 0%nat items)
  | PyDict entries =>
    S (fold_right (fun kv acc => S (weight (snd kv)) + acc)%nat 0%nat entries)
  | _ => 1%nat
  end.

Definition items_weight (items : list pyval) : nat :=
  fold_right (fun x acc => S (weight x) + acc)%nat 0%nat items.

Definition entries_weight (entries : list (string * pyval)) : nat :=
  fold_right (fun kv acc => S (weight (snd kv)) + acc)%nat 0%nat entries.

(** The text of one entry of a dictionary. *)
Definition entry_text (kv : string * pyval) : string :=
  quote false (fst kv) +:+ ":" +:+ dumps false (snd kv).

(** A text that starts a value: its first character is neither blank nor
    a closing bracket or brace. *)
Definition starts_value (s : string) : Prop :=
  match s with
  | String c _ =>
    is_ws c = false /\ (nat_of_ascii c =? 93)%nat = false
    /\ (nat_of_ascii c =? 125)%nat = false
  | EmptyString => False
  end.

End json.

(** ** whisperlivekit/adaptive_buffer.py *)

Module adaptive_buffer.

(** Modelled from the spec: the token type [ASRToken] of
    [whisperlivekit.timed_objects], which is not among the sources. The
    fields are the ones the buffer reads; [probability] is optional, as the
    buffer's own [token.probability or 0.0] shows. Tokens compare by value
    (a dataclass). *)
Record ASRToken : Type := mkToken {
  start : Qc;
  end_ : Qc;
  text : string;
  probability : option Qc
}.

#[global] Instance ASRToken_eq_dec : EqDecision ASRToken.
Proof. solve_decision. Defined.

(** One entry of [CorrectionResult.corrections]. *)
Record correction_entry : Type := mkEntry {
  entry_type : string;
  entry_original : string;
  entry_corrected : string;
  entry_context : string
}.

Record CorrectionResult : Type := mkCorrection {
  original_text : string;
  corrected_text : string;
  confidence : Qc;
  corrections : list correction_entry;
  timestamp : Qc
}.

(** The fields of [AdaptiveBuffer] that the synchronous methods use; the
    asyncio task handle and the delivery callback are left out. *)
Record AdaptiveBuffer : Type := mkBuffer {
  max_context_tokens : Z;
  correction_interval : Qc;
  confidence_threshold : Qc;
  instant_buffer : list ASRToken;
  context_buffer : list ASRToken;
  correction_queue : list ASRToken;
  last_correction_time : Qc;
  total_corrections : Z;
  correction_history : list CorrectionResult
}.

(** [AdaptiveBuffer.__init__] *)
Definition init (max_context_tokens : Z) (correction_interval confidence_threshold : Qc)
  : AdaptiveBuffer :=
  {| max_context_tokens := max_context_tokens;
     correction_interval := correction_interval;
     confidence_threshold := confidence_threshold;
     instant_buffer := [];
     context_buffer := [];
     correction_queue := [];
     last_correction_time := 0%Qc;
     total_corrections := 0;
     correction_history := [] |}.

(** [add_tokens]: returns the new buffer and the tokens to show at once. *)
Definition add_tokens (self : AdaptiveBuffer) (tokens : list ASRToken)
  : AdaptiveBuffer * list ASRToken :=
  match tokens with
  | [] => (self, [])
  | _ =>
    let instant := instant_buffer self ++ tokens in
    let context := context_buffer self ++ tokens in
    let queue := correction_queue self ++ tokens in
    let context :=
      if max_context_tokens self <? Z.of_nat (length context)
      then Py.slice context (Some (- max_context_tokens self)) None
      else context in
    ({| max_context_tokens := max_context_tokens self;
        correction_interval := correction_interval self;
        confidence_threshold := confidence_threshold self;
        instant_buffer := instant;
        context_buffer := context;
        correction_queue := queue;
        last_correction_time := last_correction_time self;
        total_corrections := total_corrections self;
        correction_history := correction_history self |},
     tokens)
  end.

(** A run of [add_tokens] calls, one per list of [batches]. *)
Definition add_all (self : AdaptiveBuffer) (batches : list (list ASRToken))
  : AdaptiveBuffer :=
  fold_left (fun b tokens => fst (add_tokens b tokens)) batches self.

(** [next(i for i, t in enumerate(buffer) if t == token)];
    [None] stands for [StopIteration]. *)
Fixpoint first_index (buffer : list ASRToken) (token : ASRToken) : option Z :=
  match buffer with
  | [] => None
  | t :: rest =>
    if decide (t = token) then Some 0
    else (fun i => i + 1) <$> first_index rest token
  end.

(** [_get_context_for_token] *)
Definition _get_context_for_token (self : AdaptiveBuffer) (token : ASRToken) : string :=
  match first_index (context_buffer self) token with
  | None => EmptyString
  | Some token_index =>
    let context_start := Z.max 0 (token_index - 10) in
    let context_end := Z.min (Z.of_nat (length (context_buffer self))) (token_index + 10) in
    let context_tokens :=
      Py.slice (context_buffer self) (Some context_start) (Some context_end) in
    Py.join " " (map text context_tokens)
  end.

(** The guard at the head of the loop of [_correct_tokens]:
    [token.probability and token.probability < self.confidence_threshold]. *)
Definition skipped (self : AdaptiveBuffer) (token : ASRToken) : bool :=
  Py.truthy (probability token)
  && match probability token with
     | Some p => bool_decide (p < confidence_threshold self)%Qc
     | None => false
     end.

Section corrector.

(** [_correct_token_with_context], the corrector, is left open: the loop
    below is the same for every corrector. *)
Variable correct_token_with_context : ASRToken -> string -> string.

(** What one pass of [_correct_tokens] yields: the corrections, the calls
    made to the corrector (token and context, in order) and the counter. *)
Record pass : Type := mkPass {
  pass_corrections : list CorrectionResult;
  pass_calls : list (ASRToken * string);
  pass_total : Z
}.

(** The body of the loop of [_correct_tokens] for one token. *)
Definition correct_step (self : AdaptiveBuffer) (now : Qc) (acc : pass) (token : ASRToken)
  : pass :=
  if skipped self token then acc
  else
    let context := _get_context_for_token self token in
    let corrected := correct_token_with_context token context in
    let calls := pass_calls acc ++ [(token, context)] in
    if decide (corrected <> text token) then
      let correction :=
        {| original_text := text token;
           corrected_text := corrected;
           confidence := default 0%Qc (if Py.truthy (probability token)
                                       then probability token else None);
           corrections := [ {| entry_type := "context_correction";
                               entry_original := text token;
                               entry_corrected := corrected;
                               entry_context := context |} ];
           timestamp := now |} in
      {| pass_corrections := pass_corrections acc ++ [correction];
         pass_calls := calls;
         pass_total := pass_total acc + 1 |}
    else
      {| pass_corrections := pass_corrections acc;
         pass_calls := calls;
         pass_total := pass_total acc |}.

(** [_correct_tokens]; [now] is the clock reading of the pass. *)
Definition _correct_tokens (self : AdaptiveBuffer) (tokens : list ASRToken) (now : Qc)
  : pass :=
  fold_left (correct_step self now) tokens
    {| pass_corrections := []; pass_calls := []; pass_total := total_corrections self |}.

End corrector.

(** Tokens and a buffer for the examples. *)

Definition tok (s : string) (p : option Qc) : ASRToken :=
  {| start := 0%Qc; end_ := 1%Qc; text := s; probability := p |}.

Definition letters : list string :=
  ["a"; "b"; "c"; "d"; "e"; "f"; "g"; "h"; "i"; "j"; "k"; "l"; "m";
   "n"; "o"; "p"; "q"; "r"; "s"; "t"; "u"; "v"; "w"; "x"; "y"].

(** A buffer with the default threshold 0.7 whose context holds 25 tokens
    of confidence 0.9, followed by one token of confidence 0. *)
Definition sample_buffer : AdaptiveBuffer :=
  fst (add_tokens (init 100 (Q2Qc (1 # 2)) (Q2Qc (7 # 10)))
         (map (fun s => tok s (Some (Q2Qc (9 # 10)))) letters
          ++ [tok "z" (Some 0%Qc)])).

End adaptive_buffer.

(** ** whisperlivekit/performance/memory.py *)

Module memory.

(** [np.zeros(n)]; samples are opaque to the buffer and are integers here. *)
Definition zeros (n : Z) : Py.result (list Z) :=
  if n <? 0 then Py.Raise (Py.ValueError "negative dimensions are not allowed")
  else Py.Ok (repeat 0 (Z.to_nat n)).

(** [target[start:stop] = src] on a one-dimensional array: the lengths must
    agree, except that a source of one element is spread over the slice. *)
Definition assign (target : list Z) (start stop : option Z) (src : list Z)
  : Py.result (list Z) :=
  let len := Z.of_nat (length target) in
  let a := from_option (Py.slice_bound len) 0 start in
  let b := from_option (Py.slice_bound len) len stop in
  let n := Z.to_nat (b - a) in
  let put new := take (Z.to_nat a) target ++ new ++ drop (Z.to_nat a + n) target in
  if decide (length src = n) then Py.Ok (put src)
  else match src with
       | [x] => Py.Ok (put (repeat x n))
       | _ => Py.Raise (Py.ValueError "could not broadcast input array")
       end.

Record CircularAudioBuffer : Type := mkBuffer {
  max_capacity : Z;
  _lock : bool;          (* [True] while some [with self._lock] block runs *)
  _buffer : list Z;
  _capacity : Z;
  _size : Z;
  _head : Z;
  _tail : Z;
  _total_writes : Z;
  _total_reads : Z;
  _resize_count : Z
}.

(** [CircularAudioBuffer.__init__] *)
Definition init (initial_capacity max_capacity : Z) : Py.result CircularAudioBuffer :=
  let! buffer := zeros initial_capacity in
  Py.Ok {| max_capacity := max_capacity;
           _lock := false;
           _buffer := buffer;
           _capacity := initial_capacity;
           _size := 0;
           _head := 0;
           _tail := 0;
           _total_writes := 0;
           _total_reads := 0;
           _resize_count := 0 |}.

Definition set_lock (self : CircularAudioBuffer) (held : bool) : CircularAudioBuffer :=
  {| max_capacity := max_capacity self;
     _lock := held;
     _buffer := _buffer self;
     _capacity := _capacity self;
     _size := _size self;
     _head := _head self;
     _tail := _tail self;
     _total_writes := _total_writes self;
     _total_reads := _total_reads self;
     _resize_count := _resize_count self |}.

(** [with self._lock: body]. The lock is a [threading.Lock], which is not
    reentrant: taking it while it is held never returns. The lock is let go
    when the body returns or raises. The body yields the object and a value. *)
Definition with_lock {A} (self : CircularAudioBuffer)
    (body : CircularAudioBuffer -> Py.result (CircularAudioBuffer * A))
  : CircularAudioBuffer * Py.result A :=
  if _lock self then (self, Py.Hang)
  else
    match body (set_lock self true) with
    | Py.Ok (self', a) => (set_lock self' false, Py.Ok a)
    | Py.Raise e => (self, Py.Raise e)
    | Py.Hang => (set_lock self true, Py.Hang)
    end.

(** [read]: [None] when fewer than [size] samples are stored. *)
Definition read (self : CircularAudioBuffer) (size : Z)
  : CircularAudioBuffer * Py.result (option (list Z)) :=
  with_lock self (fun self =>
    if _size self <? size then Py.Ok (self, None)
    else
      let! result := zeros size in
      let! result :=
        if _head self + size <=? _capacity self then
          assign result None None
            (Py.slice (_buffer self) (Some (_head self)) (Some (_head self + size)))
        else
          let first_part := _capacity self - _head self in
          let! result := assign result None (Some first_part)
                           (Py.slice (_buffer self) (Some (_head self)) None) in
          assign result (Some first_part) None
            (Py.slice (_buffer self) None (Some (size - first_part))) in
      Py.Ok ({| max_capacity := max_capacity self;
                _lock := _lock self;
                _buffer := _buffer self;
                _capacity := _capacity self;
                _size := _size self;
                _head := _head self;
                _tail := _tail self;
                _total_writes := _total_writes self;
                _total_reads := _total_reads self + 1;
                _resize_count := _resize_count self |},
             Some result)).

(** [2 ** int(np.ceil(np.log2(n)))], with the logarithm taken exactly.
    [np.log2] of zero is minus infinity and of a negative number is NaN;
    [int] raises on both. *)
Definition round_up_power_of_two (n : Z) : Py.result Z :=
  if n =? 0 then Py.Raise Py.OverflowError
  else if n <? 0 then Py.Raise (Py.ValueError "cannot convert float NaN to integer")
  else Py.Ok (2 ^ Z.log2_up n).

(** [_resize]; its callers hold the lock. *)
Definition _resize (self : CircularAudioBuffer) (new_capacity : Z)
  : Py.result (CircularAudioBuffer * bool) :=
  if max_capacity self <? new_capacity then Py.Ok (self, false)
  else
    let! new_capacity := round_up_power_of_two new_capacity in
    if new_capacity =? _capacity self then Py.Ok (self, true)
    else
      let! new_buffer := zeros new_capacity in
      let! '(self, new_buffer) :=
        if 0 <? _size self then
          match read self (_size self) with
          | (self, Py.Ok (Some data)) =>
            let! new_buffer := assign new_buffer None (Some (_size self)) data in
            Py.Ok (self, new_buffer)
          | (self, Py.Ok None) => Py.Ok (self, new_buffer)
          | (_, Py.Raise e) => Py.Raise e
          | (_, Py.Hang) => Py.Hang
          end
        else Py.Ok (self, new_buffer) in
      Py.Ok ({| max_capacity := max_capacity self;
                _lock := _lock self;
                _buffer := new_buffer;
                _capacity := new_capacity;
                _size := _size self;
                _head := 0;
                _tail := _size self;
                _total_writes := _total_writes self;
                _total_reads := _total_reads self;
                _resize_count := _resize_count self + 1 |},
             true).

(** [append] *)
Definition append (self : CircularAudioBuffer) (data : list Z)
  : CircularAudioBuffer * Py.result bool :=
  with_lock self (fun self =>
    let data_size := Z.of_nat (length data) in
    let! '(self, resized) :=
      if _capacity self <? _size self + data_size
      then _resize self (_size self + data_size)
      else Py.Ok (self, true) in
    if negb resized then Py.Ok (self, false)
    else
      let! buffer :=
        if _tail self + data_size <=? _capacity self then
          assign (_buffer self) (Some (_tail self)) (Some (_tail self + data_size)) data
        else
          let first_part := _capacity self - _tail self in
          let! buffer := assign (_buffer self) (Some (_tail self)) None
                           (Py.slice data None (Some first_part)) in
          assign buffer None (Some (data_size - first_part))
            (Py.slice data (Some first_part) None) in
      if _capacity self =? 0 then Py.Raise Py.ZeroDivisionError
      else
        Py.Ok ({| max_capacity := max_capacity self;
                  _lock := _lock self;
                  _buffer := buffer;
                  _capacity := _capacity self;
                  _size := _size self + data_size;
                  _head := _head self;
                  _tail := (_tail self + data_size) mod _capacity self;
                  _total_writes := _total_writes self + 1;
                  _total_reads := _total_reads self;
                  _resize_count := _resize_count self |},
               true)).

(** *** CircularAudioBuffer: taking samples out *)

(** [consume] *)
Definition consume (self : CircularAudioBuffer) (size : Z)
  : CircularAudioBuffer * Py.result (option (list Z)) :=
  with_lock self (fun self =>
    match read self size with
    | (self, Py.Ok None) => Py.Ok (self, None)
    | (self, Py.Ok (Some result)) =>
      if _capacity self =? 0 then Py.Raise Py.ZeroDivisionError
      else
        let self :=
          {| max_capacity := max_capacity self;
             _lock := _lock self;
             _buffer := _buffer self;
             _capacity := _capacity self;
             _size := _size self - size;
             _head := (_head self + size) mod _capacity self;
             _tail := _tail self;
             _total_writes := _total_writes self;
             _total_reads := _total_reads self;
             _resize_count := _resize_count self |} in
        if (_size self <? _capacity self / 4) && (320000 <? _capacity self) then
          let! '(self, _) := _resize self (Z.max 320000 (_size self * 2)) in
          Py.Ok (self, Some result)
        else Py.Ok (self, Some result)
    | (_, Py.Raise e) => Py.Raise e
    | (_, Py.Hang) => Py.Hang
    end).

(** [peek] *)
Definition peek (self : CircularAudioBuffer) (size offset : Z)
  : CircularAudioBuffer * Py.result (option (list Z)) :=
  with_lock self (fun self =>
    if _size self <? offset + size then Py.Ok (self, None)
    else if _capacity self =? 0 then Py.Raise Py.ZeroDivisionError
    else
      let start_pos := (_head self + offset) mod _capacity self in
      let! result := zeros size in
      let! result :=
        if start_pos + size <=? _capacity self then
          assign result None None
            (Py.slice (_buffer self) (Some start_pos) (Some (start_pos + size)))
        else
          let first_part := _capacity self - start_pos in
          let! result := assign result None (Some first_part)
                           (Py.slice (_buffer self) (Some start_pos) None) in
          assign result (Some first_part) None
            (Py.slice (_buffer self) None (Some (size - first_part))) in
      Py.Ok (self, Some result)).

(** [clear] *)
Definition clear (self : CircularAudioBuffer) : CircularAudioBuffer * Py.result unit :=
  with_lock self (fun self =>
    Py.Ok ({| max_capacity := max_capacity self;
              _lock := _lock self;
              _buffer := _buffer self;
              _capacity := _capacity self;
              _size := 0;
              _head := 0;
              _tail := 0;
              _total_writes := _total_writes self;
              _total_reads := _total_reads self;
              _resize_count := _resize_count self |}, tt)).

(** The properties [size], [capacity] and [available_space]. *)
Definition size (self : CircularAudioBuffer) : Z := _size self.

Definition capacity (self : CircularAudioBuffer) : Z := _capacity self.

Definition available_space (self : CircularAudioBuffer) : Z := _capacity self - _size self.

(** The samples that the buffer holds, the oldest first: [_size] places
    of the ring from [_head] on. *)
Definition contents (self : CircularAudioBuffer) : list Z :=
  take (Z.to_nat (_size self)) (drop (Z.to_nat (_head self)) (_buffer self ++ _buffer self)).

(** The shape that the methods keep: the ring is as long as the capacity
    says, head and size are within it, the tail is where the stored
    samples end, and nobody holds the lock. *)
Definition ring (self : CircularAudioBuffer) : Prop :=
  _lock self = false
  /\ 0 < _capacity self
  /\ Z.of_nat (length (_buffer self)) = _capacity self
  /\ 0 <= _head self < _capacity self
  /\ 0 <= _size self <= _capacity self
  /\ _tail self = (_head self + _size self) mod _capacity self.

(** A ring of eight places that holds [1; 2; 3] across the wrap. *)
Definition wrapped_ring : CircularAudioBuffer :=
  {| max_capacity := 16;
     _lock := false;
     _buffer := [3; 0; 0; 0; 0; 0; 1; 2];
     _capacity := 8;
     _size := 3;
     _head := 6;
     _tail := 1;
     _total_writes := 0;
     _total_reads := 0;
     _resize_count := 0 |}.

(** Chunks appended one after the other; the answers of the calls are
    collected, and the run stops at a call that does not return. *)
Fixpoint append_all (self : CircularAudioBuffer) (chunks : list (list Z))
  : CircularAudioBuffer * Py.result (list bool) :=
  match chunks with
  | [] => (self, Py.Ok [])
  | data :: chunks =>
    match append self data with
    | (self, Py.Ok r) =>
      match append_all self chunks with
      | (self, Py.Ok rs) => (self, Py.Ok (r :: rs))
      | other => other
      end
    | (self, Py.Raise e) => (self, Py.Raise e)
    | (self, Py.Hang) => (self, Py.Hang)
    end
  end.

(** *** MemoryPool *)

Record MemoryPool : Type := mkMemoryPool {
  pool_sizes : list Z;
  max_arrays_per_size : Z;
  _pools : gmap Z (list (list Z));
  _allocations : Z;
  _hits : Z;
  _misses : Z
}.

(** The sizes that [__init__] takes when it is given none. *)
Definition default_pool_sizes : list Z := [160; 320; 480; 800; 1600; 8000; 16000; 32000].

(** The loop of [__init__] over the sizes: each gets a deque with [count]
    arrays of zeros. *)
Fixpoint fill_pools (sizes : list Z) (count : nat) (pools : gmap Z (list (list Z)))
  : Py.result (gmap Z (list (list Z))) :=
  match sizes with
  | [] => Py.Ok pools
  | size :: sizes =>
    let! arrays :=
      match count with
      | O => Py.Ok []
      | S _ => let! array := zeros size in Py.Ok (repeat array count)
      end in
    fill_pools sizes count (<[size := arrays]> pools)
  end.

(** [MemoryPool.__init__] *)
Definition memory_pool_init (pool_sizes : option (list Z)) (max_arrays_per_size : Z)
  : Py.result MemoryPool :=
  let pool_sizes := default default_pool_sizes pool_sizes in
  let! pools := fill_pools pool_sizes (Z.to_nat (Z.min 3 max_arrays_per_size)) ∅ in
  Py.Ok {| pool_sizes := merge_sort Z.le pool_sizes;
           max_arrays_per_size := max_arrays_per_size;
           _pools := pools;
           _allocations := 0;
           _hits := 0;
           _misses := 0 |}.

(** [get_array]. The array comes back with the pool also when [np.zeros]
    raises: the counters have moved by then. *)
Definition get_array (self : MemoryPool) (size : Z) : MemoryPool * Py.result (list Z) :=
  let miss :=
    ({| pool_sizes := pool_sizes self;
        max_arrays_per_size := max_arrays_per_size self;
        _pools := _pools self;
        _allocations := _allocations self + 1;
        _hits := _hits self;
        _misses := _misses self + 1 |},
     zeros size) in
  match List.find (fun ps => size <=? ps) (pool_sizes self) with
  | None => miss
  | Some pool_size =>
    match _pools self !! pool_size with
    | Some (array :: rest) =>
      let array := repeat 0 (length array) in
      ({| pool_sizes := pool_sizes self;
          max_arrays_per_size := max_arrays_per_size self;
          _pools := <[pool_size := rest]> (_pools self);
          _allocations := _allocations self + 1;
          _hits := _hits self + 1;
          _misses := _misses self |},
       Py.Ok (if size <? pool_size then Py.slice array None (Some size) else array))
    | _ => miss
    end
  end.

(** [return_array] *)
Definition return_array (self : MemoryPool) (array : list Z) : MemoryPool :=
  let size := Z.of_nat (length array) in
  match List.find (fun ps => ps =? size) (pool_sizes self) with
  | None => self
  | Some pool_size =>
    match _pools self !! pool_size with
    | Some pool =>
      if Z.of_nat (length pool) <? max_arrays_per_size self then
        {| pool_sizes := pool_sizes self;
           max_arrays_per_size := max_arrays_per_size self;
           _pools := <[pool_size := pool ++ [array]]> (_pools self);
           _allocations := _allocations self;
           _hits := _hits self;
           _misses := _misses self |}
      else self
    | None => self
    end
  end.

(** The pools that [get_array] and [return_array] make of a pool built
    by [__init__]. *)
Inductive memory_pool_reachable (sizes : option (list Z)) (limit : Z) : MemoryPool -> Prop :=
| memory_pool_reachable_init fresh :
    memory_pool_init sizes limit = Py.Ok fresh ->
    memory_pool_reachable sizes limit fresh
| memory_pool_reachable_get self size :
    memory_pool_reachable sizes limit self ->
    memory_pool_reachable sizes limit (fst (get_array self size))
| memory_pool_reachable_return self array :
    memory_pool_reachable sizes limit self ->
    memory_pool_reachable sizes limit (return_array self array).

(** What holds of a pool from [__init__] on: the arrays kept for a size
    have that size and are no more than [max_arrays_per_size], and every
    allocation was counted as a hit or as a miss. *)
Definition memory_pool_invariant (self : MemoryPool) : Prop :=
  (forall pool_size arrays, _pools self !! pool_size = Some arrays ->
     Z.of_nat (length arrays) <= Z.max 0 (max_arrays_per_size self)
     /\ forall array, array ∈ arrays -> Z.of_nat (length array) = pool_size)
  /\ _hits self + _misses self = _allocations self.

(** *** SmartCache *)

(** How a call of the cache ends: it returns, or it raises the
    [ValueError] of [deque.remove] for a key that is not in the deque, or
    the [TypeError] of [weakref.ref] for a value that cannot be referred to
    weakly. *)
Inductive ending : Type :=
| Returns
| RaisesValueError
| RaisesTypeError.

Section smart_cache.

(** The values that are cached. *)
Context {V : Type}.

(** Whether [weakref.ref] takes a value: it does for an array, and does
    not for a [str], an [int], a [list], a [dict] or a [tuple]. *)
Variable weakrefable : V -> bool.

(** [_estimate_size], which asks the value for its size. *)
Variable _estimate_size : V -> Qc.

(** [_weak_refs] is the set of its keys: the reference of a key is kept
    only while the cache holds the value, so that its callback never
    runs. *)
Record SmartCache : Type := mkCache {
  max_size : Z;
  max_memory_mb : Qc;
  cleanup_threshold : Qc;
  _cache : gmap string V;
  _access_order : list string;
  _memory_usage : Qc;
  _weak_refs : gset string
}.

(** [SmartCache.__init__] *)
Definition cache_init (max_size : Z) (max_memory_mb cleanup_threshold : Qc) : SmartCache :=
  {| max_size := max_size;
     max_memory_mb := max_memory_mb;
     cleanup_threshold := cleanup_threshold;
     _cache := ∅;
     _access_order := [];
     _memory_usage := 0%Qc;
     _weak_refs := ∅ |}.

Definition set_entries (self : SmartCache) (cache : gmap string V)
    (access_order : list string) (weak_refs : gset string) : SmartCache :=
  {| max_size := max_size self;
     max_memory_mb := max_memory_mb self;
     cleanup_threshold := cleanup_threshold self;
     _cache := cache;
     _access_order := access_order;
     _memory_usage := _memory_usage self;
     _weak_refs := weak_refs |}.

(** [d.remove(x)] on a deque: the first [x] goes; [None] stands for the
    [ValueError] of an [x] that is not there. *)
Fixpoint deque_remove (x : string) (d : list string) : option (list string) :=
  match d with
  | [] => None
  | y :: d => if decide (y = x) then Some d else cons y <$> deque_remove x d
  end.

(** [get] *)
Definition cache_get (self : SmartCache) (key : string)
  : SmartCache * Py.result (option V) :=
  match _cache self !! key with
  | Some value =>
    match deque_remove key (_access_order self) with
    | Some order =>
      (set_entries self (_cache self) (order ++ [key]) (_weak_refs self),
       Py.Ok (Some value))
    | None => (self, Py.Raise (Py.ValueError "deque.remove(x): x not in deque"))
    end
  | None => (self, Py.Ok None)
  end.

(** [remove]: the cache, how the call ends, and the value returned. *)
Definition cache_remove (self : SmartCache) (key : string)
  : SmartCache * ending * bool :=
  match _cache self !! key with
  | Some _ =>
    let cache := delete key (_cache self) in
    match deque_remove key (_access_order self) with
    | Some order =>
      (set_entries self cache order (_weak_refs self ∖ {[key]}), Returns, true)
    | None =>
      (set_entries self cache (_access_order self) (_weak_refs self),
       RaisesValueError, false)
    end
  | None => (self, Returns, false)
  end.

(** [_evict_oldest] *)
Definition _evict_oldest (self : SmartCache) : SmartCache * bool :=
  match _access_order self with
  | [] => (self, false)
  | oldest_key :: order =>
    match _cache self !! oldest_key with
    | Some _ =>
      (set_entries self (delete oldest_key (_cache self)) order
         (_weak_refs self ∖ {[oldest_key]}), true)
    | None => (set_entries self (_cache self) order (_weak_refs self), true)
    end
  end.

(** The loop of [put] that makes room: it runs while the cache is full or
    the new entry does not fit the memory allowed, and stops when there is
    no key left to evict. Each turn takes a key off [_access_order], so
    the keys that are left bound the number of turns. *)
Fixpoint make_room (self : SmartCache) (size_mb : Qc) (turns : nat) : SmartCache :=
  match turns with
  | O => self
  | S turns =>
    if (max_size self <=? Z.of_nat (base.size (_cache self)))
       || bool_decide (max_memory_mb self < _memory_usage self + size_mb)%Qc
    then
      let '(self, evicted) := _evict_oldest self in
      if evicted then make_room self size_mb turns else self
    else self
  end.

(** [put] *)
Definition cache_put (self : SmartCache) (key : string) (value : V) (size_mb : option Qc)
  : SmartCache * ending :=
  let size_mb := default (_estimate_size value) size_mb in
  let '(self, removed, _) :=
    match _cache self !! key with
    | Some _ => cache_remove self key
    | None => (self, Returns, false)
    end in
  match removed with
  | Returns =>
    let self := make_room self size_mb (S (length (_access_order self))) in
    let self :=
      {| max_size := max_size self;
         max_memory_mb := max_memory_mb self;
         cleanup_threshold := cleanup_threshold self;
         _cache := <[key := value]> (_cache self);
         _access_order := _access_order self ++ [key];
         _memory_usage := (_memory_usage self + size_mb)%Qc;
         _weak_refs := _weak_refs self |} in
    if weakrefable value
    then (set_entries self (_cache self) (_access_order self) ({[key]} ∪ _weak_refs self),
          Returns)
    else (self, RaisesTypeError)
  | other => (self, other)
  end.

(** [clear] *)
Definition cache_clear (self : SmartCache) : SmartCache :=
  {| max_size := max_size self;
     max_memory_mb := max_memory_mb self;
     cleanup_threshold := cleanup_threshold self;
     _cache := ∅;
     _access_order := [];
     _memory_usage := 0%Qc;
     _weak_refs := ∅ |}.

(** What the cache keeps between calls that return: [_access_order] lists
    the keys of [_cache], each once. *)
Definition cache_invariant (self : SmartCache) : Prop :=
  NoDup (_access_order self)
  /\ forall key, key ∈ _access_order self <-> is_Some (_cache self !! key).

End smart_cache.

Arguments SmartCache V : clear implicits.

(** A cache of arrays for the examples: room for two entries and one
    megabyte, every entry counted as half a megabyte when no size is
    given. *)
Definition cache_of (entries : list (string * list Z)) : SmartCache (list Z) :=
  foldl (fun cache entry =>
           fst (cache_put (fun _ => true) (fun _ => Q2Qc (1 # 2)) cache
                  (fst entry) (snd entry) None))
    (cache_init 2 1%Qc (Q2Qc (8 # 10))) entries.

End memory.

(** ** whisperlivekit/performance/connection.py *)

Module connection.

Inductive ConnectionState : Type :=
| CONNECTING | CONNECTED | PROCESSING | IDLE | DISCONNECTING | DISCONNECTED | ERROR.

Record ConnectionInfo : Type := mkInfo {
  connection_id : string;
  state : ConnectionState;
  created_at : Qc;
  last_activity : Qc;
  bytes_processed : Z;
  messages_processed : Z;
  error_count : Z;
  client_ip : option string;
  user_agent : option string
}.

(** *** PriorityQueue *)

Section priority_queue.

Context {A : Type}.

Record PriorityQueue : Type := mkQueue {
  max_size : Z;
  priority_levels : Z;
  _queues : list (list A);
  _sizes : list Z;
  _total_size : Z;
  _enqueued : Z;
  _dequeued : Z;
  _dropped : Z
}.

(** [PriorityQueue.__init__]: one deque and one counter per level. *)
Definition queue_init (max_size priority_levels : Z) : PriorityQueue :=
  {| max_size := max_size;
     priority_levels := priority_levels;
     _queues := repeat [] (Z.to_nat priority_levels);
     _sizes := repeat 0 (Z.to_nat priority_levels);
     _total_size := 0;
     _enqueued := 0;
     _dequeued := 0;
     _dropped := 0 |}.

(** The position that the index [i] names in a list of length [len]:
    a negative index counts from the end, and an index outside the list
    raises [IndexError]. *)
Definition index (len : nat) (i : Z) : Py.result nat :=
  let j := if i <? 0 then i + Z.of_nat len else i in
  if (0 <=? j) && (j <? Z.of_nat len) then Py.Ok (Z.to_nat j)
  else Py.Raise Py.IndexError.

(** How [await self._not_full.wait()] ends: the coroutine is woken and
    finds the queue as the other coroutines left it, or the time allowed
    runs out, or nobody ever wakes it. *)
Inductive waited : Type :=
| Notified (now : PriorityQueue)
| TimedOut
| Never.

Definition drop_item (self : PriorityQueue) : PriorityQueue :=
  {| max_size := max_size self;
     priority_levels := priority_levels self;
     _queues := _queues self;
     _sizes := _sizes self;
     _total_size := _total_size self;
     _enqueued := _enqueued self;
     _dequeued := _dequeued self;
     _dropped := _dropped self + 1 |}.

(** [put]; [timeout] is [None] or the seconds to wait, and [wait] tells how
    the wait for room ends if the queue is full. *)
Definition put (self : PriorityQueue) (item : A) (priority : Z)
    (timeout : option Qc) (wait : waited) : Py.result (PriorityQueue * bool) :=
  let priority :=
    if (priority <? 0) || (priority_levels self <=? priority)
    then priority_levels self - 1 else priority in
  let after_wait : Py.result (PriorityQueue + PriorityQueue) :=
    (* [inl]: go on with this queue; [inr]: return [False] with this queue *)
    if max_size self <=? _total_size self then
      match timeout, wait with
      | _, Notified now => Py.Ok (inl now)
      | None, _ => Py.Hang
      | Some _, _ => Py.Ok (inr (drop_item self))
      end
    else Py.Ok (inl self) in
  let! w := after_wait in
  match w with
  | inr self => Py.Ok (self, false)
  | inl self =>
    if max_size self <=? _total_size self then Py.Ok (drop_item self, false)
    else
      let! q := index (length (_queues self)) priority in
      let queues := alter (fun d => d ++ [item]) q (_queues self) in
      let! s := index (length (_sizes self)) priority in
      let sizes := alter (fun n => n + 1) s (_sizes self) in
      Py.Ok ({| max_size := max_size self;
                priority_levels := priority_levels self;
                _queues := queues;
                _sizes := sizes;
                _total_size := _total_size self + 1;
                _enqueued := _enqueued self + 1;
                _dequeued := _dequeued self;
                _dropped := _dropped self |},
             true)
  end.

(** What [__init__] sets up and [put] keeps: at least one level, and one
    deque and one counter per level. *)
Definition well_formed (self : PriorityQueue) : Prop :=
  0 < priority_levels self
  /\ Z.of_nat (length (_queues self)) = priority_levels self
  /\ Z.of_nat (length (_sizes self)) = priority_levels self.

End priority_queue.

Arguments PriorityQueue A : clear implicits.
Arguments waited A : clear implicits.

(** *** ConnectionPool *)

Record ConnectionPool : Type := mkPool {
  max_connections : Z;
  max_concurrent_per_connection : Z;
  connection_timeout : Qc;
  cleanup_interval : Qc;
  _connections : gmap string ConnectionInfo;
  _connection_loads : gmap string Z;
  _running : bool;
  _total_connections : Z;
  _peak_connections : Z;
  _rejected_connections : Z
}.

(** [ConnectionPool.__init__] *)
Definition pool_init (max_connections max_concurrent_per_connection : Z)
    (connection_timeout cleanup_interval : Qc) : ConnectionPool :=
  {| max_connections := max_connections;
     max_concurrent_per_connection := max_concurrent_per_connection;
     connection_timeout := connection_timeout;
     cleanup_interval := cleanup_interval;
     _connections := ∅;
     _connection_loads := ∅;
     _running := false;
     _total_connections := 0;
     _peak_connections := 0;
     _rejected_connections := 0 |}.

Definition connection_count (self : ConnectionPool) : Z :=
  Z.of_nat (size (_connections self)).

(** [add_connection]. [uuid] is the value [uuid.uuid4()] would give, and
    [now] the reading of the clock for the two time stamps of the record.
    The body runs under the pool's asyncio lock without waiting inside. *)
Definition add_connection (self : ConnectionPool)
    (connection_id client_ip user_agent : option string)
    (uuid : string) (now : Qc) : ConnectionPool * option string :=
  if max_connections self <=? connection_count self then
    ({| max_connections := max_connections self;
        max_concurrent_per_connection := max_concurrent_per_connection self;
        connection_timeout := connection_timeout self;
        cleanup_interval := cleanup_interval self;
        _connections := _connections self;
        _connection_loads := _connection_loads self;
        _running := _running self;
        _total_connections := _total_connections self;
        _peak_connections := _peak_connections self;
        _rejected_connections := _rejected_connections self + 1 |},
     None)
  else
    let connection_id := default uuid connection_id in
    let conn_info :=
      {| connection_id := connection_id;
         state := CONNECTED;
         created_at := now;
         last_activity := now;
         bytes_processed := 0;
         messages_processed := 0;
         error_count := 0;
         client_ip := client_ip;
         user_agent := user_agent |} in
    let connections := <[connection_id := conn_info]> (_connections self) in
    let current_count := Z.of_nat (size connections) in
    ({| max_connections := max_connections self;
        max_concurrent_per_connection := max_concurrent_per_connection self;
        connection_timeout := connection_timeout self;
        cleanup_interval := cleanup_interval self;
        _connections := connections;
        _connection_loads := <[connection_id := 0]> (_connection_loads self);
        _running := _running self;
        _total_connections := _total_connections self + 1;
        _peak_connections :=
          if _peak_connections self <? current_count
          then current_count else _peak_connections self;
        _rejected_connections := _rejected_connections self |},
     Some connection_id).

(** [remove_connection] *)
Definition remove_connection (self : ConnectionPool) (connection_id : string)
  : ConnectionPool :=
  match _connections self !! connection_id with
  | Some _ =>
    {| max_connections := max_connections self;
       max_concurrent_per_connection := max_concurrent_per_connection self;
       connection_timeout := connection_timeout self;
       cleanup_interval := cleanup_interval self;
       _connections := delete connection_id (_connections self);
       _connection_loads := delete connection_id (_connection_loads self);
       _running := _running self;
       _total_connections := _total_connections self;
       _peak_connections := _peak_connections self;
       _rejected_connections := _rejected_connections self |}
  | None => self
  end.

(** Ids given one after the other to [add_connection]. *)
Fixpoint add_connections (self : ConnectionPool) (ids : list string) (now : Qc)
  : ConnectionPool * list (option string) :=
  match ids with
  | [] => (self, [])
  | id :: ids =>
    let '(self, r) := add_connection self (Some id) None None id now in
    let '(self, rs) := add_connections self ids now in
    (self, r :: rs)
  end.

Definition two_slot_pool : ConnectionPool :=
  fst (add_connections (pool_init 2 10 (Qc_of_Z 300) (Qc_of_Z 60)) ["a"; "b"] 0%Qc).

(** *** RateLimiter *)

Record bucket : Type := mkBucket {
  tokens : Qc;
  last_refill : Qc
}.

Record RateLimiter : Type := mkLimiter {
  requests_per_second : Qc;
  burst_size : Z;
  per_connection : bool;
  _buckets : gmap string bucket
}.

(** [RateLimiter.__init__] *)
Definition limiter_init (requests_per_second : Qc) (burst_size : Z) (per_connection : bool)
  : RateLimiter :=
  {| requests_per_second := requests_per_second;
     burst_size := burst_size;
     per_connection := per_connection;
     _buckets := ∅ |}.

Abbreviation Qc_of_Z := Py.Qc_of_Z.

(** [min(a, b)] of Python: the first of the two unless the second is less. *)
Definition py_min (a b : Qc) : Qc := if bool_decide (b < a)%Qc then b else a.

(** [is_allowed]. [now] is the reading of the clock in the body; a bucket
    that does not exist yet is made by the [defaultdict] with the reading
    [made] of the clock. *)
Definition is_allowed (self : RateLimiter) (connection_id : string) (made now : Qc)
  : RateLimiter * bool :=
  let connection_id := if per_connection self then connection_id else "global" in
  let b := default {| tokens := Qc_of_Z (burst_size self); last_refill := made |}
             (_buckets self !! connection_id) in
  let elapsed := (now - last_refill b)%Qc in
  let tokens_to_add := (elapsed * requests_per_second self)%Qc in
  let tokens := py_min (Qc_of_Z (burst_size self)) (tokens b + tokens_to_add)%Qc in
  let allowed := bool_decide (1 <= tokens)%Qc in
  let tokens := if allowed then (tokens - 1)%Qc else tokens in
  ({| requests_per_second := requests_per_second self;
      burst_size := burst_size self;
      per_connection := per_connection self;
      _buckets := <[connection_id := {| tokens := tokens; last_refill := now |}]>
                    (_buckets self) |},
   allowed).

(** A run of checks for one key; the clock readings within one check are
    taken to be the same instant. *)
Fixpoint checks (self : RateLimiter) (connection_id : string) (times : list Qc)
  : RateLimiter * list bool :=
  match times with
  | [] => (self, [])
  | t :: times =>
    let '(self, a) := is_allowed self connection_id t t in
    let '(self, rest) := checks self connection_id times in
    (self, a :: rest)
  end.

(** The key of the bucket that a check uses. *)
Definition key_of (self : RateLimiter) (connection_id : string) : string :=
  if per_connection self then connection_id else "global".

Definition with_bucket (self : RateLimiter) (key : string) (b : bucket) : RateLimiter :=
  {| requests_per_second := requests_per_second self;
     burst_size := burst_size self;
     per_connection := per_connection self;
     _buckets := <[key := b]> (_buckets self) |}.

(** The bucket of [connection_id] holds [k] whole tokens, last refilled
    at [t]; a missing bucket counts as a full one made at [t]. *)
Definition holds (self : RateLimiter) (connection_id : string) (k : Z) (t : Qc) : Prop :=
  default {| tokens := Qc_of_Z (burst_size self); last_refill := t |}
    (_buckets self !! key_of self connection_id)
  = {| tokens := Qc_of_Z k; last_refill := t |}.

(** *** PriorityQueue: taking items out *)

Section priority_queue_get.

Context {A : Type}.

(** The loop at the head of [get]. [waits] tells how the successive waits
    for an item end; when the list is used up nobody wakes the coroutine
    any more. The flag tells whether [get] goes on to take an item, or
    returns [None] because the time allowed ran out. *)
Fixpoint get_wait (self : PriorityQueue A) (timeout : option Qc) (waits : list (waited A))
  : Py.result (PriorityQueue A * bool) :=
  if _total_size self =? 0 then
    match waits, timeout with
    | Notified now :: waits, _ => get_wait now timeout waits
    | _, None => Py.Hang
    | _, Some _ => Py.Ok (self, false)
    end
  else Py.Ok (self, true).

(** The [for priority in range(self.priority_levels)] loop of [get] over the
    levels that are left. *)
Fixpoint get_scan (self : PriorityQueue A) (levels : list Z)
  : Py.result (PriorityQueue A * option A) :=
  match levels with
  | [] => Py.Ok (self, None)
  | priority :: levels =>
    let! s := index (length (_sizes self)) priority in
    if 0 <? default 0 (_sizes self !! s) then
      let! q := index (length (_queues self)) priority in
      match default [] (_queues self !! q) with
      | [] => Py.Raise Py.IndexError
      | item :: rest =>
        Py.Ok ({| max_size := max_size self;
                  priority_levels := priority_levels self;
                  _queues := <[q := rest]> (_queues self);
                  _sizes := alter (fun n => n - 1) s (_sizes self);
                  _total_size := _total_size self - 1;
                  _enqueued := _enqueued self;
                  _dequeued := _dequeued self + 1;
                  _dropped := _dropped self |},
               Some item)
      end
    else get_scan self levels
  end.

(** [get] *)
Definition get (self : PriorityQueue A) (timeout : option Qc) (waits : list (waited A))
  : Py.result (PriorityQueue A * option A) :=
  let! '(self, go) := get_wait self timeout waits in
  if go : bool then get_scan self (seqZ 0 (priority_levels self))
  else Py.Ok (self, None).

(** [qsize] *)
Definition qsize (self : PriorityQueue A) : Z := _total_size self.

(** Items put one after the other by calls that do not wait: each comes
    with its priority, and the answers of the calls are collected. *)
Fixpoint put_all (self : PriorityQueue A) (items : list (A * Z))
  : Py.result (PriorityQueue A * list bool) :=
  match items with
  | [] => Py.Ok (self, [])
  | (item, priority) :: items =>
    let! '(self, r) := put self item priority (Some 0%Qc) TimedOut in
    let! '(self, rs) := put_all self items in
    Py.Ok (self, r :: rs)
  end.

(** [n] calls of [get] that do not wait, with their answers. *)
Fixpoint get_all (self : PriorityQueue A) (n : nat)
  : Py.result (PriorityQueue A * list (option A)) :=
  match n with
  | O => Py.Ok (self, [])
  | S n =>
    let! '(self, r) := get self (Some 0%Qc) [] in
    let! '(self, rs) := get_all self n in
    Py.Ok (self, r :: rs)
  end.

(** The level at which [put] files an item of the given priority. *)
Definition level_of (levels priority : Z) : Z :=
  if (priority <? 0) || (levels <=? priority) then levels - 1 else priority.

(** What the counters of a queue say together: one deque and one counter
    per level, each counter the length of its deque, and [_total_size] the
    number of items in all the deques. *)
Definition consistent (self : PriorityQueue A) : Prop :=
  well_formed self
  /\ _sizes self = (fun d => Z.of_nat (length d)) <$> _queues self
  /\ _total_size self = Z.of_nat (length (concat (_queues self))).

(** What holds of a queue from [__init__] on: the counters agree with the
    deques, the queue holds no more than [max_size] items, and the items
    in it are the ones put in and not yet taken out. *)
Definition invariant (self : PriorityQueue A) : Prop :=
  consistent self
  /\ 0 <= _total_size self <= max_size self
  /\ _total_size self = _enqueued self - _dequeued self.

(** The queues that calls of [put] and [get] make of a queue built by
    [__init__]; what a waiting coroutine finds when it is woken is again
    such a queue. *)
Inductive reachable (max_size priority_levels : Z) : PriorityQueue A -> Prop :=
| reachable_init :
    reachable max_size priority_levels (queue_init max_size priority_levels)
| reachable_put self item priority timeout wait self' r :
    reachable max_size priority_levels self ->
    (forall now, wait = Notified now -> reachable max_size priority_levels now) ->
    put self item priority timeout wait = Py.Ok (self', r) ->
    reachable max_size priority_levels self'
| reachable_get self timeout waits self' r :
    reachable max_size priority_levels self ->
    (forall now, Notified now ∈ waits -> reachable max_size priority_levels now) ->
    get self timeout waits = Py.Ok (self', r) ->
    reachable max_size priority_levels self'.

(** The queue after [get] has taken the head of the deque of level [q],
    of which [rest] is left. *)
Definition after_get (self : PriorityQueue A) (q : nat) (rest : list A) : PriorityQueue A :=
  {| max_size := max_size self;
     priority_levels := priority_levels self;
     _queues := <[q := rest]> (_queues self);
     _sizes := alter (fun n => n - 1) q (_sizes self);
     _total_size := _total_size self - 1;
     _enqueued := _enqueued self;
     _dequeued := _dequeued self + 1;
     _dropped := _dropped self |}.

(** The queue after [put] has filed [item] at level [p]. *)
Definition after_put (self : PriorityQueue A) (p : nat) (item : A) : PriorityQueue A :=
  {| max_size := max_size self;
     priority_levels := priority_levels self;
     _queues := alter (fun d => d ++ [item]) p (_queues self);
     _sizes := alter (fun n => n + 1) p (_sizes self);
     _total_size := _total_size self + 1;
     _enqueued := _enqueued self + 1;
     _dequeued := _dequeued self;
     _dropped := _dropped self |}.

End priority_queue_get.

(** *** ConnectionPool: activity, slots and clean-up *)

Definition set_connections (self : ConnectionPool)
    (connections : gmap string ConnectionInfo) (loads : gmap string Z) : ConnectionPool :=
  {| max_connections := max_connections self;
     max_concurrent_per_connection := max_concurrent_per_connection self;
     connection_timeout := connection_timeout self;
     cleanup_interval := cleanup_interval self;
     _connections := connections;
     _connection_loads := loads;
     _running := _running self;
     _total_connections := _total_connections self;
     _peak_connections := _peak_connections self;
     _rejected_connections := _rejected_connections self |}.

(** [d[k]] on a [defaultdict(int)]: a key that is missing is entered with 0. *)
Definition loads_get (loads : gmap string Z) (k : string) : gmap string Z * Z :=
  match loads !! k with
  | Some v => (loads, v)
  | None => (<[k := 0]> loads, 0)
  end.

Definition set_state (conn : ConnectionInfo) (s : ConnectionState) : ConnectionInfo :=
  {| connection_id := connection_id conn;
     state := s;
     created_at := created_at conn;
     last_activity := last_activity conn;
     bytes_processed := bytes_processed conn;
     messages_processed := messages_processed conn;
     error_count := error_count conn;
     client_ip := client_ip conn;
     user_agent := user_agent conn |}.

#[global] Instance ConnectionState_eq_dec : EqDecision ConnectionState.
Proof. solve_decision. Defined.

(** [update_connection_activity]; [now] is the reading of the clock. *)
Definition update_connection_activity (self : ConnectionPool) (connection_id : string)
    (bytes_processed messages_processed : Z) (now : Qc) : ConnectionPool :=
  match _connections self !! connection_id with
  | Some conn =>
    let conn :=
      {| connection.connection_id := connection.connection_id conn;
         state := state conn;
         created_at := created_at conn;
         last_activity := now;
         connection.bytes_processed := connection.bytes_processed conn + bytes_processed;
         connection.messages_processed := connection.messages_processed conn + messages_processed;
         error_count := error_count conn;
         client_ip := client_ip conn;
         user_agent := user_agent conn |} in
    set_connections self (<[connection_id := conn]> (_connections self))
      (_connection_loads self)
  | None => self
  end.

(** [acquire_connection_slot] *)
Definition acquire_connection_slot (self : ConnectionPool) (connection_id : string)
  : ConnectionPool * bool :=
  match _connections self !! connection_id with
  | None => (self, false)
  | Some conn =>
    let '(loads, current_load) := loads_get (_connection_loads self) connection_id in
    if max_concurrent_per_connection self <=? current_load
    then (set_connections self (_connections self) loads, false)
    else (set_connections self
            (<[connection_id := set_state conn PROCESSING]> (_connections self))
            (<[connection_id := current_load + 1]> loads),
          true)
  end.

(** [release_connection_slot] *)
Definition release_connection_slot (self : ConnectionPool) (connection_id : string)
  : ConnectionPool :=
  match _connections self !! connection_id with
  | None => self
  | Some conn =>
    let '(loads, current_load) := loads_get (_connection_loads self) connection_id in
    let new_load := if 0 <? current_load then current_load - 1 else current_load in
    let loads := if 0 <? current_load then <[connection_id := new_load]> loads else loads in
    let connections :=
      if new_load =? 0
      then <[connection_id := set_state conn IDLE]> (_connections self)
      else _connections self in
    set_connections self connections loads
  end.

(** [min(values)] of a sequence that is not empty. *)
Definition py_min_list (first : Z) (rest : list Z) : Z := foldl Z.min first rest.

(** [get_least_loaded_connection]. The loop runs over [_connection_loads]
    in the order in which the [dict] holds its keys, the order of their
    insertion, which a finite map does not record: [order] is that order. *)
Definition get_least_loaded_connection (self : ConnectionPool) (order : list string)
  : Py.result (option string) :=
  if decide (_connections self = ∅) then Py.Ok None
  else
    let items :=
      omap (fun k => (fun load => (k, load)) <$> _connection_loads self !! k) order in
    match items with
    | [] => Py.Raise (Py.ValueError "min() arg is an empty sequence")
    | (_, first) :: rest =>
      let min_load := py_min_list first (snd <$> rest) in
      Py.Ok (fst <$>
             List.find (fun item =>
                     (snd item =? min_load)
                     && match _connections self !! fst item with
                        | Some conn_info =>
                          bool_decide (state conn_info = CONNECTED)
                          && (snd item <? max_concurrent_per_connection self)
                        | None => false
                        end) items)
    end.

(** The first loop of [_cleanup_inactive_connections] for one entry of
    [_connections]: the loads, which the look-up may extend, and the ids
    found inactive so far. *)
Definition inactive_step (self : ConnectionPool) (current_time : Qc)
    (acc : gmap string Z * list string) (conn_id : string) : gmap string Z * list string :=
  match _connections self !! conn_id with
  | None => acc
  | Some conn_info =>
    if bool_decide (connection_timeout self < current_time - last_activity conn_info)%Qc
    then
      let '(loads, load) := loads_get (fst acc) conn_id in
      if load =? 0 then (loads, snd acc ++ [conn_id]) else (loads, snd acc)
    else acc
  end.

(** [_cleanup_inactive_connections], run without another coroutine coming
    in between; [order] is the order in which [_connections] holds its
    keys and [current_time] the reading of the clock. *)
Definition _cleanup_inactive_connections (self : ConnectionPool) (order : list string)
    (current_time : Qc) : ConnectionPool :=
  let '(loads, inactive_connections) :=
    foldl (inactive_step self current_time) (_connection_loads self, []) order in
  foldl remove_connection (set_connections self (_connections self) loads)
    inactive_connections.

(** [get_connection_count] *)
Definition get_connection_count (self : ConnectionPool) : Z :=
  Z.of_nat (size (_connections self)).

(** The pools that the methods make of a pool built by [__init__]. *)
Inductive pool_reachable (limit per_connection : Z) (timeout interval : Qc)
  : ConnectionPool -> Prop :=
| pool_reachable_init :
    pool_reachable limit per_connection timeout interval
      (pool_init limit per_connection timeout interval)
| pool_reachable_add self connection_id client_ip user_agent uuid now :
    pool_reachable limit per_connection timeout interval self ->
    pool_reachable limit per_connection timeout interval
      (fst (add_connection self connection_id client_ip user_agent uuid now))
| pool_reachable_remove self connection_id :
    pool_reachable limit per_connection timeout interval self ->
    pool_reachable limit per_connection timeout interval
      (remove_connection self connection_id)
| pool_reachable_update self connection_id bytes messages now :
    pool_reachable limit per_connection timeout interval self ->
    pool_reachable limit per_connection timeout interval
      (update_connection_activity self connection_id bytes messages now)
| pool_reachable_acquire self connection_id :
    pool_reachable limit per_connection timeout interval self ->
    pool_reachable limit per_connection timeout interval
      (fst (acquire_connection_slot self connection_id))
| pool_reachable_release self connection_id :
    pool_reachable limit per_connection timeout interval self ->
    pool_reachable limit per_connection timeout interval
      (release_connection_slot self connection_id)
| pool_reachable_cleanup self order now :
    pool_reachable limit per_connection timeout interval self ->
    pool_reachable limit per_connection timeout interval
      (_cleanup_inactive_connections self order now).

(** The load that the pool records for a connection, 0 if none. *)
Definition load_of (self : ConnectionPool) (connection_id : string) : Z :=
  default 0 (_connection_loads self !! connection_id).

(** What holds of a pool from [__init__] on: a load is kept for the
    connections of the pool and for no others, the pool is within its
    limit, and so is every load. *)
Definition pool_invariant (self : ConnectionPool) : Prop :=
  (forall k, is_Some (_connections self !! k) <-> is_Some (_connection_loads self !! k))
  /\ connection_count self <= max_connections self
  /\ (forall k v, _connection_loads self !! k = Some v ->
        0 <= v <= max_concurrent_per_connection self).

(** *** RateLimiter: runs of checks *)

(** The readings of a clock that does not run backwards, from [t] on. *)
Fixpoint clock_runs (t : Qc) (times : list Qc) : Prop :=
  match times with
  | [] => True
  | t' :: times => (t <= t')%Qc /\ clock_runs t' times
  end.

(** The number of requests that a run of checks lets through. *)
Definition allowed_count (answers : list bool) : Z :=
  Z.of_nat (length (filter Is_true answers)).

(** The bucket of [connection_id], if it has been made, holds between no
    token and [burst_size] tokens and was last refilled at [t] or before. *)
Definition bucket_within (self : RateLimiter) (connection_id : string) (t : Qc) : Prop :=
  match _buckets self !! key_of self connection_id with
  | None => True
  | Some b =>
    (0 <= tokens b)%Qc /\ (tokens b <= Qc_of_Z (burst_size self))%Qc
    /\ (last_refill b <= t)%Qc
  end.

(** *** LoadBalancer *)

Record LoadBalancer : Type := mkBalancer {
  algorithm : string;
  _processors : list string;
  _processor_loads : gmap string Z;
  _processor_health : gmap string bool;
  _round_robin_index : Z
}.

(** [LoadBalancer.__init__] *)
Definition balancer_init (algorithm : string) : LoadBalancer :=
  {| algorithm := algorithm;
     _processors := [];
     _processor_loads := ∅;
     _processor_health := ∅;
     _round_robin_index := 0 |}.

(** [d[k]] on a [defaultdict(lambda: True)]: a key that is missing is
    entered with [True]. *)
Definition health_get (health : gmap string bool) (k : string) : gmap string bool * bool :=
  match health !! k with
  | Some h => (health, h)
  | None => (<[k := true]> health, true)
  end.

(** [add_processor] *)
Definition add_processor (self : LoadBalancer) (processor_id : string) : LoadBalancer :=
  if bool_decide (processor_id ∈ _processors self) then self
  else
    {| algorithm := algorithm self;
       _processors := _processors self ++ [processor_id];
       _processor_loads := <[processor_id := 0]> (_processor_loads self);
       _processor_health := <[processor_id := true]> (_processor_health self);
       _round_robin_index := _round_robin_index self |}.

(** [l.remove(x)] where [x] is in [l]: the first [x] goes. *)
Fixpoint list_remove (x : string) (l : list string) : list string :=
  match l with
  | [] => []
  | y :: l => if decide (y = x) then l else y :: list_remove x l
  end.

(** [remove_processor]. The flag is [false] when a [del] raises [KeyError],
    the balancer being then as the statements before it left it. *)
Definition remove_processor (self : LoadBalancer) (processor_id : string)
  : LoadBalancer * bool :=
  if bool_decide (processor_id ∈ _processors self) then
    let processors := list_remove processor_id (_processors self) in
    match _processor_loads self !! processor_id with
    | None =>
      ({| algorithm := algorithm self;
          _processors := processors;
          _processor_loads := _processor_loads self;
          _processor_health := _processor_health self;
          _round_robin_index := _round_robin_index self |}, false)
    | Some _ =>
      let loads := delete processor_id (_processor_loads self) in
      match _processor_health self !! processor_id with
      | None =>
        ({| algorithm := algorithm self;
            _processors := processors;
            _processor_loads := loads;
            _processor_health := _processor_health self;
            _round_robin_index := _round_robin_index self |}, false)
      | Some _ =>
        ({| algorithm := algorithm self;
            _processors := processors;
            _processor_loads := loads;
            _processor_health := delete processor_id (_processor_health self);
            _round_robin_index := _round_robin_index self |}, true)
      end
    end
  else (self, true).

(** [[p for p in self._processors if self._processor_health[p]]], with the
    health map as the look-ups leave it. *)
Fixpoint healthy_processors (health : gmap string bool) (processors : list string)
  : gmap string bool * list string :=
  match processors with
  | [] => (health, [])
  | p :: processors =>
    let '(health, h) := health_get health p in
    let '(health, rest) := healthy_processors health processors in
    (health, if h then p :: rest else rest)
  end.

(** [min(candidates, key=lambda p: self._processor_loads[p])] after the
    first candidate: the first of the least loaded, with the loads as the
    look-ups leave them. *)
Fixpoint min_by_load (loads : gmap string Z) (best : string) (best_load : Z)
    (candidates : list string) : gmap string Z * string :=
  match candidates with
  | [] => (loads, best)
  | p :: candidates =>
    let '(loads, load) := loads_get loads p in
    if load <? best_load then min_by_load loads p load candidates
    else min_by_load loads best best_load candidates
  end.

(** [get_next_processor] *)
Definition get_next_processor (self : LoadBalancer) : LoadBalancer * option string :=
  let '(health, healthy) := healthy_processors (_processor_health self) (_processors self) in
  match healthy with
  | [] =>
    ({| algorithm := algorithm self;
        _processors := _processors self;
        _processor_loads := _processor_loads self;
        _processor_health := health;
        _round_robin_index := _round_robin_index self |}, None)
  | first :: others =>
    let round_robin :=
      (_processor_loads self,
       default first
         (healthy !! Z.to_nat (_round_robin_index self `mod` Z.of_nat (length healthy))),
       _round_robin_index self + 1) in
    let '(loads, processor, index) :=
      if String.eqb (algorithm self) "round_robin" then round_robin
      else if String.eqb (algorithm self) "least_connections" then
        let '(loads, first_load) := loads_get (_processor_loads self) first in
        let '(loads, processor) := min_by_load loads first first_load others in
        (loads, processor, _round_robin_index self)
      else round_robin in
    let '(loads, load) := loads_get loads processor in
    ({| algorithm := algorithm self;
        _processors := _processors self;
        _processor_loads := <[processor := load + 1]> loads;
        _processor_health := health;
        _round_robin_index := index |}, Some processor)
  end.

(** [release_processor] *)
Definition release_processor (self : LoadBalancer) (processor_id : string) : LoadBalancer :=
  match _processor_loads self !! processor_id with
  | Some load =>
    if 0 <? load then
      {| algorithm := algorithm self;
         _processors := _processors self;
         _processor_loads := <[processor_id := load - 1]> (_processor_loads self);
         _processor_health := _processor_health self;
         _round_robin_index := _round_robin_index self |}
    else self
  | None => self
  end.

Definition set_health (self : LoadBalancer) (processor_id : string) (h : bool)
  : LoadBalancer :=
  {| algorithm := algorithm self;
     _processors := _processors self;
     _processor_loads := _processor_loads self;
     _processor_health := <[processor_id := h]> (_processor_health self);
     _round_robin_index := _round_robin_index self |}.

(** [mark_processor_unhealthy] *)
Definition mark_processor_unhealthy (self : LoadBalancer) (processor_id : string)
  : LoadBalancer := set_health self processor_id false.

(** [mark_processor_healthy] *)
Definition mark_processor_healthy (self : LoadBalancer) (processor_id : string)
  : LoadBalancer := set_health self processor_id true.

(** [n] calls of [get_next_processor] one after the other. *)
Fixpoint next_processors (self : LoadBalancer) (n : nat)
  : LoadBalancer * list (option string) :=
  match n with
  | O => (self, [])
  | S n =>
    let '(self, p) := get_next_processor self in
    let '(self, ps) := next_processors self n in
    (self, p :: ps)
  end.

(** Whether a processor counts as healthy, and the load recorded for it:
    what the two [defaultdict]s answer. *)
Definition is_healthy (self : LoadBalancer) (p : string) : bool :=
  default true (_processor_health self !! p).

Definition processor_load (self : LoadBalancer) (p : string) : Z :=
  default 0 (_processor_loads self !! p).

(** The processors in service: the ones of the list that count as healthy. *)
Definition in_service (self : LoadBalancer) : list string :=
  List.filter (is_healthy self) (_processors self).

(** The balancers that the methods make of one built by [__init__]. *)
Inductive balancer_reachable (algorithm : string) : LoadBalancer -> Prop :=
| balancer_reachable_init : balancer_reachable algorithm (balancer_init algorithm)
| balancer_reachable_add self p :
    balancer_reachable algorithm self ->
    balancer_reachable algorithm (add_processor self p)
| balancer_reachable_remove self p :
    balancer_reachable algorithm self ->
    balancer_reachable algorithm (fst (remove_processor self p))
| balancer_reachable_next self :
    balancer_reachable algorithm self ->
    balancer_reachable algorithm (fst (get_next_processor self))
| balancer_reachable_release self p :
    balancer_reachable algorithm self ->
    balancer_reachable algorithm (release_processor self p)
| balancer_reachable_unhealthy self p :
    balancer_reachable algorithm self ->
    balancer_reachable algorithm (mark_processor_unhealthy self p)
| balancer_reachable_healthy self p :
    balancer_reachable algorithm self ->
    balancer_reachable algorithm (mark_processor_healthy self p).

(** What holds of a balancer from [__init__] on: no processor is listed
    twice, a load and a state of health are recorded for every processor
    of the list, and no load is negative. *)
Definition balancer_invariant (self : LoadBalancer) : Prop :=
  NoDup (_processors self)
  /\ (forall p, p ∈ _processors self ->
        is_Some (_processor_loads self !! p) /\ is_Some (_processor_health self !! p))
  /\ (forall p, 0 <= processor_load self p).

(** A balancer for the examples: three processors, of which [b] has been
    marked unhealthy and [a] has been given one piece of work. *)
Definition sample_balancer (algorithm : string) : LoadBalancer :=
  fst (get_next_processor
         (mark_processor_unhealthy
            (add_processor (add_processor (add_processor (balancer_init algorithm) "a") "b") "c")
            "b")).

End connection.

(** ** whisperlivekit/performance/async_tasks.py *)

Module async_tasks.

Inductive TaskPriority : Type :=
| CRITICAL    (* 0, real-time audio processing *)
| HIGH        (* 1, user interactions *)
| NORMAL      (* 2, background processing *)
| LOW.        (* 3, cleanup, logging *)

#[global] Instance TaskPriority_eq_dec : EqDecision TaskPriority.
Proof. solve_decision. Defined.

(** The members of the enumeration, in the order of iteration. *)
Definition priorities : list TaskPriority := [CRITICAL; HIGH; NORMAL; LOW].

(** [TaskInfo]; the result and the error of a task are set by the workers
    and are left out. *)
Record TaskInfo : Type := mkTask {
  task_id : string;
  priority : TaskPriority;
  created_at : Qc;
  started_at : option Qc;
  completed_at : option Qc
}.

Section task_pool.

(** The coroutines handed to the pool. *)
Context {Coroutine : Type}.

(** [_pending_tasks] has one deque for each priority, from [__init__] on;
    it is a function of the priority here. *)
Record AsyncTaskPool : Type := mkPool {
  max_concurrent_tasks : Z;
  max_pending_tasks : Z;
  cleanup_interval : Qc;
  _pending_tasks : TaskPriority -> list (TaskInfo * Coroutine);
  _task_available : bool;
  _running : bool;
  _task_counter : Z;
  _total_submitted : Z;
  _total_completed : Z;
  _total_failed : Z;
  _total_cancelled : Z
}.

(** [AsyncTaskPool.__init__] *)
Definition init (max_concurrent_tasks max_pending_tasks : Z) (cleanup_interval : Qc)
  : AsyncTaskPool :=
  {| max_concurrent_tasks := max_concurrent_tasks;
     max_pending_tasks := max_pending_tasks;
     cleanup_interval := cleanup_interval;
     _pending_tasks := fun _ => [];
     _task_available := false;
     _running := false;
     _task_counter := 0;
     _total_submitted := 0;
     _total_completed := 0;
     _total_failed := 0;
     _total_cancelled := 0 |}.

(** [sum(len(q) for q in self._pending_tasks.values())] *)
Definition total_pending (self : AsyncTaskPool) : Z :=
  fold_right (fun p acc => Z.of_nat (length (_pending_tasks self p)) + acc) 0 priorities.

(** [submit]. [now] is the clock reading for [created_at]. The pool comes
    back also when the call raises: the task counter has moved by then. *)
Definition submit (self : AsyncTaskPool) (coro : Coroutine) (priority : TaskPriority)
    (task_id : option string) (now : Qc) : AsyncTaskPool * Py.result string :=
  let counter :=
    match task_id with
    | None => _task_counter self + 1
    | Some _ => _task_counter self
    end in
  let task_id := default ("task-" +:+ pretty counter) task_id in
  let task_info :=
    {| task_id := task_id; priority := priority; created_at := now;
       started_at := None; completed_at := None |} in
  if max_pending_tasks self <=? total_pending self then
    ({| max_concurrent_tasks := max_concurrent_tasks self;
        max_pending_tasks := max_pending_tasks self;
        cleanup_interval := cleanup_interval self;
        _pending_tasks := _pending_tasks self;
        _task_available := _task_available self;
        _running := _running self;
        _task_counter := counter;
        _total_submitted := _total_submitted self;
        _total_completed := _total_completed self;
        _total_failed := _total_failed self;
        _total_cancelled := _total_cancelled self |},
     Py.Raise (Py.QueueFull "Task pool is full"))
  else
    ({| max_concurrent_tasks := max_concurrent_tasks self;
        max_pending_tasks := max_pending_tasks self;
        cleanup_interval := cleanup_interval self;
        _pending_tasks := fun p =>
          if decide (p = priority)
          then _pending_tasks self p ++ [(task_info, coro)]
          else _pending_tasks self p;
        _task_available := true;
        _running := _running self;
        _task_counter := counter;
        _total_submitted := _total_submitted self + 1;
        _total_completed := _total_completed self;
        _total_failed := _total_failed self;
        _total_cancelled := _total_cancelled self |},
     Py.Ok task_id).

(** Submissions one after the other, none with an id of its own. *)
Fixpoint submit_all (self : AsyncTaskPool) (work : list (Coroutine * TaskPriority))
    (now : Qc) : AsyncTaskPool * list (Py.result string) :=
  match work with
  | [] => (self, [])
  | (coro, priority) :: work =>
    let '(self, r) := submit self coro priority None now in
    let '(self, rs) := submit_all self work now in
    (self, r :: rs)
  end.

End task_pool.

Arguments AsyncTaskPool Coroutine : clear implicits.

(** *** AsyncTaskPool: handing tasks to the workers *)

Section task_pool_workers.

Context {Coroutine : Type}.

(** The loop of [_get_next_task] over the priorities that are left. *)
Fixpoint next_from (self : AsyncTaskPool Coroutine) (order : list TaskPriority)
  : AsyncTaskPool Coroutine * option (TaskInfo * Coroutine) :=
  match order with
  | [] =>
    ({| max_concurrent_tasks := max_concurrent_tasks self;
        max_pending_tasks := max_pending_tasks self;
        cleanup_interval := cleanup_interval self;
        _pending_tasks := _pending_tasks self;
        _task_available := false;
        _running := _running self;
        _task_counter := _task_counter self;
        _total_submitted := _total_submitted self;
        _total_completed := _total_completed self;
        _total_failed := _total_failed self;
        _total_cancelled := _total_cancelled self |}, None)
  | priority :: order =>
    match _pending_tasks self priority with
    | task :: rest =>
      ({| max_concurrent_tasks := max_concurrent_tasks self;
          max_pending_tasks := max_pending_tasks self;
          cleanup_interval := cleanup_interval self;
          _pending_tasks := fun p =>
            if decide (p = priority) then rest else _pending_tasks self p;
          _task_available := _task_available self;
          _running := _running self;
          _task_counter := _task_counter self;
          _total_submitted := _total_submitted self;
          _total_completed := _total_completed self;
          _total_failed := _total_failed self;
          _total_cancelled := _total_cancelled self |}, Some task)
    | [] => next_from self order
    end
  end.

(** [_get_next_task]; [None] stands for the pair [(None, None)]. *)
Definition _get_next_task (self : AsyncTaskPool Coroutine)
  : AsyncTaskPool Coroutine * option (TaskInfo * Coroutine) :=
  next_from self priorities.

(** [n] calls of [_get_next_task] one after the other. *)
Fixpoint next_tasks (self : AsyncTaskPool Coroutine) (n : nat)
  : AsyncTaskPool Coroutine * list (option (TaskInfo * Coroutine)) :=
  match n with
  | O => (self, [])
  | S n =>
    let '(self, task) := _get_next_task self in
    let '(self, tasks) := next_tasks self n in
    (self, task :: tasks)
  end.

(** The ids that the calls of a run of [submit] returned. *)
Definition returned_ids (answers : list (Py.result string)) : list string :=
  omap (fun r => match r with Py.Ok name => Some name | _ => None end) answers.

End task_pool_workers.

(** *** ResourceAwareScheduler *)

Record ResourceAwareScheduler : Type := mkScheduler {
  cpu_threshold : Qc;
  memory_threshold : Qc;
  base_concurrency : Z;
  min_concurrency : Z;
  max_concurrency : Z
}.

(** [ResourceAwareScheduler.__init__], of which the pool gives
    [max_concurrent_tasks]. *)
Definition scheduler_init (max_concurrent_tasks : Z) : ResourceAwareScheduler :=
  {| cpu_threshold := Py.Qc_of_Z 80;
     memory_threshold := Py.Qc_of_Z 85;
     base_concurrency := max_concurrent_tasks;
     min_concurrency := Z.max 1 (max_concurrent_tasks / 4);
     max_concurrency := max_concurrent_tasks * 2 |}.

(** [_calculate_optimal_concurrency] *)
Definition _calculate_optimal_concurrency (self : ResourceAwareScheduler)
    (cpu_percent memory_percent : Qc) (current_concurrency : Z) : Z :=
  if bool_decide (cpu_threshold self < cpu_percent)%Qc
     || bool_decide (memory_threshold self < memory_percent)%Qc
  then Z.max (min_concurrency self) (current_concurrency - 2)
  else if bool_decide (cpu_percent < Py.Qc_of_Z 50)%Qc
          && bool_decide (memory_percent < Py.Qc_of_Z 60)%Qc
  then Z.min (max_concurrency self) (current_concurrency + 1)
  else current_concurrency.

End async_tasks.

(** ** whisperlivekit/performance/websocket_compression.py *)

Module websocket_compression.
Import json.

Inductive CompressionLevel : Type :=
| NONE        (* 0 *)
| FAST        (* 1 *)
| BALANCED    (* 6 *)
| BEST.       (* 9 *)

Definition level_value (l : CompressionLevel) : Z :=
  match l with NONE => 0 | FAST => 1 | BALANCED => 6 | BEST => 9 end.

Inductive MessageType : Type :=
| TRANSCRIPTION_RESULT   (* 1 *)
| AUDIO_DATA             (* 2 *)
| STATUS_UPDATE          (* 3 *)
| ERROR_MESSAGE          (* 4 *)
| HEARTBEAT              (* 5 *)
| BATCH_UPDATE.          (* 6 *)

Definition type_value (t : MessageType) : Z :=
  match t with
  | TRANSCRIPTION_RESULT => 1 | AUDIO_DATA => 2 | STATUS_UPDATE => 3
  | ERROR_MESSAGE => 4 | HEARTBEAT => 5 | BATCH_UPDATE => 6
  end.

(** [MessageType(v)]; [None] stands for the [ValueError] of a value that
    names no member. *)
Definition type_of_value (v : Z) : option MessageType :=
  if v =? 1 then Some TRANSCRIPTION_RESULT
  else if v =? 2 then Some AUDIO_DATA
  else if v =? 3 then Some STATUS_UPDATE
  else if v =? 4 then Some ERROR_MESSAGE
  else if v =? 5 then Some HEARTBEAT
  else if v =? 6 then Some BATCH_UPDATE
  else None.

#[global] Instance CompressionLevel_eq_dec : EqDecision CompressionLevel.
Proof. solve_decision. Defined.

#[global] Instance MessageType_eq_dec : EqDecision MessageType.
Proof. solve_decision. Defined.

(** A message: a [dict] with string keys. *)
Definition Message : Type := list (string * pyval).

Record CompressionStats : Type := mkStats {
  total_messages : Z;
  compressed_messages : Z;
  original_bytes : Z;
  compressed_bytes : Z;
  compression_time_ms : Qc;
  decompression_time_ms : Qc
}.

(** [zlib.compress(data, level)] and [zlib.decompress(data)] are taken as
    given, [None] standing for [zlib.error], with the one law the module
    relies on: what [compress] returns, [decompress] turns back into the
    data. *)
Class Zlib : Type := {
  zlib_compress : list byte -> Z -> option (list byte);
  zlib_decompress : list byte -> option (list byte);
  zlib_inverse : forall data level packed,
    zlib_compress data level = Some packed -> zlib_decompress packed = Some data
}.

(** A call of [zlib] as a call that returns or raises. *)
Definition zlib_call {A} (r : option A) : Py.result A :=
  match r with
  | Some a => Py.Ok a
  | None => Py.Raise Py.ZlibError
  end.

(** *** AdaptiveCompressor *)

Record AdaptiveCompressor : Type := mkCompressor {
  min_compress_size : Z;
  compression_threshold_ratio : Qc;
  performance_window : Z;
  _compression_levels : MessageType -> CompressionLevel;
  stats : CompressionStats;
  _recent_ratios : list Qc;
  _auto_adjust : bool;
  _last_adjustment : Qc;
  _adjustment_interval : Qc
}.

(** The levels [__init__] gives to the message types. *)
Definition initial_levels (t : MessageType) : CompressionLevel :=
  match t with
  | TRANSCRIPTION_RESULT => BALANCED
  | AUDIO_DATA => FAST
  | STATUS_UPDATE => FAST
  | ERROR_MESSAGE => NONE
  | HEARTBEAT => NONE
  | BATCH_UPDATE => BEST
  end.

(** [AdaptiveCompressor.__init__]; [now] is the clock reading. *)
Definition init (min_compress_size : Z) (compression_threshold_ratio : Qc)
    (performance_window : Z) (now : Qc) : AdaptiveCompressor :=
  {| min_compress_size := min_compress_size;
     compression_threshold_ratio := compression_threshold_ratio;
     performance_window := performance_window;
     _compression_levels := initial_levels;
     stats := {| total_messages := 0; compressed_messages := 0;
                 original_bytes := 0; compressed_bytes := 0;
                 compression_time_ms := 0%Qc; decompression_time_ms := 0%Qc |};
     _recent_ratios := [];
     _auto_adjust := true;
     _last_adjustment := now;
     _adjustment_interval := Py.Qc_of_Z 30 |}.

(** [AdaptiveCompressor()] with the default arguments. *)
Definition default_compressor (now : Qc) : AdaptiveCompressor :=
  init 100 (Q2Qc (8 # 10)) 100 now.

Definition set_stats (self : AdaptiveCompressor) (st : CompressionStats) : AdaptiveCompressor :=
  {| min_compress_size := min_compress_size self;
     compression_threshold_ratio := compression_threshold_ratio self;
     performance_window := performance_window self;
     _compression_levels := _compression_levels self;
     stats := st;
     _recent_ratios := _recent_ratios self;
     _auto_adjust := _auto_adjust self;
     _last_adjustment := _last_adjustment self;
     _adjustment_interval := _adjustment_interval self |}.

Definition set_levels (self : AdaptiveCompressor)
    (levels : MessageType -> CompressionLevel) (last_adjustment : Qc) : AdaptiveCompressor :=
  {| min_compress_size := min_compress_size self;
     compression_threshold_ratio := compression_threshold_ratio self;
     performance_window := performance_window self;
     _compression_levels := levels;
     stats := stats self;
     _recent_ratios := _recent_ratios self;
     _auto_adjust := _auto_adjust self;
     _last_adjustment := last_adjustment;
     _adjustment_interval := _adjustment_interval self |}.

Definition set_ratios (self : AdaptiveCompressor) (ratios : list Qc) : AdaptiveCompressor :=
  {| min_compress_size := min_compress_size self;
     compression_threshold_ratio := compression_threshold_ratio self;
     performance_window := performance_window self;
     _compression_levels := _compression_levels self;
     stats := stats self;
     _recent_ratios := ratios;
     _auto_adjust := _auto_adjust self;
     _last_adjustment := _last_adjustment self;
     _adjustment_interval := _adjustment_interval self |}.

(** [struct.pack('>BB I', a, b, n)]: two unsigned bytes and an unsigned
    32-bit integer, most significant byte first; a value out of range
    raises [struct.error]. *)
Definition struct_pack (a b n : Z) : Py.result (list byte) :=
  if (0 <=? a) && (a <? 256) && (0 <=? b) && (b <? 256) && (0 <=? n) && (n <? 2 ^ 32)
  then Py.Ok [byte_of_Z a; byte_of_Z b;
              byte_of_Z (Z.shiftr n 24);
              byte_of_Z (Z.land (Z.shiftr n 16) 255);
              byte_of_Z (Z.land (Z.shiftr n 8) 255);
              byte_of_Z (Z.land n 255)]
  else Py.Raise Py.StructError.

(** [struct.unpack('>BB I', header)] *)
Definition struct_unpack (header : list byte) : Py.result (Z * Z * Z) :=
  match header with
  | [a; b; n3; n2; n1; n0] =>
    Py.Ok (Z_of_byte a, Z_of_byte b,
           Z.lor (Z.shiftl (Z_of_byte n3) 24)
             (Z.lor (Z.shiftl (Z_of_byte n2) 16)
                (Z.lor (Z.shiftl (Z_of_byte n1) 8) (Z_of_byte n0))))
  | _ => Py.Raise Py.StructError
  end.

(** [_create_packet] *)
Definition _create_packet (message_type : MessageType) (data : list byte)
    (compressed : bool) : Py.result (list byte) :=
  let! header := struct_pack (type_value message_type)
                   (if compressed then 1 else 0)
                   (Z.of_nat (length data)) in
  Py.Ok (header ++ data).

(** [_parse_packet] *)
Definition _parse_packet (packet : list byte)
  : Py.result (MessageType * bool * list byte) :=
  if Z.of_nat (length packet) <? 6
  then Py.Raise (Py.ValueError "Invalid packet: too short")
  else
    let! '(msg_type_value, flags, data_length) :=
      struct_unpack (Py.slice packet None (Some 6)) in
    let message_type := default TRANSCRIPTION_RESULT (type_of_value msg_type_value) in
    let is_compressed := negb (Z.land flags 1 =? 0) in
    let data := Py.slice packet (Some 6) (Some (6 + data_length)) in
    if Z.of_nat (length data) =? data_length
    then Py.Ok (message_type, is_compressed, data)
    else Py.Raise (Py.ValueError "Invalid packet: wrong length").

(** [_reduce_compression_levels] *)
Definition _reduce_compression_levels (levels : MessageType -> CompressionLevel)
  : MessageType -> CompressionLevel :=
  fun t => match levels t with
           | BEST => BALANCED
           | BALANCED => FAST
           | l => l
           end.

(** [_increase_compression_levels] *)
Definition _increase_compression_levels (levels : MessageType -> CompressionLevel)
  : MessageType -> CompressionLevel :=
  fun t => match levels t with
           | FAST => BALANCED
           | BALANCED => BEST
           | l => l
           end.

Definition sum_Qc (l : list Qc) : Qc := fold_right Qcplus 0%Qc l.

(** [_maybe_adjust_compression] *)
Definition _maybe_adjust_compression (self : AdaptiveCompressor) (current_time : Qc)
  : AdaptiveCompressor :=
  if bool_decide (current_time - _last_adjustment self < _adjustment_interval self)%Qc
  then self
  else if Z.of_nat (length (_recent_ratios self)) <? 10 then self
  else
    let avg_ratio := (sum_Qc (_recent_ratios self)
                      / Py.Qc_of_Z (Z.of_nat (length (_recent_ratios self))))%Qc in
    let levels :=
      if bool_decide (Q2Qc (9 # 10) < avg_ratio)%Qc
      then _reduce_compression_levels (_compression_levels self)
      else if bool_decide (avg_ratio < Q2Qc (3 # 10))%Qc
      then _increase_compression_levels (_compression_levels self)
      else _compression_levels self in
    set_levels self levels current_time.

Section compressor.

Context `{Zlib}.

(** The body of the [try] of [compress_message]. *)
Definition try_compress (self : AdaptiveCompressor) (message_type : MessageType)
    (compression_level : CompressionLevel) (original_bytes : list byte)
    (start_time done_time adjust_time : Qc)
  : Py.result (AdaptiveCompressor * list byte) :=
  let original_size := Z.of_nat (length original_bytes) in
  let! compressed_data :=
    zlib_call (zlib_compress original_bytes (level_value compression_level)) in
  let compressed_size := Z.of_nat (length compressed_data) in
  if original_size =? 0 then Py.Raise Py.ZeroDivisionError
  else
    let compression_ratio := (Py.Qc_of_Z compressed_size / Py.Qc_of_Z original_size)%Qc in
    if bool_decide (compression_threshold_ratio self < compression_ratio)%Qc then
      let! packet := _create_packet message_type original_bytes false in
      Py.Ok (self, packet)
    else
      let! packet := _create_packet message_type compressed_data true in
      let st := stats self in
      let self := set_stats self
        {| total_messages := total_messages st;
           compressed_messages := compressed_messages st + 1;
           original_bytes := websocket_compression.original_bytes st;
           compressed_bytes := compressed_bytes st + Z.of_nat (length packet);
           compression_time_ms :=
             (compression_time_ms st + (done_time - start_time) * Py.Qc_of_Z 1000)%Qc;
           decompression_time_ms := decompression_time_ms st |} in
      let ratios := _recent_ratios self ++ [compression_ratio] in
      let ratios :=
        if performance_window self <? Z.of_nat (length ratios)
        then Py.slice ratios (Some 1) None else ratios in
      let self := set_ratios self ratios in
      let self :=
        if _auto_adjust self then _maybe_adjust_compression self adjust_time else self in
      Py.Ok (self, packet).

(** [compress_message]. The three clock readings are the one at the start,
    the one for the statistics and the one of the adjustment. *)
Definition compress_message (self : AdaptiveCompressor) (message : Message)
    (message_type : MessageType) (start_time done_time adjust_time : Qc)
  : AdaptiveCompressor * Py.result (list byte) :=
  let json_data := dumps false (PyDict message) in
  let original_bytes := utf8_encode json_data in
  let original_size := Z.of_nat (length original_bytes) in
  let st := stats self in
  let self := set_stats self
    {| total_messages := total_messages st + 1;
       compressed_messages := compressed_messages st;
       original_bytes := websocket_compression.original_bytes st + original_size;
       compressed_bytes := compressed_bytes st;
       compression_time_ms := compression_time_ms st;
       decompression_time_ms := decompression_time_ms st |} in
  if original_size <? min_compress_size self then
    (self, _create_packet TRANSCRIPTION_RESULT original_bytes false)
  else
    let compression_level := _compression_levels self message_type in
    if decide (compression_level = NONE) then
      (self, _create_packet message_type original_bytes false)
    else
      match try_compress self message_type compression_level original_bytes
              start_time done_time adjust_time with
      | Py.Ok (self, packet) => (self, Py.Ok packet)
      | Py.Raise _ => (self, _create_packet message_type original_bytes false)
      | Py.Hang => (self, Py.Hang)
      end.

(** [decompress_message]; the clock readings are the one at the start and
    the one for the statistics. *)
Definition decompress_message (self : AdaptiveCompressor) (packet : list byte)
    (start_time done_time : Qc) : AdaptiveCompressor * Py.result pyval :=
  match _parse_packet packet with
  | Py.Ok (message_type, is_compressed, data) =>
    let unpacked : Py.result (AdaptiveCompressor * list byte) :=
      if is_compressed : bool then
        let! decompressed_data := zlib_call (zlib_decompress data) in
        let st := stats self in
        Py.Ok (set_stats self
                 {| total_messages := total_messages st;
                    compressed_messages := compressed_messages st;
                    original_bytes := original_bytes st;
                    compressed_bytes := compressed_bytes st;
                    compression_time_ms := compression_time_ms st;
                    decompression_time_ms :=
                      (decompression_time_ms st
                       + (done_time - start_time) * Py.Qc_of_Z 1000)%Qc |},
               decompressed_data)
      else Py.Ok (self, data) in
    match unpacked with
    | Py.Ok (self, decompressed_data) =>
      (self, let! json_str := utf8_decode decompressed_data in loads json_str)
    | Py.Raise e => (self, Py.Raise e)
    | Py.Hang => (self, Py.Hang)
    end
  | Py.Raise e => (self, Py.Raise e)
  | Py.Hang => (self, Py.Hang)
  end.

End compressor.

(** The text and the bytes that [compress_message] makes of a message. *)
Definition payload (message : Message) : list byte :=
  utf8_encode (dumps false (PyDict message)).

(** *** MessageBatcher *)

(** The envelope that [_flush_batch] hands to the callback. *)
Record batch_message : Type := mkBatch {
  batch_type : string;
  messages : list Message;
  count : Z;
  timestamp : Qc
}.

(** [_batch_timer] tells whether a timer is set and [_flush_callback]
    whether a callback is installed; what the callback is called with is
    the list of envelopes that the methods return. *)
Record MessageBatcher : Type := mkBatcher {
  max_batch_size : Z;
  max_batch_bytes : Z;
  batch_timeout_ms : Qc;
  _batch_queue : list Message;
  _batch_size_bytes : Z;
  _batch_timer : bool;
  _flush_callback : bool
}.

(** [MessageBatcher.__init__] *)
Definition batcher_init (max_batch_size max_batch_bytes : Z) (batch_timeout_ms : Qc)
  : MessageBatcher :=
  {| max_batch_size := max_batch_size;
     max_batch_bytes := max_batch_bytes;
     batch_timeout_ms := (batch_timeout_ms / Py.Qc_of_Z 1000)%Qc;
     _batch_queue := [];
     _batch_size_bytes := 0;
     _batch_timer := false;
     _flush_callback := false |}.

(** [set_flush_callback] *)
Definition set_flush_callback (self : MessageBatcher) : MessageBatcher :=
  {| max_batch_size := max_batch_size self;
     max_batch_bytes := max_batch_bytes self;
     batch_timeout_ms := batch_timeout_ms self;
     _batch_queue := _batch_queue self;
     _batch_size_bytes := _batch_size_bytes self;
     _batch_timer := _batch_timer self;
     _flush_callback := true |}.

(** [_flush_batch]: the batcher after it and the envelopes delivered, none
    or one. An exception of the callback is caught and logged. *)
Definition _flush_batch (self : MessageBatcher) (now : Qc)
  : MessageBatcher * list batch_message :=
  match _batch_queue self with
  | [] => (self, [])
  | _ =>
    let batch := {| batch_type := "batch";
                    messages := _batch_queue self;
                    count := Z.of_nat (length (_batch_queue self));
                    timestamp := now |} in
    ({| max_batch_size := max_batch_size self;
        max_batch_bytes := max_batch_bytes self;
        batch_timeout_ms := batch_timeout_ms self;
        _batch_queue := [];
        _batch_size_bytes := 0;
        _batch_timer := false;
        _flush_callback := _flush_callback self |},
     if _flush_callback self then [batch] else [])
  end.

(** [_set_batch_timer] *)
Definition _set_batch_timer (self : MessageBatcher) : MessageBatcher :=
  {| max_batch_size := max_batch_size self;
     max_batch_bytes := max_batch_bytes self;
     batch_timeout_ms := batch_timeout_ms self;
     _batch_queue := _batch_queue self;
     _batch_size_bytes := _batch_size_bytes self;
     _batch_timer := true;
     _flush_callback := _flush_callback self |}.

(** [len(json.dumps(message, separators=(',', ':')))] *)
Definition msg_size (message : Message) : Z :=
  Z.of_nat (String.length (dumps true (PyDict message))).

(** [add_message]: the batcher, the envelopes delivered by the flush it
    may trigger, and the value returned. *)
Definition add_message (self : MessageBatcher) (message : Message) (now : Qc)
  : MessageBatcher * list batch_message * bool :=
  let size := msg_size message in
  let '(self, delivered) :=
    if (max_batch_size self <=? Z.of_nat (length (_batch_queue self)))
       || (max_batch_bytes self <? _batch_size_bytes self + size)
    then _flush_batch self now
    else (self, []) in
  let self :=
    {| max_batch_size := max_batch_size self;
       max_batch_bytes := max_batch_bytes self;
       batch_timeout_ms := batch_timeout_ms self;
       _batch_queue := _batch_queue self ++ [message];
       _batch_size_bytes := _batch_size_bytes self + size;
       _batch_timer := _batch_timer self;
       _flush_callback := _flush_callback self |} in
  let self :=
    if Z.of_nat (length (_batch_queue self)) =? 1 then _set_batch_timer self else self in
  (self, delivered, true).

(** Messages added one after the other, each with its clock reading; the
    envelopes delivered are collected in order. *)
Fixpoint add_messages (self : MessageBatcher) (work : list (Message * Qc))
  : MessageBatcher * list batch_message :=
  match work with
  | [] => (self, [])
  | (message, now) :: work =>
    let '(self, delivered, _) := add_message self message now in
    let '(self, later) := add_messages self work in
    (self, delivered ++ later)
  end.

(** The estimated size of a run of messages. *)
Definition total_size (work : list (Message * Qc)) : Z :=
  fold_right (fun w acc => msg_size (fst w) + acc) 0 work.

(** *** Sample messages *)

Fixpoint letters (n : nat) : string :=
  match n with
  | O => EmptyString
  | S n => String "a" (letters n)
  end.

(** A message with a long run of one letter, of 211 bytes. *)
Definition long_message : Message := [("text", PyStr (letters 200))].

(** A short message. *)
Definition short_message : Message := [("a", PyInt 1)].

(** A message with a tuple in it. *)
Definition tuple_message : Message := [("k", PyTuple [PyInt 1; PyInt 2])].

Definition small (i : Z) : Message := [("seq", PyInt i)].

Definition eleven_small : list (Message * Qc) :=
  map (fun i => (small i, 0%Qc)) [1; 2; 3; 4; 5; 6; 7; 8; 9; 10; 11].

(** Eleven messages whose JSON text is 1019 or 1020 characters long. *)
Definition eleven_large : list (Message * Qc) :=
  map (fun i => ([("text", PyStr (letters 1000)); ("seq", PyInt i)], 0%Qc))
    [1; 2; 3; 4; 5; 6; 7; 8; 9; 10; 11].

(** *** A stand-in for [zlib] *)

(** Run-length coding: the data as runs of up to 255 equal bytes, each run
    written as its length and its byte. It meets the law of [Zlib] and
    shortens data with long runs, so that both branches of
    [compress_message] can be run. *)
Fixpoint runs (data : list byte) : list (byte * nat) :=
  match data with
  | [] => []
  | b :: data =>
    match runs data with
    | (b', n) :: rs =>
      if Byte.eqb b b' && (n <? 255)%nat then (b, S n) :: rs
      else (b, 1%nat) :: (b', n) :: rs
    | [] => [(b, 1%nat)]
    end
  end.

Definition pack_runs (rs : list (byte * nat)) : list byte :=
  flat_map (fun r => [byte_of_Z (Z.of_nat (snd r)); fst r]) rs.

Fixpoint unpack_runs (packed : list byte) : option (list byte) :=
  match packed with
  | [] => Some []
  | n :: b :: rest =>
    match unpack_runs rest with
    | Some data => Some (repeat b (Z.to_nat (Z_of_byte n)) ++ data)
    | None => None
    end
  | [_] => None
  end.

Definition expand (rs : list (byte * nat)) : list byte :=
  flat_map (fun r => repeat (fst r) (snd r)) rs.

(** *** Runs of calls *)

Section compressor_runs.

Context `{Zlib}.

(** The compressors that calls of [compress_message] and
    [decompress_message] make of one built by [__init__]. *)
Inductive compressor_reachable (min_size : Z) (threshold : Qc) (window : Z)
  : AdaptiveCompressor -> Prop :=
| compressor_reachable_init now :
    compressor_reachable min_size threshold window (init min_size threshold window now)
| compressor_reachable_compress self message message_type start_time done_time adjust_time :
    compressor_reachable min_size threshold window self ->
    compressor_reachable min_size threshold window
      (fst (compress_message self message message_type start_time done_time adjust_time))
| compressor_reachable_decompress self packet start_time done_time :
    compressor_reachable min_size threshold window self ->
    compressor_reachable min_size threshold window
      (fst (decompress_message self packet start_time done_time)).

End compressor_runs.

(** [flush_now] *)
Definition flush_now (self : MessageBatcher) (now : Qc)
  : MessageBatcher * list batch_message :=
  _flush_batch self now.

(** A call on a batcher: [add_message], or a flush, which [flush_now]
    makes and the timer too when it fires. *)
Inductive batcher_call : Type :=
| AddMessage (message : Message) (now : Qc)
| FlushNow (now : Qc).

(** Calls one after the other, with the envelopes delivered in order. *)
Fixpoint batcher_run (self : MessageBatcher) (calls : list batcher_call)
  : MessageBatcher * list batch_message :=
  match calls with
  | [] => (self, [])
  | AddMessage message now :: calls =>
    let '(self, delivered, _) := add_message self message now in
    let '(self, later) := batcher_run self calls in
    (self, delivered ++ later)
  | FlushNow now :: calls =>
    let '(self, delivered) := flush_now self now in
    let '(self, later) := batcher_run self calls in
    (self, delivered ++ later)
  end.

(** The messages that the calls add, in order. *)
Definition added (calls : list batcher_call) : list Message :=
  omap (fun c => match c with AddMessage message _ => Some message | FlushNow _ => None end)
    calls.

(** The estimated size of the messages of a queue. *)
Definition queue_bytes (queue : list Message) : Z :=
  fold_right (fun m acc => msg_size m + acc) 0 queue.

(** A batch within the limits of a batcher: at least one message and at
    most [max_size]; and unless it is one message alone, an estimated size
    of at most [max_bytes]. *)
Definition batch_fits (max_size max_bytes : Z) (batch : list Message) : Prop :=
  1 <= Z.of_nat (length batch) <= max_size
  /\ (length batch = 1%nat \/ queue_bytes batch <= max_bytes).

(** The queue of a batcher within its limits, with its size in step. *)
Definition queue_fits (self : MessageBatcher) : Prop :=
  _batch_size_bytes self = queue_bytes (_batch_queue self)
  /\ (_batch_queue self = []
      \/ batch_fits (max_batch_size self) (max_batch_bytes self) (_batch_queue self)).

End websocket_compression.

(** ** Properties of the adaptive token buffer *)

Module adaptive_buffer_facts.
Import adaptive_buffer.

Lemma slice_suffix {A} (l : list A) (n : Z) :
  0 < n ->
  Py.slice l (Some (- n)) None = drop (length l - Z.to_nat n)%nat l.
Proof.
  intros Hn. unfold Py.slice, Py.slice_bound. simpl.
  assert (Hneg : (- n <? 0) = true) by (apply Z.ltb_lt; lia).
  rewrite Hneg.
  replace (Z.to_nat (Z.max 0 (- n + Z.of_nat (length l))))
    with (length l - Z.to_nat n)%nat by lia.
  apply take_ge. rewrite length_drop. lia.
Qed.

(** With a positive bound a call leaves at most [max_context_tokens]
    tokens in [context_buffer], if that was so before the call. *)
Lemma add_tokens_bound (self : AdaptiveBuffer) (tokens : list ASRToken) :
  0 < max_context_tokens self ->
  Z.of_nat (length (context_buffer self)) <= max_context_tokens self ->
  Z.of_nat (length (context_buffer (fst (add_tokens self tokens))))
    <= max_context_tokens self.
Proof.
  intros Hpos Hinv. unfold add_tokens.
  destruct tokens as [|t tokens]; [exact Hinv|]. cbn [fst context_buffer].
  destruct (Z.ltb_spec (max_context_tokens self)
              (Z.of_nat (length (context_buffer self ++ t :: tokens)))) as [Hlt|Hge].
  - rewrite slice_suffix by exact Hpos. rewrite length_drop. lia.
  - exact Hge.
Qed.

(** With a positive bound the tokens kept are the newest ones: the buffer
    is the longest suffix of old-then-new tokens that fits the bound. *)
Lemma add_tokens_keeps_newest (self : AdaptiveBuffer) (tokens : list ASRToken) :
  0 < max_context_tokens self ->
  tokens <> [] ->
  let all := context_buffer self ++ tokens in
  context_buffer (fst (add_tokens self tokens))
    = drop (length all - Z.to_nat (max_context_tokens self))%nat all.
Proof.
  intros Hpos Hne all. unfold add_tokens.
  destruct tokens as [|t tokens]; [congruence|]. cbn [fst context_buffer].
  fold all.
  destruct (Z.ltb_spec (max_context_tokens self) (Z.of_nat (length all))) as [Hlt|Hge].
  - apply slice_suffix, Hpos.
  - replace (length all - Z.to_nat (max_context_tokens self))%nat with 0%nat by lia.
    reflexivity.
Qed.

Lemma add_tokens_max (self : AdaptiveBuffer) (tokens : list ASRToken) :
  max_context_tokens (fst (add_tokens self tokens)) = max_context_tokens self.
Proof. unfold add_tokens. destruct tokens; reflexivity. Qed.

(** The bound over any run of calls on a fresh buffer, for a positive
    [max_context_tokens]. *)
Lemma add_all_bound (n : Z) (ci ct : Qc) (batches : list (list ASRToken)) :
  0 < n ->
  Z.of_nat (length (context_buffer (add_all (init n ci ct) batches))) <= n.
Proof.
  intros Hpos. unfold add_all.
  assert (Hgen : forall b, max_context_tokens b = n ->
            Z.of_nat (length (context_buffer b)) <= n ->
            Z.of_nat (length (context_buffer
              (fold_left (fun b tokens => fst (add_tokens b tokens)) batches b))) <= n).
  { induction batches as [|tokens batches IH]; intros b Hmax Hinv; [exact Hinv|].
    cbn [fold_left]. apply IH.
    - rewrite add_tokens_max. exact Hmax.
    - pose proof (add_tokens_bound b tokens) as Hb.
      rewrite Hmax in Hb. apply Hb; assumption. }
  apply Hgen; [reflexivity | simpl; lia].
Qed.

(** C6, at the input where the code leaves the bound: a buffer built with
    [max_context_tokens = 0] keeps the token of its first [add_tokens] call,
    because [context_buffer[-0:]] is the whole list, and keeps growing with
    every later call. *)
Theorem add_tokens_zero_bound_exceeded :
  let b0 := init 0 (Q2Qc (1 # 2)) (Q2Qc (7 # 10)) in
  let b1 := fst (add_tokens b0 [tok "a" None]) in
  let b2 := fst (add_tokens b1 [tok "b" None; tok "c" None]) in
  max_context_tokens b2 = 0
  /\ context_buffer b1 = [tok "a" None]
  /\ context_buffer b2 = [tok "a" None; tok "b" None; tok "c" None]
  /\ max_context_tokens b2 < Z.of_nat (length (context_buffer b2)).
Proof. vm_compute. repeat split; reflexivity. Qed.

Section correction_pass.

Variable corrector : ASRToken -> string -> string.

Lemma skipped_iff (self : AdaptiveBuffer) (t : ASRToken) :
  skipped self t = true
  <-> exists p, probability t = Some p /\ p <> 0%Qc /\ (p < confidence_threshold self)%Qc.
Proof.
  unfold skipped, Py.truthy. destruct (probability t) as [p|]; split.
  - intros [H1 H2]%andb_prop. exists p.
    apply bool_decide_eq_true in H1, H2. auto.
  - intros (q & [= <-] & H1 & H2).
    apply andb_true_intro. split; apply bool_decide_eq_true; assumption.
  - discriminate.
  - intros (q & H & _). discriminate.
Qed.

Lemma correct_step_calls (self : AdaptiveBuffer) (now : Qc) (acc : pass) (t : ASRToken) :
  pass_calls (correct_step corrector self now acc t)
  = pass_calls acc
    ++ (if skipped self t then [] else [(t, _get_context_for_token self t)]).
Proof.
  unfold correct_step. destruct (skipped self t).
  - symmetry. apply app_nil_r.
  - destruct (decide _); reflexivity.
Qed.

Lemma correct_step_changed (self : AdaptiveBuffer) (now : Qc) (acc : pass) (t : ASRToken) :
  Forall (fun c => corrected_text c <> original_text c) (pass_corrections acc) ->
  Forall (fun c => corrected_text c <> original_text c)
    (pass_corrections (correct_step corrector self now acc t)).
Proof.
  intros Hacc. unfold correct_step. destruct (skipped self t); [exact Hacc|].
  destruct (decide _) as [Hne|Heq]; cbn [pass_corrections]; [|exact Hacc].
  apply Forall_app. split; [exact Hacc|].
  constructor; [exact Hne | constructor].
Qed.

Lemma fold_calls (self : AdaptiveBuffer) (now : Qc) (tokens : list ASRToken) (acc : pass) :
  pass_calls (fold_left (correct_step corrector self now) tokens acc)
  = pass_calls acc
    ++ map (fun t => (t, _get_context_for_token self t))
         (List.filter (fun t => negb (skipped self t)) tokens).
Proof.
  revert acc. induction tokens as [|t tokens IH]; intros acc; cbn [fold_left List.filter].
  - symmetry. apply app_nil_r.
  - rewrite IH, correct_step_calls.
    destruct (skipped self t); cbn [negb map]; rewrite <- app_assoc; reflexivity.
Qed.

Lemma fold_changed (self : AdaptiveBuffer) (now : Qc) (tokens : list ASRToken) (acc : pass) :
  Forall (fun c => corrected_text c <> original_text c) (pass_corrections acc) ->
  Forall (fun c => corrected_text c <> original_text c)
    (pass_corrections (fold_left (correct_step corrector self now) tokens acc)).
Proof.
  revert acc. induction tokens as [|t tokens IH]; intros acc Hacc; cbn [fold_left].
  - exact Hacc.
  - apply IH, correct_step_changed, Hacc.
Qed.

Lemma first_index_range (buffer : list ASRToken) (t : ASRToken) (i : Z) :
  first_index buffer t = Some i -> 0 <= i < Z.of_nat (length buffer).
Proof.
  revert i. induction buffer as [|u buffer IH]; intros i; cbn [first_index].
  - discriminate.
  - destruct (decide (u = t)).
    + intros [= <-]. cbn [length]. lia.
    + destruct (first_index buffer t) as [j|]; [|discriminate].
      intros [= <-]. specialize (IH j eq_refl). cbn [length]. lia.
Qed.

(** The token found by [first_index] is the token looked for, and no
    earlier position holds it. *)
Lemma first_index_lookup (buffer : list ASRToken) (t : ASRToken) (i : Z) :
  first_index buffer t = Some i ->
  buffer !! Z.to_nat i = Some t
  /\ forall j, (j < Z.to_nat i)%nat -> buffer !! j <> Some t.
Proof.
  revert i. induction buffer as [|u buffer IH]; intros i; cbn [first_index].
  - discriminate.
  - destruct (decide (u = t)) as [->|Hne].
    + intros [= <-]. split; [reflexivity|]. intros j Hj. simpl in Hj. lia.
    + destruct (first_index buffer t) as [k|] eqn:Hk; [|discriminate].
      intros [= <-]. destruct (IH k eq_refl) as [Hat Hbefore].
      pose proof (first_index_range _ _ _ Hk) as Hr.
      replace (Z.to_nat (k + 1)) with (S (Z.to_nat k)) by lia.
      split; [exact Hat|].
      intros [|j] Hj; cbn; [congruence|]. apply Hbefore. lia.
Qed.

(** The context of a token found at index [i] of [context_buffer]: the
    texts, joined by single blanks, of the tokens at the indices from
    [max(0, i - 10)] up to, not including, [min(len, i + 10)]. *)
Lemma context_window (self : AdaptiveBuffer) (t : ASRToken) (i : Z) :
  first_index (context_buffer self) t = Some i ->
  let len := Z.of_nat (length (context_buffer self)) in
  let lo := Z.max 0 (i - 10) in
  let hi := Z.min len (i + 10) in
  _get_context_for_token self t
  = Py.join " " (map text (take (Z.to_nat (hi - lo)) (drop (Z.to_nat lo) (context_buffer self)))).
Proof.
  intros Hi len lo hi. unfold _get_context_for_token. rewrite Hi.
  apply first_index_range in Hi.
  unfold Py.slice, Py.slice_bound. cbn [from_option].
  fold len. fold lo. fold hi.
  assert (Hlo : (lo <? 0) = false) by (apply Z.ltb_ge; lia).
  rewrite Hlo.
  destruct (Z.ltb_spec hi 0) as [Hneg|Hge].
  - replace (Z.to_nat (Z.max 0 (hi + len) - Z.min lo len)) with 0%nat by lia.
    replace (Z.to_nat (hi - lo)) with 0%nat by lia. reflexivity.
  - destruct (Z.le_gt_cases lo len) as [Hle|Hgt].
    + rewrite (Z.min_l lo len), (Z.min_l hi len) by lia. reflexivity.
    + rewrite !drop_ge by lia. rewrite !take_nil. reflexivity.
Qed.

(** C3, as the code has it: the tokens of the drained queue that reach the
    corrector are, in order, those that the guard does not skip, each with
    the context [_get_context_for_token] computes for it; the guard skips
    exactly the tokens that carry a nonzero confidence below
    [confidence_threshold], so a token with confidence at or above the
    threshold, with confidence zero or with no confidence is a candidate;
    the context of a token first found at index [i] of [context_buffer] is
    made of the tokens at the indices from [max(0, i - 10)] up to, not
    including, [min(len, i + 10)], and is empty for a token not found; and
    every correction produced changes the text. *)
Theorem correct_tokens_candidates (self : AdaptiveBuffer) (tokens : list ASRToken) (now : Qc) :
  let r := _correct_tokens corrector self tokens now in
  pass_calls r
    = map (fun t => (t, _get_context_for_token self t))
        (List.filter (fun t => negb (skipped self t)) tokens)
  /\ (forall t, skipped self t = true
        <-> exists p, probability t = Some p /\ p <> 0%Qc
                      /\ (p < confidence_threshold self)%Qc)
  /\ (forall t,
        match first_index (context_buffer self) t with
        | Some i =>
          let lo := Z.max 0 (i - 10) in
          let hi := Z.min (Z.of_nat (length (context_buffer self))) (i + 10) in
          _get_context_for_token self t
          = Py.join " " (map text (take (Z.to_nat (hi - lo))
                                     (drop (Z.to_nat lo) (context_buffer self))))
        | None => _get_context_for_token self t = EmptyString
        end)
  /\ Forall (fun c => corrected_text c <> original_text c) (pass_corrections r).
Proof.
  cbn zeta. unfold _correct_tokens. split; [|split; [|split]].
  - rewrite fold_calls. reflexivity.
  - intros t. apply skipped_iff.
  - intros t. destruct (first_index (context_buffer self) t) as [i|] eqn:Hi.
    + apply (context_window self t i Hi).
    + unfold _get_context_for_token. rewrite Hi. reflexivity.
  - apply fold_changed. constructor.
Qed.

End correction_pass.

(** C3 as the claim words it fails twice on [sample_buffer], with the
    corrector that returns the text unchanged: the token ["z"] of confidence
    0, below the threshold 0.7, is passed to the corrector; and the context
    of the token ["m"], at index 12, holds the ten tokens before it but only
    the nine after it (it ends with ["v"], index 21, not with ["w"]). *)
Lemma correct_tokens_claim_fails :
  let calls := pass_calls (_correct_tokens (fun t _ => text t) sample_buffer
                             [tok "z" (Some 0%Qc); tok "m" (Some (Q2Qc (9 # 10)))]
                             0%Qc) in
  (0 < confidence_threshold sample_buffer)%Qc
  /\ map (fun c => text (fst c)) calls = ["z"; "m"]
  /\ map snd calls
     = ["p q r s t u v w x y z";
        "c d e f g h i j k l m n o p q r s t u v"].
Proof. vm_compute. repeat split; reflexivity. Qed.

End adaptive_buffer_facts.

(** ** Properties of the ring buffer *)

Module memory_facts.
Import memory.

Lemma set_lock_idle (self : CircularAudioBuffer) :
  _lock self = false -> set_lock (set_lock self true) false = self.
Proof. destruct self; cbn. intros ->. reflexivity. Qed.

(** A request beyond [max_capacity] that does not fit the present capacity
    is refused, and the buffer stays as it was. *)
Lemma append_refused (self : CircularAudioBuffer) (data : list Z) :
  _lock self = false ->
  _capacity self < _size self + Z.of_nat (length data) ->
  max_capacity self < _size self + Z.of_nat (length data) ->
  append self data = (self, Py.Ok false).
Proof.
  intros Hlock Hcap Hmax. unfold append, with_lock. rewrite Hlock.
  cbn [set_lock _capacity _size max_capacity Py.bind _resize].
  apply Z.ltb_lt in Hcap, Hmax. rewrite Hcap. unfold _resize.
  cbn [set_lock _capacity _size max_capacity Py.bind].
  rewrite Hmax. cbn [Py.bind negb]. rewrite set_lock_idle by exact Hlock.
  reflexivity.
Qed.

(** The rounding of [_resize]: the least power of two at or above [n]. *)
Lemma round_up_power_of_two_spec (n : Z) :
  0 < n ->
  exists k, round_up_power_of_two n = Py.Ok (2 ^ k)
            /\ 0 <= k /\ n <= 2 ^ k /\ (forall j, 0 <= j -> n <= 2 ^ j -> k <= j).
Proof.
  intros Hn. exists (Z.log2_up n). unfold round_up_power_of_two.
  destruct (Z.eqb_spec n 0); [lia|]. destruct (Z.ltb_spec n 0); [lia|].
  split; [reflexivity|]. split; [apply Z.log2_up_nonneg|].
  split.
  - destruct (Z.eq_dec n 1) as [->|]; [cbn; lia|]. apply Z.log2_up_spec. lia.
  - intros j Hj Hle. destruct (Z.eq_dec n 1) as [->|]; [cbn; lia|].
    apply Z.log2_up_le_pow2; lia.
Qed.

(** Growth of an empty buffer: the request passes the test against
    [max_capacity] and the capacity becomes the rounded request. *)
Lemma resize_empty (self : CircularAudioBuffer) (n : Z) :
  _size self = 0 -> 0 < n -> _capacity self < n -> n <= max_capacity self ->
  exists self',
    _resize self n = Py.Ok (self', true)
    /\ _capacity self' = 2 ^ Z.log2_up n
    /\ max_capacity self' = max_capacity self.
Proof.
  intros Hsize Hn Hcap Hmax. unfold _resize.
  destruct (Z.ltb_spec (max_capacity self) n); [lia|].
  unfold round_up_power_of_two.
  destruct (Z.eqb_spec n 0); [lia|]. destruct (Z.ltb_spec n 0); [lia|].
  cbn [Py.bind].
  assert (Hpow : n <= 2 ^ Z.log2_up n).
  { destruct (Z.eq_dec n 1) as [->|]; [cbn; lia|]. apply Z.log2_up_spec. lia. }
  destruct (Z.eqb_spec (2 ^ Z.log2_up n) (_capacity self)); [lia|].
  unfold zeros. destruct (Z.ltb_spec (2 ^ Z.log2_up n) 0); [lia|].
  cbn [Py.bind]. rewrite Hsize. cbn [Z.ltb Z.compare Py.bind].
  eexists. split; [reflexivity|]. split; reflexivity.
Qed.

(** Growth of a buffer that holds samples: [_resize] asks [read] for the
    samples, [read] waits for the lock that [append] took, and the call
    never returns. *)
Lemma append_grow_hangs (self : CircularAudioBuffer) (data : list Z) :
  _lock self = false ->
  0 < _size self ->
  _capacity self < _size self + Z.of_nat (length data) ->
  _size self + Z.of_nat (length data) <= max_capacity self ->
  snd (append self data) = Py.Hang.
Proof.
  intros Hlock Hsize Hcap Hmax.
  set (n := _size self + Z.of_nat (length data)) in *.
  unfold append, with_lock. rewrite Hlock.
  cbn [set_lock _capacity _size max_capacity]. fold n.
  destruct (Z.ltb_spec (_capacity self) n) as [_|]; [|lia].
  unfold _resize. cbn [set_lock _capacity _size max_capacity].
  destruct (Z.ltb_spec (max_capacity self) n); [lia|].
  unfold round_up_power_of_two.
  destruct (Z.eqb_spec n 0); [lia|]. destruct (Z.ltb_spec n 0); [lia|].
  cbn [Py.bind].
  assert (Hpow : n <= 2 ^ Z.log2_up n).
  { destruct (Z.eq_dec n 1) as [Hn|]; [rewrite Hn; cbn; lia|]. apply Z.log2_up_spec. lia. }
  destruct (Z.eqb_spec (2 ^ Z.log2_up n) (_capacity self)); [lia|].
  unfold zeros at 1. destruct (Z.ltb_spec (2 ^ Z.log2_up n) 0); [lia|].
  cbn [Py.bind].
  destruct (Z.ltb_spec 0 (_size self)); [|lia].
  unfold read, with_lock. cbn [set_lock _lock Py.bind snd]. reflexivity.
Qed.

(** C2, at inputs where the code leaves the claim. A buffer built with
    [initial_capacity = 4] and [max_capacity = 6] takes five samples: the
    request 5 passes the test against [max_capacity], then is rounded to 8,
    so the capacity ends above [max_capacity]; a later request of 7 in
    total, above [max_capacity], is then served instead of refused. And a
    buffer that already holds samples never returns from an [append] that
    has to grow: [_resize] calls [read], which waits for the lock [append]
    holds. *)
Theorem append_capacity_above_max :
  (exists b0 b1 b2,
      init 4 6 = Py.Ok b0
      /\ append b0 [1; 2; 3; 4; 5] = (b1, Py.Ok true)
      /\ _capacity b1 = 8 /\ max_capacity b1 = 6
      /\ append b1 [6; 7] = (b2, Py.Ok true)
      /\ _size b2 = 7 /\ _buffer b2 = [1; 2; 3; 4; 5; 6; 7; 0])
  /\ (exists b0 b1,
      init 4 16 = Py.Ok b0
      /\ append b0 [1; 2; 3] = (b1, Py.Ok true)
      /\ snd (append b1 [4; 5]) = Py.Hang).
Proof.
  split.
  - do 3 eexists. vm_compute. repeat split; reflexivity.
  - do 2 eexists. vm_compute. repeat split; reflexivity.
Qed.

(** *** Taking samples out of the ring *)

(** X11: [consume] never returns. It takes the lock of the buffer and
    then calls [read], which waits for that same lock; the lock is a
    [threading.Lock], which the thread that holds it cannot take again.
    The buffer is left locked, so that every later call on it waits for
    ever as well. *)
Theorem consume_never_returns (self : CircularAudioBuffer) (size : Z) (data : list Z) :
  snd (consume self size) = Py.Hang
  /\ _lock (fst (consume self size)) = true
  /\ snd (append (fst (consume self size)) data) = Py.Hang
  /\ snd (read (fst (consume self size)) size) = Py.Hang.
Proof.
  assert (H : snd (consume self size) = Py.Hang /\ _lock (fst (consume self size)) = true).
  { unfold consume, with_lock. destruct (_lock self) eqn:Hl; [auto|].
    unfold read at 1. unfold with_lock at 1. cbn [set_lock _lock fst snd]. auto. }
  destruct H as [Hhang Hlock]. split; [exact Hhang|]. split; [exact Hlock|].
  unfold append, read, with_lock. rewrite Hlock. auto.
Qed.

(** Slices and slice assignments within the bounds of the list. *)

Lemma slice_between {B : Type} (l : list B) (a b : Z) :
  0 <= a <= b -> b <= Z.of_nat (length l) ->
  Py.slice l (Some a) (Some b) = take (Z.to_nat (b - a)) (drop (Z.to_nat a) l).
Proof.
  intros Ha Hb. unfold Py.slice, Py.slice_bound. cbn [from_option].
  destruct (Z.ltb_spec a 0); [lia|]. destruct (Z.ltb_spec b 0); [lia|].
  rewrite !Z.min_l by lia. reflexivity.
Qed.

Lemma slice_from {B : Type} (l : list B) (a : Z) :
  0 <= a <= Z.of_nat (length l) ->
  Py.slice l (Some a) None = drop (Z.to_nat a) l.
Proof.
  intros Ha. unfold Py.slice, Py.slice_bound. cbn [from_option].
  destruct (Z.ltb_spec a 0); [lia|]. rewrite Z.min_l by lia.
  apply take_ge. rewrite length_drop. lia.
Qed.

Lemma slice_upto {B : Type} (l : list B) (b : Z) :
  0 <= b <= Z.of_nat (length l) ->
  Py.slice l None (Some b) = take (Z.to_nat b) l.
Proof.
  intros Hb. unfold Py.slice, Py.slice_bound. cbn [from_option].
  destruct (Z.ltb_spec b 0); [lia|]. rewrite Z.min_l by lia.
  rewrite Z.sub_0_r. reflexivity.
Qed.

Lemma assign_between (target src : list Z) (a b : Z) :
  0 <= a <= b -> b <= Z.of_nat (length target) ->
  Z.of_nat (length src) = b - a ->
  assign target (Some a) (Some b) src
  = Py.Ok (take (Z.to_nat a) target ++ src ++ drop (Z.to_nat b) target).
Proof.
  intros Ha Hb Hs. unfold assign, Py.slice_bound. cbn [from_option].
  destruct (Z.ltb_spec a 0); [lia|]. destruct (Z.ltb_spec b 0); [lia|].
  rewrite !Z.min_l by lia. rewrite decide_True by lia.
  do 4 f_equal. lia.
Qed.

Lemma assign_from (target src : list Z) (a : Z) :
  0 <= a <= Z.of_nat (length target) ->
  Z.of_nat (length src) = Z.of_nat (length target) - a ->
  assign target (Some a) None src = Py.Ok (take (Z.to_nat a) target ++ src).
Proof.
  intros Ha Hs. unfold assign, Py.slice_bound. cbn [from_option].
  destruct (Z.ltb_spec a 0); [lia|]. rewrite Z.min_l by lia.
  rewrite decide_True by lia. rewrite drop_ge by lia. rewrite app_nil_r. reflexivity.
Qed.

Lemma assign_upto (target src : list Z) (b : Z) :
  0 <= b <= Z.of_nat (length target) ->
  Z.of_nat (length src) = b ->
  assign target None (Some b) src = Py.Ok (src ++ drop (Z.to_nat b) target).
Proof.
  intros Hb Hs. unfold assign, Py.slice_bound. cbn [from_option].
  destruct (Z.ltb_spec b 0); [lia|]. rewrite Z.min_l by lia.
  rewrite decide_True by lia. change (Z.to_nat 0) with 0%nat. cbn [take app Nat.add].
  replace (Z.to_nat (b - 0)) with (Z.to_nat b) by lia. reflexivity.
Qed.

Lemma assign_all (target src : list Z) :
  length src = length target ->
  assign target None None src = Py.Ok src.
Proof.
  intros Hs. unfold assign. cbn [from_option].
  rewrite decide_True by lia. change (Z.to_nat 0) with 0%nat. cbn [take app Nat.add].
  rewrite drop_ge by lia. rewrite app_nil_r. reflexivity.
Qed.

(** [n] places of a ring of [buf] from place [h] on, as [read] and [peek]
    put them together. *)
Lemma ring_window (buf : list Z) (h n : nat) :
  (h <= length buf)%nat -> (n <= length buf)%nat ->
  take n (drop h (buf ++ buf))
  = if decide (h + n <= length buf)%nat then take n (drop h buf)
    else drop h buf ++ take (n - (length buf - h)) buf.
Proof.
  intros Hh Hn. rewrite drop_app_le by lia.
  destruct (decide (h + n <= length buf)%nat) as [Hfit|Hwrap].
  - rewrite take_app_le by (rewrite length_drop; lia). reflexivity.
  - rewrite take_app_ge by (rewrite length_drop; lia). rewrite length_drop. reflexivity.
Qed.

Lemma ring_window_wrap (buf : list Z) (h n : nat) :
  (h <= length buf)%nat -> (length buf <= h + n)%nat ->
  take n (drop h (buf ++ buf)) = drop h buf ++ take (n - (length buf - h)) buf.
Proof.
  intros Hh Hn. rewrite drop_app_le by lia.
  rewrite take_app_ge by (rewrite length_drop; lia). rewrite length_drop. reflexivity.
Qed.

(** The copy that [read] and [peek] make of [size] places from
    [start_pos] on. *)
Lemma window_copy (buf : list Z) (cap start_pos size : Z) :
  Z.of_nat (length buf) = cap -> 0 <= start_pos < cap -> 0 <= size <= cap ->
  (let! result := zeros size in
   if start_pos + size <=? cap then
     assign result None None (Py.slice buf (Some start_pos) (Some (start_pos + size)))
   else
     let first_part := cap - start_pos in
     let! result := assign result None (Some first_part)
                      (Py.slice buf (Some start_pos) None) in
     assign result (Some first_part) None (Py.slice buf None (Some (size - first_part))))
  = Py.Ok (take (Z.to_nat size) (drop (Z.to_nat start_pos) (buf ++ buf))).
Proof.
  intros Hlen Hstart Hsize. unfold zeros.
  destruct (Z.ltb_spec size 0); [lia|]. cbn [Py.bind].
  rewrite ring_window by lia.
  destruct (Z.leb_spec (start_pos + size) cap) as [Hfit|Hwrap].
  - rewrite decide_True by lia. rewrite slice_between by lia.
    replace (Z.to_nat (start_pos + size - start_pos)) with (Z.to_nat size) by lia.
    apply assign_all. rewrite repeat_length, length_take, length_drop. lia.
  - rewrite decide_False by lia. cbn zeta.
    rewrite slice_from by lia.
    rewrite assign_upto by (rewrite ?repeat_length, ?length_drop; lia).
    cbn [Py.bind]. rewrite slice_upto by lia.
    rewrite assign_from
      by (rewrite ?length_app, ?length_drop, ?length_take, ?repeat_length; lia).
    f_equal. rewrite take_app_length' by (rewrite length_drop; lia).
    do 2 f_equal. lia.
Qed.

(** [read] on a ring gives the oldest samples and keeps them. *)
Lemma read_ring (self : CircularAudioBuffer) (n : Z) :
  ring self -> 0 <= n <= _size self ->
  exists self',
    read self n = (self', Py.Ok (Some (take (Z.to_nat n) (contents self))))
    /\ ring self' /\ contents self' = contents self
    /\ _size self' = _size self /\ _capacity self' = _capacity self.
Proof.
  intros (Hlock & Hcap & Hlen & Hhead & Hsize & Htail) Hn.
  unfold read, with_lock. rewrite Hlock. cbn [set_lock _size _head _capacity _buffer].
  destruct (Z.ltb_spec (_size self) n); [lia|].
  pose proof (window_copy (_buffer self) (_capacity self) (_head self) n Hlen Hhead
                ltac:(lia)) as Hcopy.
  unfold Py.bind in Hcopy |- *.
  destruct (zeros n) as [result| |]; try discriminate Hcopy.
  destruct (if _head self + n <=? _capacity self then _ else _) as [copy| |];
    try discriminate Hcopy.
  injection Hcopy as ->.
  eexists. split.
  - cbn [set_lock]. f_equal. f_equal. f_equal. unfold contents.
    rewrite take_take. f_equal. lia.
  - cbn. unfold ring, contents. cbn. auto 10.
Qed.

(** Where the stored samples end. *)
Lemma ring_tail (head size cap : Z) :
  0 < cap -> 0 <= head < cap -> 0 <= size <= cap ->
  (head + size < cap /\ (head + size) mod cap = head + size)
  \/ (cap <= head + size /\ (head + size) mod cap = head + size - cap).
Proof.
  intros Hcap Hhead Hsize. destruct (Z_lt_le_dec (head + size) cap) as [Hlt|Hge].
  - left. split; [exact Hlt|]. apply Z.mod_small. lia.
  - right. split; [exact Hge|]. symmetry. apply (Z.mod_unique _ _ 1); lia.
Qed.

(** Writing [data] into a ring at its tail, as [append] does it in its two
    cases, puts [data] behind the samples that the ring holds. *)
Lemma ring_append (buf data : list Z) (h s t : nat) :
  (h < length buf)%nat -> (s + length data <= length buf)%nat ->
  ((h + s < length buf)%nat /\ t = (h + s)%nat
   \/ (length buf <= h + s)%nat /\ t = (h + s - length buf)%nat) ->
  let buf' :=
    if decide (t + length data <= length buf)%nat
    then take t buf ++ data ++ drop (t + length data) buf
    else drop (length buf - t) data
         ++ drop (length data - (length buf - t)) (take t buf ++ take (length buf - t) data) in
  length buf' = length buf
  /\ take (s + length data) (drop h (buf' ++ buf'))
     = take s (drop h (buf ++ buf)) ++ data.
Proof.
  intros Hh Hroom Ht. cbn zeta.
  destruct (decide (t + length data <= length buf)%nat) as [Hfit|Hwrap].
  - assert (Hlen : length (take t buf ++ data ++ drop (t + length data) buf) = length buf)
      by (rewrite !length_app, length_take_le, length_drop by lia; lia).
    split; [exact Hlen|].
    destruct Ht as [[Hlt ->]|[Hge ->]].
    + rewrite (ring_window buf h s) by lia. rewrite decide_True by lia.
      rewrite drop_app_le by lia. clear Hlen.
      rewrite drop_app_le by (rewrite length_take_le by lia; lia).
      rewrite <- !app_assoc.
      rewrite take_app_ge by (rewrite length_drop, length_take_le by lia; lia).
      rewrite length_drop, length_take_le by lia.
      rewrite take_app_le by lia. rewrite (take_ge data) by lia.
      f_equal. rewrite take_drop_commute. reflexivity.
    + rewrite (ring_window_wrap buf h s) by lia.
      set (t := (h + s - length buf)%nat) in *.
      set (buf' := take t buf ++ data ++ drop (t + length data) buf) in *.
      rewrite drop_app_le by lia. clear Hlen.
      assert (Hdrop : drop h buf' = drop h buf).
      { unfold buf'. rewrite app_assoc.
        rewrite drop_app_ge by (rewrite length_app, length_take_le by lia; lia).
        rewrite length_app, length_take_le, drop_drop by lia. f_equal. lia. }
      rewrite Hdrop. rewrite take_app_ge by (rewrite length_drop; lia).
      rewrite length_drop. rewrite <- app_assoc. f_equal.
      replace (s + length data - (length buf - h))%nat with (t + length data)%nat by lia.
      replace (s - (length buf - h))%nat with t by lia.
      unfold buf'. rewrite app_assoc.
      rewrite take_app_length' by (rewrite length_app, length_take_le by lia; lia). reflexivity.
  - destruct Ht as [[Hlt ->]|[Hge ->]]; [|lia].
    set (t := (h + s)%nat) in *. set (fp := (length buf - t)%nat) in *.
    set (buf1 := take t buf ++ take fp data).
    assert (Hlen1 : length buf1 = length buf)
      by (unfold buf1; rewrite length_app, !length_take_le by lia; lia).
    assert (Hlen : length (drop fp data ++ drop (length data - fp) buf1) = length buf)
      by (rewrite length_app, !length_drop; lia).
    split; [exact Hlen|].
    rewrite (ring_window buf h s) by lia. rewrite decide_True by lia.
    rewrite drop_app_le by lia. clear Hlen.
    assert (Hdrop : drop h (drop fp data ++ drop (length data - fp) buf1)
                    = drop h (take t buf) ++ take fp data).
    { rewrite drop_app_ge by (rewrite length_drop; lia).
      rewrite length_drop, drop_drop.
      replace (length data - fp + (h - (length data - fp)))%nat with h by lia.
      unfold buf1. rewrite drop_app_le by (rewrite length_take_le by lia; lia). reflexivity. }
    rewrite Hdrop. rewrite <- !app_assoc.
    rewrite take_app_ge by (rewrite length_drop, length_take_le by lia; lia).
    rewrite length_drop, length_take_le by lia.
    rewrite take_app_ge by (rewrite length_take_le by lia; lia).
    rewrite length_take_le by lia.
    rewrite take_app_length' by (rewrite length_drop; lia).
    rewrite take_drop_commute. f_equal. unfold t.
    rewrite take_drop. reflexivity.
Qed.

(** [append] on a ring with room for the data puts the data behind the
    stored samples. *)
Lemma append_ring (self : CircularAudioBuffer) (data : list Z) :
  ring self -> _size self + Z.of_nat (length data) <= _capacity self ->
  exists self',
    append self data = (self', Py.Ok true)
    /\ ring self' /\ contents self' = contents self ++ data
    /\ _size self' = _size self + Z.of_nat (length data)
    /\ _capacity self' = _capacity self
    /\ max_capacity self' = max_capacity self.
Proof.
  intros (Hlock & Hcap & Hlen & Hhead & Hsize & Htail) Hroom.
  unfold append, with_lock. rewrite Hlock.
  cbn [set_lock _size _head _tail _capacity _buffer].
  destruct (Z.ltb_spec (_capacity self) (_size self + Z.of_nat (length data))); [lia|].
  cbn [Py.bind negb set_lock _size _head _tail _capacity _buffer].
  destruct (Z.eqb_spec (_capacity self) 0); [lia|].
  pose proof (ring_tail _ _ _ Hcap Hhead Hsize) as Hwhere. rewrite <- Htail in Hwhere.
  assert (Ht : 0 <= _tail self < _capacity self).
  { rewrite Htail. apply Z.mod_pos_bound. lia. }
  destruct (ring_append (_buffer self) data (Z.to_nat (_head self)) (Z.to_nat (_size self))
              (Z.to_nat (_tail self))) as [Hlen' Hcontents]; [lia|lia|lia|].
  cbn zeta in Hlen', Hcontents.
  set (written := if decide (_ <= _)%nat then _ else _) in *.
  assert (Hwrite :
    (if _tail self + Z.of_nat (length data) <=? _capacity self
     then assign (_buffer self) (Some (_tail self))
            (Some (_tail self + Z.of_nat (length data))) data
     else
       let! buffer := assign (_buffer self) (Some (_tail self)) None
                        (Py.slice data None (Some (_capacity self - _tail self))) in
       assign buffer None (Some (Z.of_nat (length data) - (_capacity self - _tail self)))
         (Py.slice data (Some (_capacity self - _tail self)) None)) = Py.Ok written).
  { unfold written.
    destruct (Z.leb_spec (_tail self + Z.of_nat (length data)) (_capacity self)) as [Hfit|Hwrap].
    - rewrite decide_True by lia. rewrite assign_between by lia.
      do 4 f_equal. lia.
    - rewrite decide_False by lia.
      rewrite slice_upto by lia.
      rewrite assign_from by (rewrite ?length_take; lia).
      cbn [Py.bind]. rewrite slice_from by lia.
      rewrite assign_upto
        by (rewrite ?length_app, ?length_take, ?length_drop; lia).
      f_equal. f_equal; [f_equal; lia|]. f_equal; [lia|].
      do 2 f_equal. lia. }
  rewrite Hwrite. cbn [Py.bind]. eexists. split; [reflexivity|].
  unfold ring, contents.
  cbn [set_lock _lock _capacity _buffer _head _size _tail max_capacity].
  split; [|split; [|auto]].
  - split; [reflexivity|]. split; [exact Hcap|]. split; [lia|]. split; [exact Hhead|].
    split; [lia|]. rewrite Htail, Zplus_mod_idemp_l. f_equal. lia.
  - rewrite <- Hcontents. f_equal. lia.
Qed.

(** X12: a buffer is a queue of samples. When the data fit into the
    present capacity, [append] stores them behind the samples that are
    there, without resizing, and [read] then gives the oldest [n] samples
    of the whole, also when the stored samples run across the end of the
    ring. (Samples are taken to be of the buffer's [dtype].) *)
Theorem append_then_read (self : CircularAudioBuffer) (data : list Z) (n : Z) :
  ring self ->
  _size self + Z.of_nat (length data) <= _capacity self ->
  0 <= n <= _size self + Z.of_nat (length data) ->
  exists stored,
    append self data = (stored, Py.Ok true)
    /\ size stored = size self + Z.of_nat (length data)
    /\ capacity stored = capacity self
    /\ contents stored = contents self ++ data
    /\ snd (read stored n) = Py.Ok (Some (take (Z.to_nat n) (contents self ++ data))).
Proof.
  intros Hring Hroom Hn.
  destruct (append_ring self data Hring Hroom) as (stored & Happend & Hr & Hc & Hs & Hcap & _).
  exists stored. split; [exact Happend|]. split; [exact Hs|]. split; [exact Hcap|].
  split; [exact Hc|].
  destruct (read_ring stored n Hr) as (after & Hread & _); [lia|].
  rewrite Hread, Hc. reflexivity.
Qed.

Lemma ring_wrapped_ring : ring wrapped_ring.
Proof. unfold ring. cbn. repeat split; lia. Qed.

Lemma append_then_read_witness :
  contents wrapped_ring = [1; 2; 3]
  /\ exists stored,
       append wrapped_ring [4; 5; 6] = (stored, Py.Ok true)
       /\ _buffer stored = [3; 4; 5; 6; 0; 0; 1; 2]
       /\ snd (read stored 5) = Py.Ok (Some [1; 2; 3; 4; 5]).
Proof.
  split; [reflexivity|].
  destruct (append_then_read wrapped_ring [4; 5; 6] 5 ring_wrapped_ring)
    as (stored & Happend & _ & _ & _ & Hread); [cbn; lia|cbn; lia|].
  exists stored. split; [exact Happend|]. split; [|exact Hread].
  vm_compute in Happend. injection Happend as <-. reflexivity.
Defined.

(** X13: [peek] shows [size] samples from the place [offset] of the stored
    ones on and changes nothing, not even the count of reads; it returns
    [None] when the buffer holds fewer than [offset + size] samples. *)
Theorem peek_window (self : CircularAudioBuffer) (n offset : Z) :
  ring self -> 0 <= n -> 0 <= offset ->
  peek self n offset
  = (self,
     Py.Ok (if _size self <? offset + n then None
            else Some (take (Z.to_nat n) (drop (Z.to_nat offset) (contents self))))).
Proof.
  intros (Hlock & Hcap & Hlen & Hhead & Hsize & Htail) Hn Hoffset.
  unfold peek, with_lock. rewrite Hlock. cbn [set_lock _size _head _capacity _buffer].
  destruct (Z.ltb_spec (_size self) (offset + n)) as [Hshort|Henough].
  - rewrite set_lock_idle by exact Hlock. reflexivity.
  - destruct (Z.eqb_spec (_capacity self) 0); [lia|].
    pose proof (Z.mod_pos_bound (_head self + offset) (_capacity self) Hcap) as Hstart.
    pose proof (window_copy (_buffer self) (_capacity self)
                  ((_head self + offset) mod _capacity self) n Hlen Hstart ltac:(lia))
      as Hcopy.
    unfold Py.bind in Hcopy |- *.
    destruct (zeros n) as [result| |]; try discriminate Hcopy.
    destruct (if _ <=? _capacity self then _ else _) as [copy| |]; try discriminate Hcopy.
    injection Hcopy as ->. rewrite set_lock_idle by exact Hlock.
    do 3 f_equal. unfold contents.
    set (buf := _buffer self) in *.
    rewrite skipn_firstn_comm, take_take, drop_drop.
    rewrite (Nat.min_l (Z.to_nat n)) by lia.
    destruct (Z_lt_le_dec (_head self + offset) (_capacity self)) as [Hlt|Hge].
    + rewrite Z.mod_small by lia. do 2 f_equal. lia.
    + replace ((_head self + offset) mod _capacity self)
        with (_head self + offset - _capacity self)
        by (apply (Z.mod_unique _ _ 1); lia).
      rewrite (drop_app_ge buf buf (Z.to_nat (_head self) + Z.to_nat offset)) by lia.
      rewrite (drop_app_le buf buf) by lia.
      rewrite take_app_le by (rewrite length_drop; lia).
      do 2 f_equal. lia.
Qed.

Lemma peek_window_witness :
  peek wrapped_ring 2 1 = (wrapped_ring, Py.Ok (Some [2; 3]))
  /\ peek wrapped_ring 3 1 = (wrapped_ring, Py.Ok None).
Proof.
  split.
  - rewrite (peek_window wrapped_ring 2 1 ring_wrapped_ring); [reflexivity|lia|lia].
  - rewrite (peek_window wrapped_ring 3 1 ring_wrapped_ring); [reflexivity|lia|lia].
Defined.

Lemma init_ring (initial_capacity max_capacity : Z) :
  0 < initial_capacity ->
  exists fresh,
    init initial_capacity max_capacity = Py.Ok fresh
    /\ ring fresh /\ contents fresh = [] /\ _capacity fresh = initial_capacity.
Proof.
  intros Hc. unfold init, zeros. destruct (Z.ltb_spec initial_capacity 0); [lia|].
  cbn [Py.bind]. eexists. split; [reflexivity|].
  unfold ring, contents. cbn. rewrite repeat_length.
  split; [|auto]. rewrite Z.mod_0_l by lia. repeat split; lia.
Qed.

Lemma append_all_ring (chunks : list (list Z)) (self : CircularAudioBuffer) :
  ring self ->
  _size self + Z.of_nat (length (concat chunks)) <= _capacity self ->
  exists stored,
    append_all self chunks = (stored, Py.Ok (repeat true (length chunks)))
    /\ ring stored /\ contents stored = contents self ++ concat chunks
    /\ _size stored = _size self + Z.of_nat (length (concat chunks))
    /\ _capacity stored = _capacity self.
Proof.
  revert self. induction chunks as [|data chunks IH]; intros self Hring Hroom.
  - exists self. cbn [append_all concat length repeat]. rewrite app_nil_r.
    split; [reflexivity|]. split; [exact Hring|]. split; [reflexivity|]. split; lia.
  - cbn [concat] in *. rewrite length_app in Hroom.
    destruct (append_ring self data Hring) as (s1 & Happend & Hr1 & Hc1 & Hs1 & Hcap1 & _);
      [lia|].
    destruct (IH s1 Hr1) as (stored & Hall & Hr & Hc & Hs & Hcap); [lia|].
    exists stored. cbn [append_all]. rewrite Happend, Hall. cbn [length repeat].
    split; [reflexivity|]. split; [exact Hr|].
    rewrite Hc, Hc1, Hs, Hs1, Hcap, Hcap1, <- app_assoc, length_app.
    repeat split; lia.
Qed.

(** X14: chunks appended to a fresh buffer whose capacity they do not
    exceed are all taken, nothing is resized, and [read] gives back the
    samples in the order in which they came: the first [n] of the chunks
    laid end to end. To ask for more samples than are stored gives
    [None]. *)
Theorem fresh_buffer_keeps_order (initial_capacity max_capacity : Z)
    (chunks : list (list Z)) (n : Z) :
  0 < initial_capacity ->
  Z.of_nat (length (concat chunks)) <= initial_capacity ->
  0 <= n ->
  exists fresh stored,
    init initial_capacity max_capacity = Py.Ok fresh
    /\ append_all fresh chunks = (stored, Py.Ok (repeat true (length chunks)))
    /\ capacity stored = initial_capacity
    /\ size stored = Z.of_nat (length (concat chunks))
    /\ snd (read stored n)
       = Py.Ok (if size stored <? n then None
                else Some (take (Z.to_nat n) (concat chunks))).
Proof.
  intros Hc Hfit Hn.
  destruct (init_ring initial_capacity max_capacity Hc) as (fresh & Hinit & Hring & Hempty & Hcap).
  assert (Hsize0 : _size fresh = 0).
  { unfold init, zeros in Hinit. destruct (initial_capacity <? 0); [discriminate|].
    cbn in Hinit. injection Hinit as <-. reflexivity. }
  destruct (append_all_ring chunks fresh Hring) as (stored & Hall & Hr & Hcontents & Hs & Hcs);
    [lia|].
  exists fresh, stored. split; [exact Hinit|]. split; [exact Hall|].
  unfold capacity, size. split; [lia|]. split; [lia|].
  destruct (Z.ltb_spec (_size stored) n) as [Hshort|Henough].
  - destruct Hr as (Hlock & _). unfold read, with_lock. rewrite Hlock.
    cbn [set_lock _size]. destruct (Z.ltb_spec (_size stored) n); [|lia]. reflexivity.
  - destruct (read_ring stored n Hr) as (after & Hread & _); [lia|].
    rewrite Hread, Hcontents, Hempty. reflexivity.
Qed.

Lemma fresh_buffer_keeps_order_witness :
  exists fresh stored,
    init 8 16 = Py.Ok fresh
    /\ append_all fresh [[1; 2]; [3]; [4; 5; 6]] = (stored, Py.Ok [true; true; true])
    /\ snd (read stored 4) = Py.Ok (Some [1; 2; 3; 4])
    /\ snd (read stored 7) = Py.Ok None.
Proof.
  destruct (fresh_buffer_keeps_order 8 16 [[1; 2]; [3]; [4; 5; 6]] 4)
    as (fresh & stored & Hinit & Hall & _ & Hsize & Hread); [lia|cbn; lia|lia|].
  exists fresh, stored. split; [exact Hinit|]. split; [exact Hall|].
  rewrite Hsize in Hread. split; [exact Hread|].
  vm_compute in Hinit. injection Hinit as <-.
  vm_compute in Hall. injection Hall as <-. reflexivity.
Defined.

(** *** Memory pool *)

Lemma fill_pools_invariant (sizes : list Z) (count : nat)
    (pools result : gmap Z (list (list Z))) (limit : Z) :
  Z.of_nat count <= Z.max 0 limit ->
  (forall pool_size arrays, pools !! pool_size = Some arrays ->
     Z.of_nat (length arrays) <= Z.max 0 limit
     /\ forall array, array ∈ arrays -> Z.of_nat (length array) = pool_size) ->
  fill_pools sizes count pools = Py.Ok result ->
  forall pool_size arrays, result !! pool_size = Some arrays ->
    Z.of_nat (length arrays) <= Z.max 0 limit
    /\ forall array, array ∈ arrays -> Z.of_nat (length array) = pool_size.
Proof.
  intros Hcount. revert pools. induction sizes as [|size sizes IH]; intros pools Hinv Hfill.
  - cbn in Hfill. injection Hfill as <-. exact Hinv.
  - cbn [fill_pools] in Hfill.
    destruct (match count with O => _ | S _ => _ end) as [arrays| |] eqn:Harrays;
      try discriminate Hfill.
    cbn [Py.bind] in Hfill. apply (IH (<[size := arrays]> pools)); [|exact Hfill].
    intros ps arrs. destruct (decide (size = ps)) as [<-|Hne].
    + rewrite lookup_insert_eq. intros [= <-].
      destruct count as [|count].
      * injection Harrays as <-. cbn. split; [lia|]. intros a Ha. inversion Ha.
      * unfold zeros in Harrays. destruct (Z.ltb_spec size 0); [discriminate|].
        cbn [Py.bind] in Harrays.
        assert (Hrep : arrays = repeat (repeat 0 (Z.to_nat size)) (S count))
          by (injection Harrays as <-; reflexivity).
        clear Harrays. subst arrays.
        rewrite repeat_length. split; [exact Hcount|].
        intros a Ha. apply list_elem_of_In, repeat_spec in Ha. subst a.
        rewrite repeat_length. lia.
    + rewrite lookup_insert_ne by done. apply Hinv.
Qed.

Lemma memory_pool_invariant_reachable (sizes : option (list Z)) (limit : Z)
    (self : MemoryPool) :
  memory_pool_reachable sizes limit self ->
  memory_pool_invariant self /\ max_arrays_per_size self = limit.
Proof.
  intros Hreach. induction Hreach as [fresh Hinit|self size _ [[Hpools Hcount] Hmax]
                                      |self array _ [[Hpools Hcount] Hmax]].
  - unfold memory_pool_init in Hinit.
    destruct (fill_pools _ _ ∅) as [pools| |] eqn:Hfill; try discriminate Hinit.
    cbn [Py.bind] in Hinit. injection Hinit as <-. split; [split|]; cbn; [|lia|reflexivity].
    apply (fill_pools_invariant _ _ ∅ pools limit) with (3 := Hfill); [lia|].
    intros ps arrs. rewrite lookup_empty. discriminate.
  - unfold get_array.
    destruct (List.find _ (pool_sizes self)) as [ps|]; [|split; [split|]; cbn; [exact Hpools|lia|exact Hmax]].
    destruct (_pools self !! ps) as [[|array rest]|] eqn:Hps;
      try (split; [split|]; cbn; [exact Hpools|lia|exact Hmax]).
    split; [split|]; cbn; [|lia|exact Hmax].
    intros ps' arrs. destruct (decide (ps = ps')) as [<-|Hne].
    + rewrite lookup_insert_eq. intros [= <-].
      destruct (Hpools _ _ Hps) as [Hlen Hall]. cbn [length] in Hlen. split; [lia|].
      intros a Ha. apply Hall. right. exact Ha.
    + rewrite lookup_insert_ne by done. apply Hpools.
  - unfold return_array.
    destruct (List.find _ (pool_sizes self)) as [ps|] eqn:Hfind;
      [|split; [split|]; assumption].
    destruct (_pools self !! ps) as [pool|] eqn:Hps; [|split; [split|]; assumption].
    destruct (Z.ltb_spec (Z.of_nat (length pool)) (max_arrays_per_size self));
      [|split; [split|]; assumption].
    split; [split|]; cbn; [|exact Hcount|exact Hmax].
    apply find_some in Hfind as [_ Heq]. apply Z.eqb_eq in Heq.
    intros ps' arrs. destruct (decide (ps = ps')) as [<-|Hne].
    + rewrite lookup_insert_eq. intros [= <-].
      destruct (Hpools _ _ Hps) as [Hlen Hall]. rewrite length_app. cbn [length].
      split; [lia|]. intros a Ha. apply elem_of_app in Ha as [Ha|Ha]; [apply Hall, Ha|].
      apply list_elem_of_singleton in Ha. subst a. lia.
    + rewrite lookup_insert_ne by done. apply Hpools.
Qed.

Lemma take_repeat {B : Type} (x : B) (n m : nat) :
  (n <= m)%nat -> take n (repeat x m) = repeat x n.
Proof.
  revert m. induction n as [|n IH]; intros m Hm; [reflexivity|].
  destruct m as [|m]; [lia|]. cbn. rewrite IH by lia. reflexivity.
Qed.

(** X15: whatever arrays were taken from a pool and given back to it,
    [get_array] answers a request for [size] samples, [size] not negative,
    with an array of exactly [size] zeros, from the pool or newly made. *)
Theorem get_array_zeros (sizes : option (list Z)) (limit : Z) (self : MemoryPool)
    (size : Z) :
  memory_pool_reachable sizes limit self ->
  0 <= size ->
  snd (get_array self size) = Py.Ok (repeat 0 (Z.to_nat size)).
Proof.
  intros Hreach Hsize.
  destruct (memory_pool_invariant_reachable sizes limit self Hreach) as [[Hpools _] _].
  assert (Hmiss : zeros size = Py.Ok (repeat 0 (Z.to_nat size))).
  { unfold zeros. destruct (Z.ltb_spec size 0); [lia|reflexivity]. }
  unfold get_array.
  destruct (List.find _ (pool_sizes self)) as [ps|] eqn:Hfind; [|exact Hmiss].
  destruct (_pools self !! ps) as [[|array rest]|] eqn:Hps; try exact Hmiss.
  cbn [snd]. apply find_some in Hfind as [_ Hle]. apply Z.leb_le in Hle.
  destruct (Hpools _ _ Hps) as [_ Hall]. specialize (Hall array ltac:(left)).
  f_equal. destruct (Z.ltb_spec size ps) as [Hlt|Hge].
  - rewrite slice_upto by (rewrite repeat_length; lia).
    apply take_repeat. lia.
  - f_equal. lia.
Qed.

Lemma get_array_zeros_witness :
  exists fresh,
    memory_pool_init (Some [8; 4]) 10 = Py.Ok fresh
    /\ snd (get_array fresh 3) = Py.Ok [0; 0; 0]
    /\ _hits (fst (get_array fresh 3)) = 1
    /\ _pools (fst (get_array fresh 3)) !! 4 = Some [[0; 0; 0; 0]; [0; 0; 0; 0]].
Proof.
  destruct (memory_pool_init (Some [8; 4]) 10) as [fresh| |] eqn:Hinit;
    [|vm_compute in Hinit; discriminate Hinit..].
  exists fresh. split; [reflexivity|].
  split.
  - apply (get_array_zeros (Some [8; 4]) 10 fresh 3); [|lia].
    apply memory_pool_reachable_init, Hinit.
  - vm_compute in Hinit. injection Hinit as <-. split; reflexivity.
Defined.

(** X16: a pool never keeps more than [max_arrays_per_size] arrays of one
    size, whatever is given back to it, every array it keeps for a size has
    that size, and its count of allocations is the count of hits and the
    count of misses together. *)
Theorem memory_pool_bounded (sizes : option (list Z)) (limit : Z) (self : MemoryPool) :
  memory_pool_reachable sizes limit self ->
  (forall pool_size arrays, _pools self !! pool_size = Some arrays ->
     Z.of_nat (length arrays) <= Z.max 0 limit
     /\ forall array, array ∈ arrays -> Z.of_nat (length array) = pool_size)
  /\ _hits self + _misses self = _allocations self.
Proof.
  intros Hreach.
  destruct (memory_pool_invariant_reachable sizes limit self Hreach) as [[Hpools Hcount] <-].
  split; [exact Hpools|exact Hcount].
Qed.

Lemma memory_pool_bounded_witness :
  exists fresh,
    memory_pool_init (Some [4; 2]) 1 = Py.Ok fresh
    /\ _pools (return_array fresh [7; 7]) !! 2 = Some [[0; 0]]
    /\ forall arrays, _pools (return_array fresh [7; 7]) !! 2 = Some arrays ->
         Z.of_nat (length arrays) <= 1.
Proof.
  destruct (memory_pool_init (Some [4; 2]) 1) as [fresh| |] eqn:Hinit;
    [|vm_compute in Hinit; discriminate Hinit..].
  exists fresh. split; [reflexivity|].
  split.
  - vm_compute in Hinit. injection Hinit as <-. reflexivity.
  - intros arrays Harrays.
    destruct (memory_pool_bounded (Some [4; 2]) 1 (return_array fresh [7; 7])) as [Hb _].
    + apply memory_pool_reachable_return, memory_pool_reachable_init, Hinit.
    + apply (Hb 2 arrays Harrays).
Defined.

(** *** Smart cache *)

Section smart_cache_facts.

Context {V : Type}.
Variable weakrefable : V -> bool.
Variable _estimate_size : V -> Qc.

Implicit Types (self : SmartCache V) (key : string).

Lemma deque_remove_listed (x : string) (d : list string) :
  NoDup d -> x ∈ d ->
  exists d', deque_remove x d = Some d' /\ NoDup d'
             /\ forall y, y ∈ d' <-> y ∈ d /\ y <> x.
Proof.
  induction d as [|z d IH]; intros Hnd Hx; [inversion Hx|].
  apply NoDup_cons in Hnd as [Hz Hnd]. cbn [deque_remove].
  destruct (decide (z = x)) as [->|Hne].
  - exists d. split; [reflexivity|]. split; [exact Hnd|].
    intros y. rewrite elem_of_cons. split.
    + intros Hy. split; [right; exact Hy|]. intros ->. contradiction.
    + intros [[->|Hy] Hyx]; [contradiction|exact Hy].
  - apply elem_of_cons in Hx as [->|Hx]; [contradiction|].
    destruct (IH Hnd Hx) as (d' & -> & Hnd' & Hd'). exists (z :: d'). cbn.
    split; [reflexivity|]. split.
    + apply NoDup_cons. split; [|exact Hnd']. rewrite Hd'. intros [Hin _]. contradiction.
    + intros y. rewrite !elem_of_cons, Hd'. split.
      * intros [->|[Hy Hyx]]; [split; [left; reflexivity|exact Hne]|auto].
      * intros [[->|Hy] Hyx]; auto.
Qed.

Lemma cache_remove_listed self key :
  cache_invariant self -> is_Some (_cache self !! key) ->
  exists order,
    deque_remove key (_access_order self) = Some order
    /\ cache_remove self key
       = (set_entries self (delete key (_cache self)) order (_weak_refs self ∖ {[key]}),
          Returns, true)
    /\ cache_invariant
         (set_entries self (delete key (_cache self)) order (_weak_refs self ∖ {[key]})).
Proof.
  intros [Hnd Hkeys] [v Hv].
  destruct (deque_remove_listed key (_access_order self) Hnd) as (order & Hrm & Hnd' & Hin).
  { apply Hkeys. eauto. }
  exists order. split; [exact Hrm|]. unfold cache_remove. rewrite Hv, Hrm.
  split; [reflexivity|]. split; cbn; [exact Hnd'|].
  intros k. rewrite Hin, Hkeys. destruct (decide (key = k)) as [<-|Hne].
  - rewrite lookup_delete_eq. split; [intros [_ Hn]; contradiction|intros [? [=]]].
  - rewrite lookup_delete_ne by done. split; [intros [H _]; exact H|auto].
Qed.

Lemma evict_oldest_invariant self :
  cache_invariant self ->
  cache_invariant (fst (_evict_oldest self))
  /\ _memory_usage (fst (_evict_oldest self)) = _memory_usage self
  /\ max_size (fst (_evict_oldest self)) = max_size self
  /\ max_memory_mb (fst (_evict_oldest self)) = max_memory_mb self
  /\ match _access_order self with
     | [] => _evict_oldest self = (self, false)
     | oldest :: rest =>
       snd (_evict_oldest self) = true
       /\ _access_order (fst (_evict_oldest self)) = rest
       /\ _cache (fst (_evict_oldest self)) = delete oldest (_cache self)
     end.
Proof.
  intros Hinv. pose proof Hinv as [Hnd Hkeys]. unfold _evict_oldest.
  destruct (_access_order self) as [|oldest rest] eqn:Horder.
  - cbn [fst snd]. auto 10.
  - apply NoDup_cons in Hnd as [Hold Hnd].
    destruct (proj1 (Hkeys oldest)) as [v Hv]; [left|]. rewrite Hv.
    cbn [fst snd set_entries _cache _access_order _memory_usage max_size max_memory_mb].
    split; [|auto 10]. split; cbn [set_entries _cache _access_order]; [exact Hnd|].
    intros k. destruct (decide (oldest = k)) as [<-|Hne].
    + rewrite lookup_delete_eq. split; [contradiction|intros [? [=]]].
    + rewrite lookup_delete_ne by done. rewrite <- Hkeys, elem_of_cons.
      split; [auto|intros [Heq|H]; [congruence|exact H]].
Qed.

(** Whether the loop of [put] goes on for a new entry of [size_mb]. *)
Lemma make_room_done (turns : nat) self (size_mb : Qc) :
  cache_invariant self ->
  (length (_access_order self) < turns)%nat ->
  let after := make_room self size_mb turns in
  cache_invariant after
  /\ _memory_usage after = _memory_usage self
  /\ max_size after = max_size self
  /\ max_memory_mb after = max_memory_mb self
  /\ (exists gone, _access_order self = gone ++ _access_order after
                   /\ _cache after = foldr delete (_cache self) gone)
  /\ ((max_size after <=? Z.of_nat (base.size (_cache after)))
      || bool_decide (max_memory_mb after < _memory_usage after + size_mb)%Qc = true ->
      _access_order after = [] /\ _cache after = ∅).
Proof.
  revert self. induction turns as [|turns IH]; intros self Hinv Hturns; [lia|].
  cbn zeta. cbn [make_room].
  destruct ((max_size self <=? Z.of_nat (base.size (_cache self)))
            || bool_decide (max_memory_mb self < _memory_usage self + size_mb)%Qc) eqn:Hfull.
  - destruct (evict_oldest_invariant self Hinv) as (Hinv1 & Hmem1 & Hmax1 & Hmm1 & Hwhat).
    destruct (_evict_oldest self) as [self1 evicted] eqn:Hevict. cbn [fst snd] in *.
    destruct (_access_order self) as [|oldest rest] eqn:Horder.
    + injection Hwhat as -> ->.
      split; [exact Hinv|]. split; [reflexivity|]. split; [reflexivity|].
      split; [reflexivity|]. split.
      * exists []. rewrite Horder. auto.
      * intros _. split; [exact Horder|]. destruct Hinv as [_ Hkeys].
        apply map_eq. intros k. rewrite lookup_empty.
        destruct (_cache self !! k) eqn:Hk; [|reflexivity].
        assert (Hin : k ∈ _access_order self) by (apply Hkeys; eauto).
        rewrite Horder in Hin. inversion Hin.
    + destruct Hwhat as (-> & Hrest & Hcache).
      destruct (IH self1 Hinv1) as (Hinv2 & Hmem2 & Hmax2 & Hmm2 & (gone & Hgone & Hc2) & Hstop).
      { rewrite Hrest. cbn [length] in Hturns. lia. }
      cbn zeta in *. split; [exact Hinv2|]. split; [congruence|]. split; [congruence|].
      split; [congruence|]. split; [|exact Hstop].
      exists (oldest :: gone). rewrite Hrest in Hgone. rewrite Hgone, Hc2, Hcache.
      split; [reflexivity|]. cbn [foldr].
      clear. induction gone as [|g gone IH]; [reflexivity|]. cbn [foldr].
      rewrite IH. apply delete_delete.
  - split; [exact Hinv|]. split; [reflexivity|]. split; [reflexivity|].
    split; [reflexivity|]. split; [exists []; auto|]. rewrite Hfull. discriminate.
Qed.

(** What [put] does to a cache in which the key is new. *)
Lemma cache_put_new self key (value : V) (size_mb : option Qc) :
  cache_invariant self -> _cache self !! key = None ->
  let mb := default (_estimate_size value) size_mb in
  let room := make_room self mb (S (length (_access_order self))) in
  let stored := fst (cache_put weakrefable _estimate_size self key value size_mb) in
  snd (cache_put weakrefable _estimate_size self key value size_mb)
  = (if weakrefable value then Returns else RaisesTypeError)
  /\ _cache stored = <[key := value]> (_cache room)
  /\ _access_order stored = _access_order room ++ [key]
  /\ _memory_usage stored = (_memory_usage self + mb)%Qc
  /\ max_size stored = max_size self
  /\ cache_invariant stored.
Proof.
  intros Hinv Hnew. cbn zeta. unfold cache_put. rewrite Hnew.
  destruct (make_room_done (S (length (_access_order self))) self
              (default (_estimate_size value) size_mb) Hinv ltac:(lia))
    as ([Hnd Hkeys] & Hmem & Hmax & _ & (gone & Hgone & Hcache) & _).
  cbn zeta in *.
  set (room := make_room self _ _) in *.
  assert (Hfresh : _cache room !! key = None).
  { destruct (_cache room !! key) eqn:Hk; [|reflexivity].
    assert (Hin : key ∈ _access_order room) by (apply Hkeys; eauto).
    assert (Hin' : key ∈ _access_order self) by (rewrite Hgone; apply elem_of_app; auto).
    apply (proj2 Hinv) in Hin'. rewrite Hnew in Hin'. destruct Hin' as [? [=]]. }
  assert (Hinv' : NoDup (_access_order room ++ [key])
                  /\ forall k, k ∈ _access_order room ++ [key]
                               <-> is_Some (<[key := value]> (_cache room) !! k)).
  { split.
    - apply NoDup_app. split; [exact Hnd|]. split; [|apply NoDup_singleton].
      intros k Hk Hk'. apply list_elem_of_singleton in Hk'. subst k.
      apply Hkeys in Hk. rewrite Hfresh in Hk. destruct Hk as [? [=]].
    - intros k. rewrite elem_of_app, list_elem_of_singleton.
      destruct (decide (key = k)) as [<-|Hne].
      + rewrite lookup_insert_eq. split; eauto.
      + rewrite lookup_insert_ne by done. rewrite Hkeys.
        split; [intros [H|H]; [exact H|congruence]|auto]. }
  destruct (weakrefable value); cbn [fst snd set_entries _cache _access_order
                                       _memory_usage max_size cache_invariant];
    rewrite Hmem, Hmax; auto 10.
Qed.

(** X17: what is put into the cache is found there. On a cache whose
    order of access lists its keys, [put] of a value that can be referred
    to weakly returns, [get] of the key then gives the value, and with
    [max_size] at least 1 the cache holds no more than [max_size]
    entries. *)
Theorem cache_put_then_get self key (value : V) (size_mb : option Qc) :
  cache_invariant self -> weakrefable value = true ->
  exists stored,
    cache_put weakrefable _estimate_size self key value size_mb = (stored, Returns)
    /\ cache_invariant stored
    /\ snd (cache_get stored key) = Py.Ok (Some value)
    /\ (1 <= max_size self -> Z.of_nat (base.size (_cache stored)) <= max_size self).
Proof.
  intros Hinv Hweak.
  assert (Hgen : forall self0, cache_invariant self0 -> _cache self0 !! key = None ->
    exists stored,
      cache_put weakrefable _estimate_size self0 key value size_mb = (stored, Returns)
      /\ cache_invariant stored
      /\ snd (cache_get stored key) = Py.Ok (Some value)
      /\ (1 <= max_size self0 -> Z.of_nat (base.size (_cache stored)) <= max_size self0)).
  { intros self0 Hinv0 Hnew.
    destruct (cache_put_new self0 key value size_mb Hinv0 Hnew)
      as (Hend & Hcache & Horder & _ & _ & Hinv').
    cbn zeta in *. rewrite Hweak in Hend.
    destruct (cache_put weakrefable _estimate_size self0 key value size_mb)
      as [stored e] eqn:Hput. cbn [fst snd] in *. subst e.
    exists stored. split; [reflexivity|]. split; [exact Hinv'|].
    destruct (make_room_done (S (length (_access_order self0))) self0
                (default (_estimate_size value) size_mb) Hinv0 ltac:(lia))
      as (Hinv1 & Hmem & Hmax & Hmm & _ & Hstop).
    cbn zeta in *. set (room := make_room self0 _ _) in *. split.
    - unfold cache_get. rewrite Hcache, lookup_insert_eq.
      destruct (deque_remove_listed key (_access_order stored) (proj1 Hinv')) as (d & -> & _).
      { rewrite Horder. apply elem_of_app. right. left. }
      reflexivity.
    - intros Hone. rewrite Hcache.
      destruct ((max_size room <=? Z.of_nat (base.size (_cache room)))
                || bool_decide (max_memory_mb room < _memory_usage room
                                + default (_estimate_size value) size_mb)%Qc) eqn:Hfull.
      + destruct (Hstop eq_refl) as [_ ->]. rewrite insert_empty, map_size_singleton. lia.
      + apply orb_false_iff in Hfull as [Hsize _]. apply Z.leb_gt in Hsize.
        rewrite Hmax in Hsize.
        rewrite map_size_insert. destruct (_cache room !! key); unfold id; lia. }
  destruct (_cache self !! key) as [old|] eqn:Hold; [|apply Hgen; assumption].
  destruct (cache_remove_listed self key Hinv) as (order & Hrm & Hremove & Hinv1); [eauto|].
  set (self1 := set_entries self (delete key (_cache self)) order (_weak_refs self ∖ {[key]}))
    in *.
  destruct (Hgen self1 Hinv1) as (stored & Hput & Hrest).
  { apply lookup_delete_eq. }
  exists stored. split; [|exact Hrest].
  rewrite <- Hput. unfold cache_put. rewrite Hold, Hremove.
  cbn [_cache set_entries]. fold self1.
  replace (_cache self1 !! key) with (@None V) by (symmetry; apply lookup_delete_eq).
  reflexivity.
Qed.

(** X18: the cache never gives memory back. Neither [remove] nor an
    eviction lowers [_memory_usage], and [put] adds the size of the new
    entry to it; so once the sizes ever put exceed [max_memory_mb], every
    [put] evicts all the other entries, and the cache holds the new entry
    alone. *)
Theorem cache_memory_never_released self key (value : V) (size_mb : Qc) :
  cache_invariant self ->
  (max_memory_mb self < _memory_usage self + size_mb)%Qc ->
  let stored := fst (cache_put weakrefable _estimate_size self key value (Some size_mb)) in
  _cache stored = {[key := value]}
  /\ _memory_usage stored = (_memory_usage self + size_mb)%Qc
  /\ _memory_usage (fst (fst (cache_remove self key))) = _memory_usage self
  /\ _memory_usage (fst (_evict_oldest self)) = _memory_usage self.
Proof.
  intros Hinv Hover. cbn zeta.
  assert (Hgen : forall self0, cache_invariant self0 -> _cache self0 !! key = None ->
    (max_memory_mb self0 < _memory_usage self0 + size_mb)%Qc ->
    _cache (fst (cache_put weakrefable _estimate_size self0 key value (Some size_mb)))
    = {[key := value]}
    /\ _memory_usage (fst (cache_put weakrefable _estimate_size self0 key value (Some size_mb)))
       = (_memory_usage self0 + size_mb)%Qc).
  { intros self0 Hinv0 Hnew Hover0.
    destruct (cache_put_new self0 key value (Some size_mb) Hinv0 Hnew)
      as (_ & Hcache & _ & Hmem & _).
    cbn zeta in *. cbn [default from_option id] in *. split; [|exact Hmem].
    rewrite Hcache.
    destruct (make_room_done (S (length (_access_order self0))) self0 size_mb Hinv0 ltac:(lia))
      as (_ & Hm & _ & Hmm & _ & Hstop).
    cbn zeta in *. destruct Hstop as [_ ->]; [|apply insert_empty].
    apply orb_true_iff. right. apply bool_decide_eq_true. rewrite Hm, Hmm. exact Hover0. }
  split; [|split; [|split]].
  - destruct (_cache self !! key) as [old|] eqn:Hold; [|apply Hgen; assumption].
    destruct (cache_remove_listed self key Hinv) as (order & Hrm & Hremove & Hinv1); [eauto|].
    set (self1 := set_entries self (delete key (_cache self)) order (_weak_refs self ∖ {[key]}))
      in *.
    destruct (Hgen self1 Hinv1) as [Hc _]; [apply lookup_delete_eq|exact Hover|].
    rewrite <- Hc. unfold cache_put. rewrite Hold, Hremove.
    cbn [_cache set_entries]. fold self1.
    replace (_cache self1 !! key) with (@None V) by (symmetry; apply lookup_delete_eq).
    reflexivity.
  - destruct (_cache self !! key) as [old|] eqn:Hold; [|apply Hgen; assumption].
    destruct (cache_remove_listed self key Hinv) as (order & Hrm & Hremove & Hinv1); [eauto|].
    set (self1 := set_entries self (delete key (_cache self)) order (_weak_refs self ∖ {[key]}))
      in *.
    destruct (Hgen self1 Hinv1) as [_ Hm]; [apply lookup_delete_eq|exact Hover|].
    change (_memory_usage self) with (_memory_usage self1). rewrite <- Hm.
    unfold cache_put. rewrite Hold, Hremove.
    cbn [_cache set_entries]. fold self1.
    replace (_cache self1 !! key) with (@None V) by (symmetry; apply lookup_delete_eq).
    reflexivity.
  - unfold cache_remove. destruct (_cache self !! key); [|reflexivity].
    destruct (deque_remove key (_access_order self)); reflexivity.
  - apply evict_oldest_invariant, Hinv.
Qed.

(** X19: the cache evicts the entry used least recently. When a cache
    that is full, and within its memory, takes a new key, the key at the
    head of the order of access goes and no other; and [get] moves the key
    it finds to the end of that order, the place evicted last. *)
Theorem cache_evicts_least_recent self key (value : V) (size_mb : Qc)
    (oldest : string) (others : list string) :
  cache_invariant self ->
  _access_order self = oldest :: others ->
  _cache self !! key = None ->
  1 <= max_size self ->
  Z.of_nat (base.size (_cache self)) = max_size self ->
  (_memory_usage self + size_mb <= max_memory_mb self)%Qc ->
  let stored := fst (cache_put weakrefable _estimate_size self key value (Some size_mb)) in
  _cache stored = <[key := value]> (delete oldest (_cache self))
  /\ _access_order stored = others ++ [key]
  /\ forall used, used ∈ others ->
       exists before after,
         others = before ++ used :: after
         /\ _access_order (fst (cache_get stored used)) = before ++ after ++ [key; used].
Proof.
  intros Hinv Horder Hnew Hone Hfull Hmem. cbn zeta.
  destruct (cache_put_new self key value (Some size_mb) Hinv Hnew)
    as (_ & Hcache & Hord & _ & _ & Hinv').
  cbn zeta in *. cbn [default from_option id] in *.
  assert (Hroom : make_room self size_mb (S (length (_access_order self)))
                  = fst (_evict_oldest self)).
  { cbn [make_room].
    destruct (Z.leb_spec (max_size self) (Z.of_nat (base.size (_cache self)))); [|lia].
    cbn [orb].
    destruct (evict_oldest_invariant self Hinv) as (Hinv1 & Hm1 & Hmax1 & Hmm1 & Hwhat).
    rewrite Horder in Hwhat. destruct Hwhat as (Hev & Hrest & Hc).
    destruct (_evict_oldest self) as [self1 evicted]. cbn [fst snd] in *. subst evicted.
    rewrite Horder. cbn [length make_room].
    assert (Hsize : Z.of_nat (base.size (_cache self1)) = max_size self - 1).
    { rewrite Hc, map_size_delete.
      destruct (proj1 (proj2 Hinv oldest)) as [v Hv]; [rewrite Horder; left|].
      rewrite Hv. assert (base.size (_cache self) <> 0%nat) by lia. lia. }
    destruct (Z.leb_spec (max_size self1) (Z.of_nat (base.size (_cache self1)))); [lia|].
    cbn [orb]. rewrite bool_decide_eq_false_2; [reflexivity|].
    rewrite Hm1, Hmm1. apply Qcle_not_lt, Hmem. }
  rewrite Hroom in Hcache, Hord.
  destruct (evict_oldest_invariant self Hinv) as (_ & _ & _ & _ & Hwhat).
  rewrite Horder in Hwhat. destruct Hwhat as (_ & Hrest & Hc).
  rewrite Hc in Hcache. rewrite Hrest in Hord.
  split; [exact Hcache|]. split; [exact Hord|].
  intros used Hused. apply list_elem_of_split in Hused as (before & after & ->).
  exists before, after. split; [reflexivity|].
  destruct Hinv' as [Hnd Hkeys].
  assert (Hin : used ∈ _access_order
                         (fst (cache_put weakrefable _estimate_size self key value
                                 (Some size_mb)))).
  { rewrite Hord. apply elem_of_app. left. apply elem_of_app. right. left. }
  destruct (proj1 (Hkeys used) Hin) as [v Hv].
  unfold cache_get. rewrite Hv.
  assert (Hrm : deque_remove used ((before ++ used :: after) ++ [key])
                = Some (before ++ after ++ [key])).
  { rewrite Hord in Hnd. clear - Hnd. rewrite <- app_assoc in *. cbn [app] in *.
    induction before as [|b before IH]; cbn.
    - rewrite decide_True by reflexivity. reflexivity.
    - apply NoDup_cons in Hnd as [Hb Hnd]. rewrite decide_False.
      + rewrite (IH Hnd). reflexivity.
      + intros ->. apply Hb. apply elem_of_app. right. left. }
  rewrite Hord, Hrm. cbn [fst _access_order set_entries].
  rewrite <- !app_assoc. reflexivity.
Qed.

End smart_cache_facts.

Lemma cache_invariant_init {V : Type} (max_size : Z) (max_memory_mb threshold : Qc) :
  cache_invariant (cache_init (V := V) max_size max_memory_mb threshold).
Proof.
  split; [apply NoDup_nil_2|]. intros k. cbn. rewrite lookup_empty.
  split; [intros H; inversion H|intros [? [=]]].
Qed.

Lemma cache_invariant_put {V : Type} (weakrefable : V -> bool) (estimate : V -> Qc)
    (self : SmartCache V) (key : string) (value : V) (size_mb : option Qc) :
  cache_invariant self ->
  cache_invariant (fst (cache_put weakrefable estimate self key value size_mb)).
Proof.
  intros Hinv. destruct (_cache self !! key) as [old|] eqn:Hold.
  - destruct (cache_remove_listed self key Hinv) as (order & Hrm & Hremove & Hinv1); [eauto|].
    set (self1 := set_entries self (delete key (_cache self)) order (_weak_refs self ∖ {[key]}))
      in *.
    assert (Hnew : _cache self1 !! key = None) by apply lookup_delete_eq.
    pose proof (cache_put_new weakrefable estimate self1 key value size_mb Hinv1 Hnew)
      as (_ & _ & _ & _ & _ & H).
    cbn zeta in H. revert H. unfold cache_put. rewrite Hold, Hremove, Hnew. auto.
  - apply (cache_put_new weakrefable estimate self key value size_mb Hinv Hold).
Qed.

Lemma cache_invariant_cache_of (entries : list (string * list Z)) :
  cache_invariant (cache_of entries).
Proof.
  unfold cache_of. generalize (cache_init (V := list Z) 2 1%Qc (Q2Qc (8 # 10))),
    (cache_invariant_init (V := list Z) 2 1%Qc (Q2Qc (8 # 10))).
  induction entries as [|entry entries IH]; intros cache Hinv; [exact Hinv|].
  cbn [foldl]. apply IH, cache_invariant_put, Hinv.
Qed.

(** A cache of arrays, which can be referred to weakly, and a cache of
    strings, which cannot. *)

Lemma cache_put_then_get_witness :
  exists stored,
    cache_put (fun _ : list Z => true) (fun _ => 0%Qc) (cache_init 2 1%Qc 1%Qc)
      "a" [1; 2] None = (stored, Returns)
    /\ snd (cache_get stored "a") = Py.Ok (Some [1; 2])
    /\ snd (cache_put (fun _ : string => false) (fun _ => 0%Qc) (cache_init 2 1%Qc 1%Qc)
              "a" "text" None) = RaisesTypeError.
Proof.
  destruct (cache_put_then_get (fun _ : list Z => true) (fun _ => 0%Qc)
              (cache_init 2 1%Qc 1%Qc) "a" [1; 2] None)
    as (stored & Hput & _ & Hget & _).
  - apply cache_invariant_init.
  - reflexivity.
  - exists stored. split; [exact Hput|]. split; [exact Hget|]. reflexivity.
Defined.

Lemma cache_memory_never_released_witness :
  _memory_usage (cache_of [("a", [1]); ("b", [2])]) = 1%Qc
  /\ _cache (fst (cache_put (fun _ => true) (fun _ => Q2Qc (1 # 2))
                    (cache_of [("a", [1]); ("b", [2])]) "c" [3] (Some (Q2Qc (1 # 10)))))
     = {["c" := [3]]}.
Proof.
  split; [apply Qc_is_canon; reflexivity|].
  apply (cache_memory_never_released (fun _ => true) (fun _ => Q2Qc (1 # 2))
           (cache_of [("a", [1]); ("b", [2])]) "c" [3] (Q2Qc (1 # 10))).
  - apply cache_invariant_cache_of.
  - vm_compute. reflexivity.
Defined.

Lemma cache_evicts_least_recent_witness :
  _access_order (cache_of [("a", [1]); ("b", [2])]) = ["a"; "b"]
  /\ _access_order (fst (cache_put (fun _ => true) (fun _ => Q2Qc (1 # 2))
                           (cache_of [("a", [1]); ("b", [2])]) "c" [3] (Some 0%Qc)))
     = ["b"; "c"].
Proof.
  split; [reflexivity|].
  apply (cache_evicts_least_recent (fun _ => true) (fun _ => Q2Qc (1 # 2))
           (cache_of [("a", [1]); ("b", [2])]) "c" [3] 0%Qc "a" ["b"]).
  - apply cache_invariant_cache_of.
  - reflexivity.
  - reflexivity.
  - vm_compute. discriminate.
  - reflexivity.
  - vm_compute. discriminate.
Defined.

End memory_facts.

(** ** Properties of the connection pool, the rate limiter and the queue *)

Module connection_facts.
Import connection.

(** *** Connection pool *)

Lemma add_connection_max (self : ConnectionPool) cid ip ua uuid now :
  max_connections (fst (add_connection self cid ip ua uuid now)) = max_connections self.
Proof. unfold add_connection. destruct (_ <=? _); reflexivity. Qed.

Lemma add_connection_full (self : ConnectionPool) cid ip ua uuid now :
  max_connections self <= connection_count self ->
  let r := add_connection self cid ip ua uuid now in
  snd r = None
  /\ _rejected_connections (fst r) = _rejected_connections self + 1
  /\ _connections (fst r) = _connections self
  /\ _connection_loads (fst r) = _connection_loads self
  /\ _total_connections (fst r) = _total_connections self.
Proof.
  intros Hfull. cbn zeta. unfold add_connection.
  destruct (Z.leb_spec (max_connections self) (connection_count self)); [|lia].
  repeat split; reflexivity.
Qed.

Lemma add_connection_room (self : ConnectionPool) cid ip ua uuid now :
  connection_count self < max_connections self ->
  let r := add_connection self cid ip ua uuid now in
  let id := default uuid cid in
  snd r = Some id
  /\ (exists info, _connections (fst r) = <[id := info]> (_connections self)
                   /\ connection_id info = id /\ state info = CONNECTED)
  /\ _connection_loads (fst r) = <[id := 0]> (_connection_loads self)
  /\ _rejected_connections (fst r) = _rejected_connections self.
Proof.
  intros Hroom. cbn zeta. unfold add_connection.
  destruct (Z.leb_spec (max_connections self) (connection_count self)); [lia|].
  cbn [fst snd _connections _connection_loads _rejected_connections].
  split; [reflexivity|]. split; [|split; reflexivity].
  eexists. split; [reflexivity|]. split; reflexivity.
Qed.

(** Distinct new ids that fit under the limit are all taken, and the pool
    then holds that many connections more. *)
Lemma add_connections_distinct (ids : list string) (self : ConnectionPool) (now : Qc) :
  NoDup ids ->
  (forall id, id ∈ ids -> _connections self !! id = None) ->
  connection_count self + Z.of_nat (length ids) <= max_connections self ->
  let r := add_connections self ids now in
  snd r = map Some ids
  /\ connection_count (fst r) = connection_count self + Z.of_nat (length ids)
  /\ max_connections (fst r) = max_connections self
  /\ _rejected_connections (fst r) = _rejected_connections self.
Proof.
  revert self. induction ids as [|c ids IH]; intros self Hnd Hfresh Hroom.
  - cbn. repeat split; lia.
  - cbn [add_connections]. apply NoDup_cons in Hnd as [Hid Hnd].
    cbn [length] in Hroom.
    destruct (add_connection_room self (Some c) None None c now)
      as (Hr & (info & Hconn & _) & _ & Hrej1); [lia|].
    pose proof (add_connection_max self (Some c) None None c now) as Hmax1.
    destruct (add_connection self (Some c) None None c now) as [self1 r1].
    cbn [fst snd default] in *.
    assert (Hcount : connection_count self1 = connection_count self + 1).
    { unfold connection_count. rewrite Hconn.
      rewrite map_size_insert_None by (apply Hfresh; left). lia. }
    destruct (IH self1 Hnd) as (Hrs & Hc & Hm & Hrej).
    + intros j Hj. rewrite Hconn.
      rewrite lookup_insert_ne; [apply Hfresh; right; exact Hj|].
      intros Heq. subst j. contradiction.
    + rewrite Hcount, Hmax1. lia.
    + destruct (add_connections self1 ids now) as [self2 rs]. cbn [fst snd] in *.
      subst r1. rewrite Hrs, Hc, Hm, Hrej, Hcount, Hmax1, Hrej1. cbn [map length].
      repeat split; try reflexivity. lia.
Qed.

(** The (max_connections + 1)-th admission: after [max_connections]
    admissions with distinct ids on a fresh pool, none of them closed, one
    more call is rejected. *)
Lemma add_connection_one_too_many (n : nat) (ids : list string) (extra : string)
    (mc : Z) (ct ci now : Qc) :
  NoDup ids -> length ids = n ->
  let full := add_connections (pool_init (Z.of_nat n) mc ct ci) ids now in
  snd full = map Some ids
  /\ snd (add_connection (fst full) (Some extra) None None extra now) = None.
Proof.
  intros Hnd Hlen full.
  destruct (add_connections_distinct ids (pool_init (Z.of_nat n) mc ct ci) now Hnd)
    as (Hrs & Hc & Hm & _).
  - intros id _. apply lookup_empty.
  - unfold connection_count. cbn. rewrite map_size_empty. lia.
  - split; [exact Hrs|].
    apply (add_connection_full (fst full)). fold full in Hc, Hm.
    rewrite Hm, Hc. unfold connection_count. cbn. rewrite map_size_empty. lia.
Qed.

(** C4: at the limit [add_connection] returns no id, counts one more
    rejection and leaves the connections and their loads as they were;
    below the limit it returns the id and records the connection as
    [CONNECTED] with load 0, the other connections being kept. *)
Theorem add_connection_limit (self : ConnectionPool)
    (cid ip ua : option string) (uuid : string) (now : Qc) :
  let r := add_connection self cid ip ua uuid now in
  (max_connections self <= connection_count self ->
     snd r = None
     /\ _rejected_connections (fst r) = _rejected_connections self + 1
     /\ _connections (fst r) = _connections self
     /\ _connection_loads (fst r) = _connection_loads self
     /\ _total_connections (fst r) = _total_connections self)
  /\ (connection_count self < max_connections self ->
     let id := default uuid cid in
     snd r = Some id
     /\ (exists info, _connections (fst r) !! id = Some info
                      /\ connection_id info = id /\ state info = CONNECTED)
     /\ _connection_loads (fst r) !! id = Some 0
     /\ (forall j, j <> id -> _connections (fst r) !! j = _connections self !! j)
     /\ _rejected_connections (fst r) = _rejected_connections self).
Proof.
  cbn zeta. split.
  - apply add_connection_full.
  - intros Hroom.
    destruct (add_connection_room self cid ip ua uuid now Hroom)
      as (Hr & (info & Hconn & Hid & Hst) & Hload & Hrej).
    split; [exact Hr|]. split; [|split; [|split]].
    + exists info. rewrite Hconn. split; [apply lookup_insert_eq|]. split; assumption.
    + rewrite Hload. apply lookup_insert_eq.
    + intros j Hj. rewrite Hconn. apply lookup_insert_ne. congruence.
    + exact Hrej.
Qed.

Lemma add_connection_limit_witness :
  (snd (add_connection two_slot_pool (Some "c") None None "u" 0%Qc) = None
   /\ _connections (fst (add_connection two_slot_pool (Some "c") None None "u" 0%Qc))
      = _connections two_slot_pool)
  /\ snd (add_connection (pool_init 2 10 (Qc_of_Z 300) (Qc_of_Z 60))
            None None None "u" 0%Qc) = Some "u".
Proof.
  split.
  - destruct (add_connection_limit two_slot_pool (Some "c") None None "u" 0%Qc)
      as [Hfull _].
    destruct Hfull as (H1 & _ & H3 & _); [vm_compute; discriminate|].
    split; assumption.
  - destruct (add_connection_limit (pool_init 2 10 (Qc_of_Z 300) (Qc_of_Z 60))
                None None None "u" 0%Qc) as [_ Hroom].
    destruct Hroom as (H1 & _); [vm_compute; reflexivity|]. exact H1.
Defined.

(** *** Rate limiter *)

Lemma Qc_of_Z_sub (a b : Z) : (Qc_of_Z a - Qc_of_Z b)%Qc = Qc_of_Z (a - b).
Proof.
  unfold Qc_of_Z. apply Qc_is_canon.
  unfold Qcminus, Qcplus, Qcopp, Q2Qc. cbn [this].
  rewrite !Qred_correct. unfold Z.sub.
  rewrite inject_Z_plus, inject_Z_opp. reflexivity.
Qed.

Lemma Qc_of_Z_le (a b : Z) : (Qc_of_Z a <= Qc_of_Z b)%Qc <-> a <= b.
Proof.
  unfold Qc_of_Z, Qcle, Q2Qc. cbn [this]. rewrite !Qred_correct.
  rewrite <- Zle_Qle. reflexivity.
Qed.

Lemma Qc_of_Z_lt (a b : Z) : (Qc_of_Z a < Qc_of_Z b)%Qc <-> a < b.
Proof.
  unfold Qc_of_Z, Qclt, Q2Qc. cbn [this]. rewrite !Qred_correct.
  rewrite <- Zlt_Qlt. reflexivity.
Qed.

(** A check at the very instant of the last refill adds nothing and takes
    one token if there is one. *)
Lemma is_allowed_same_instant (self : RateLimiter) (cid : string) (k : Z) (t : Qc) :
  holds self cid k t -> k <= burst_size self ->
  is_allowed self cid t t
  = (with_bucket self (key_of self cid)
       {| tokens := Qc_of_Z (if 1 <=? k then k - 1 else k); last_refill := t |},
     1 <=? k).
Proof.
  intros Hb Hk. unfold is_allowed, holds in *. fold (key_of self cid).
  rewrite Hb. cbn [tokens last_refill].
  replace (Qc_of_Z k + (t - t) * requests_per_second self)%Qc with (Qc_of_Z k) by ring.
  assert (Hmin : py_min (Qc_of_Z (burst_size self)) (Qc_of_Z k) = Qc_of_Z k).
  { unfold py_min. case_bool_decide as Hlt; [reflexivity|].
    rewrite Qc_of_Z_lt in Hlt. replace k with (burst_size self) by lia. reflexivity. }
  rewrite Hmin. change 1%Qc with (Qc_of_Z 1).
  destruct (Z.leb_spec 1 k) as [H1|H1].
  - rewrite bool_decide_eq_true_2 by (apply Qc_of_Z_le; exact H1).
    rewrite Qc_of_Z_sub. reflexivity.
  - rewrite bool_decide_eq_false_2 by (rewrite Qc_of_Z_le; lia). reflexivity.
Qed.

Lemma holds_with_bucket (self : RateLimiter) (cid : string) (k : Z) (t : Qc) :
  holds (with_bucket self (key_of self cid) {| tokens := Qc_of_Z k; last_refill := t |})
    cid k t.
Proof.
  unfold holds, with_bucket, key_of. cbn [per_connection _buckets burst_size].
  rewrite lookup_insert_eq. reflexivity.
Qed.

(** [n] checks at one instant on a bucket of [k] tokens: the first [k]
    pass, the others fail, and the tokens left are [k - n] or none. *)
Lemma checks_same_instant (n : nat) (self : RateLimiter) (cid : string) (k : Z) (t : Qc) :
  holds self cid k t -> 0 <= k <= burst_size self ->
  snd (checks self cid (repeat t n))
    = map (fun i => Z.of_nat i <? k) (seq 0 n)
  /\ (n <> 0%nat -> holds (fst (checks self cid (repeat t n))) cid
                      (Z.max 0 (k - Z.of_nat n)) t)
  /\ burst_size (fst (checks self cid (repeat t n))) = burst_size self
  /\ requests_per_second (fst (checks self cid (repeat t n))) = requests_per_second self.
Proof.
  revert self k. induction n as [|n IH]; intros self k Hb Hk.
  - cbn. repeat split. congruence.
  - cbn [repeat checks]. rewrite (is_allowed_same_instant self cid k t Hb) by lia.
    set (k' := if 1 <=? k then k - 1 else k).
    set (self' := with_bucket self (key_of self cid) _).
    assert (Hb' : holds self' cid k' t) by apply holds_with_bucket.
    assert (Hk' : 0 <= k' <= burst_size self').
    { unfold k'. cbn. destruct (Z.leb_spec 1 k); lia. }
    destruct (IH self' k' Hb' Hk') as (Hr & Hh & Hbs & Hrps).
    destruct (checks self' cid (repeat t n)) as [self'' rs] eqn:E. cbn [fst snd] in *.
    split; [|split; [|split]].
    + rewrite Hr. cbn [seq map]. f_equal.
      * destruct (Z.leb_spec 1 k), (Z.ltb_spec (Z.of_nat 0) k); try reflexivity; lia.
      * rewrite <- seq_shift, map_map. apply map_ext_in. intros i _.
        unfold k'. destruct (Z.leb_spec 1 k);
          destruct (Z.ltb_spec (Z.of_nat i) (k - 1)), (Z.ltb_spec (Z.of_nat (S i)) k);
          try reflexivity; try lia.
        all: destruct (Z.ltb_spec (Z.of_nat i) k); try reflexivity; lia.
    + intros _. destruct n as [|n].
      * cbn in E. injection E as <- <-.
        replace (Z.max 0 (k - Z.of_nat 1)) with k'
          by (unfold k'; destruct (Z.leb_spec 1 k); lia).
        exact Hb'.
      * replace (Z.max 0 (k - Z.of_nat (S (S n)))) with (Z.max 0 (k' - Z.of_nat (S n)))
          by (unfold k'; destruct (Z.leb_spec 1 k); lia).
        apply Hh. congruence.
    + rewrite Hbs. reflexivity.
    + rewrite Hrps. reflexivity.
Qed.

Lemma checks_app (self : RateLimiter) (cid : string) (l1 l2 : list Qc) :
  checks self cid (l1 ++ l2)
  = (fst (checks (fst (checks self cid l1)) cid l2),
     snd (checks self cid l1) ++ snd (checks (fst (checks self cid l1)) cid l2)).
Proof.
  revert self. induction l1 as [|t l1 IH]; intros self; cbn [app checks fst snd].
  - destruct (checks self cid l2); reflexivity.
  - destruct (is_allowed self cid t t) as [self1 a]. rewrite IH.
    destruct (checks self1 cid l1) as [self2 r1]. cbn [fst snd].
    destruct (checks self2 cid l2); reflexivity.
Qed.

(** A check one second after the bucket was emptied, at ten tokens a
    second: ten tokens are back and the check passes. *)
Lemma is_allowed_after_second (self : RateLimiter) (cid : string) (t : Qc) :
  holds self cid 0 t ->
  requests_per_second self = Qc_of_Z 10 -> burst_size self = 20 ->
  snd (is_allowed self cid (t + 1)%Qc (t + 1)%Qc) = true.
Proof.
  intros Hb Hr Hs. unfold holds in Hb. unfold is_allowed. fold (key_of self cid).
  cbn [snd]. rewrite Hs in *.
  assert (Hbucket : default {| tokens := Qc_of_Z 20; last_refill := (t + 1)%Qc |}
                      (_buckets self !! key_of self cid)
                    = {| tokens := Qc_of_Z 0; last_refill := t |}).
  { destruct (_buckets self !! key_of self cid) as [b|]; cbn in *; [exact Hb|].
    discriminate Hb. }
  rewrite Hbucket, Hr. cbn [tokens last_refill].
  replace (Qc_of_Z 0 + (t + 1 - t) * Qc_of_Z 10)%Qc with (Qc_of_Z 10)
    by (change (Qc_of_Z 0) with 0%Qc; ring).
  reflexivity.
Qed.

(** C7: with ten requests a second and a burst of twenty, on a key without
    a bucket, twenty checks at one instant [t] pass, the twenty-first at [t]
    fails, and a check at [t + 1] passes. *)
Theorem rate_limit_burst (t : Qc) (connection_id : string) (per_connection : bool) :
  snd (checks (limiter_init (Qc_of_Z 10) 20 per_connection) connection_id
         (repeat t 21 ++ [(t + 1)%Qc]))
  = repeat true 20 ++ [false; true].
Proof.
  set (self := limiter_init (Qc_of_Z 10) 20 per_connection).
  assert (Hfresh : holds self connection_id 20 t).
  { unfold holds, self, key_of. cbn. rewrite lookup_empty. reflexivity. }
  destruct (checks_same_instant 21 self connection_id 20 t Hfresh)
    as (Hr & Hh & Hbs & Hrps); [cbn; lia|].
  rewrite checks_app. cbn [snd]. rewrite Hr.
  cbn [checks].
  pose proof (is_allowed_after_second _ connection_id t (Hh ltac:(discriminate))
                Hrps Hbs) as Hlast.
  destruct (is_allowed _ connection_id (t + 1)%Qc (t + 1)%Qc) as [self1 a].
  cbn [snd] in *. subst a. reflexivity.
Qed.

(** *** Priority queue *)

Section priority_queue_facts.

Context {A : Type}.

Lemma queue_init_well_formed (max_size levels : Z) :
  0 < levels -> well_formed (queue_init (A := A) max_size levels).
Proof.
  intros H. unfold well_formed, queue_init. cbn. rewrite !repeat_length. lia.
Qed.

Lemma index_in_range (len : nat) (i : Z) :
  0 <= i < Z.of_nat len -> index len i = Py.Ok (Z.to_nat i).
Proof.
  intros H. unfold index.
  destruct (Z.ltb_spec i 0); [lia|].
  destruct (Z.leb_spec 0 i); [|lia]. destruct (Z.ltb_spec i (Z.of_nat len)); [|lia].
  reflexivity.
Qed.

(** A priority outside [0, priority_levels) is put at the last level:
    the call is the call with [priority_levels - 1]. *)
Lemma put_normalises (self : PriorityQueue A) (item : A) (priority : Z)
    (timeout : option Qc) (wait : waited A) :
  0 < priority_levels self ->
  priority < 0 \/ priority_levels self <= priority ->
  put self item priority timeout wait
  = put self item (priority_levels self - 1) timeout wait.
Proof.
  intros Hpos Hout. unfold put.
  assert (H1 : (priority <? 0) || (priority_levels self <=? priority) = true).
  { apply orb_true_iff. destruct Hout; [left; apply Z.ltb_lt | right; apply Z.leb_le]; lia. }
  assert (H2 : (priority_levels self - 1 <? 0)
               || (priority_levels self <=? priority_levels self - 1) = false).
  { apply orb_false_iff. split; [apply Z.ltb_ge | apply Z.leb_gt]; lia. }
  rewrite H1, H2. reflexivity.
Qed.

(** With room in the queue, [put] at a level in range appends the item to
    the deque of that level and counts it. *)
Lemma put_in_range (self : PriorityQueue A) (item : A) (priority : Z)
    (timeout : option Qc) (wait : waited A) :
  well_formed self ->
  0 <= priority < priority_levels self ->
  _total_size self < max_size self ->
  put self item priority timeout wait
  = Py.Ok ({| max_size := max_size self;
              priority_levels := priority_levels self;
              _queues := alter (fun d => d ++ [item]) (Z.to_nat priority) (_queues self);
              _sizes := alter (fun n => n + 1) (Z.to_nat priority) (_sizes self);
              _total_size := _total_size self + 1;
              _enqueued := _enqueued self + 1;
              _dequeued := _dequeued self;
              _dropped := _dropped self |}, true).
Proof.
  intros (Hpos & Hq & Hs) Hp Hroom. unfold put.
  assert (H1 : (priority <? 0) || (priority_levels self <=? priority) = false).
  { apply orb_false_iff. split; [apply Z.ltb_ge | apply Z.leb_gt]; lia. }
  rewrite H1.
  destruct (Z.leb_spec (max_size self) (_total_size self)); [lia|].
  cbn [Py.bind].
  destruct (Z.leb_spec (max_size self) (_total_size self)); [lia|].
  rewrite !index_in_range by lia. reflexivity.
Qed.

(** [put] never raises on a well-formed queue, whatever the priority. *)
Lemma put_no_exception (self : PriorityQueue A) (item : A) (priority : Z)
    (timeout : option Qc) (wait : waited A) (e : Py.exn) :
  well_formed self ->
  match wait with
  | Notified now => well_formed now /\ priority_levels now = priority_levels self
  | _ => True
  end ->
  put self item priority timeout wait <> Py.Raise e.
Proof.
  intros (Hpos & Hq & Hs) Hwait. unfold put.
  set (p := if (priority <? 0) || (priority_levels self <=? priority)
            then priority_levels self - 1 else priority).
  assert (Hp : 0 <= p < priority_levels self).
  { unfold p. destruct (Z.ltb_spec priority 0), (Z.leb_spec (priority_levels self) priority);
      cbn [orb]; lia. }
  assert (Hgo : forall q : PriorityQueue A,
            well_formed q -> priority_levels q = priority_levels self ->
            (if max_size q <=? _total_size q then Py.Ok (drop_item q, false)
             else
               let! i := index (length (_queues q)) p in
               let queues := alter (fun d => d ++ [item]) i (_queues q) in
               let! s := index (length (_sizes q)) p in
               let sizes := alter (fun n => n + 1) s (_sizes q) in
               Py.Ok ({| max_size := max_size q;
                         priority_levels := priority_levels q;
                         _queues := queues;
                         _sizes := sizes;
                         _total_size := _total_size q + 1;
                         _enqueued := _enqueued q + 1;
                         _dequeued := _dequeued q;
                         _dropped := _dropped q |}, true)) <> Py.Raise e).
  { intros q (Hqpos & Hqq & Hqs) Hlev.
    destruct (max_size q <=? _total_size q); [discriminate|].
    rewrite !index_in_range by lia. discriminate. }
  destruct (max_size self <=? _total_size self) eqn:Hfull.
  - destruct wait as [now| |]; destruct timeout; cbn [Py.bind]; try discriminate.
    + apply Hgo; apply Hwait.
    + apply Hgo; apply Hwait.
  - cbn [Py.bind]. rewrite Hfull. specialize (Hgo self (conj Hpos (conj Hq Hs)) eq_refl).
    rewrite Hfull in Hgo. exact Hgo.
Qed.

(** C10: a priority that is negative or at least [priority_levels] is not
    refused and raises nothing; the item goes to the last level,
    [priority_levels - 1], exactly as if that level had been asked for, and
    only a full queue keeps it out. *)
Theorem put_out_of_range_priority (self : PriorityQueue A) (item : A) (priority : Z)
    (timeout : option Qc) (wait : waited A) :
  well_formed self ->
  match wait with
  | Notified now => well_formed now /\ priority_levels now = priority_levels self
  | _ => True
  end ->
  priority < 0 \/ priority_levels self <= priority ->
  let lowest := priority_levels self - 1 in
  put self item priority timeout wait = put self item lowest timeout wait
  /\ (forall e, put self item priority timeout wait <> Py.Raise e)
  /\ (_total_size self < max_size self ->
      exists self' old,
        put self item priority timeout wait = Py.Ok (self', true)
        /\ _queues self !! Z.to_nat lowest = Some old
        /\ _queues self' !! Z.to_nat lowest = Some (old ++ [item])
        /\ (forall j, j <> Z.to_nat lowest -> _queues self' !! j = _queues self !! j)
        /\ _total_size self' = _total_size self + 1
        /\ _dropped self' = _dropped self).
Proof.
  intros Hwf Hwait Hout lowest.
  pose proof Hwf as (Hpos & Hq & Hs).
  split; [apply put_normalises; assumption|].
  split; [intros e; apply put_no_exception; assumption|].
  intros Hroom. rewrite put_normalises by assumption. fold lowest.
  rewrite put_in_range by (try assumption; unfold lowest; lia).
  destruct (lookup_lt_is_Some_2 (_queues self) (Z.to_nat lowest)) as [old Hold];
    [unfold lowest; lia|].
  eexists _, old. split; [reflexivity|]. cbn [_queues _total_size _dropped].
  split; [exact Hold|]. split; [|split; [|split; reflexivity]].
  - rewrite list_lookup_alter_eq, Hold. reflexivity.
  - intros j Hj. apply list_lookup_alter_ne. congruence.
Qed.

End priority_queue_facts.

Lemma put_out_of_range_priority_witness :
  well_formed (queue_init (A := string) 10 3)
  /\ put (queue_init 10 3) "job" 7 None Never = put (queue_init 10 3) "job" 2 None Never
  /\ (forall e, put (queue_init 10 3) "job" 7 None Never <> Py.Raise e)
  /\ exists q, put (queue_init 10 3) "job" 7 None Never = Py.Ok (q, true)
               /\ _queues q !! 2%nat = Some ["job"].
Proof.
  assert (Hwf : well_formed (queue_init (A := string) 10 3))
    by (apply queue_init_well_formed; lia).
  split; [exact Hwf|].
  destruct (put_out_of_range_priority (queue_init 10 3) "job" 7 None Never Hwf I)
    as (Heq & Hno & Hin); [right; cbn; lia|].
  split; [exact Heq|]. split; [exact Hno|].
  destruct Hin as (q & old & Hput & Hold & Hnew & _); [cbn; lia|].
  exists q. split; [exact Hput|].
  cbn in Hold. injection Hold as <-. exact Hnew.
Defined.

Section priority_queue_order.

Context {A : Type}.
Implicit Types (self : PriorityQueue A) (l : list (list A)).

Lemma concat_alter_snoc l (i : nat) (x : A) :
  (i < length l)%nat ->
  length (concat (alter (fun d => d ++ [x]) i l)) = S (length (concat l)).
Proof.
  revert i. induction l as [|d l IH]; intros i Hi; cbn in *; [lia|].
  destruct i as [|i]; cbn.
  - rewrite !length_app. cbn. rewrite <- Nat.add_assoc. cbn. rewrite Nat.add_succ_r. reflexivity.
  - rewrite !length_app, IH by lia. rewrite Nat.add_succ_r. reflexivity.
Qed.

Lemma concat_insert_head l (i : nat) (x : A) (rest : list A) :
  l !! i = Some (x :: rest) ->
  (forall j, (j < i)%nat -> l !! j = Some []) ->
  concat l = x :: concat (<[i := rest]> l).
Proof.
  revert i. induction l as [|d l IH]; intros i Hi Hempty; [discriminate|].
  destruct i as [|i]; cbn in *.
  - injection Hi as ->. reflexivity.
  - pose proof (Hempty 0%nat ltac:(lia)) as H0. cbn in H0. injection H0 as ->.
    cbn. apply IH; [exact Hi|]. intros j Hj. apply (Hempty (S j)). lia.
Qed.

Lemma concat_insert_length l (i : nat) (x : A) (rest : list A) :
  l !! i = Some (x :: rest) ->
  length (concat l) = S (length (concat (<[i := rest]> l))).
Proof.
  revert i. induction l as [|d l IH]; intros i Hi; [discriminate|].
  destruct i as [|i]; cbn in *.
  - injection Hi as ->. cbn. rewrite !length_app. reflexivity.
  - rewrite !length_app, (IH i Hi), Nat.add_succ_r. reflexivity.
Qed.

Lemma concat_all_empty l :
  (forall j, (j < length l)%nat -> l !! j = Some []) -> concat l = [].
Proof.
  induction l as [|d l IH]; intros H; [reflexivity|].
  pose proof (H 0%nat ltac:(cbn; lia)) as H0. cbn in H0. injection H0 as ->.
  cbn. apply IH. intros j Hj. apply (H (S j)). cbn. lia.
Qed.

Lemma level_of_range (levels priority : Z) :
  0 < levels -> 0 <= level_of levels priority < levels.
Proof.
  intros H. unfold level_of.
  destruct (Z.ltb_spec priority 0), (Z.leb_spec levels priority); cbn [orb]; lia.
Qed.

Lemma put_level_of self (item : A) (priority : Z) timeout wait :
  put self item priority timeout wait
  = put self item (level_of (priority_levels self) priority) timeout wait.
Proof.
  unfold put, level_of.
  destruct ((priority <? 0) || (priority_levels self <=? priority)) eqn:E.
  - destruct (Z.ltb_spec (priority_levels self - 1) 0); cbn [orb]; [reflexivity|].
    destruct (Z.leb_spec (priority_levels self) (priority_levels self - 1)); [lia|].
    reflexivity.
  - rewrite E. reflexivity.
Qed.

(** With room, [put] files the item at its level. *)
Lemma put_room self (item : A) (priority : Z) timeout wait :
  well_formed self ->
  _total_size self < max_size self ->
  put self item priority timeout wait
  = Py.Ok (after_put self (Z.to_nat (level_of (priority_levels self) priority)) item, true).
Proof.
  intros Hwf Hroom. rewrite put_level_of.
  pose proof Hwf as (Hpos & _).
  rewrite put_in_range; [reflexivity|assumption| |assumption].
  apply level_of_range, Hpos.
Qed.

Lemma consistent_after_put self (p : nat) (item : A) :
  consistent self -> (Z.of_nat p < priority_levels self) ->
  consistent (after_put self p item).
Proof.
  intros ((Hpos & Hq & Hs) & Hsz & Htot) Hp.
  split; [|split]; cbn.
  - unfold well_formed. cbn. rewrite !length_alter. auto.
  - rewrite Hsz. apply list_eq. intros j.
    destruct (decide (p = j)) as [<-|Hne].
    + rewrite list_lookup_alter_eq, !list_lookup_fmap, list_lookup_alter_eq.
      destruct (_queues self !! p); cbn; [|reflexivity].
      rewrite length_app. cbn. f_equal. lia.
    + rewrite list_lookup_alter_ne, !list_lookup_fmap, list_lookup_alter_ne by done.
      reflexivity.
  - rewrite concat_alter_snoc by lia. lia.
Qed.

Lemma consistent_after_get self (q : nat) (item : A) (rest : list A) :
  consistent self -> _queues self !! q = Some (item :: rest) ->
  consistent (after_get self q rest).
Proof.
  intros ((Hpos & Hq & Hs) & Hsz & Htot) Hlook.
  split; [|split]; cbn.
  - unfold well_formed. cbn. rewrite length_alter, length_insert. auto.
  - rewrite Hsz. apply list_eq. intros j.
    destruct (decide (q = j)) as [<-|Hne].
    + rewrite list_lookup_alter_eq, !list_lookup_fmap, Hlook.
      rewrite list_lookup_insert_eq by (eapply lookup_lt_Some; eauto).
      cbn. f_equal. lia.
    + rewrite list_lookup_alter_ne, !list_lookup_fmap, list_lookup_insert_ne by done.
      reflexivity.
  - rewrite Htot, (concat_insert_length _ _ _ _ Hlook). lia.
Qed.

(** The scan of [get] from level [k] on, when the levels before [k] are
    empty: it takes the head of the first deque that is not empty. *)
Lemma get_scan_first self (n : nat) (k : Z) :
  consistent self ->
  0 <= k -> Z.of_nat n = priority_levels self - k ->
  (forall j, (Z.of_nat j < k) -> _queues self !! j = Some []) ->
  (concat (_queues self) = [] /\ get_scan self (seqZ k (Z.of_nat n)) = Py.Ok (self, None))
  \/ (exists q item rest,
        _queues self !! q = Some (item :: rest)
        /\ (forall j, (j < q)%nat -> _queues self !! j = Some [])
        /\ get_scan self (seqZ k (Z.of_nat n)) = Py.Ok (after_get self q rest, Some item)).
Proof.
  intros Hc. pose proof Hc as ((Hpos & Hq & Hs) & Hsz & Htot).
  revert k. induction n as [|n IH]; intros k Hk Hn Hempty.
  - left. split; [|reflexivity].
    apply concat_all_empty. intros j Hj. apply Hempty. lia.
  - rewrite seqZ_cons by lia. cbn [get_scan].
    rewrite index_in_range by lia. cbn [Py.bind].
    destruct (lookup_lt_is_Some_2 (_queues self) (Z.to_nat k)) as [d Hd]; [lia|].
    assert (Hsk : _sizes self !! Z.to_nat k = Some (Z.of_nat (length d))).
    { rewrite Hsz, list_lookup_fmap, Hd. reflexivity. }
    rewrite Hsk. cbn [default from_option id].
    destruct d as [|item rest].
    + cbn [length]. change (0 <? Z.of_nat 0) with false. cbn match.
      replace (Z.pred (Z.of_nat (S n))) with (Z.of_nat n) by lia.
      apply IH; [lia|lia|].
      intros j Hj. destruct (decide (Z.of_nat j = k)) as [<-|Hne].
      * rewrite Nat2Z.id in Hd. exact Hd.
      * apply Hempty. lia.
    + right. exists (Z.to_nat k), item, rest.
      split; [exact Hd|]. split; [intros j Hj; apply Hempty; lia|].
      destruct (Z.ltb_spec 0 (Z.of_nat (length (item :: rest)))); [|cbn in *; lia].
      rewrite index_in_range by lia. cbn [Py.bind]. rewrite Hd. reflexivity.
Qed.

(** [get] on a queue that holds an item gives the head of the first
    deque that is not empty, whatever the waiting would have been. *)
Lemma get_first self timeout waits (item : A) (items : list A) :
  consistent self ->
  concat (_queues self) = item :: items ->
  exists q rest,
    _queues self !! q = Some (item :: rest)
    /\ concat (<[q := rest]> (_queues self)) = items
    /\ get self timeout waits = Py.Ok (after_get self q rest, Some item).
Proof.
  intros Hc Hcat. pose proof Hc as ((Hpos & Hq & Hs) & Hsz & Htot).
  unfold get.
  assert (Hne : _total_size self <> 0) by (rewrite Htot, Hcat; cbn; lia).
  assert (Hw : get_wait self timeout waits = Py.Ok (self, true)).
  { destruct waits; cbn; destruct (Z.eqb_spec (_total_size self) 0); congruence. }
  rewrite Hw. cbn [Py.bind].
  destruct (get_scan_first self (Z.to_nat (priority_levels self)) 0 Hc)
    as [[Hnil _]|(q & x & rest & Hlook & Hbefore & Hscan)]; [lia|lia|lia|congruence|].
  rewrite Z2Nat.id in Hscan by lia.
  pose proof (concat_insert_head _ _ _ _ Hlook Hbefore) as Hhead.
  rewrite Hcat in Hhead. injection Hhead as -> ->.
  exists q, rest. auto.
Qed.

(** [get] on an empty queue that does not wait gives [None] and leaves the
    queue as it is. *)
Lemma get_empty self (t : Qc) :
  consistent self -> concat (_queues self) = [] ->
  get self (Some t) [] = Py.Ok (self, None).
Proof.
  intros ((Hpos & Hq & Hs) & Hsz & Htot) Hcat. unfold get.
  rewrite Hcat in Htot. cbn in Htot. cbn. rewrite Htot. reflexivity.
Qed.

Lemma get_all_concat self (n : nat) :
  consistent self ->
  exists self',
    get_all self n = Py.Ok (self', (Some <$> take n (concat (_queues self)))
                                   ++ repeat None (n - length (concat (_queues self))))
    /\ consistent self'
    /\ concat (_queues self') = drop n (concat (_queues self)).
Proof.
  revert self. induction n as [|n IH]; intros self Hc.
  - exists self. cbn. rewrite drop_0. auto.
  - destruct (concat (_queues self)) as [|item items] eqn:Hcat.
    + cbn [get_all]. rewrite (get_empty self 0%Qc Hc Hcat). cbn [Py.bind].
      destruct (IH self Hc) as (self' & Hall & Hc' & Hcat').
      rewrite Hall. cbn [Py.bind]. exists self'.
      rewrite Hcat in *. rewrite take_nil, drop_nil in *. cbn in *.
      rewrite Nat.sub_0_r in *. auto.
    + destruct (get_first self (Some 0%Qc) [] item items Hc Hcat)
        as (q & rest & Hlook & Hrest & Hget).
      cbn [get_all]. rewrite Hget. cbn [Py.bind].
      pose proof (consistent_after_get self q item rest Hc Hlook) as Hc1.
      destruct (IH _ Hc1) as (self' & Hall & Hc' & Hcat').
      rewrite Hall. cbn [Py.bind]. exists self'.
      cbn [_queues after_get] in *. rewrite Hrest in *.
      split; [|auto]. reflexivity.
Qed.

Lemma put_all_queues self (items : list (A * Z)) :
  consistent self ->
  _total_size self + Z.of_nat (length items) <= max_size self ->
  exists self',
    put_all self items = Py.Ok (self', repeat true (length items))
    /\ consistent self'
    /\ priority_levels self' = priority_levels self
    /\ _total_size self' = _total_size self + Z.of_nat (length items)
    /\ forall p : nat,
         _queues self' !! p
         = (fun d => d ++ (filter (fun x => level_of (priority_levels self) (snd x)
                                           = Z.of_nat p) items).*1)
           <$> _queues self !! p.
Proof.
  revert self. induction items as [|[item priority] items IH]; intros self Hc Hroom.
  - exists self. cbn. split; [reflexivity|]. split; [assumption|]. split; [reflexivity|].
    split; [lia|]. intros p. destruct (_queues self !! p); cbn; [|reflexivity]. rewrite app_nil_r. reflexivity.
  - cbn [length] in Hroom. pose proof Hc as (Hwf & _). pose proof Hwf as (Hpos & Hq & _).
    cbn [put_all]. rewrite put_room by (try assumption; lia). cbn [Py.bind].
    set (lev := level_of (priority_levels self) priority).
    pose proof (level_of_range (priority_levels self) priority Hpos) as Hlev. fold lev in Hlev.
    assert (Hc1 : consistent (after_put self (Z.to_nat lev) item)).
    { apply consistent_after_put; [assumption|lia]. }
    destruct (IH _ Hc1) as (self' & Hall & Hc' & Hlevels & Htotal & Hqs); [cbn; lia|].
    rewrite Hall. cbn [Py.bind]. exists self'.
    split; [reflexivity|]. split; [assumption|]. split; [exact Hlevels|].
    split; [rewrite Htotal; cbn; lia|].
    intros p. rewrite Hqs. cbn [_queues after_put priority_levels].
    rewrite filter_cons. cbn [snd]. fold lev.
    destruct (decide (Z.to_nat lev = p)) as [<-|Hne].
    + rewrite list_lookup_alter_eq. rewrite decide_True by lia.
      destruct (_queues self !! Z.to_nat lev); cbn; [|reflexivity].
      rewrite <- app_assoc. reflexivity.
    + rewrite list_lookup_alter_ne by done. rewrite decide_False by lia. reflexivity.
Qed.

Lemma repeat_replicate {B : Type} (x : B) (n : nat) : repeat x n = replicate n x.
Proof. induction n as [|n IH]; cbn; [reflexivity|rewrite IH; reflexivity]. Qed.

Lemma invariant_init (max_size levels : Z) :
  0 <= max_size -> 0 < levels -> invariant (queue_init (A := A) max_size levels).
Proof.
  intros Hm Hl. split; [split; [|split]|]; cbn.
  - apply queue_init_well_formed, Hl.
  - rewrite !repeat_replicate, fmap_replicate. reflexivity.
  - induction (Z.to_nat levels); cbn; [reflexivity|assumption].
  - lia.
Qed.

Lemma invariant_drop_item self : invariant self -> invariant (drop_item self).
Proof. intros H. exact H. Qed.

Lemma invariant_after_put self (p : nat) (item : A) :
  invariant self -> Z.of_nat p < priority_levels self ->
  _total_size self < max_size self ->
  invariant (after_put self p item).
Proof.
  intros (Hc & Hb & He) Hp Hroom. split; [apply consistent_after_put; assumption|].
  cbn. lia.
Qed.

Lemma invariant_after_get self (q : nat) (item : A) (rest : list A) :
  invariant self -> _queues self !! q = Some (item :: rest) ->
  invariant (after_get self q rest).
Proof.
  intros (Hc & Hb & He) Hlook.
  split; [eapply consistent_after_get; eassumption|].
  destruct Hc as (_ & _ & Htot).
  rewrite (concat_insert_length _ _ _ _ Hlook) in Htot. cbn. lia.
Qed.

(** [put] when the queue has been looked at after the wait. *)
Lemma put_after_wait self (item : A) (priority : Z) self' (r : bool) :
  invariant self ->
  (if max_size self <=? _total_size self then Py.Ok (drop_item self, false)
   else
     let p := level_of (priority_levels self) priority in
     let! q := index (length (_queues self)) p in
     let queues := alter (fun d => d ++ [item]) q (_queues self) in
     let! s := index (length (_sizes self)) p in
     let sizes := alter (fun n => n + 1) s (_sizes self) in
     Py.Ok ({| max_size := max_size self;
               priority_levels := priority_levels self;
               _queues := queues;
               _sizes := sizes;
               _total_size := _total_size self + 1;
               _enqueued := _enqueued self + 1;
               _dequeued := _dequeued self;
               _dropped := _dropped self |}, true)) = Py.Ok (self', r) ->
  invariant self' /\ max_size self' = max_size self
  /\ priority_levels self' = priority_levels self.
Proof.
  intros Hinv. pose proof Hinv as (((Hpos & Hq & Hs) & _) & _).
  destruct (Z.leb_spec (max_size self) (_total_size self)).
  - intros [= <- <-]. auto using invariant_drop_item.
  - pose proof (level_of_range (priority_levels self) priority Hpos) as Hlev.
    cbn zeta. rewrite !index_in_range by lia. cbn [Py.bind].
    intros [= <- <-]. split; [|auto].
    apply (invariant_after_put self (Z.to_nat (level_of (priority_levels self) priority)) item);
      [assumption|lia|assumption].
Qed.

Lemma put_invariant self (item : A) (priority : Z) timeout wait self' (r : bool) :
  invariant self ->
  (forall now, wait = Notified now ->
     invariant now /\ max_size now = max_size self
     /\ priority_levels now = priority_levels self) ->
  put self item priority timeout wait = Py.Ok (self', r) ->
  invariant self' /\ max_size self' = max_size self
  /\ priority_levels self' = priority_levels self.
Proof.
  intros Hinv Hwait. unfold put. fold (level_of (priority_levels self) priority).
  destruct (Z.leb_spec (max_size self) (_total_size self)) as [Hfull|Hroom].
  - destruct wait as [now| |].
    + destruct (Hwait now eq_refl) as (Hnow & Hm & Hl).
      assert (Hgo : forall t : option Qc,
                match t with Some _ | None => Py.Ok (inl now) end
                = (Py.Ok (inl now) : Py.result (PriorityQueue A + PriorityQueue A)))
        by (intros []; reflexivity).
      destruct timeout; cbn [Py.bind]; rewrite <- Hl, <- Hm;
        intros Hput; apply (put_after_wait now item priority self' r); assumption.
    + destruct timeout; cbn [Py.bind]; [|discriminate].
      intros [= <- <-]. auto using invariant_drop_item.
    + destruct timeout; cbn [Py.bind]; [|discriminate].
      intros [= <- <-]. auto using invariant_drop_item.
  - cbn [Py.bind]. intros Hput. apply (put_after_wait self item priority self' r); [assumption|].
    exact Hput.
Qed.

Lemma get_wait_invariant self timeout waits self' (go : bool) :
  invariant self ->
  (forall now, Notified now ∈ waits ->
     invariant now /\ max_size now = max_size self
     /\ priority_levels now = priority_levels self) ->
  get_wait self timeout waits = Py.Ok (self', go) ->
  invariant self' /\ max_size self' = max_size self
  /\ priority_levels self' = priority_levels self.
Proof.
  revert self. induction waits as [|w waits IH]; intros self Hinv Hwaits; cbn.
  - destruct (_total_size self =? 0); [destruct timeout|]; try discriminate;
      intros [= <- <-]; auto.
  - destruct (_total_size self =? 0); [|intros [= <- <-]; auto].
    destruct w as [now| |].
    + destruct (Hwaits now) as (Hnow & Hm & Hl); [left|].
      intros Hget. rewrite <- Hm, <- Hl. apply IH; [assumption| |assumption].
      intros now' Hin. rewrite Hm, Hl. apply Hwaits. right. exact Hin.
    + destruct timeout; [|discriminate]. intros [= <- <-]; auto.
    + destruct timeout; [|discriminate]. intros [= <- <-]; auto.
Qed.

Lemma get_invariant self timeout waits self' (r : option A) :
  invariant self ->
  (forall now, Notified now ∈ waits ->
     invariant now /\ max_size now = max_size self
     /\ priority_levels now = priority_levels self) ->
  get self timeout waits = Py.Ok (self', r) ->
  invariant self' /\ max_size self' = max_size self
  /\ priority_levels self' = priority_levels self.
Proof.
  intros Hinv Hwaits. unfold get.
  destruct (get_wait self timeout waits) as [[q go]| |] eqn:Hw; try discriminate.
  destruct (get_wait_invariant _ _ _ _ _ Hinv Hwaits Hw) as (Hq & Hm & Hl).
  cbn [Py.bind]. destruct go; [|intros [= <- <-]; auto].
  pose proof Hq as (Hc & _). pose proof Hc as ((Hpos & _) & _).
  destruct (get_scan_first q (Z.to_nat (priority_levels q)) 0 Hc)
    as [[_ Hscan]|(i & item & rest & Hlook & _ & Hscan)]; [lia|lia|lia| |];
    rewrite Z2Nat.id in Hscan by lia; rewrite Hscan.
  - intros [= <- <-]; auto.
  - intros [= <- <-]. split; [eapply invariant_after_get; eassumption|]. cbn. auto.
Qed.

(** X1: however [put] and [get] are called on a queue made by [__init__]
    with at least one level and a size limit that is not negative, the
    queue never holds more than [max_size] items, its counters agree with
    its deques, and [qsize] is the number of items put in less the number
    taken out. *)
Theorem queue_size_bounded (max_size levels : Z) self :
  0 <= max_size -> 0 < levels ->
  reachable max_size levels self ->
  0 <= qsize self <= max_size
  /\ qsize self = Z.of_nat (length (concat (_queues self)))
  /\ _sizes self = (fun d => Z.of_nat (length d)) <$> _queues self
  /\ qsize self = _enqueued self - _dequeued self.
Proof.
  intros Hm Hl Hreach.
  assert (H : invariant self /\ connection.max_size self = max_size
              /\ priority_levels self = levels).
  { induction Hreach as [|self item priority timeout wait self' r _ IH _ IHw Hput
                         |self timeout waits self' r _ IH _ IHw Hget].
    - split; [apply invariant_init; assumption|]. split; reflexivity.
    - destruct IH as (Hinv & <- & <-).
      apply (put_invariant self item priority timeout wait self' r); [assumption| |assumption].
      intros now Hnow. apply IHw, Hnow.
    - destruct IH as (Hinv & <- & <-).
      apply (get_invariant self timeout waits self' r); [assumption| |assumption].
      intros now Hnow. apply IHw, Hnow. }
  destruct H as (((_ & Hsz & Htot) & Hb & He) & <- & _). unfold qsize. auto.
Qed.

(** X2: items put into a fresh queue with room for them come out of [get]
    level by level, the lowest level first, and within a level in the
    order in which they were put; an item whose priority names no level
    counts as one of the last level. After as many calls of [get] as there
    were items the queue is empty. *)
Theorem get_order (max_size levels : Z) (items : list (A * Z)) :
  0 < levels -> Z.of_nat (length items) <= max_size ->
  exists full drained,
    put_all (queue_init max_size levels) items = Py.Ok (full, repeat true (length items))
    /\ get_all full (length items)
       = Py.Ok (drained,
                Some <$> flat_map
                           (fun p => (filter (fun x => level_of levels (snd x) = p) items).*1)
                           (seqZ 0 levels))
    /\ qsize drained = 0.
Proof.
  intros Hl Hroom.
  destruct (invariant_init max_size levels) as (Hc & _); [lia|lia|].
  destruct (put_all_queues (queue_init max_size levels) items Hc)
    as (full & Hput & Hcf & _ & Htotal & Hqs); [cbn; lia|].
  exists full. cbn [priority_levels queue_init _total_size _queues] in *.
  assert (Hqueues : _queues full
            = (fun p => (filter (fun x => level_of levels (snd x) = p) items).*1)
              <$> seqZ 0 levels).
  { apply list_eq. intros p. rewrite Hqs, list_lookup_fmap.
    destruct (decide (Z.of_nat p < levels)) as [Hp|Hp].
    - rewrite lookup_seqZ_lt by lia. rewrite repeat_replicate, lookup_replicate_2 by lia.
      reflexivity.
    - rewrite lookup_seqZ_ge by lia.
      rewrite repeat_replicate.
      assert (Hnone : replicate (Z.to_nat levels) ([] : list A) !! p = None)
        by (apply lookup_replicate_None; lia).
      rewrite Hnone. reflexivity. }
  destruct (get_all_concat full (length items) Hcf) as (drained & Hget & Hcd & Hrest).
  exists drained. split; [exact Hput|].
  assert (Hlen : length (concat (_queues full)) = length items).
  { destruct Hcf as (_ & _ & Htot). lia. }
  rewrite take_ge, (proj2 (Nat.sub_0_le _ _)) in Hget by lia.
  cbn [repeat] in Hget. rewrite app_nil_r in Hget.
  rewrite Hqueues in Hget. rewrite <- flat_map_concat_map in Hget.
  split; [exact Hget|].
  destruct Hcd as (_ & _ & Htot). unfold qsize. rewrite Htot, Hrest, <- Hlen, drop_all.
  reflexivity.
Qed.

End priority_queue_order.

Lemma queue_size_bounded_witness :
  exists q, put (queue_init 2 3) "job" 1 None Never = Py.Ok (q, true)
            /\ 0 <= qsize q <= 2.
Proof.
  eexists. split; [reflexivity|].
  refine (proj1 (queue_size_bounded 2 3 _ _ _ _)); [lia|lia|].
  apply (reachable_put 2 3 (queue_init 2 3) "job" 1 None Never _ true);
    [apply reachable_init|discriminate|reflexivity].
Defined.

Lemma get_order_witness :
  exists full drained,
    put_all (queue_init 10 3) [("low", 2); ("high", 0); ("odd", 7); ("urgent", 0)]
    = Py.Ok (full, [true; true; true; true])
    /\ get_all full 4
       = Py.Ok (drained, [Some "high"; Some "urgent"; Some "low"; Some "odd"])
    /\ qsize drained = 0.
Proof.
  destruct (get_order 10 3 [("low", 2); ("high", 0); ("odd", 7); ("urgent", 0)])
    as (full & drained & Hput & Hget & Hsize); [lia|cbn; lia|].
  exists full, drained. split; [exact Hput|]. split; [exact Hget|exact Hsize].
Defined.

(** *** Connection pool: slots and limits *)

Lemma loads_get_present (loads : gmap string Z) (k : string) (v : Z) :
  loads !! k = Some v -> loads_get loads k = (loads, v).
Proof. intros H. unfold loads_get. rewrite H. reflexivity. Qed.

Lemma pool_invariant_init (limit per : Z) (timeout interval : Qc) :
  0 <= limit -> pool_invariant (pool_init limit per timeout interval).
Proof.
  intros Hl. split; [|split]; cbn.
  - intros k. rewrite !lookup_empty. split; intros [? [=]].
  - unfold connection_count. cbn. rewrite map_size_empty. lia.
  - intros k v. rewrite lookup_empty. discriminate.
Qed.

Lemma pool_invariant_add (self : ConnectionPool) cid ip ua uuid now :
  0 <= max_concurrent_per_connection self ->
  pool_invariant self -> pool_invariant (fst (add_connection self cid ip ua uuid now)).
Proof.
  intros Hper (Hdom & Hcount & Hloads). unfold add_connection.
  destruct (Z.leb_spec (max_connections self) (connection_count self)) as [Hfull|Hroom].
  - split; [|split]; cbn; assumption.
  - split; [|split]; cbn.
    + intros k. destruct (decide (default uuid cid = k)) as [<-|Hne].
      * rewrite !lookup_insert_eq. split; eauto.
      * rewrite !lookup_insert_ne by done. apply Hdom.
    + unfold connection_count in *. cbn. rewrite map_size_insert.
      destruct (_connections self !! default uuid cid); cbn; lia.
    + intros k v. destruct (decide (default uuid cid = k)) as [<-|Hne].
      * rewrite lookup_insert_eq. intros [= <-]. lia.
      * rewrite lookup_insert_ne by done. apply Hloads.
Qed.

Lemma pool_invariant_remove (self : ConnectionPool) (c : string) :
  pool_invariant self -> pool_invariant (remove_connection self c).
Proof.
  intros (Hdom & Hcount & Hloads). unfold remove_connection.
  destruct (_connections self !! c) eqn:Hc; [|split; [|split]; assumption].
  split; [|split]; cbn.
  - intros k. destruct (decide (c = k)) as [<-|Hne].
    + rewrite !lookup_delete_eq. split; intros [? [=]].
    + rewrite !lookup_delete_ne by done. apply Hdom.
  - unfold connection_count in *. cbn. rewrite map_size_delete, Hc. lia.
  - intros k v Hk. apply lookup_delete_Some in Hk as [_ Hk]. eapply Hloads, Hk.
Qed.

Lemma pool_invariant_update (self : ConnectionPool) (c : string) bytes messages now :
  pool_invariant self ->
  pool_invariant (update_connection_activity self c bytes messages now).
Proof.
  intros (Hdom & Hcount & Hloads). unfold update_connection_activity.
  destruct (_connections self !! c) eqn:Hc; [|split; [|split]; assumption].
  split; [|split]; cbn.
  - intros k. destruct (decide (c = k)) as [<-|Hne].
    + rewrite lookup_insert_eq. rewrite <- Hdom, Hc. split; eauto.
    + rewrite lookup_insert_ne by done. apply Hdom.
  - unfold connection_count in *. cbn. rewrite map_size_insert, Hc. assumption.
  - assumption.
Qed.

Lemma pool_invariant_acquire (self : ConnectionPool) (c : string) :
  pool_invariant self -> pool_invariant (fst (acquire_connection_slot self c)).
Proof.
  intros (Hdom & Hcount & Hloads). unfold acquire_connection_slot.
  destruct (_connections self !! c) as [conn|] eqn:Hc; [|split; [|split]; assumption].
  destruct (proj1 (Hdom c)) as [v Hv]; [eauto|].
  rewrite (loads_get_present _ _ _ Hv).
  destruct (Z.leb_spec (max_concurrent_per_connection self) v) as [Hfull|Hroom].
  - split; [|split]; cbn; assumption.
  - split; [|split]; cbn.
    + intros k. destruct (decide (c = k)) as [<-|Hne].
      * rewrite !lookup_insert_eq. split; eauto.
      * rewrite !lookup_insert_ne by done. apply Hdom.
    + unfold connection_count in *. cbn. rewrite map_size_insert, Hc. assumption.
    + intros k w. destruct (decide (c = k)) as [<-|Hne].
      * rewrite lookup_insert_eq. intros [= <-]. specialize (Hloads _ _ Hv). lia.
      * rewrite lookup_insert_ne by done. apply Hloads.
Qed.

Lemma is_Some_insert_present {V : Type} (m : gmap string V) (c k : string) (x y : V) :
  m !! c = Some x -> is_Some (<[c := y]> m !! k) <-> is_Some (m !! k).
Proof.
  intros Hc. destruct (decide (c = k)) as [<-|Hne].
  - rewrite lookup_insert_eq, Hc. split; eauto.
  - rewrite lookup_insert_ne by done. reflexivity.
Qed.

Lemma pool_invariant_release (self : ConnectionPool) (c : string) :
  pool_invariant self -> pool_invariant (release_connection_slot self c).
Proof.
  intros (Hdom & Hcount & Hloads). unfold release_connection_slot.
  destruct (_connections self !! c) as [conn|] eqn:Hc; [|split; [|split]; assumption].
  destruct (proj1 (Hdom c)) as [v Hv]; [eauto|].
  rewrite (loads_get_present _ _ _ Hv). pose proof (Hloads _ _ Hv) as Hrange.
  cbn zeta.
  destruct (Z.ltb_spec 0 v) as [Hpos|Hzero];
    destruct ((_ : Z) =? 0); (split; [|split]); cbn;
    try assumption; unfold connection_count in *; cbn;
    rewrite ?map_size_insert, ?Hc; try assumption;
    try (intros k; rewrite ?(is_Some_insert_present _ c k _ _ Hc),
                           ?(is_Some_insert_present _ c k _ _ Hv); apply Hdom).
  all: intros k w; destruct (decide (c = k)) as [<-|Hne];
    [rewrite lookup_insert_eq; intros [= <-]; lia
    |rewrite lookup_insert_ne by done; apply Hloads].
Qed.

Lemma inactive_step_loads (self : ConnectionPool) (now : Qc) (order : list string)
    (found : list string) :
  pool_invariant self ->
  fst (foldl (inactive_step self now) (_connection_loads self, found) order)
  = _connection_loads self.
Proof.
  intros (Hdom & _). revert found. induction order as [|c order IH]; intros found;
    [reflexivity|].
  cbn [foldl]. unfold inactive_step at 2. cbn [fst snd].
  destruct (_connections self !! c) as [conn|] eqn:Hc; [|apply IH].
  destruct (bool_decide _); [|apply IH].
  destruct (proj1 (Hdom c)) as [v Hv]; [eauto|].
  rewrite (loads_get_present _ _ _ Hv). destruct (v =? 0); apply IH.
Qed.

Lemma pool_invariant_remove_all (ids : list string) (self : ConnectionPool) :
  pool_invariant self -> pool_invariant (foldl remove_connection self ids).
Proof.
  revert self. induction ids as [|c ids IH]; intros self H; [exact H|].
  cbn. apply IH, pool_invariant_remove, H.
Qed.

Lemma pool_invariant_cleanup (self : ConnectionPool) (order : list string) (now : Qc) :
  pool_invariant self -> pool_invariant (_cleanup_inactive_connections self order now).
Proof.
  intros H. unfold _cleanup_inactive_connections.
  pose proof (inactive_step_loads self now order [] H) as Hl.
  destruct (foldl _ _ order) as [loads inactive]. cbn [fst] in Hl. subst loads.
  apply pool_invariant_remove_all. exact H.
Qed.

Lemma remove_all_limits (ids : list string) (self : ConnectionPool) :
  max_connections (foldl remove_connection self ids) = max_connections self
  /\ max_concurrent_per_connection (foldl remove_connection self ids)
     = max_concurrent_per_connection self.
Proof.
  revert self. induction ids as [|c ids IH]; intros self; [auto|].
  cbn. destruct (IH (remove_connection self c)) as [-> ->].
  unfold remove_connection. destruct (_connections self !! c); auto.
Qed.

(** X3: however the methods of a pool made by [__init__] are called, the
    pool never holds more than [max_connections] connections, no
    connection ever has more than [max_concurrent_per_connection] slots
    taken or fewer than none, and a load is recorded for the connections
    of the pool and for no others (so that the [del] of
    [remove_connection] finds its key). *)
Theorem pool_limits (limit per : Z) (timeout interval : Qc) (self : ConnectionPool) :
  0 <= limit -> 0 <= per ->
  pool_reachable limit per timeout interval self ->
  get_connection_count self <= limit
  /\ (forall c, 0 <= load_of self c <= per)
  /\ (forall c, is_Some (_connections self !! c) <-> is_Some (_connection_loads self !! c)).
Proof.
  intros Hl Hp Hreach.
  assert (H : pool_invariant self /\ max_connections self = limit
              /\ max_concurrent_per_connection self = per).
  { induction Hreach as [|self cid ip ua uuid now _ (IH & Hm & Hc)
                         |self c _ (IH & Hm & Hc)
                         |self c bytes messages now _ (IH & Hm & Hc)
                         |self c _ (IH & Hm & Hc)
                         |self c _ (IH & Hm & Hc)
                         |self order now _ (IH & Hm & Hc)].
    - split; [apply pool_invariant_init, Hl|]. split; reflexivity.
    - split; [apply pool_invariant_add; [lia|exact IH]|].
      unfold add_connection. destruct (_ <=? _); cbn; auto.
    - split; [apply pool_invariant_remove, IH|].
      unfold remove_connection. destruct (_ !! _); cbn; auto.
    - split; [apply pool_invariant_update, IH|].
      unfold update_connection_activity. destruct (_ !! _); cbn; auto.
    - split; [apply pool_invariant_acquire, IH|].
      unfold acquire_connection_slot. destruct (_ !! _); [|cbn; auto].
      destruct (loads_get _ _). destruct (_ <=? _); cbn; auto.
    - split; [apply pool_invariant_release, IH|].
      unfold release_connection_slot. destruct (_ !! _); [|cbn; auto].
      destruct (loads_get _ _). cbn. auto.
    - split; [apply pool_invariant_cleanup, IH|].
      unfold _cleanup_inactive_connections. destruct (foldl _ _ order) as [loads inactive].
      destruct (remove_all_limits inactive (set_connections self (_connections self) loads))
        as [-> ->]. cbn. auto. }
  destruct H as ((Hdom & Hcount & Hloads) & <- & <-).
  split; [exact Hcount|]. split; [|exact Hdom].
  intros c. unfold load_of. destruct (_connection_loads self !! c) as [v|] eqn:Hv; cbn.
  - eapply Hloads, Hv.
  - lia.
Qed.

Lemma pool_reachable_add_connections limit per timeout interval (ids : list string)
    (self : ConnectionPool) (now : Qc) :
  pool_reachable limit per timeout interval self ->
  pool_reachable limit per timeout interval (fst (add_connections self ids now)).
Proof.
  revert self. induction ids as [|c ids IH]; intros self H; [exact H|].
  cbn [add_connections].
  pose proof (pool_reachable_add _ _ _ _ self (Some c) None None c now H) as H1.
  destruct (add_connection self (Some c) None None c now) as [self1 r1].
  specialize (IH self1 H1). destruct (add_connections self1 ids now). exact IH.
Qed.

Lemma pool_limits_witness :
  get_connection_count two_slot_pool <= 2
  /\ (forall c, 0 <= load_of (fst (acquire_connection_slot two_slot_pool "a")) c <= 10).
Proof.
  assert (Hr : pool_reachable 2 10 (numbers.Qc_of_Z 300) (numbers.Qc_of_Z 60) two_slot_pool).
  { apply pool_reachable_add_connections, pool_reachable_init. }
  split.
  - apply (pool_limits 2 10 (numbers.Qc_of_Z 300) (numbers.Qc_of_Z 60)); [lia|lia|exact Hr].
  - apply (pool_limits 2 10 (numbers.Qc_of_Z 300) (numbers.Qc_of_Z 60)); [lia|lia|].
    apply pool_reachable_acquire, Hr.
Defined.

(** What [get_least_loaded_connection] returns is a connection of the
    pool in state [CONNECTED]. *)
Lemma least_loaded_connected (self : ConnectionPool) (order : list string) (c : string) :
  get_least_loaded_connection self order = Py.Ok (Some c) ->
  exists conn, _connections self !! c = Some conn /\ state conn = CONNECTED.
Proof.
  unfold get_least_loaded_connection.
  destruct (decide (_connections self = ∅)); [discriminate|].
  destruct (omap _ order) as [|[k first] rest]; [discriminate|].
  set (items := (k, first) :: rest). set (min_load := py_min_list first _).
  intros Hfind. assert (Hsome : forall x y : option string, Py.Ok x = Py.Ok y -> x = y)
    by (intros x y [=]; assumption).
  apply Hsome in Hfind. clear Hsome.
  destruct (List.find _ items) as [[k' load]|] eqn:Hf; [|discriminate Hfind].
  injection Hfind as Hk. cbn in Hk. subst k'.
  apply find_some in Hf as [_ Hf]. cbn [fst snd] in Hf.
  apply andb_true_iff in Hf as [_ Hf].
  destruct (_connections self !! c) as [conn|]; [|discriminate Hf].
  apply andb_true_iff in Hf as [Hs _]. apply bool_decide_eq_true in Hs.
  exists conn. auto.
Qed.

(** X4: a connection that has been given a slot is not among the
    connections that [get_least_loaded_connection] offers, neither while it
    holds the slot nor after it has released it: the slot leaves it in
    state [PROCESSING] or [IDLE], and only [CONNECTED] ones are offered. *)
Theorem used_connection_not_offered (self self1 : ConnectionPool) (c : string)
    (order : list string) :
  acquire_connection_slot self c = (self1, true) ->
  get_least_loaded_connection self1 order <> Py.Ok (Some c)
  /\ get_least_loaded_connection (release_connection_slot self1 c) order
     <> Py.Ok (Some c).
Proof.
  unfold acquire_connection_slot.
  destruct (_connections self !! c) as [conn|] eqn:Hc; [|discriminate].
  destruct (loads_get (_connection_loads self) c) as [loads v].
  destruct (_ <=? _); [discriminate|]. intros [= <-].
  split; intros Hoffer; apply least_loaded_connected in Hoffer as (conn' & Hlook & Hstate).
  - cbn in Hlook. rewrite lookup_insert_eq in Hlook. injection Hlook as <-. discriminate.
  - unfold release_connection_slot in Hlook. cbn [_connections set_connections] in Hlook.
    rewrite lookup_insert_eq in Hlook. cbn [_connection_loads set_connections] in Hlook.
    destruct (loads_get _ c) as [loads' v']. cbn [_connections set_connections] in Hlook.
    destruct (_ =? 0).
    + rewrite lookup_insert_eq in Hlook. injection Hlook as <-. discriminate.
    + rewrite lookup_insert_eq in Hlook. injection Hlook as <-. discriminate.
Qed.

Lemma used_connection_not_offered_witness :
  exists busy,
    acquire_connection_slot two_slot_pool "a" = (busy, true)
    /\ get_least_loaded_connection two_slot_pool ["a"; "b"] = Py.Ok (Some "a")
    /\ get_least_loaded_connection busy ["a"; "b"] <> Py.Ok (Some "a")
    /\ get_least_loaded_connection (release_connection_slot busy "a") ["a"; "b"]
       <> Py.Ok (Some "a").
Proof.
  eexists. split; [reflexivity|]. split; [reflexivity|].
  apply (used_connection_not_offered two_slot_pool _ "a" ["a"; "b"]). reflexivity.
Defined.

(** *** Rate limiter: the budget of a connection *)

Lemma this_plus (x y : Qc) : (this (x + y)%Qc == this x + this y)%Q.
Proof. apply Qred_correct. Qed.

Lemma this_opp (x : Qc) : (this (- x)%Qc == - this x)%Q.
Proof. apply Qred_correct. Qed.

Lemma this_minus (x y : Qc) : (this (x - y)%Qc == this x - this y)%Q.
Proof. unfold Qcminus. rewrite this_plus, this_opp. reflexivity. Qed.

Lemma this_mult (x y : Qc) : (this (x * y)%Qc == this x * this y)%Q.
Proof. apply Qred_correct. Qed.

Lemma this_of_Z (z : Z) : (this (Qc_of_Z z) == inject_Z z)%Q.
Proof. apply Qred_correct. Qed.

(** Inequalities of [Qc] as inequalities of [Q], where [lra] decides. *)
Ltac qc_to_q :=
  unfold Qcle, Qclt in *;
  repeat (progress (rewrite ?this_plus, ?this_minus, ?this_mult, ?this_opp, ?this_of_Z in * ));
  change (this 0%Qc) with 0%Q in *; change (this 1%Qc) with 1%Q in *.

Lemma py_min_le_l (a b : Qc) : (py_min a b <= a)%Qc.
Proof.
  unfold py_min. case_bool_decide as H; [|apply Qcle_refl]. apply Qclt_le_weak, H.
Qed.

Lemma py_min_le_r (a b : Qc) : (py_min a b <= b)%Qc.
Proof.
  unfold py_min. case_bool_decide as H; [apply Qcle_refl|]. apply Qcnot_lt_le, H.
Qed.

Lemma py_min_ge (a b c : Qc) : (c <= a)%Qc -> (c <= b)%Qc -> (c <= py_min a b)%Qc.
Proof. intros Ha Hb. unfold py_min. case_bool_decide; assumption. Qed.

Lemma is_allowed_limits (self : RateLimiter) (cid : string) (made now : Qc) :
  burst_size (fst (is_allowed self cid made now)) = burst_size self
  /\ requests_per_second (fst (is_allowed self cid made now)) = requests_per_second self
  /\ per_connection (fst (is_allowed self cid made now)) = per_connection self.
Proof. unfold is_allowed. cbn. auto. Qed.

(** One check: the tokens left and the request let through, if it is,
    are together no more than the tokens there were and the refill, and
    no more than [burst_size]. *)
Lemma is_allowed_budget (self : RateLimiter) (cid : string) (made now : Qc) :
  (0 <= requests_per_second self)%Qc -> 0 <= burst_size self ->
  bucket_within self cid made -> (made <= now)%Qc ->
  let old := default {| tokens := Qc_of_Z (burst_size self); last_refill := made |}
               (_buckets self !! key_of self cid) in
  let r := is_allowed self cid made now in
  exists b,
    _buckets (fst r) !! key_of self cid = Some b
    /\ last_refill b = now
    /\ (0 <= tokens b)%Qc
    /\ (tokens b + (if snd r then 1 else 0) <= Qc_of_Z (burst_size self))%Qc
    /\ (tokens b + (if snd r then 1 else 0)
        <= tokens old + (now - last_refill old) * requests_per_second self)%Qc.
Proof.
  intros Hrate Hburst Hwithin Hnow old r.
  assert (Hold : (0 <= tokens old)%Qc /\ (tokens old <= Qc_of_Z (burst_size self))%Qc
                 /\ (last_refill old <= now)%Qc).
  { unfold old, bucket_within in *. destruct (_buckets self !! key_of self cid) as [b|]; cbn.
    - destruct Hwithin as (H0 & H1 & H2). split; [|split]; try assumption.
      eapply Qcle_trans; eassumption.
    - split; [|split; [apply Qcle_refl|assumption]].
      change 0%Qc with (Qc_of_Z 0). apply Qc_of_Z_le, Hburst. }
  destruct Hold as (H0 & H1 & H2).
  unfold r, is_allowed. fold (key_of self cid). fold old.
  cbn [fst snd _buckets]. rewrite lookup_insert_eq. eexists. split; [reflexivity|].
  cbn [tokens last_refill]. split; [reflexivity|].
  set (refilled := py_min _ _).
  assert (Hadd : (0 <= (now - last_refill old) * requests_per_second self)%Qc).
  { qc_to_q. apply Qmult_le_0_compat; lra. }
  assert (Hr1 : (refilled <= Qc_of_Z (burst_size self))%Qc) by apply py_min_le_l.
  assert (Hr2 : (refilled <= tokens old + (now - last_refill old) * requests_per_second self)%Qc)
    by apply py_min_le_r.
  assert (Hr0 : (0 <= refilled)%Qc).
  { apply py_min_ge.
    - change 0%Qc with (Qc_of_Z 0). apply Qc_of_Z_le, Hburst.
    - qc_to_q. lra. }
  case_bool_decide as Hone.
  - split; [|split]; qc_to_q; lra.
  - split; [|split]; qc_to_q; lra.
Qed.

Lemma allowed_count_cons (a : bool) (answers : list bool) :
  allowed_count (a :: answers) = (if a then 1 else 0) + allowed_count answers.
Proof.
  unfold allowed_count. rewrite filter_cons. destruct a; cbn.
  - rewrite decide_True by exact I. cbn [length]. lia.
  - rewrite decide_False by (intros []). lia.
Qed.

Lemma Qc_of_Z_add (a b : Z) : Qc_of_Z (a + b) = (Qc_of_Z a + Qc_of_Z b)%Qc.
Proof.
  apply Qc_is_canon. rewrite this_plus, !this_of_Z, inject_Z_plus. reflexivity.
Qed.

Lemma last_cons_default {B : Type} (times : list B) (t d : B) :
  List.last (t :: times) d = List.last times t.
Proof.
  revert t d. induction times as [|t' times IH]; intros t d; [reflexivity|].
  change (List.last (t :: t' :: times) d) with (List.last (t' :: times) d).
  rewrite !IH. reflexivity.
Qed.

(** A run of checks on a bucket that exists: what was let through and
    what is left are together no more than what was there and the refill
    over the run. *)
Lemma checks_budget (times : list Qc) (self : RateLimiter) (cid : string) (b : bucket) :
  (0 <= requests_per_second self)%Qc -> 0 <= burst_size self ->
  _buckets self !! key_of self cid = Some b ->
  (0 <= tokens b)%Qc -> (tokens b <= Qc_of_Z (burst_size self))%Qc ->
  clock_runs (last_refill b) times ->
  (Qc_of_Z (allowed_count (snd (checks self cid times)))
   <= tokens b + (List.last times (last_refill b) - last_refill b) * requests_per_second self)%Qc.
Proof.
  intros Hrate Hburst.
  assert (Hgen : forall times self b,
    (0 <= requests_per_second self)%Qc -> 0 <= burst_size self ->
    _buckets self !! key_of self cid = Some b ->
    (0 <= tokens b)%Qc -> (tokens b <= Qc_of_Z (burst_size self))%Qc ->
    clock_runs (last_refill b) times ->
    exists left : Qc,
      (0 <= left)%Qc
      /\ (Qc_of_Z (allowed_count (snd (checks self cid times))) + left
          <= tokens b
             + (List.last times (last_refill b) - last_refill b) * requests_per_second self)%Qc).
  { clear. induction times as [|t times IH]; intros self b Hrate Hburst Hb H0 H1 Hrun.
    - exists (tokens b). split; [assumption|]. cbn [checks snd List.last].
      change (allowed_count []) with 0. change (Qc_of_Z 0) with 0%Qc.
      qc_to_q. lra.
    - destruct Hrun as [Ht Hrun].
      assert (Hwithin : bucket_within self cid t).
      { unfold bucket_within. rewrite Hb. auto. }
      destruct (is_allowed_budget self cid t t Hrate Hburst Hwithin (Qcle_refl t))
        as (b1 & Hb1 & Hl1 & H10 & H11 & H12).
      rewrite Hb in H12. cbn [default from_option id] in H12.
      destruct (is_allowed_limits self cid t t) as (Eb & Er & Ep).
      cbn [checks]. destruct (is_allowed self cid t t) as [self1 a] eqn:E1.
      cbn [fst snd] in *.
      assert (Hkey : key_of self1 cid = key_of self cid) by (unfold key_of; rewrite Ep; reflexivity).
      destruct (IH self1 b1) as (left & Hleft & Hsum).
      + rewrite Er. assumption.
      + rewrite Eb. assumption.
      + rewrite Hkey. assumption.
      + assumption.
      + rewrite Eb. clear - H11. destruct a; qc_to_q; lra.
      + rewrite Hl1. assumption.
      + destruct (checks self1 cid times) as [self2 rest] eqn:E2. cbn [snd] in *.
        exists left. split; [assumption|].
        rewrite allowed_count_cons, Qc_of_Z_add.
        rewrite last_cons_default. rewrite Hl1, Er in Hsum.
        assert (Ha : Qc_of_Z (if a then 1 else 0) = (if a then 1 else 0)%Qc)
          by (destruct a; reflexivity).
        rewrite Ha. clear - Hsum H12 Hleft Hrate Ht.
        set (n := Qc_of_Z (allowed_count rest)) in *.
        set (x := (if a then 1 else 0)%Qc) in *.
        set (final := List.last times t) in *.
        qc_to_q. lra. }
  intros Hb H0 H1 Hrun.
  destruct (Hgen times self b Hrate Hburst Hb H0 H1 Hrun) as (left & Hleft & Hsum).
  qc_to_q. lra.
Qed.

(** X5: the budget of the token bucket. When the clock does not run
    backwards, the checks made for a connection from the time [t] on let
    through no more than [burst_size] requests and [requests_per_second]
    more for each second gone by since [t], whatever the bucket held
    before. *)
Theorem rate_limit_budget (self : RateLimiter) (connection_id : string)
    (t : Qc) (times : list Qc) :
  (0 <= requests_per_second self)%Qc -> 0 <= burst_size self ->
  bucket_within self connection_id t ->
  clock_runs t times ->
  (Qc_of_Z (allowed_count (snd (checks self connection_id (t :: times))))
   <= Qc_of_Z (burst_size self)
      + (List.last times t - t) * requests_per_second self)%Qc.
Proof.
  intros Hrate Hburst Hwithin Hrun.
  destruct (is_allowed_budget self connection_id t t Hrate Hburst Hwithin (Qcle_refl t))
    as (b1 & Hb1 & Hl1 & H10 & H11 & _).
  destruct (is_allowed_limits self connection_id t t) as (Eb & Er & Ep).
  cbn [checks]. destruct (is_allowed self connection_id t t) as [self1 a] eqn:E1.
  cbn [fst snd] in *.
  assert (Hkey : key_of self1 connection_id = key_of self connection_id)
    by (unfold key_of; rewrite Ep; reflexivity).
  assert (Hb1' : (tokens b1 <= Qc_of_Z (burst_size self))%Qc).
  { destruct a; qc_to_q; lra. }
  pose proof (checks_budget times self1 connection_id b1) as Hsum.
  rewrite Er, Eb, Hkey, Hl1 in Hsum.
  specialize (Hsum Hrate Hburst Hb1 H10 Hb1' Hrun).
  destruct (checks self1 connection_id times) as [self2 rest]. cbn [snd] in *.
  rewrite allowed_count_cons, Qc_of_Z_add.
  assert (Ha : Qc_of_Z (if a then 1 else 0) = (if a then 1 else 0)%Qc)
    by (destruct a; reflexivity).
  rewrite Ha. clear - Hsum H11.
  set (n := Qc_of_Z (allowed_count rest)) in *.
  set (x := (if a then 1 else 0)%Qc) in *.
  set (final := List.last times t) in *.
  qc_to_q. lra.
Qed.

Lemma rate_limit_budget_witness :
  (Qc_of_Z (allowed_count
              (snd (checks (limiter_init (Qc_of_Z 10) 20 true) "a"
                      (0%Qc :: repeat 0%Qc 30 ++ [1%Qc]))))
   <= Qc_of_Z 20 + (1 - 0) * Qc_of_Z 10)%Qc.
Proof.
  apply (rate_limit_budget (limiter_init (Qc_of_Z 10) 20 true) "a" 0%Qc
           (repeat 0%Qc 30 ++ [1%Qc])).
  - vm_compute. discriminate.
  - vm_compute. discriminate.
  - exact I.
  - vm_compute. repeat split; discriminate.
Defined.

Lemma checks_limits (times : list Qc) (self : RateLimiter) (cid : string) :
  burst_size (fst (checks self cid times)) = burst_size self
  /\ requests_per_second (fst (checks self cid times)) = requests_per_second self
  /\ per_connection (fst (checks self cid times)) = per_connection self.
Proof.
  revert self. induction times as [|t times IH]; intros self; [auto|].
  cbn [checks]. destruct (is_allowed_limits self cid t t) as (Eb & Er & Ep).
  destruct (is_allowed self cid t t) as [self1 a]. cbn [fst] in *.
  destruct (IH self1) as (Eb' & Er' & Ep').
  destruct (checks self1 cid times) as [self2 rest]. cbn [fst] in *.
  rewrite Eb', Er', Ep'. auto.
Qed.

Lemma checks_other_bucket (times : list Qc) (self : RateLimiter) (cid other : string) :
  per_connection self = true -> cid <> other ->
  _buckets (fst (checks self cid times)) !! other = _buckets self !! other.
Proof.
  revert self. induction times as [|t times IH]; intros self Hper Hne; [reflexivity|].
  cbn [checks]. destruct (is_allowed_limits self cid t t) as (_ & _ & Ep).
  assert (Hb : _buckets (fst (is_allowed self cid t t)) !! other = _buckets self !! other).
  { unfold is_allowed. cbn. rewrite Hper. apply lookup_insert_ne, Hne. }
  destruct (is_allowed self cid t t) as [self1 a]. cbn [fst] in *.
  specialize (IH self1). destruct (checks self1 cid times) as [self2 rest]. cbn [fst] in *.
  rewrite IH by congruence. exact Hb.
Qed.

(** The answers of a run of checks depend on the limiter only through its
    settings and the bucket of the key. *)
Lemma checks_same_bucket (times : list Qc) (self self' : RateLimiter) (cid : string) :
  burst_size self' = burst_size self ->
  requests_per_second self' = requests_per_second self ->
  per_connection self' = per_connection self ->
  _buckets self' !! key_of self cid = _buckets self !! key_of self cid ->
  snd (checks self' cid times) = snd (checks self cid times).
Proof.
  revert self self'. induction times as [|t times IH]; intros self self' Eb Er Ep Hk;
    [reflexivity|].
  cbn [checks].
  assert (Hstep : snd (is_allowed self' cid t t) = snd (is_allowed self cid t t)
                  /\ _buckets (fst (is_allowed self' cid t t)) !! key_of self cid
                     = _buckets (fst (is_allowed self cid t t)) !! key_of self cid).
  { unfold is_allowed, key_of in *. rewrite Eb, Er, Ep, Hk. cbn.
    rewrite !lookup_insert_eq. auto. }
  destruct Hstep as [Ha Hk1].
  destruct (is_allowed_limits self cid t t) as (Eb1 & Er1 & Ep1).
  destruct (is_allowed_limits self' cid t t) as (Eb2 & Er2 & Ep2).
  destruct (is_allowed self cid t t) as [self1 a1].
  destruct (is_allowed self' cid t t) as [self1' a2]. cbn [fst snd] in *. subst a2.
  specialize (IH self1 self1').
  destruct (checks self1 cid times) as [self2 rest].
  destruct (checks self1' cid times) as [self2' rest']. cbn [snd] in *.
  f_equal. apply IH; try congruence.
  replace (key_of self1 cid) with (key_of self cid)
    by (unfold key_of; rewrite Ep1; reflexivity).
  exact Hk1.
Qed.

(** X6: with [per_connection] set, the checks made for one connection
    leave the budget of every other connection alone: whatever was asked
    for [busy] before, the answers to the checks for [other] are the
    same. *)
Theorem rate_limit_per_connection (self : RateLimiter) (busy other : string)
    (before times : list Qc) :
  per_connection self = true -> busy <> other ->
  snd (checks (fst (checks self busy before)) other times)
  = snd (checks self other times).
Proof.
  intros Hper Hne.
  destruct (checks_limits before self busy) as (Eb & Er & Ep).
  apply checks_same_bucket; try assumption.
  unfold key_of. rewrite Hper. apply checks_other_bucket; assumption.
Qed.

Lemma rate_limit_per_connection_witness :
  snd (checks (fst (checks (limiter_init (Qc_of_Z 10) 2 true) "a" [0%Qc; 0%Qc; 0%Qc]))
         "b" [0%Qc; 0%Qc; 0%Qc])
  = [true; true; false].
Proof.
  rewrite (rate_limit_per_connection (limiter_init (Qc_of_Z 10) 2 true) "a" "b");
    [reflexivity|reflexivity|discriminate].
Defined.

(** *** Load balancer *)

Lemma health_get_answer (health : gmap string bool) (p : string) :
  snd (health_get health p) = default true (health !! p)
  /\ forall k, default true (fst (health_get health p) !! k) = default true (health !! k).
Proof.
  unfold health_get. destruct (health !! p) as [h|] eqn:Hp; cbn; [auto|].
  split; [reflexivity|]. intros k. destruct (decide (p = k)) as [<-|Hne].
  - rewrite lookup_insert_eq, Hp. reflexivity.
  - rewrite lookup_insert_ne by done. reflexivity.
Qed.

Lemma loads_get_answer (loads : gmap string Z) (p : string) :
  snd (loads_get loads p) = default 0 (loads !! p)
  /\ forall k, default 0 (fst (loads_get loads p) !! k) = default 0 (loads !! k).
Proof.
  unfold loads_get. destruct (loads !! p) as [v|] eqn:Hp; cbn; [auto|].
  split; [reflexivity|]. intros k. destruct (decide (p = k)) as [<-|Hne].
  - rewrite lookup_insert_eq, Hp. reflexivity.
  - rewrite lookup_insert_ne by done. reflexivity.
Qed.

Lemma filter_ext_all {B : Type} (f g : B -> bool) (l : list B) :
  (forall x, f x = g x) -> List.filter f l = List.filter g l.
Proof. intros H. apply List.filter_ext. exact H. Qed.

Lemma healthy_processors_filter (processors : list string) (health : gmap string bool) :
  snd (healthy_processors health processors)
  = List.filter (fun p => default true (health !! p)) processors
  /\ forall k, default true (fst (healthy_processors health processors) !! k)
               = default true (health !! k).
Proof.
  revert health. induction processors as [|p processors IH]; intros health; [auto|].
  cbn [healthy_processors List.filter].
  destruct (health_get_answer health p) as [Ha Hk].
  destruct (health_get health p) as [health1 h]. cbn [fst snd] in *.
  destruct (IH health1) as [IHa IHk].
  destruct (healthy_processors health1 processors) as [health2 rest]. cbn [fst snd] in *.
  split.
  - subst h rest. rewrite (filter_ext_all _ (fun p => default true (health !! p))) by exact Hk.
    reflexivity.
  - intros k. rewrite IHk. apply Hk.
Qed.

Lemma min_by_load_least (candidates : list string) (loads : gmap string Z)
    (best : string) (best_load : Z) :
  best_load = default 0 (loads !! best) ->
  let r := min_by_load loads best best_load candidates in
  (snd r = best \/ snd r ∈ candidates)
  /\ (forall q, q = best \/ q ∈ candidates ->
        default 0 (loads !! snd r) <= default 0 (loads !! q))
  /\ forall k, default 0 (fst r !! k) = default 0 (loads !! k).
Proof.
  revert loads best best_load.
  induction candidates as [|p candidates IH]; intros loads best best_load Hbest; cbn zeta.
  - cbn. split; [auto|]. split; [|auto]. intros q [->|Hq]; [lia|]. inversion Hq.
  - cbn [min_by_load]. destruct (loads_get_answer loads p) as [Ha Hk].
    destruct (loads_get loads p) as [loads1 load]. cbn [fst snd] in *.
    destruct (Z.ltb_spec load best_load) as [Hlt|Hge].
    + destruct (IH loads1 p load) as (Hin & Hmin & Hsame); [rewrite Hk; exact Ha|].
      split; [|split].
      * destruct Hin as [->|Hin]; right; [left|right; exact Hin].
      * intros q Hq. rewrite <- !(Hk _). destruct Hq as [->|Hq].
        -- etransitivity; [apply (Hmin p); auto|]. rewrite !Hk. lia.
        -- apply elem_of_cons in Hq as [->|Hq]; apply Hmin; auto.
      * intros k. rewrite Hsame. apply Hk.
    + destruct (IH loads1 best best_load) as (Hin & Hmin & Hsame); [rewrite Hk; exact Hbest|].
      split; [|split].
      * destruct Hin as [->|Hin]; [left; reflexivity|right; right; exact Hin].
      * intros q Hq. rewrite <- !(Hk _). destruct Hq as [->|Hq].
        -- apply Hmin; auto.
        -- apply elem_of_cons in Hq as [->|Hq].
           ++ etransitivity; [apply (Hmin best); auto|]. rewrite !Hk. lia.
           ++ apply Hmin; auto.
      * intros k. rewrite Hsame. apply Hk.
Qed.

Lemma in_service_healthy_processors (self : LoadBalancer) :
  snd (healthy_processors (_processor_health self) (_processors self)) = in_service self.
Proof. apply healthy_processors_filter. Qed.

Lemma elem_of_in_service (self : LoadBalancer) (p : string) :
  p ∈ in_service self <-> p ∈ _processors self /\ is_healthy self p = true.
Proof.
  unfold in_service. rewrite !list_elem_of_In, List.filter_In. reflexivity.
Qed.

(** What one call of [get_next_processor] does, whatever the algorithm. *)
Lemma get_next_processor_spec (self : LoadBalancer) :
  let r := get_next_processor self in
  _processors (fst r) = _processors self
  /\ algorithm (fst r) = algorithm self
  /\ (forall k, is_healthy (fst r) k = is_healthy self k)
  /\ match snd r with
     | None => in_service self = []
     | Some p =>
       p ∈ in_service self
       /\ processor_load (fst r) p = processor_load self p + 1
       /\ (forall q, q <> p -> processor_load (fst r) q = processor_load self q)
       /\ (algorithm self = "least_connections" ->
           (forall q, q ∈ in_service self -> processor_load self p <= processor_load self q)
           /\ _round_robin_index (fst r) = _round_robin_index self)
       /\ (algorithm self <> "least_connections" ->
           in_service self
             !! Z.to_nat (_round_robin_index self `mod` Z.of_nat (length (in_service self)))
           = Some p
           /\ _round_robin_index (fst r) = _round_robin_index self + 1)
     end.
Proof.
  cbn zeta. unfold get_next_processor.
  pose proof (in_service_healthy_processors self) as Hserv.
  destruct (healthy_processors_filter (_processors self) (_processor_health self)) as [_ Hh].
  destruct (healthy_processors (_processor_health self) (_processors self))
    as [health healthy]. cbn [fst snd] in *.
  destruct healthy as [|first others].
  - cbn. split; [reflexivity|]. split; [reflexivity|]. split; [exact Hh|]. auto.
  - assert (Hrr : forall (loads : gmap string Z) (processor : string) (index : Z),
        (forall k, default 0 (loads !! k) = processor_load self k) ->
        processor ∈ in_service self ->
        let r := (let '(loads, load) := loads_get loads processor in
                  ({| algorithm := algorithm self;
                      _processors := _processors self;
                      _processor_loads := <[processor := load + 1]> loads;
                      _processor_health := health;
                      _round_robin_index := index |}, Some processor)) in
        _processors (fst r) = _processors self
        /\ algorithm (fst r) = algorithm self
        /\ (forall k, is_healthy (fst r) k = is_healthy self k)
        /\ snd r = Some processor
        /\ processor_load (fst r) processor = processor_load self processor + 1
        /\ (forall q, q <> processor -> processor_load (fst r) q = processor_load self q)
        /\ _round_robin_index (fst r) = index).
    { intros loads processor index Hloads Hin. cbn zeta.
      destruct (loads_get_answer loads processor) as [Ha Hk].
      destruct (loads_get loads processor) as [loads1 load]. cbn [fst snd] in *.
      split; [reflexivity|]. split; [reflexivity|]. split; [exact Hh|].
      split; [reflexivity|]. unfold processor_load at 1 3. cbn [_processor_loads].
      split; [|split; [|reflexivity]].
      - rewrite lookup_insert_eq. cbn. rewrite Ha, Hloads. reflexivity.
      - intros q Hq. rewrite lookup_insert_ne by done. rewrite Hk. apply Hloads. }
    assert (Hround : forall i : Z,
        default first ((first :: others) !! Z.to_nat (i `mod` Z.of_nat (length (first :: others))))
          ∈ in_service self
        /\ in_service self !! Z.to_nat (i `mod` Z.of_nat (length (in_service self)))
           = Some (default first
                     ((first :: others)
                        !! Z.to_nat (i `mod` Z.of_nat (length (first :: others)))))).
    { intros i. rewrite <- Hserv.
      destruct (lookup_lt_is_Some_2 (first :: others)
                  (Z.to_nat (i `mod` Z.of_nat (length (first :: others))))) as [p Hp].
      { pose proof (Z.mod_pos_bound i (Z.of_nat (length (first :: others)))) as Hb.
        cbn [length] in *. lia. }
      rewrite Hp. cbn [default from_option id]. split; [|reflexivity].
      eapply list_elem_of_lookup_2, Hp. }
    destruct (String.eqb_spec (algorithm self) "round_robin") as [Halg|Halg];
      [|destruct (String.eqb_spec (algorithm self) "least_connections") as [Hlc|Hlc]].
    + destruct (Hround (_round_robin_index self)) as [Hin Hlook].
      destruct (Hrr (_processor_loads self) _ (_round_robin_index self + 1)
                  (fun k => eq_refl) Hin) as (H1 & H2 & H3 & H4 & H5 & H6 & H7).
      cbn zeta in *. destruct (loads_get _ _) as [loads1 load]. cbn [fst snd] in *.
      split; [exact H1|]. split; [exact H2|]. split; [exact H3|].
      split; [exact Hin|]. split; [exact H5|]. split; [exact H6|].
      split; [intros Hl; rewrite Halg in Hl; discriminate|].
      intros _. split; [exact Hlook|exact H7].
    + destruct (loads_get_answer (_processor_loads self) first) as [Ha Hk].
      destruct (loads_get (_processor_loads self) first) as [loads1 first_load].
      cbn [fst snd] in *.
      destruct (min_by_load_least others loads1 first first_load) as (Hin & Hmin & Hsame);
        [rewrite Hk; exact Ha|].
      destruct (min_by_load loads1 first first_load others) as [loads2 processor].
      cbn [fst snd] in *.
      assert (Hp : processor ∈ in_service self).
      { rewrite <- Hserv. destruct Hin as [->|Hin]; [left|right; exact Hin]. }
      destruct (Hrr loads2 processor (_round_robin_index self)) as (H1 & H2 & H3 & H4 & H5 & H6 & H7);
        [intros k; rewrite Hsame; apply Hk|exact Hp|].
      cbn zeta in *. destruct (loads_get loads2 processor) as [loads3 load].
      cbn [fst snd] in *.
      split; [exact H1|]. split; [exact H2|]. split; [exact H3|].
      split; [exact Hp|]. split; [exact H5|]. split; [exact H6|].
      split; [|intros Hn; contradiction].
      intros _. split; [|exact H7]. intros q Hq. rewrite <- Hserv in Hq.
      unfold processor_load. rewrite <- !(Hk _). apply Hmin.
      apply elem_of_cons in Hq. exact Hq.
    + destruct (Hround (_round_robin_index self)) as [Hin Hlook].
      destruct (Hrr (_processor_loads self) _ (_round_robin_index self + 1)
                  (fun k => eq_refl) Hin) as (H1 & H2 & H3 & H4 & H5 & H6 & H7).
      cbn zeta in *. destruct (loads_get _ _) as [loads1 load]. cbn [fst snd] in *.
      split; [exact H1|]. split; [exact H2|]. split; [exact H3|].
      split; [exact Hin|]. split; [exact H5|]. split; [exact H6|].
      split; [intros Hl; contradiction|].
      intros _. split; [exact Hlook|exact H7].
Qed.

(** X7: [get_next_processor] hands out work only to a processor of the list
    that is not marked unhealthy, whatever the algorithm, and counts the
    work in its load; it returns [None] only when every processor of the
    list is marked unhealthy (or there is none). *)
Theorem next_processor_in_service (self : LoadBalancer) :
  match snd (get_next_processor self) with
  | Some p =>
    p ∈ _processors self /\ is_healthy self p = true
    /\ processor_load (fst (get_next_processor self)) p = processor_load self p + 1
  | None => forall p, p ∈ _processors self -> is_healthy self p = false
  end.
Proof.
  pose proof (get_next_processor_spec self) as (_ & _ & _ & H). cbn zeta in H.
  destruct (snd (get_next_processor self)) as [p|].
  - destruct H as (Hin & Hload & _). apply elem_of_in_service in Hin as [Hp Hh]. auto.
  - intros p Hp. destruct (is_healthy self p) eqn:Hh; [|reflexivity].
    assert (Hin : p ∈ in_service self) by (apply elem_of_in_service; auto).
    rewrite H in Hin. inversion Hin.
Qed.

(** X8: with the algorithm [least_connections] the processor that gets
    the work is one with the least load among the processors in service,
    and the round-robin index stays where it is. *)
Theorem least_connections_least_loaded (self : LoadBalancer) (p : string) :
  algorithm self = "least_connections" ->
  snd (get_next_processor self) = Some p ->
  (forall q, q ∈ _processors self -> is_healthy self q = true ->
     processor_load self p <= processor_load self q)
  /\ _round_robin_index (fst (get_next_processor self)) = _round_robin_index self.
Proof.
  intros Halg Hp.
  pose proof (get_next_processor_spec self) as (_ & _ & _ & H). cbn zeta in H.
  rewrite Hp in H. destruct H as (_ & _ & _ & Hleast & _).
  destruct (Hleast Halg) as [Hmin Hidx]. split; [|exact Hidx].
  intros q Hq Hh. apply Hmin, elem_of_in_service. auto.
Qed.

Lemma least_connections_least_loaded_witness :
  snd (get_next_processor (sample_balancer "least_connections")) = Some "c"
  /\ processor_load (sample_balancer "least_connections") "a" = 1
  /\ processor_load (sample_balancer "least_connections") "c" = 0
  /\ forall q, q ∈ _processors (sample_balancer "least_connections") ->
       is_healthy (sample_balancer "least_connections") q = true ->
       processor_load (sample_balancer "least_connections") "c"
       <= processor_load (sample_balancer "least_connections") q.
Proof.
  split; [reflexivity|]. split; [reflexivity|]. split; [reflexivity|].
  apply (least_connections_least_loaded (sample_balancer "least_connections") "c");
    reflexivity.
Defined.

Lemma in_service_next (self : LoadBalancer) :
  in_service (fst (get_next_processor self)) = in_service self.
Proof.
  pose proof (get_next_processor_spec self) as (Hp & _ & Hh & _). cbn zeta in *.
  unfold in_service. rewrite Hp. apply filter_ext_all, Hh.
Qed.

(** X9: with any algorithm other than [least_connections] the processors
    in service take turns: as long as none is added, removed or marked,
    the call number [i] from now gives the work to the processor at
    position [(index + i) mod n] of the [n] in service, so that [n] calls
    one after the other reach each of them once. *)
Theorem round_robin_turns (k : nat) (self : LoadBalancer) :
  algorithm self <> "least_connections" ->
  in_service self <> [] ->
  snd (next_processors self k)
  = (fun i => in_service self
                !! Z.to_nat ((_round_robin_index self + Z.of_nat i)
                             `mod` Z.of_nat (length (in_service self))))
    <$> seq 0 k.
Proof.
  revert self. induction k as [|k IH]; intros self Halg Hne; [reflexivity|].
  cbn [next_processors seq fmap list_fmap].
  pose proof (get_next_processor_spec self) as (_ & Ha & _ & H). cbn zeta in *.
  pose proof (in_service_next self) as Hserv.
  destruct (get_next_processor self) as [self1 r]. cbn [fst snd] in *.
  destruct r as [p|]; [|contradiction].
  destruct H as (_ & _ & _ & _ & Hrr). destruct (Hrr Halg) as [Hlook Hidx].
  specialize (IH self1). rewrite Ha, Hserv, Hidx in IH. specialize (IH Halg Hne).
  destruct (next_processors self1 k) as [self2 rest]. cbn [snd] in *.
  rewrite Z.add_0_r, Hlook. f_equal. rewrite IH.
  rewrite <- seq_shift, <- list_fmap_compose. apply list_fmap_ext. intros _ i _. cbn.
  do 3 f_equal. lia.
Qed.

Lemma round_robin_turns_witness :
  in_service (sample_balancer "round_robin") = ["a"; "c"]
  /\ _round_robin_index (sample_balancer "round_robin") = 1
  /\ snd (next_processors (sample_balancer "round_robin") 4)
     = [Some "c"; Some "a"; Some "c"; Some "a"].
Proof.
  split; [reflexivity|]. split; [reflexivity|].
  rewrite (round_robin_turns 4 (sample_balancer "round_robin")); [reflexivity|discriminate|].
  discriminate.
Defined.

Lemma list_remove_elem_of (x q : string) (l : list string) :
  NoDup l -> q ∈ list_remove x l <-> q ∈ l /\ (x ∈ l -> q <> x).
Proof.
  induction l as [|y l IH]; intros Hnd; cbn.
  - split; [intros H; inversion H|intros [H _]; inversion H].
  - apply NoDup_cons in Hnd as [Hy Hnd]. destruct (decide (y = x)) as [->|Hne].
    + split.
      * intros Hq. split; [right; exact Hq|]. intros _ ->. contradiction.
      * intros [Hq Hx]. apply elem_of_cons in Hq as [->|Hq]; [|exact Hq].
        exfalso. apply Hx; [left|reflexivity].
    + rewrite !elem_of_cons, (IH Hnd). split.
      * intros [->|[Hq Hx]].
        -- split; [left; reflexivity|]. intros _ Heq. apply Hne, Heq.
        -- split; [right; exact Hq|]. intros [Heq|Hin]; [congruence|apply Hx, Hin].
      * intros [[->|Hq] Hx]; [left; reflexivity|].
        right. split; [exact Hq|]. intros Hin. apply Hx. right. exact Hin.
Qed.

Lemma list_remove_NoDup (x : string) (l : list string) :
  NoDup l -> NoDup (list_remove x l).
Proof.
  induction l as [|y l IH]; intros Hnd; cbn; [constructor|].
  apply NoDup_cons in Hnd as [Hy Hnd]. destruct (decide (y = x)); [exact Hnd|].
  apply NoDup_cons. split; [|apply IH, Hnd].
  intros Hin. apply (list_remove_elem_of x y l Hnd) in Hin as [Hin _]. contradiction.
Qed.

Lemma health_get_keys (health : gmap string bool) (p k : string) :
  is_Some (health !! k) -> is_Some (fst (health_get health p) !! k).
Proof.
  intros Hk. unfold health_get. destruct (health !! p) eqn:Hp; cbn; [exact Hk|].
  destruct (decide (p = k)) as [<-|Hne].
  - rewrite lookup_insert_eq. eauto.
  - rewrite lookup_insert_ne by done. exact Hk.
Qed.

Lemma loads_get_keys (loads : gmap string Z) (p k : string) :
  is_Some (loads !! k) -> is_Some (fst (loads_get loads p) !! k).
Proof.
  intros Hk. unfold loads_get. destruct (loads !! p) eqn:Hp; cbn; [exact Hk|].
  destruct (decide (p = k)) as [<-|Hne].
  - rewrite lookup_insert_eq. eauto.
  - rewrite lookup_insert_ne by done. exact Hk.
Qed.

Lemma healthy_processors_keys (processors : list string) (health : gmap string bool)
    (k : string) :
  is_Some (health !! k) -> is_Some (fst (healthy_processors health processors) !! k).
Proof.
  revert health. induction processors as [|p processors IH]; intros health Hk; [exact Hk|].
  cbn [healthy_processors]. pose proof (health_get_keys health p k Hk) as H1.
  destruct (health_get health p) as [health1 h]. cbn [fst] in *.
  specialize (IH health1 H1). destruct (healthy_processors health1 processors). exact IH.
Qed.

Lemma min_by_load_keys (candidates : list string) (loads : gmap string Z)
    (best : string) (best_load : Z) (k : string) :
  is_Some (loads !! k) -> is_Some (fst (min_by_load loads best best_load candidates) !! k).
Proof.
  revert loads best best_load.
  induction candidates as [|p candidates IH]; intros loads best best_load Hk; [exact Hk|].
  cbn [min_by_load]. pose proof (loads_get_keys loads p k Hk) as H1.
  destruct (loads_get loads p) as [loads1 load]. cbn [fst] in *.
  destruct (load <? best_load); apply IH, H1.
Qed.

Lemma get_next_processor_keys (self : LoadBalancer) (k : string) :
  (is_Some (_processor_loads self !! k) ->
   is_Some (_processor_loads (fst (get_next_processor self)) !! k))
  /\ (is_Some (_processor_health self !! k) ->
      is_Some (_processor_health (fst (get_next_processor self)) !! k)).
Proof.
  unfold get_next_processor.
  pose proof (healthy_processors_keys (_processors self) (_processor_health self) k) as Hh.
  destruct (healthy_processors _ _) as [health healthy]. cbn [fst] in Hh.
  destruct healthy as [|first others]; [cbn; auto|].
  assert (Hlast : forall (loads : gmap string Z) (processor : string) (index : Z),
            (is_Some (_processor_loads self !! k) -> is_Some (loads !! k)) ->
            is_Some (_processor_loads self !! k) ->
            is_Some (_processor_loads
                       (fst (let '(loads, load) := loads_get loads processor in
                             ({| algorithm := algorithm self;
                                 _processors := _processors self;
                                 _processor_loads := <[processor := load + 1]> loads;
                                 _processor_health := health;
                                 _round_robin_index := index |}, Some processor))) !! k)).
  { intros loads processor index Hl Hk. specialize (Hl Hk).
    pose proof (loads_get_keys loads processor k Hl) as H1.
    destruct (loads_get loads processor) as [loads1 load]. cbn [fst _processor_loads] in *.
    destruct (decide (processor = k)) as [<-|Hne].
    - rewrite lookup_insert_eq. eauto.
    - rewrite lookup_insert_ne by done. exact H1. }
  assert (Hhealth : forall (loads : gmap string Z) (processor : string) (index : Z),
            _processor_health
              (fst (let '(loads, load) := loads_get loads processor in
                    ({| algorithm := algorithm self;
                        _processors := _processors self;
                        _processor_loads := <[processor := load + 1]> loads;
                        _processor_health := health;
                        _round_robin_index := index |}, Some processor))) = health).
  { intros loads processor index. destruct (loads_get loads processor). reflexivity. }
  destruct (String.eqb (algorithm self) "round_robin");
    [|destruct (String.eqb (algorithm self) "least_connections")].
  - split; [apply Hlast; auto|rewrite Hhealth; exact Hh].
  - pose proof (loads_get_keys (_processor_loads self) first k) as H1.
    destruct (loads_get (_processor_loads self) first) as [loads1 first_load].
    pose proof (min_by_load_keys others loads1 first first_load k) as H2.
    destruct (min_by_load loads1 first first_load others) as [loads2 processor].
    cbn [fst] in *. split; [apply Hlast; auto|rewrite Hhealth; exact Hh].
  - split; [apply Hlast; auto|rewrite Hhealth; exact Hh].
Qed.

Lemma balancer_invariant_next (self : LoadBalancer) :
  balancer_invariant self -> balancer_invariant (fst (get_next_processor self)).
Proof.
  intros (Hnd & Hkeys & Hloads).
  pose proof (get_next_processor_spec self) as (Hp & _ & _ & H). cbn zeta in *.
  split; [rewrite Hp; exact Hnd|]. split.
  - intros p Hin. rewrite Hp in Hin. destruct (Hkeys p Hin) as [Hl Hh].
    destruct (get_next_processor_keys self p) as [Kl Kh]. auto.
  - intros q. destruct (snd (get_next_processor self)) as [p|] eqn:Hr.
    + destruct H as (_ & Hload & Hothers & _).
      destruct (decide (q = p)) as [->|Hne].
      * rewrite Hload. specialize (Hloads p). lia.
      * rewrite Hothers by exact Hne. apply Hloads.
    + assert (Hsame : _processor_loads (fst (get_next_processor self)) = _processor_loads self).
      { revert Hr. unfold get_next_processor.
        destruct (healthy_processors _ _) as [health [|first others]]; [reflexivity|].
        destruct (if String.eqb (algorithm self) "round_robin" then _ else _) as [[loads processor] index].
        destruct (loads_get loads processor). discriminate. }
      unfold processor_load. rewrite Hsame. apply Hloads.
Qed.

Lemma balancer_invariant_remove (self : LoadBalancer) (p : string) :
  balancer_invariant self ->
  snd (remove_processor self p) = true /\ balancer_invariant (fst (remove_processor self p)).
Proof.
  intros (Hnd & Hkeys & Hloads). unfold remove_processor.
  case_bool_decide as Hin; [|split; [reflexivity|split; [|split]; assumption]].
  destruct (Hkeys p Hin) as [[v Hv] [h Hh]]. rewrite Hv, Hh. cbn [fst snd].
  split; [reflexivity|]. split; [|split]; cbn.
  - apply list_remove_NoDup, Hnd.
  - intros q Hq. apply (list_remove_elem_of p q _ Hnd) in Hq as [Hq Hne].
    specialize (Hne Hin). rewrite !lookup_delete_ne by congruence. apply Hkeys, Hq.
  - intros q. unfold processor_load. cbn. destruct (decide (p = q)) as [<-|Hne].
    + rewrite lookup_delete_eq. cbn. lia.
    + rewrite lookup_delete_ne by done. apply Hloads.
Qed.

(** X10: in a balancer made by [__init__] and used through its methods no
    processor is listed twice, no load is ever negative, and the [del]s of
    [remove_processor] always find their keys: the call never raises. *)
Theorem balancer_consistent (algorithm : string) (self : LoadBalancer) :
  balancer_reachable algorithm self ->
  NoDup (_processors self)
  /\ (forall p, 0 <= processor_load self p)
  /\ (forall p, snd (remove_processor self p) = true).
Proof.
  intros Hreach.
  assert (H : balancer_invariant self).
  { induction Hreach as [|self p _ IH|self p _ IH|self _ IH|self p _ IH|self p _ IH|self p _ IH].
    - split; [constructor|]. split; [intros p Hp; inversion Hp|].
      intros p. unfold processor_load. cbn. rewrite lookup_empty. cbn. lia.
    - destruct IH as (Hnd & Hkeys & Hloads). unfold add_processor.
      case_bool_decide as Hin; [split; [|split]; assumption|].
      split; [|split]; cbn.
      + apply NoDup_app. split; [exact Hnd|]. split; [|apply NoDup_singleton].
        intros q Hq Hq'. apply list_elem_of_singleton in Hq'. subst q. contradiction.
      + intros q Hq. apply elem_of_app in Hq as [Hq|Hq].
        * destruct (Hkeys q Hq) as [Hl Hh]. destruct (decide (p = q)) as [<-|Hne].
          -- rewrite !lookup_insert_eq. eauto.
          -- rewrite !lookup_insert_ne by done. auto.
        * apply list_elem_of_singleton in Hq. subst q. rewrite !lookup_insert_eq. eauto.
      + intros q. unfold processor_load. cbn. destruct (decide (p = q)) as [<-|Hne].
        * rewrite lookup_insert_eq. cbn. lia.
        * rewrite lookup_insert_ne by done. apply Hloads.
    - apply balancer_invariant_remove, IH.
    - apply balancer_invariant_next, IH.
    - destruct IH as (Hnd & Hkeys & Hloads). unfold release_processor.
      destruct (_processor_loads self !! p) as [v|] eqn:Hv; [|split; [|split]; assumption].
      destruct (Z.ltb_spec 0 v); [|split; [|split]; assumption].
      split; [exact Hnd|]. split; cbn.
      + intros q Hq. destruct (Hkeys q Hq) as [Hl Hh]. split; [|exact Hh].
        destruct (decide (p = q)) as [<-|Hne].
        * rewrite lookup_insert_eq. eauto.
        * rewrite lookup_insert_ne by done. exact Hl.
      + intros q. unfold processor_load. cbn. destruct (decide (p = q)) as [<-|Hne].
        * rewrite lookup_insert_eq. cbn. lia.
        * rewrite lookup_insert_ne by done. apply Hloads.
    - destruct IH as (Hnd & Hkeys & Hloads). split; [exact Hnd|]. split; [|exact Hloads].
      intros q Hq. destruct (Hkeys q Hq) as [Hl Hh]. split; [exact Hl|]. cbn.
      destruct (decide (p = q)) as [<-|Hne].
      + rewrite lookup_insert_eq. eauto.
      + rewrite lookup_insert_ne by done. exact Hh.
    - destruct IH as (Hnd & Hkeys & Hloads). split; [exact Hnd|]. split; [|exact Hloads].
      intros q Hq. destruct (Hkeys q Hq) as [Hl Hh]. split; [exact Hl|]. cbn.
      destruct (decide (p = q)) as [<-|Hne].
      + rewrite lookup_insert_eq. eauto.
      + rewrite lookup_insert_ne by done. exact Hh. }
  pose proof H as (Hnd & _ & Hloads). split; [exact Hnd|]. split; [exact Hloads|].
  intros p. apply balancer_invariant_remove, H.
Qed.

Lemma balancer_consistent_witness :
  NoDup (_processors (sample_balancer "round_robin"))
  /\ snd (remove_processor (sample_balancer "round_robin") "a") = true.
Proof.
  assert (H : balancer_reachable "round_robin" (sample_balancer "round_robin")).
  { apply balancer_reachable_next, balancer_reachable_unhealthy.
    apply balancer_reachable_add, balancer_reachable_add, balancer_reachable_add.
    apply balancer_reachable_init. }
  destruct (balancer_consistent "round_robin" _ H) as (Hnd & _ & Hremove). auto.
Defined.

End connection_facts.

(** ** Properties of the task pool *)

Module async_tasks_facts.
Import async_tasks.

Section task_pool_facts.

Context {Coroutine : Type}.

Lemma submit_full (self : AsyncTaskPool Coroutine) coro priority task_id now :
  max_pending_tasks self <= total_pending self ->
  let r := submit self coro priority task_id now in
  snd r = Py.Raise (Py.QueueFull "Task pool is full")
  /\ _pending_tasks (fst r) = _pending_tasks self
  /\ total_pending (fst r) = total_pending self
  /\ max_pending_tasks (fst r) = max_pending_tasks self
  /\ _total_submitted (fst r) = _total_submitted self.
Proof.
  intros Hfull. cbn zeta. unfold submit.
  destruct (Z.leb_spec (max_pending_tasks self) (total_pending self)); [|lia].
  repeat split; reflexivity.
Qed.

Lemma submit_room (self : AsyncTaskPool Coroutine) coro priority task_id now :
  total_pending self < max_pending_tasks self ->
  let r := submit self coro priority task_id now in
  exists info,
    snd r = Py.Ok (async_tasks.task_id info)
    /\ async_tasks.priority info = priority
    /\ _pending_tasks (fst r) priority = _pending_tasks self priority ++ [(info, coro)]
    /\ (forall p, p <> priority -> _pending_tasks (fst r) p = _pending_tasks self p)
    /\ total_pending (fst r) = total_pending self + 1
    /\ max_pending_tasks (fst r) = max_pending_tasks self
    /\ _total_submitted (fst r) = _total_submitted self + 1.
Proof.
  intros Hroom. cbn zeta. unfold submit.
  destruct (Z.leb_spec (max_pending_tasks self) (total_pending self)); [lia|].
  cbn [fst snd]. eexists (mkTask _ _ _ _ _).
  cbn [async_tasks.task_id async_tasks.priority].
  split; [reflexivity|]. split; [reflexivity|].
  cbn [_pending_tasks max_pending_tasks _total_submitted].
  split; [|split; [|split; [|split; reflexivity]]].
  - rewrite decide_True by reflexivity. reflexivity.
  - intros p Hp. rewrite decide_False by exact Hp. reflexivity.
  - unfold total_pending, priorities. cbn [fold_right _pending_tasks].
    destruct priority; repeat case_decide; try congruence;
      rewrite length_app; cbn [length]; lia.
Qed.

(** C5: at or above [max_pending_tasks] pending items [submit] raises
    [QueueFull] and every pending queue stays as it was; below the limit it
    returns the task id and exactly one item, the submitted one, joins the
    end of the queue of its priority. *)
Theorem submit_capacity (self : AsyncTaskPool Coroutine) (coro : Coroutine)
    (priority : TaskPriority) (task_id : option string) (now : Qc) :
  let r := submit self coro priority task_id now in
  (max_pending_tasks self <= total_pending self ->
     snd r = Py.Raise (Py.QueueFull "Task pool is full")
     /\ _pending_tasks (fst r) = _pending_tasks self
     /\ total_pending (fst r) = total_pending self)
  /\ (total_pending self < max_pending_tasks self ->
     exists info,
       snd r = Py.Ok (async_tasks.task_id info)
       /\ _pending_tasks (fst r) priority = _pending_tasks self priority ++ [(info, coro)]
       /\ (forall p, p <> priority -> _pending_tasks (fst r) p = _pending_tasks self p)
       /\ total_pending (fst r) = total_pending self + 1).
Proof.
  cbn zeta. split.
  - intros Hfull.
    destruct (submit_full self coro priority task_id now Hfull) as (H1 & H2 & H3 & _).
    auto.
  - intros Hroom.
    destruct (submit_room self coro priority task_id now Hroom)
      as (info & H1 & _ & H3 & H4 & H5 & _).
    exists info. auto.
Qed.

(** Submitting beyond the limit while nothing drains: of the submissions
    made to a fresh pool, the first [max_pending_tasks] are accepted and all
    the later ones raise [QueueFull]. *)
Lemma submit_all_excess (work : list (Coroutine * TaskPriority))
    (self : AsyncTaskPool Coroutine) (now : Qc) :
  total_pending self <= max_pending_tasks self ->
  let r := submit_all self work now in
  let room := Z.to_nat (max_pending_tasks self - total_pending self) in
  Forall (fun x => exists name, x = Py.Ok name) (take room (snd r))
  /\ Forall (fun x => x = Py.Raise (Py.QueueFull "Task pool is full")) (drop room (snd r))
  /\ length (snd r) = length work.
Proof.
  revert self. induction work as [|[coro priority] work IH]; intros self Hle; cbn zeta.
  - cbn. rewrite take_nil, drop_nil. repeat split; constructor.
  - cbn [submit_all].
    destruct (Z.le_gt_cases (max_pending_tasks self) (total_pending self)) as [Hfull|Hroom].
    + destruct (submit_full self coro priority None now Hfull) as (H1 & _ & H3 & H4 & _).
      destruct (submit self coro priority None now) as [self1 r1]. cbn [fst snd] in *.
      specialize (IH self1). rewrite H3, H4 in IH. destruct (IH Hle) as (Ha & Hb & Hc).
      destruct (submit_all self1 work now) as [self2 rs]. cbn [fst snd] in *.
      replace (Z.to_nat (max_pending_tasks self - total_pending self)) with 0%nat in * by lia.
      cbn [take drop length]. split; [constructor|]. split; [|lia].
      constructor; [exact H1 | rewrite drop_0 in Hb; exact Hb].
    + destruct (submit_room self coro priority None now Hroom)
        as (info & H1 & _ & _ & _ & H5 & H6 & _).
      destruct (submit self coro priority None now) as [self1 r1]. cbn [fst snd] in *.
      specialize (IH self1). rewrite H5, H6 in IH.
      destruct IH as (Ha & Hb & Hc); [lia|].
      destruct (submit_all self1 work now) as [self2 rs]. cbn [fst snd] in *.
      replace (Z.to_nat (max_pending_tasks self - total_pending self))
        with (S (Z.to_nat (max_pending_tasks self - (total_pending self + 1)))) by lia.
      cbn [take drop length]. split; [|split; [exact Hb | lia]].
      constructor; [eexists; exact H1 | exact Ha].
Qed.

End task_pool_facts.

Lemma submit_capacity_witness :
  (exists info,
      snd (submit (init 100 1 (Q2Qc 60)) tt NORMAL None 0%Qc)
      = Py.Ok (task_id info))
  /\ snd (submit (fst (submit (init 100 1 (Q2Qc 60)) tt NORMAL None 0%Qc))
            tt HIGH None 0%Qc)
     = Py.Raise (Py.QueueFull "Task pool is full").
Proof.
  split.
  - destruct (submit_capacity (init 100 1 (Q2Qc 60)) tt NORMAL None 0%Qc) as [_ Hroom].
    destruct Hroom as (info & H1 & _); [vm_compute; reflexivity|].
    exists info. exact H1.
  - destruct (submit_capacity (fst (submit (init 100 1 (Q2Qc 60)) tt NORMAL None 0%Qc))
                tt HIGH None 0%Qc) as [Hfull _].
    destruct Hfull as (H1 & _); [vm_compute; discriminate|]. exact H1.
Defined.

(** *** Tasks for the workers *)

Section task_pool_order.

Context {Coroutine : Type}.
Implicit Types (self : AsyncTaskPool Coroutine).

Lemma flat_map_ext_elem {B C : Type} (f g : B -> list C) (l : list B) :
  (forall x, x ∈ l -> f x = g x) -> flat_map f l = flat_map g l.
Proof.
  induction l as [|x l IH]; intros H; [reflexivity|]. cbn.
  rewrite (H x) by left. rewrite IH; [reflexivity|]. intros y Hy. apply H. right. exact Hy.
Qed.

(** The tasks that wait, in the order in which the workers get them. *)
Lemma next_from_first self (order : list TaskPriority) :
  match flat_map (_pending_tasks self) order with
  | [] => snd (next_from self order) = None
          /\ _pending_tasks (fst (next_from self order)) = _pending_tasks self
          /\ _task_available (fst (next_from self order)) = false
  | task :: rest =>
    snd (next_from self order) = Some task
    /\ (NoDup order ->
        flat_map (_pending_tasks (fst (next_from self order))) order = rest)
    /\ (forall p, p ∉ order ->
          _pending_tasks (fst (next_from self order)) p = _pending_tasks self p)
  end.
Proof.
  induction order as [|priority order IH]; [cbn; auto|].
  cbn [flat_map next_from].
  destruct (_pending_tasks self priority) as [|task rest] eqn:Hp.
  - cbn [app]. destruct (flat_map (_pending_tasks self) order) as [|t r].
    + exact IH.
    + destruct IH as (Hs & Hrest & Hother). split; [exact Hs|]. split.
      * intros Hnd. apply NoDup_cons in Hnd as [Hnotin Hnd].
        rewrite (Hother priority Hnotin), Hp. cbn [app]. apply Hrest, Hnd.
      * intros p Hp'. apply Hother. intros Hin. apply Hp'. right. exact Hin.
  - cbn [app fst snd _pending_tasks]. split; [reflexivity|]. split.
    + intros Hnd. apply NoDup_cons in Hnd as [Hnotin _].
      rewrite decide_True by reflexivity. f_equal.
      apply flat_map_ext_elem. intros p Hin. rewrite decide_False; [reflexivity|].
      intros ->. apply Hnotin, Hin.
    + intros p Hp'. rewrite decide_False; [reflexivity|].
      intros ->. apply Hp'. left.
Qed.

Lemma NoDup_priorities : NoDup priorities.
Proof.
  unfold priorities.
  repeat (apply NoDup_cons; split;
          [rewrite ?elem_of_cons, elem_of_nil; intuition discriminate|]).
  apply NoDup_nil_2.
Qed.

Lemma next_tasks_waiting (n : nat) self :
  snd (next_tasks self n)
  = (Some <$> take n (flat_map (_pending_tasks self) priorities))
    ++ repeat None (n - length (flat_map (_pending_tasks self) priorities))
  /\ flat_map (_pending_tasks (fst (next_tasks self n))) priorities
     = drop n (flat_map (_pending_tasks self) priorities).
Proof.
  revert self. induction n as [|n IH]; intros self.
  - cbn. rewrite drop_0. auto.
  - cbn [next_tasks]. unfold _get_next_task.
    pose proof (next_from_first self priorities) as Hfirst.
    destruct (next_from self priorities) as [self1 r]. cbn [fst snd] in *.
    destruct (IH self1) as [IHa IHb].
    destruct (next_tasks self1 n) as [self2 rs]. cbn [fst snd] in *.
    destruct (flat_map (_pending_tasks self) priorities) as [|task rest] eqn:Hwait.
    + destruct Hfirst as (-> & Hsame & _). rewrite Hsame, Hwait in IHa, IHb.
      rewrite take_nil, drop_nil in *. cbn [length fmap list_fmap app] in *.
      rewrite Nat.sub_0_r in *. rewrite IHa, IHb. auto.
    + destruct Hfirst as (-> & Hrest & _). rewrite (Hrest NoDup_priorities) in IHa, IHb.
      cbn [take drop length fmap list_fmap app]. rewrite IHa, IHb. auto.
Qed.

Lemma submit_all_pending (work : list (Coroutine * TaskPriority)) self (now : Qc) :
  total_pending self + Z.of_nat (length work) <= max_pending_tasks self ->
  let r := submit_all self work now in
  length (returned_ids (snd r)) = length work
  /\ forall p,
       snd <$> _pending_tasks (fst r) p
       = (snd <$> _pending_tasks self p)
         ++ (fst <$> List.filter (fun w => bool_decide (snd w = p)) work).
Proof.
  revert self. induction work as [|[coro priority] work IH]; intros self Hroom; cbn zeta.
  - cbn. split; [reflexivity|]. intros p. rewrite app_nil_r. reflexivity.
  - cbn [submit_all length] in *.
    destruct (submit_room self coro priority None now) as (info & H1 & _ & H3 & H4 & H5 & H6 & _);
      [lia|].
    destruct (submit self coro priority None now) as [self1 r1]. cbn [fst snd] in *.
    destruct (IH self1) as [IHa IHb]; [lia|].
    destruct (submit_all self1 work now) as [self2 rs]. cbn [fst snd] in *.
    subst r1. cbn [returned_ids omap] in *. split; [cbn; unfold returned_ids in IHa; lia|].
    intros p. rewrite IHb. cbn [List.filter snd].
    destruct (decide (priority = p)) as [<-|Hne].
    + rewrite bool_decide_eq_true_2 by reflexivity. rewrite H3, fmap_app.
      cbn. rewrite <- app_assoc. reflexivity.
    + rewrite bool_decide_eq_false_2 by exact Hne. rewrite H4 by congruence. reflexivity.
Qed.

(** X20: the workers get the tasks by priority, [CRITICAL] before [HIGH]
    before [NORMAL] before [LOW], and within a priority in the order of
    submission. Work submitted to a fresh pool within [max_pending_tasks]
    is all accepted, and as many calls of [_get_next_task] hand the
    coroutines out in that order; the next call finds nothing and clears
    the event that wakes the workers. *)
Theorem next_task_order (max_concurrent max_pending : Z) (interval now : Qc)
    (work : list (Coroutine * TaskPriority)) :
  Z.of_nat (length work) <= max_pending ->
  let pool := fst (submit_all (init max_concurrent max_pending interval) work now) in
  fmap (fmap snd) (snd (next_tasks pool (length work)))
  = Some <$> flat_map (fun p => fst <$> List.filter (fun w => bool_decide (snd w = p)) work)
               priorities
  /\ snd (_get_next_task (fst (next_tasks pool (length work)))) = None
  /\ _task_available (fst (_get_next_task (fst (next_tasks pool (length work))))) = false.
Proof.
  intros Hfit. cbn zeta.
  destruct (submit_all_pending work (init max_concurrent max_pending interval) now)
    as [Hids Hpending].
  { unfold total_pending. cbn. lia. }
  cbn zeta in *.
  set (pool := fst (submit_all (init max_concurrent max_pending interval) work now)) in *.
  assert (Hwaiting : snd <$> flat_map (_pending_tasks pool) priorities
                     = flat_map (fun p => fst <$> List.filter
                                                     (fun w => bool_decide (snd w = p)) work)
                         priorities).
  { unfold priorities. cbn [flat_map]. rewrite !fmap_app, !Hpending. reflexivity. }
  assert (Hlen : length (flat_map (_pending_tasks pool) priorities) = length work).
  { rewrite <- (length_fmap snd), Hwaiting. unfold priorities. cbn [flat_map].
    rewrite !length_app, !length_fmap. cbn [length].
    clear. induction work as [|[c p] work IH]; [reflexivity|].
    cbn [List.filter snd length]. destruct p; cbn [bool_decide decide_rel]; 
      repeat case_bool_decide; try congruence; cbn [length]; lia. }
  destruct (next_tasks_waiting (length work) pool) as [Htasks Hrest].
  split; [|split].
  - rewrite Htasks, take_ge, (proj2 (Nat.sub_0_le _ _)) by lia.
    cbn [repeat]. rewrite app_nil_r, <- Hwaiting, <- !list_fmap_compose. reflexivity.
  - rewrite drop_ge in Hrest by lia.
    pose proof (next_from_first (fst (next_tasks pool (length work))) priorities) as H.
    rewrite Hrest in H. apply H.
  - rewrite drop_ge in Hrest by lia.
    pose proof (next_from_first (fst (next_tasks pool (length work))) priorities) as H.
    rewrite Hrest in H. apply H.
Qed.

(** The ids that [submit] makes up are the counter in writing. *)
Lemma returned_ids_counter (work : list (Coroutine * TaskPriority)) self (now : Qc) :
  let r := submit_all self work now in
  _task_counter (fst r) = _task_counter self + Z.of_nat (length work)
  /\ NoDup (returned_ids (snd r))
  /\ forall name, name ∈ returned_ids (snd r) ->
       exists k, _task_counter self < k <= _task_counter (fst r)
                 /\ name = "task-" +:+ pretty k.
Proof.
  revert self. induction work as [|[coro priority] work IH]; intros self; cbn zeta.
  - cbn. split; [lia|]. split; [constructor|]. intros name H. inversion H.
  - cbn [submit_all length].
    assert (Hstep : _task_counter (fst (submit self coro priority None now))
                    = _task_counter self + 1
                    /\ forall name, snd (submit self coro priority None now) = Py.Ok name ->
                         name = "task-" +:+ pretty (_task_counter self + 1)).
    { unfold submit. destruct (_ <=? _); cbn; split; try reflexivity.
      - discriminate.
      - intros name [= <-]. reflexivity. }
    destruct Hstep as [Hc Hname].
    destruct (submit self coro priority None now) as [self1 r1]. cbn [fst snd] in *.
    destruct (IH self1) as (IHc & IHnd & IHnames).
    destruct (submit_all self1 work now) as [self2 rs]. cbn [fst snd] in *.
    split; [lia|].
    assert (Hrest : forall name, name ∈ returned_ids rs ->
              exists k, _task_counter self < k <= _task_counter self2
                        /\ name = "task-" +:+ pretty k).
    { intros name Hin. destruct (IHnames name Hin) as (k & Hk & ->). exists k. split; [lia|].
      reflexivity. }
    destruct r1 as [name1| |]; cbn [returned_ids omap] in *; [|auto..].
    fold (returned_ids rs). split.
    + apply NoDup_cons. split; [|exact IHnd]. intros Hin.
      destruct (IHnames name1 Hin) as (k & Hk & Heq).
      rewrite (Hname name1 eq_refl) in Heq. cbn in Heq.
      injection Heq as Heq. pose proof (pretty_Z_inj _ _ Heq). lia.
    + intros name Hin. apply elem_of_cons in Hin as [->|Hin]; [|apply Hrest, Hin].
      exists (_task_counter self + 1). split; [lia|]. apply Hname. reflexivity.
Qed.

(** X21: the ids that a pool makes up for the tasks submitted without one
    are all different, whether the submissions are accepted or refused in
    between: each is [task-] and the number of the submission. *)
Theorem submitted_ids_distinct (work : list (Coroutine * TaskPriority)) self (now : Qc) :
  NoDup (returned_ids (snd (submit_all self work now)))
  /\ forall name, name ∈ returned_ids (snd (submit_all self work now)) ->
       exists k, _task_counter self < k <= _task_counter self + Z.of_nat (length work)
                 /\ name = "task-" +:+ pretty k.
Proof.
  destruct (returned_ids_counter work self now) as (Hc & Hnd & Hnames). cbn zeta in *.
  split; [exact Hnd|]. intros name Hin. destruct (Hnames name Hin) as (k & Hk & ->).
  exists k. split; [lia|reflexivity].
Qed.

End task_pool_order.

Lemma next_task_order_witness :
  fmap (M := list) (fmap (M := option) snd)
    (snd (next_tasks
            (fst (submit_all (init 100 1000 (Q2Qc 60))
                    [("log", LOW); ("audio", CRITICAL); ("click", HIGH);
                     ("more audio", CRITICAL)] 0%Qc)) 4))
  = [Some "audio"; Some "more audio"; Some "click"; Some "log"].
Proof.
  refine (proj1 (next_task_order 100 1000 (Q2Qc 60) 0%Qc
                   [("log", LOW); ("audio", CRITICAL); ("click", HIGH);
                    ("more audio", CRITICAL)] _)).
  cbn. lia.
Defined.

(** X22: the concurrency that the scheduler works out stays within its
    bounds. For a scheduler made for a pool of at least one concurrent
    task, a value between [min_concurrency] and [max_concurrency] gives a
    value between them again, at least 1, at most two below and at most one
    above the present one; and with the readings that the monitoring loop
    passes, 50 and 60 per cent, it is the present value itself. *)
Theorem optimal_concurrency_bounds (max_concurrent_tasks : Z)
    (cpu_percent memory_percent : Qc) (current : Z) :
  1 <= max_concurrent_tasks ->
  let self := scheduler_init max_concurrent_tasks in
  min_concurrency self <= current <= max_concurrency self ->
  let next := _calculate_optimal_concurrency self cpu_percent memory_percent current in
  min_concurrency self <= next <= max_concurrency self
  /\ 1 <= next
  /\ current - 2 <= next <= current + 1
  /\ _calculate_optimal_concurrency self (Py.Qc_of_Z 50) (Py.Qc_of_Z 60) current = current.
Proof.
  intros Hone self Hcurrent next.
  assert (Hmin : 1 <= min_concurrency self) by (cbn; lia).
  assert (Hmax : min_concurrency self <= max_concurrency self).
  { cbn. pose proof (Z.div_le_upper_bound max_concurrent_tasks 4 max_concurrent_tasks).
    lia. }
  split; [|split; [|split]].
  - unfold next, _calculate_optimal_concurrency.
    destruct (_ || _); [lia|]. destruct (_ && _); lia.
  - unfold next, _calculate_optimal_concurrency.
    destruct (_ || _); [lia|]. destruct (_ && _); lia.
  - unfold next, _calculate_optimal_concurrency.
    destruct (_ || _); [lia|]. destruct (_ && _); lia.
  - reflexivity.
Qed.

Lemma optimal_concurrency_bounds_witness :
  _calculate_optimal_concurrency (scheduler_init 100) (Py.Qc_of_Z 95) (Py.Qc_of_Z 10) 26 = 25
  /\ 25 <= _calculate_optimal_concurrency (scheduler_init 100) (Py.Qc_of_Z 95)
             (Py.Qc_of_Z 10) 26 <= 200.
Proof.
  split; [reflexivity|].
  apply (optimal_concurrency_bounds 100 (Py.Qc_of_Z 95) (Py.Qc_of_Z 10) 26); [lia|].
  vm_compute. split; discriminate.
Defined.

End async_tasks_facts.

(** ** Properties of [json] *)

Module json_facts.
Import json.

(** *** [json.loads] after [json.dumps] *)

Lemma append_assoc (a b c : string) : (a +:+ b) +:+ c = a +:+ (b +:+ c).
Proof.
  induction a as [|x a IH]; [reflexivity|].
  change (String x ((a +:+ b) +:+ c) = String x (a +:+ (b +:+ c))).
  f_equal. exact IH.
Qed.

Lemma append_length (a b : string) :
  String.length (a +:+ b) = (String.length a + String.length b)%nat.
Proof.
  induction a as [|x a IH]; [reflexivity|].
  change (S (String.length (a +:+ b)) = S (String.length a + String.length b)).
  f_equal. exact IH.
Qed.

Lemma parse_string_escape_char (c : ascii) (rest : string) :
  parse_string (escape_char false c +:+ rest)
  = let! '(str, tail) := parse_string rest in Py.Ok (String c str, tail).
Proof.
  destruct c as [[] [] [] [] [] [] [] []]; reflexivity.
Qed.

(** The scanner of strings reads back what [quote] wrote. *)
Lemma parse_string_escape (s tail : string) :
  parse_string (escape false s +:+ String dquote tail) = Py.Ok (s, tail).
Proof.
  induction s as [|c s IH]; [reflexivity|].
  cbn [escape]. rewrite append_assoc, parse_string_escape_char, IH. reflexivity.
Qed.

(** *** Numbers *)

Lemma closes_skip_ws (tail : string) : closes tail -> skip_ws tail = tail.
Proof. destruct tail as [|c tail]; [reflexivity|]. intros [->|[->| ->]]; reflexivity. Qed.

Lemma closes_take_digits (tail : string) (acc : Z) :
  closes tail -> take_digits tail acc = (acc, tail).
Proof. destruct tail as [|c tail]; [reflexivity|]. intros [->|[->| ->]]; reflexivity. Qed.

Lemma closes_not_float (tail : string) : closes tail -> float_follows tail = false.
Proof. destruct tail as [|c tail]; [reflexivity|]. intros [->|[->| ->]]; reflexivity. Qed.

Lemma pretty_N_go_append (x : N) (s tail : string) :
  pretty_N_go x s +:+ tail = pretty_N_go x (s +:+ tail).
Proof.
  revert s. induction (N.lt_wf_0 x) as [x _ IH]; intros s.
  destruct (N.eq_dec x 0%N) as [->|Hx].
  - rewrite !pretty_N_go_0. reflexivity.
  - rewrite !(pretty_N_go_step x) by lia. rewrite IH by (apply N.div_lt; lia).
    reflexivity.
Qed.

Lemma digit_value_pretty_N_char (d : N) :
  (d < 10)%N -> digit_value (pretty_N_char d) = Some (Z.of_N d).
Proof.
  intros Hd.
  assert (d = 0 \/ d = 1 \/ d = 2 \/ d = 3 \/ d = 4 \/ d = 5 \/ d = 6 \/ d = 7
          \/ d = 8 \/ d = 9)%N as Hcases by lia.
  repeat (destruct Hcases as [->|Hcases]; [reflexivity|]). subst d. reflexivity.
Qed.

(** Reading the digits that [pretty_N_go] wrote appends them to the
    number read so far. *)
Lemma take_digits_pretty_N_go (x : N) :
  exists p, forall s acc,
    take_digits (pretty_N_go x s) acc = take_digits s (acc * p + Z.of_N x).
Proof.
  induction (N.lt_wf_0 x) as [x _ IH].
  destruct (N.eq_dec x 0%N) as [->|Hx].
  - exists 1. intros s acc. rewrite pretty_N_go_0. f_equal. lia.
  - destruct (IH (x `div` 10)%N) as [p Hp]; [apply N.div_lt; lia|].
    exists (p * 10). intros s acc.
    rewrite pretty_N_go_step, Hp by lia. cbn [take_digits].
    rewrite digit_value_pretty_N_char by (apply N.mod_lt; lia).
    f_equal. pose proof (N.div_mod x 10 ltac:(lia)) as Hdm.
    rewrite N2Z.inj_div, N2Z.inj_mod. 
    pose proof (Z.div_mod (Z.of_N x) 10 ltac:(lia)). change (Z.of_N 10) with 10. lia.
Qed.

(** The text of a positive number starts with a digit other than zero. *)
Lemma pretty_N_go_head (x : N) (s : string) :
  (0 < x)%N ->
  exists c rest d, pretty_N_go x s = String c rest
                   /\ digit_value c = Some d /\ d <> 0.
Proof.
  revert s. induction (N.lt_wf_0 x) as [x _ IH]; intros s Hx.
  rewrite pretty_N_go_step by exact Hx.
  destruct (N.eq_dec (x `div` 10)%N 0%N) as [Hq|Hq].
  - rewrite Hq, pretty_N_go_0. eexists _, _, _. split; [reflexivity|].
    assert (Hlt : (x < 10)%N) by (apply (N.div_small_iff x 10); [lia | exact Hq]).
    rewrite N.mod_small by exact Hlt.
    split; [apply digit_value_pretty_N_char; exact Hlt | lia].
  - apply IH; [apply N.div_lt; lia | apply N.neq_0_lt_0; exact Hq].
Qed.

Lemma take_digits_head (c : ascii) (rest : string) (d : Z) :
  digit_value c = Some d -> take_digits (String c rest) 0 = take_digits rest d.
Proof. intros Hc. cbn [take_digits]. rewrite Hc. reflexivity. Qed.

Lemma digit_value_cases (c : ascii) (d : Z) :
  digit_value c = Some d ->
  c = "0"%char \/ c = "1"%char \/ c = "2"%char \/ c = "3"%char \/ c = "4"%char
  \/ c = "5"%char \/ c = "6"%char \/ c = "7"%char \/ c = "8"%char \/ c = "9"%char.
Proof.
  destruct c as [[] [] [] [] [] [] [] []]; cbn; intros H;
    try discriminate H; tauto.
Qed.

(** The digits of a natural number other than zero, read as a number. *)
Lemma parse_number_positive (x : N) (tail : string) :
  (0 < x)%N -> closes tail ->
  parse_number (pretty_N_go x EmptyString +:+ tail) = Py.Ok (PyInt (Z.of_N x), tail).
Proof.
  intros Hx Htail. rewrite pretty_N_go_append.
  change (EmptyString +:+ tail) with tail.
  destruct (pretty_N_go_head x tail Hx) as (c & rest & d & Hs & Hc & Hd).
  destruct (take_digits_pretty_N_go x) as [p Hp].
  specialize (Hp tail 0). rewrite Hs, (take_digits_head c rest d Hc) in Hp.
  rewrite (closes_take_digits tail) in Hp by exact Htail.
  rewrite Hs. unfold parse_number.
  assert (Hminus : (nat_of_ascii c =? 45)%nat = false).
  { destruct (digit_value_cases c d Hc) as [->|[->|[->|[->|[->|[->|[->|[->|[->| ->]]]]]]]]];
      reflexivity. }
  rewrite Hminus, Hc. destruct (Z.eqb_spec d 0); [contradiction|].
  rewrite Hp, closes_not_float by exact Htail.
  rewrite Z.mul_0_l, Z.add_0_l. reflexivity.
Qed.

Lemma digit_not_minus (c : ascii) (d : Z) :
  digit_value c = Some d -> (nat_of_ascii c =? 45)%nat = false.
Proof.
  intros Hc.
  destruct (digit_value_cases c d Hc) as [->|[->|[->|[->|[->|[->|[->|[->|[->| ->]]]]]]]]];
    reflexivity.
Qed.

(** A minus sign before the digits negates the number read. *)
Lemma parse_number_minus (c : ascii) (rest : string) (d m : Z) (tail : string) :
  digit_value c = Some d ->
  parse_number (String c rest) = Py.Ok (PyInt m, tail) ->
  parse_number (String "-" (String c rest)) = Py.Ok (PyInt (- m), tail).
Proof.
  intros Hc. unfold parse_number.
  change (nat_of_ascii "-" =? 45)%nat with true. cbn iota.
  rewrite (digit_not_minus c d Hc), Hc.
  destruct (if d =? 0 then (0, rest) else take_digits rest d) as [magnitude t].
  destruct (float_follows t); [discriminate|].
  intros [= <- <-]. reflexivity.
Qed.

(** A number written by [dumps] is read back. *)
Lemma parse_number_pretty (z : Z) (tail : string) :
  closes tail -> parse_number (pretty z +:+ tail) = Py.Ok (PyInt z, tail).
Proof.
  intros Htail. destruct z as [|x|x].
  - change (pretty 0 +:+ tail) with (String "0" tail).
    destruct tail as [|c t]; [reflexivity|].
    destruct Htail as [->|[->| ->]]; reflexivity.
  - change (pretty (Z.pos x)) with (pretty_N_go (N.pos x) EmptyString).
    apply (parse_number_positive (N.pos x)); [lia | exact Htail].
  - change (pretty (Z.neg x) +:+ tail)
      with (String "-" (pretty_N_go (N.pos x) EmptyString +:+ tail)).
    pose proof (parse_number_positive (N.pos x) tail ltac:(lia) Htail) as Hpos.
    rewrite pretty_N_go_append in *.
    destruct (pretty_N_go_head (N.pos x) (EmptyString +:+ tail) ltac:(lia))
      as (c & rest & d & Hs & Hc & Hd).
    rewrite Hs in *.
    apply (parse_number_minus c rest d _ tail Hc Hpos).
Qed.

(** *** Values *)

Lemma dumps_list (items : list pyval) :
  dumps false (PyList items) = "[" +:+ Py.join "," (map (dumps false) items) +:+ "]".
Proof. reflexivity. Qed.

Lemma dumps_dict (entries : list (string * pyval)) :
  dumps false (PyDict entries) = "{" +:+ Py.join "," (map entry_text entries) +:+ "}".
Proof. reflexivity. Qed.

Lemma weight_list (items : list pyval) : weight (PyList items) = S (items_weight items).
Proof. reflexivity. Qed.

Lemma weight_dict (entries : list (string * pyval)) :
  weight (PyDict entries) = S (entries_weight entries).
Proof. reflexivity. Qed.

Lemma weight_pos (v : pyval) : (1 <= weight v)%nat.
Proof. destruct v; cbn; lia. Qed.

Lemma starts_value_append (s r : string) : starts_value s -> starts_value (s +:+ r).
Proof. destruct s; [contradiction|]. intros H. exact H. Qed.

Lemma starts_value_skip_ws (s : string) : starts_value s -> skip_ws s = s.
Proof. destruct s as [|c s]; [contradiction|]. intros [Hws _]. cbn. rewrite Hws. reflexivity. Qed.

Lemma digit_starts_value (c : ascii) (d : Z) (rest : string) :
  digit_value c = Some d -> starts_value (String c rest).
Proof.
  intros Hc.
  destruct (digit_value_cases c d Hc) as [->|[->|[->|[->|[->|[->|[->|[->|[->| ->]]]]]]]]];
    repeat split.
Qed.

Lemma pretty_Z_starts_value (z : Z) : starts_value (pretty z).
Proof.
  destruct z as [|x|x].
  - repeat split.
  - change (pretty (Z.pos x)) with (pretty_N_go (N.pos x) EmptyString).
    destruct (pretty_N_go_head (N.pos x) EmptyString ltac:(lia))
      as (c & rest & d & Hs & Hc & _).
    rewrite Hs. exact (digit_starts_value c d rest Hc).
  - repeat split.
Qed.

Lemma dumps_starts_value (v : pyval) : starts_value (dumps false v).
Proof.
  destruct v as [|[]|z|s|items|items|entries]; try (repeat split; fail).
  apply pretty_Z_starts_value.
Qed.

Lemma join_head (sep a : string) (l : list string) :
  exists r, Py.join sep (a :: l) = a +:+ r.
Proof.
  destruct l as [|b l].
  - exists EmptyString. cbn. induction a as [|x a IH]; [reflexivity|].
    change (String x a = String x (a +:+ EmptyString)). f_equal. exact IH.
  - eexists. reflexivity.
Qed.

Lemma join_starts_value (a : string) (l : list string) :
  starts_value a -> starts_value (Py.join "," (a :: l)).
Proof.
  intros Ha. destruct (join_head "," a l) as [r ->]. apply starts_value_append, Ha.
Qed.

Lemma parse_value_digit (fuel : nat) (c : ascii) (rest : string) (d : Z) :
  digit_value c = Some d ->
  parse_value (S fuel) (String c rest) = parse_number (String c rest).
Proof.
  intros Hc.
  destruct (digit_value_cases c d Hc) as [->|[->|[->|[->|[->|[->|[->|[->|[->| ->]]]]]]]]];
    reflexivity.
Qed.

Lemma parse_value_minus (fuel : nat) (c : ascii) (rest : string) (d : Z) :
  digit_value c = Some d ->
  parse_value (S fuel) (String "-" (String c rest))
  = parse_number (String "-" (String c rest)).
Proof.
  intros Hc.
  destruct (digit_value_cases c d Hc) as [->|[->|[->|[->|[->|[->|[->|[->|[->| ->]]]]]]]]];
    reflexivity.
Qed.

Lemma parse_value_int (fuel : nat) (z : Z) (tail : string) :
  closes tail ->
  parse_value (S fuel) (pretty z +:+ tail) = Py.Ok (PyInt z, tail).
Proof.
  intros Htail. rewrite <- (parse_number_pretty z tail Htail).
  destruct z as [|x|x].
  - change (pretty 0 +:+ tail) with (String "0" tail).
    apply (parse_value_digit fuel "0" tail 0). reflexivity.
  - change (pretty (Z.pos x)) with (pretty_N_go (N.pos x) EmptyString).
    rewrite pretty_N_go_append.
    destruct (pretty_N_go_head (N.pos x) (EmptyString +:+ tail) ltac:(lia))
      as (c & rest & d & Hs & Hc & _).
    rewrite Hs. apply (parse_value_digit fuel c rest d Hc).
  - change (pretty (Z.neg x) +:+ tail)
      with (String "-" (pretty_N_go (N.pos x) EmptyString +:+ tail)).
    rewrite pretty_N_go_append.
    destruct (pretty_N_go_head (N.pos x) (EmptyString +:+ tail) ltac:(lia))
      as (c & rest & d & Hs & Hc & _).
    rewrite Hs. apply (parse_value_minus fuel c rest d Hc).
Qed.

Lemma parse_value_str (fuel : nat) (s tail : string) :
  parse_value (S fuel) (quote false s +:+ tail) = Py.Ok (PyStr s, tail).
Proof.
  unfold quote.
  change (String dquote (escape false s +:+ String dquote EmptyString) +:+ tail)
    with (String dquote ((escape false s +:+ String dquote EmptyString) +:+ tail)).
  rewrite append_assoc.
  change (String dquote EmptyString +:+ tail) with (String dquote tail).
  cbn [parse_value]. change (nat_of_ascii dquote =? 34)%nat with true. cbn iota.
  rewrite parse_string_escape. reflexivity.
Qed.

(** The elements of an array, from the first on. *)
Lemma parse_items_dumps (n : nat)
    (IH : forall v, (weight v <= n)%nat -> json_native v = true ->
          forall fuel tail, (weight v <= fuel)%nat -> closes tail ->
          parse_value fuel (dumps false v +:+ tail) = Py.Ok (v, tail))
    (items : list pyval) :
  forall acc fuel tail,
    items <> [] ->
    Forall (fun x => (weight x <= n)%nat /\ json_native x = true) items ->
    (items_weight items <= fuel)%nat ->
    parse_items fuel (Py.join "," (map (dumps false) items) +:+ String "]" tail) acc
    = Py.Ok (PyList (acc ++ items), tail).
Proof.
  induction items as [|x items IHitems]; intros acc fuel tail Hne Hall Hfuel;
    [congruence|].
  apply Forall_cons in Hall as [[Hwx Hnx] Hall].
  change (items_weight (x :: items)) with (S (weight x) + items_weight items)%nat in Hfuel.
  destruct fuel as [|fuel]; [lia|]. cbn [parse_items].
  destruct items as [|y items].
  - change (Py.join "," (map (dumps false) [x])) with (dumps false x).
    rewrite (IH x Hwx Hnx fuel (String "]" tail)) by (try lia; cbn; auto).
    reflexivity.
  - change (Py.join "," (map (dumps false) (x :: y :: items)))
      with (dumps false x +:+ "," +:+ Py.join "," (map (dumps false) (y :: items))).
    rewrite !append_assoc.
    change ("," +:+ Py.join "," (map (dumps false) (y :: items)) +:+ String "]" tail)
      with (String "," (Py.join "," (map (dumps false) (y :: items)) +:+ String "]" tail)).
    rewrite (IH x Hwx Hnx fuel) by (try lia; cbn; auto).
    cbn [Py.bind skip_ws is_ws nat_of_ascii]. 
    change (is_ws ",") with false. cbn iota.
    change (nat_of_ascii "," =? 44)%nat with true. cbn iota.
    rewrite starts_value_skip_ws
      by (apply starts_value_append, join_starts_value, dumps_starts_value).
    rewrite IHitems by (try discriminate; try assumption; lia).
    rewrite <- app_assoc. reflexivity.
Qed.

Lemma dict_set_fresh (d : list (string * pyval)) (k : string) (v : pyval) :
  k ∉ map fst d -> dict_set d k v = d ++ [(k, v)].
Proof.
  induction d as [|[k' v'] d IH]; intros Hk; [reflexivity|].
  cbn [dict_set]. cbn [map fst] in Hk. apply not_elem_of_cons in Hk as [Hne Hk].
  destruct (decide (k' = k)) as [->|_]; [congruence|].
  rewrite IH by exact Hk. reflexivity.
Qed.

Lemma entry_text_append (k : string) (v : pyval) (rest : string) :
  entry_text (k, v) +:+ rest
  = String dquote (escape false k +:+ String dquote (String ":" (dumps false v +:+ rest))).
Proof.
  unfold entry_text, quote. cbn [fst snd].
  change (String dquote (escape false k +:+ String dquote EmptyString)
          +:+ ":" +:+ dumps false v)
    with (String dquote ((escape false k +:+ String dquote EmptyString)
                         +:+ ":" +:+ dumps false v)).
  change (String dquote ((escape false k +:+ String dquote EmptyString)
                         +:+ ":" +:+ dumps false v) +:+ rest)
    with (String dquote (((escape false k +:+ String dquote EmptyString)
                          +:+ ":" +:+ dumps false v) +:+ rest)).
  rewrite !append_assoc. reflexivity.
Qed.

(** The pairs of an object, from the first on. *)
Lemma parse_members_dumps (n : nat)
    (IH : forall v, (weight v <= n)%nat -> json_native v = true ->
          forall fuel tail, (weight v <= fuel)%nat -> closes tail ->
          parse_value fuel (dumps false v +:+ tail) = Py.Ok (v, tail))
    (entries : list (string * pyval)) :
  forall acc fuel tail,
    entries <> [] ->
    Forall (fun kv => (weight (snd kv) <= n)%nat /\ json_native (snd kv) = true) entries ->
    (entries_weight entries <= fuel)%nat ->
    NoDup (map fst (acc ++ entries)) ->
    parse_members fuel (Py.join "," (map entry_text entries) +:+ String "}" tail) acc
    = Py.Ok (PyDict (acc ++ entries), tail).
Proof.
  induction entries as [|[k v] entries IHentries];
    intros acc fuel tail Hne Hall Hfuel Hnodup; [congruence|].
  apply Forall_cons in Hall as [[Hwv Hnv] Hall]. cbn [snd] in Hwv, Hnv.
  change (entries_weight ((k, v) :: entries))
    with (S (weight v) + entries_weight entries)%nat in Hfuel.
  assert (Hfresh : k ∉ map fst acc).
  { rewrite map_app in Hnodup. apply NoDup_app in Hnodup as (_ & Hdisj & _).
    intros Hin. apply (Hdisj k Hin). cbn. left. }
  destruct fuel as [|fuel]; [lia|]. cbn [parse_members].
  destruct entries as [|e entries].
  - change (Py.join "," (map entry_text [(k, v)])) with (entry_text (k, v)).
    rewrite entry_text_append.
    change (nat_of_ascii dquote =? 34)%nat with true. cbn iota.
    rewrite parse_string_escape. cbn [Py.bind skip_ws].
    change (is_ws ":") with false. cbn iota.
    change (nat_of_ascii ":" =? 58)%nat with true. cbn iota.
    rewrite starts_value_skip_ws by (apply starts_value_append, dumps_starts_value).
    rewrite (IH v Hwv Hnv fuel (String "}" tail)) by (try lia; cbn; auto).
    cbn [Py.bind skip_ws]. change (is_ws "}") with false. cbn iota.
    change (nat_of_ascii "}" =? 44)%nat with false.
    change (nat_of_ascii "}" =? 125)%nat with true. cbn iota.
    rewrite dict_set_fresh by exact Hfresh. reflexivity.
  - change (Py.join "," (map entry_text ((k, v) :: e :: entries)))
      with (entry_text (k, v) +:+ "," +:+ Py.join "," (map entry_text (e :: entries))).
    rewrite append_assoc, entry_text_append.
    change (("," +:+ Py.join "," (map entry_text (e :: entries))) +:+ String "}" tail)
      with (String "," (Py.join "," (map entry_text (e :: entries)) +:+ String "}" tail)).
    change (nat_of_ascii dquote =? 34)%nat with true. cbn iota.
    rewrite parse_string_escape. cbn [Py.bind skip_ws].
    change (is_ws ":") with false. cbn iota.
    change (nat_of_ascii ":" =? 58)%nat with true. cbn iota.
    rewrite starts_value_skip_ws by (apply starts_value_append, dumps_starts_value).
    rewrite (IH v Hwv Hnv fuel) by (try lia; cbn; auto).
    cbn [Py.bind skip_ws]. change (is_ws ",") with false. cbn iota.
    change (nat_of_ascii "," =? 44)%nat with true. cbn iota.
    rewrite starts_value_skip_ws.
    2:{ apply starts_value_append, join_starts_value.
        destruct e as [k' v']. unfold entry_text, quote. repeat split. }
    rewrite dict_set_fresh by exact Hfresh.
    rewrite IHentries; try discriminate; try assumption; try lia.
    + rewrite <- app_assoc. reflexivity.
    + rewrite <- app_assoc. exact Hnodup.
Qed.

Lemma items_weight_each (items : list pyval) (n : nat) :
  (items_weight items <= n)%nat -> Forall (fun x => (weight x <= n)%nat) items.
Proof.
  induction items as [|x items IH]; intros H; constructor;
    change (items_weight (x :: items)) with (S (weight x) + items_weight items)%nat in H.
  - lia.
  - apply IH. lia.
Qed.

Lemma entries_weight_each (entries : list (string * pyval)) (n : nat) :
  (entries_weight entries <= n)%nat ->
  Forall (fun kv => (weight (snd kv) <= n)%nat) entries.
Proof.
  induction entries as [|x entries IH]; intros H; constructor;
    change (entries_weight (x :: entries))
      with (S (weight (snd x)) + entries_weight entries)%nat in H.
  - lia.
  - apply IH. lia.
Qed.

Lemma starts_value_inv (s : string) :
  starts_value s ->
  exists c r, s = String c r /\ (nat_of_ascii c =? 93)%nat = false
              /\ (nat_of_ascii c =? 125)%nat = false.
Proof. destruct s as [|c r]; [contradiction|]. intros (_ & H1 & H2). eauto. Qed.

(** The scanner of values reads back what [dumps] wrote, given fuel for
    the weight of the value. *)
Lemma parse_value_dumps (n : nat) :
  forall v, (weight v <= n)%nat -> json_native v = true ->
  forall fuel tail, (weight v <= fuel)%nat -> closes tail ->
  parse_value fuel (dumps false v +:+ tail) = Py.Ok (v, tail).
Proof.
  induction n as [|n IH]; intros v Hw Hnative fuel tail Hfuel Htail.
  { pose proof (weight_pos v). lia. }
  destruct fuel as [|fuel]; [pose proof (weight_pos v); lia|].
  destruct v as [|b|z|s|items|items|entries].
  - reflexivity.
  - destruct b; reflexivity.
  - apply parse_value_int, Htail.
  - apply parse_value_str.
  - rewrite weight_list in Hw, Hfuel. cbn [json_native] in Hnative.
    rewrite dumps_list, !append_assoc.
    change ("[" +:+ Py.join "," (map (dumps false) items) +:+ "]" +:+ tail)
      with (String "[" (Py.join "," (map (dumps false) items) +:+ String "]" tail)).
    cbn [parse_value]. change (nat_of_ascii "[" =? 34)%nat with false.
    change (nat_of_ascii "[" =? 123)%nat with false.
    change (nat_of_ascii "[" =? 91)%nat with true. cbn iota.
    destruct items as [|x items]; [reflexivity|].
    assert (Hstart : starts_value (Py.join "," (map (dumps false) (x :: items))
                                   +:+ String "]" tail))
      by apply starts_value_append, join_starts_value, dumps_starts_value.
    rewrite starts_value_skip_ws by exact Hstart.
    destruct (starts_value_inv _ Hstart) as (c & r & Heq & H93 & _).
    rewrite Heq, H93, <- Heq.
    apply (parse_items_dumps n IH (x :: items) []); [discriminate | | lia].
    apply Forall_and. split; [apply items_weight_each; lia|].
    apply Forall_forall. intros y Hy. apply forallb_forall with (x := y) in Hnative;
      [exact Hnative | apply list_elem_of_In; exact Hy].
  - discriminate Hnative.
  - rewrite weight_dict in Hw, Hfuel. cbn [json_native] in Hnative.
    apply andb_prop in Hnative as [Hnodup Hnative].
    apply bool_decide_eq_true in Hnodup.
    rewrite dumps_dict, !append_assoc.
    change ("{" +:+ Py.join "," (map entry_text entries) +:+ "}" +:+ tail)
      with (String "{" (Py.join "," (map entry_text entries) +:+ String "}" tail)).
    cbn [parse_value]. change (nat_of_ascii "{" =? 34)%nat with false.
    change (nat_of_ascii "{" =? 123)%nat with true. cbn iota.
    destruct entries as [|[k v] entries]; [reflexivity|].
    assert (Hstart : starts_value (Py.join "," (map entry_text ((k, v) :: entries))
                                   +:+ String "}" tail)).
    { apply starts_value_append, join_starts_value. repeat split. }
    rewrite starts_value_skip_ws by exact Hstart.
    destruct (starts_value_inv _ Hstart) as (c & r & Heq & _ & H125).
    rewrite Heq, H125, <- Heq.
    apply (parse_members_dumps n IH ((k, v) :: entries) []);
      [discriminate | | lia | exact Hnodup].
    apply Forall_and. split; [apply entries_weight_each; lia|].
    apply Forall_forall. intros y Hy.
    apply forallb_forall with (x := y) in Hnative;
      [exact Hnative | apply list_elem_of_In; exact Hy].
Qed.

(** *** Fuel *)

Lemma append_nil_r (s : string) : s +:+ EmptyString = s.
Proof.
  induction s as [|c s IH]; [reflexivity|].
  change (String c (s +:+ EmptyString) = String c s). f_equal. exact IH.
Qed.

Lemma starts_value_length (s : string) : starts_value s -> (1 <= String.length s)%nat.
Proof. destruct s; [contradiction|]. cbn. lia. Qed.

Lemma items_length_bound (items : list pyval) :
  Forall (fun x => (weight x <= 2 * String.length (dumps false x))%nat) items ->
  (items_weight items
   <= 2 * String.length (Py.join "," (map (dumps false) items)) + 1)%nat.
Proof.
  induction 1 as [|x items Hx _ IH]; [cbn; lia|].
  change (items_weight (x :: items)) with (S (weight x) + items_weight items)%nat.
  destruct items as [|y items].
  - change (Py.join "," (map (dumps false) [x])) with (dumps false x). cbn. lia.
  - change (Py.join "," (map (dumps false) (x :: y :: items)))
      with (dumps false x +:+ "," +:+ Py.join "," (map (dumps false) (y :: items))).
    rewrite !append_length. cbn [String.length]. lia.
Qed.

Lemma entries_length_bound (entries : list (string * pyval)) :
  Forall (fun kv => (weight (snd kv) <= 2 * String.length (dumps false (snd kv)))%nat)
    entries ->
  (entries_weight entries
   <= 2 * String.length (Py.join "," (map entry_text entries)) + 1)%nat.
Proof.
  induction 1 as [|x entries Hx _ IH]; [cbn; lia|].
  change (entries_weight (x :: entries))
    with (S (weight (snd x)) + entries_weight entries)%nat.
  assert (Hentry : (String.length (dumps false (snd x)) <= String.length (entry_text x))%nat).
  { unfold entry_text. rewrite !append_length. lia. }
  destruct entries as [|y entries].
  - change (Py.join "," (map entry_text [x])) with (entry_text x). cbn. lia.
  - change (Py.join "," (map entry_text (x :: y :: entries)))
      with (entry_text x +:+ "," +:+ Py.join "," (map entry_text (y :: entries))).
    rewrite !append_length. cbn [String.length]. lia.
Qed.

(** Twice the length of the text is fuel enough. *)
Lemma weight_le_length (n : nat) :
  forall v, (weight v <= n)%nat -> (weight v <= 2 * String.length (dumps false v))%nat.
Proof.
  induction n as [|n IH]; intros v Hw; [pose proof (weight_pos v); lia|].
  destruct v as [|b|z|s|items|items|entries].
  - cbn. lia.
  - destruct b; cbn; lia.
  - pose proof (starts_value_length _ (pretty_Z_starts_value z)).
    change (dumps false (PyInt z)) with (pretty z). cbn [weight]. lia.
  - cbn. lia.
  - rewrite weight_list in *. rewrite dumps_list, !append_length.
    pose proof (items_length_bound items) as Hb. cbn [String.length].
    assert (Heach : Forall (fun x => (weight x <= 2 * String.length (dumps false x))%nat)
                      items).
    { eapply Forall_impl; [apply (items_weight_each items n); lia|].
      intros x Hx. apply IH, Hx. }
    specialize (Hb Heach). lia.
  - change (weight (PyTuple items)) with (S (items_weight items)) in *.
    change (dumps false (PyTuple items))
      with ("[" +:+ Py.join "," (map (dumps false) items) +:+ "]").
    rewrite !append_length.
    pose proof (items_length_bound items) as Hb. cbn [String.length].
    assert (Heach : Forall (fun x => (weight x <= 2 * String.length (dumps false x))%nat)
                      items).
    { eapply Forall_impl; [apply (items_weight_each items n); lia|].
      intros x Hx. apply IH, Hx. }
    specialize (Hb Heach). lia.
  - rewrite weight_dict in *. rewrite dumps_dict, !append_length.
    pose proof (entries_length_bound entries) as Hb. cbn [String.length].
    assert (Heach : Forall (fun kv => (weight (snd kv)
                                       <= 2 * String.length (dumps false (snd kv)))%nat)
                      entries).
    { eapply Forall_impl; [apply (entries_weight_each entries n); lia|].
      intros x Hx. apply IH, Hx. }
    specialize (Hb Heach). lia.
Qed.

(** [json.loads(json.dumps(v)) == v] for every value without tuples and
    without a key twice in a dictionary. *)
Lemma loads_dumps (v : pyval) :
  json_native v = true -> loads (dumps false v) = Py.Ok v.
Proof.
  intros Hnative. unfold loads.
  rewrite starts_value_skip_ws by apply dumps_starts_value.
  rewrite <- (append_nil_r (dumps false v)) at 2.
  rewrite (parse_value_dumps (weight v) v (le_n _) Hnative).
  - reflexivity.
  - pose proof (weight_le_length (weight v) v (le_n _)). lia.
  - exact I.
Qed.

End json_facts.

(** ** Properties of the wire layer *)

Module websocket_compression_facts.
Import json json_facts websocket_compression.

(** *** Bytes and the header *)

Lemma Z_of_byte_range (b : byte) : 0 <= Z_of_byte b < 256.
Proof. unfold Z_of_byte. pose proof (Byte.to_N_bounded b). lia. Qed.

Lemma Z_of_byte_of_Z (z : Z) : 0 <= z < 256 -> Z_of_byte (byte_of_Z z) = z.
Proof.
  intros Hz. unfold Z_of_byte, byte_of_Z.
  destruct (Byte.of_N (Z.to_N z)) as [b|] eqn:Hb.
  - cbn [from_option id]. apply Byte.to_of_N in Hb. rewrite Hb. lia.
  - apply Byte.of_N_None_iff in Hb. lia.
Qed.

Lemma byte_of_Z_of_byte (b : byte) : byte_of_Z (Z_of_byte b) = b.
Proof.
  unfold Z_of_byte, byte_of_Z. rewrite N2Z.id, Byte.of_to_N. reflexivity.
Qed.

(** Bit [i - k] of the byte taken at offset [k] is bit [i] of the number,
    if [i] lies in the byte. *)
Lemma testbit_byte_at (n k i : Z) :
  0 <= k ->
  Z.testbit (Z.land (Z.shiftr n k) (Z.ones 8)) (i - k)
  = Z.testbit n i && (k <=? i) && (i <? k + 8).
Proof.
  intros Hk. destruct (Z.leb_spec k i) as [Hle|Hlt].
  - rewrite Z.land_spec, Z.shiftr_spec, Z.testbit_ones_nonneg by lia.
    replace (i - k + k) with i by lia.
    destruct (Z.ltb_spec (i - k) 8), (Z.ltb_spec i (k + 8)); try lia;
      rewrite ?andb_true_r, ?andb_false_r; reflexivity.
  - rewrite Z.testbit_neg_r by lia. rewrite andb_false_r. reflexivity.
Qed.

(** The four bytes of the length field, put together again. *)
Lemma be32_join (n : Z) :
  0 <= n ->
  Z.lor (Z.shiftl (Z.shiftr n 24) 24)
    (Z.lor (Z.shiftl (Z.land (Z.shiftr n 16) 255) 16)
       (Z.lor (Z.shiftl (Z.land (Z.shiftr n 8) 255) 8) (Z.land n 255))) = n.
Proof.
  intros Hn. change 255 with (Z.ones 8).
  apply Z.bits_inj'. intros i Hi.
  rewrite !Z.lor_spec.
  rewrite (Z.shiftl_spec _ 24), (Z.shiftl_spec _ 16), (Z.shiftl_spec _ 8) by lia.
  rewrite (testbit_byte_at n 16), (testbit_byte_at n 8) by lia.
  replace (Z.testbit (Z.land n (Z.ones 8)) i)
    with (Z.testbit n i && (0 <=? i) && (i <? 0 + 8)).
  2:{ rewrite <- (testbit_byte_at n 0 i) by lia.
      rewrite Z.shiftr_0_r, Z.sub_0_r. reflexivity. }
  destruct (Z.leb_spec 24 i) as [H24|H24].
  - rewrite Z.shiftr_spec by lia. replace (i - 24 + 24) with i by lia.
    destruct (Z.testbit n i); [reflexivity|]. reflexivity.
  - rewrite (Z.testbit_neg_r _ (i - 24)) by lia. cbn [orb].
    destruct (Z.testbit n i); cbn [andb]; [|reflexivity].
    destruct (Z.leb_spec 16 i), (Z.ltb_spec i (16 + 8)), (Z.leb_spec 8 i),
      (Z.ltb_spec i (8 + 8)), (Z.leb_spec 0 i), (Z.ltb_spec i (0 + 8));
      cbn; try reflexivity; lia.
Qed.

Lemma land_255_range (x : Z) : 0 <= Z.land x 255 < 256.
Proof.
  change 255 with (Z.ones 8). rewrite Z.land_ones by lia.
  apply Z.mod_pos_bound. lia.
Qed.

Lemma shiftr_24_range (n : Z) : 0 <= n < 2 ^ 32 -> 0 <= Z.shiftr n 24 < 256.
Proof.
  intros Hn. rewrite Z.shiftr_div_pow2 by lia. split.
  - apply Z.div_pos; lia.
  - apply Z.div_lt_upper_bound; lia.
Qed.

(** What is packed is what is unpacked. *)
Lemma struct_unpack_pack (a b n : Z) (header : list byte) :
  struct_pack a b n = Py.Ok header ->
  struct_unpack header = Py.Ok (a, b, n) /\ length header = 6%nat.
Proof.
  unfold struct_pack.
  destruct (Z.leb_spec 0 a), (Z.ltb_spec a 256), (Z.leb_spec 0 b), (Z.ltb_spec b 256),
    (Z.leb_spec 0 n), (Z.ltb_spec n (2 ^ 32)); cbn [andb]; try discriminate.
  intros [= <-]. split; [|reflexivity]. unfold struct_unpack.
  rewrite !Z_of_byte_of_Z by (auto using land_255_range, shiftr_24_range; lia).
  rewrite be32_join by lia. reflexivity.
Qed.

Lemma struct_pack_ok (a b n : Z) :
  0 <= a < 256 -> 0 <= b < 256 -> 0 <= n < 2 ^ 32 ->
  exists n3 n2 n1 n0,
    struct_pack a b n = Py.Ok [byte_of_Z a; byte_of_Z b; n3; n2; n1; n0].
Proof.
  intros Ha Hb Hn. unfold struct_pack.
  destruct (Z.leb_spec 0 a), (Z.ltb_spec a 256), (Z.leb_spec 0 b), (Z.ltb_spec b 256),
    (Z.leb_spec 0 n), (Z.ltb_spec n (2 ^ 32)); try lia.
  cbn [andb]. eauto.
Qed.

Lemma type_value_range (t : MessageType) : 0 <= type_value t < 256.
Proof. destruct t; cbn; lia. Qed.

Lemma type_of_value_type_value (t : MessageType) : type_of_value (type_value t) = Some t.
Proof. destruct t; reflexivity. Qed.

(** *** Slices of a packet *)

Lemma slice_head {A} (h d : list A) :
  Py.slice (h ++ d) None (Some (Z.of_nat (length h))) = h.
Proof.
  unfold Py.slice, Py.slice_bound. cbn [from_option].
  destruct (Z.ltb_spec (Z.of_nat (length h)) 0); [lia|].
  rewrite length_app. rewrite Z.min_l by lia. rewrite Z.sub_0_r, Nat2Z.id.
  cbn [Z.to_nat drop]. apply take_app_length.
Qed.

Lemma slice_tail {A} (h d : list A) :
  Py.slice (h ++ d) (Some (Z.of_nat (length h)))
    (Some (Z.of_nat (length h) + Z.of_nat (length d))) = d.
Proof.
  unfold Py.slice, Py.slice_bound. cbn [from_option].
  destruct (Z.ltb_spec (Z.of_nat (length h)) 0); [lia|].
  destruct (Z.ltb_spec (Z.of_nat (length h) + Z.of_nat (length d)) 0); [lia|].
  rewrite length_app. rewrite !Z.min_l by lia.
  rewrite Nat2Z.id, drop_app_length.
  apply take_ge. lia.
Qed.

(** [_parse_packet] reads back what [_create_packet] wrote. *)
Lemma parse_create (t : MessageType) (data : list byte) (compressed : bool)
    (packet : list byte) :
  _create_packet t data compressed = Py.Ok packet ->
  _parse_packet packet = Py.Ok (t, compressed, data).
Proof.
  unfold _create_packet.
  destruct (struct_pack _ _ _) as [header| |] eqn:Hpack; cbn [Py.bind]; try discriminate.
  intros [= <-].
  apply struct_unpack_pack in Hpack as [Hunpack Hlen].
  unfold _parse_packet. rewrite length_app, Hlen.
  destruct (Z.ltb_spec (Z.of_nat (6 + length data)) 6); [lia|].
  change 6 with (Z.of_nat 6) at 1. rewrite <- Hlen at 1.
  rewrite slice_head, Hunpack. cbn [Py.bind].
  change 6 with (Z.of_nat 6). rewrite <- Hlen. rewrite slice_tail.
  rewrite Z.eqb_refl, type_of_value_type_value. cbn [from_option id].
  destruct compressed; reflexivity.
Qed.

(** *** UTF-8 *)

Lemma utf8_decode_encode (s : string) : utf8_decode (utf8_encode s) = Py.Ok s.
Proof.
  induction s as [|c s IH]; [reflexivity|]. cbn [utf8_encode].
  pose proof (nat_ascii_bounded c) as Hc.
  set (n := Z.of_nat (nat_of_ascii c)).
  assert (Hn : 0 <= n < 256) by (unfold n; lia).
  assert (Hback : ascii_of_nat (Z.to_nat n) = c).
  { unfold n. rewrite Nat2Z.id. apply ascii_nat_embedding. }
  destruct (Z.ltb_spec n 128) as [Hlow|Hhigh].
  - cbn [utf8_decode]. rewrite Z_of_byte_of_Z by lia.
    destruct (Z.ltb_spec n 128); [|lia].
    rewrite IH. cbn [Py.bind]. rewrite Hback. reflexivity.
  - assert (Hq : 2 <= n / 64 <= 3).
    { split; [apply Z.div_le_lower_bound | apply Z.lt_succ_r, Z.div_lt_upper_bound]; lia. }
    pose proof (Z.mod_pos_bound n 64 ltac:(lia)) as Hr.
    cbn [utf8_decode]. rewrite !Z_of_byte_of_Z by lia.
    destruct (Z.ltb_spec (192 + n / 64) 128); [lia|].
    destruct (Z.leb_spec 194 (192 + n / 64)); [|lia].
    destruct (Z.ltb_spec (192 + n / 64) 224); [|lia].
    destruct (Z.leb_spec 128 (128 + n mod 64)); [|lia].
    destruct (Z.ltb_spec (128 + n mod 64) 192); [|lia].
    cbn [andb].
    replace ((192 + n / 64 - 192) * 64 + (128 + n mod 64 - 128)) with n
      by (pose proof (Z.div_mod n 64 ltac:(lia)); lia).
    destruct (Z.ltb_spec n 256); [|lia].
    rewrite IH. cbn [Py.bind]. rewrite Hback. reflexivity.
Qed.

(** *** Packets of [compress_message] *)

Lemma create_packet_ok (t : MessageType) (data : list byte) (compressed : bool) :
  Z.of_nat (length data) < 2 ^ 32 ->
  exists n3 n2 n1 n0,
    _create_packet t data compressed
    = Py.Ok (byte_of_Z (type_value t) :: byte_of_Z (if compressed then 1 else 0)
             :: n3 :: n2 :: n1 :: n0 :: data).
Proof.
  intros Hlen. unfold _create_packet.
  destruct (struct_pack_ok (type_value t) (if compressed then 1 else 0)
              (Z.of_nat (length data))) as (n3 & n2 & n1 & n0 & Hpack).
  - apply type_value_range.
  - destruct compressed; lia.
  - lia.
  - rewrite Hpack. cbn [Py.bind]. exists n3, n2, n1, n0. reflexivity.
Qed.

Lemma create_packet_no_hang (t : MessageType) (data : list byte) (compressed : bool) :
  _create_packet t data compressed <> Py.Hang.
Proof.
  unfold _create_packet, struct_pack. destruct (_ && _); cbn [Py.bind]; discriminate.
Qed.

Section compressor_facts.

Context `{Zlib}.

(** Below [min_compress_size] the packet is the plain one, of type
    [TRANSCRIPTION_RESULT] whatever the type asked for. *)
Lemma compress_message_small (self : AdaptiveCompressor) (message : Message)
    (message_type : MessageType) (t1 t2 t3 : Qc) :
  Z.of_nat (length (payload message)) < min_compress_size self ->
  snd (compress_message self message message_type t1 t2 t3)
  = _create_packet TRANSCRIPTION_RESULT (payload message) false.
Proof.
  intros Hsmall. unfold compress_message. fold (payload message).
  cbn [min_compress_size set_stats].
  destruct (Z.ltb_spec (Z.of_nat (length (payload message))) (min_compress_size self));
    [reflexivity | lia].
Qed.

(** Whatever branch is taken, [compress_message] returns a packet made by
    [_create_packet], either of the plain bytes or of what [zlib] made of
    them. *)
Lemma compress_message_packet (self : AdaptiveCompressor) (message : Message)
    (message_type : MessageType) (t1 t2 t3 : Qc) :
  Z.of_nat (length (payload message)) < 2 ^ 32 ->
  exists packet t compressed data,
    snd (compress_message self message message_type t1 t2 t3) = Py.Ok packet
    /\ _create_packet t data compressed = Py.Ok packet
    /\ (if compressed
        then exists level, zlib_compress (payload message) level = Some data
        else data = payload message).
Proof.
  intros Hlen.
  assert (Hplain : forall t s,
            exists packet t' compressed data,
              snd (s : AdaptiveCompressor, _create_packet t (payload message) false)
              = Py.Ok packet
              /\ _create_packet t' data compressed = Py.Ok packet
              /\ (if compressed
                  then exists level, zlib_compress (payload message) level = Some data
                  else data = payload message)).
  { intros t s. destruct (create_packet_ok t (payload message) false Hlen)
      as (n3 & n2 & n1 & n0 & Hp).
    eexists _, t, false, (payload message). cbn [snd]. rewrite Hp. auto. }
  unfold compress_message. fold (payload message).
  destruct (_ <? _); [apply Hplain|].
  destruct (decide _); [apply Hplain|].
  unfold try_compress.
  destruct (zlib_compress (payload message) _) as [packed|] eqn:Hz;
    cbn [zlib_call Py.bind]; [|apply Hplain].
  destruct (_ =? 0); [apply Hplain|].
  destruct (bool_decide _).
  - destruct (create_packet_ok message_type (payload message) false Hlen)
      as (n3 & n2 & n1 & n0 & Hp).
    rewrite Hp. cbn [Py.bind snd].
    eexists _, message_type, false, (payload message). auto.
  - destruct (_create_packet message_type packed true) as [p| |] eqn:Hp;
      cbn [Py.bind]; [|apply Hplain|].
    + eexists p, message_type, true, packed. cbn [snd].
      split; [reflexivity|]. split; [exact Hp|]. eexists. exact Hz.
    + exfalso. exact (create_packet_no_hang _ _ _ Hp).
Qed.

(** C9: a message whose serialized form is shorter than
    [min_compress_size] (and fits the 32-bit length field) leaves
    [compress_message] as a packet whose first byte is 1, the code of
    [TRANSCRIPTION_RESULT], and whose flag byte is 0, followed by the four
    length bytes and the serialized form itself, whatever [message_type]
    was passed. *)
Theorem small_message_type_byte (self : AdaptiveCompressor) (message : Message)
    (message_type : MessageType) (t1 t2 t3 : Qc) :
  Z.of_nat (length (payload message)) < min_compress_size self ->
  Z.of_nat (length (payload message)) < 2 ^ 32 ->
  exists n3 n2 n1 n0,
    snd (compress_message self message message_type t1 t2 t3)
    = Py.Ok (x01 :: x00 :: n3 :: n2 :: n1 :: n0 :: payload message)
    /\ type_value TRANSCRIPTION_RESULT = Z_of_byte x01.
Proof.
  intros Hsmall Hlen. rewrite compress_message_small by exact Hsmall.
  destruct (create_packet_ok TRANSCRIPTION_RESULT (payload message) false Hlen)
    as (n3 & n2 & n1 & n0 & Hp).
  exists n3, n2, n1, n0. split; [exact Hp | reflexivity].
Qed.

(** A message that [json] itself gives back unchanged, and whose
    serialized form fits the 32-bit length field, is given back by
    [decompress_message] from the packet of [compress_message]. *)
Lemma decompress_compress_json (self decoder : AdaptiveCompressor) (message : Message)
    (message_type : MessageType) (t1 t2 t3 t4 t5 : Qc) :
  loads (dumps false (PyDict message)) = Py.Ok (PyDict message) ->
  Z.of_nat (length (payload message)) < 2 ^ 32 ->
  exists packet,
    snd (compress_message self message message_type t1 t2 t3) = Py.Ok packet
    /\ snd (decompress_message decoder packet t4 t5) = Py.Ok (PyDict message).
Proof.
  intros Hjson Hlen.
  destruct (compress_message_packet self message message_type t1 t2 t3 Hlen)
    as (packet & t & compressed & data & Hc & Hp & Hdata).
  exists packet. split; [exact Hc|].
  unfold decompress_message. rewrite (parse_create _ _ _ _ Hp).
  destruct compressed.
  - destruct Hdata as [level Hz]. rewrite (zlib_inverse _ _ _ Hz).
    cbn [zlib_call Py.bind snd]. fold (payload message).
    unfold payload. rewrite utf8_decode_encode. cbn [Py.bind]. exact Hjson.
  - subst data. cbn [snd]. unfold payload. rewrite utf8_decode_encode.
    cbn [Py.bind]. exact Hjson.
Qed.


End compressor_facts.

(** *** The stand-in for [zlib] *)

Lemma runs_expand (data : list byte) : expand (runs data) = data.
Proof.
  induction data as [|b data IH]; [reflexivity|]. cbn [runs].
  destruct (runs data) as [|[b' n] rs].
  - cbn in *. subst data. reflexivity.
  - destruct (Byte.eqb b b' && (n <? 255)%nat) eqn:Hsame.
    + apply andb_prop in Hsame as [Hb _]. apply Byte.byte_dec_bl in Hb. subst b'.
      rewrite <- IH. reflexivity.
    + rewrite <- IH. reflexivity.
Qed.

Lemma runs_short (data : list byte) : Forall (fun r => (snd r <= 255)%nat) (runs data).
Proof.
  induction data as [|b data IH]; [constructor|]. cbn [runs].
  destruct (runs data) as [|[b' n] rs].
  - constructor; [cbn; lia | constructor].
  - destruct (Byte.eqb b b' && (n <? 255)%nat) eqn:Hsame.
    + apply andb_prop in Hsame as [_ Hn]. apply Nat.ltb_lt in Hn.
      inversion IH; subst. constructor; [cbn; lia | assumption].
    + constructor; [cbn; lia | assumption].
Qed.

Lemma unpack_pack_runs (rs : list (byte * nat)) :
  Forall (fun r => (snd r <= 255)%nat) rs ->
  unpack_runs (pack_runs rs) = Some (expand rs).
Proof.
  induction 1 as [|[b n] rs Hn _ IH]; [reflexivity|].
  cbn [pack_runs flat_map app fst snd unpack_runs] in *.
  fold (pack_runs rs). rewrite IH.
  rewrite Z_of_byte_of_Z by lia. rewrite Nat2Z.id. reflexivity.
Qed.

#[refine] Instance run_length : Zlib := {|
  zlib_compress data level := Some (pack_runs (runs data));
  zlib_decompress := unpack_runs
|}.
Proof.
  intros data level packed [= <-].
  rewrite unpack_pack_runs by apply runs_short.
  rewrite runs_expand. reflexivity.
Defined.


(** *** The codec on sample messages *)


Lemma small_message_type_byte_witness :
  exists n3 n2 n1 n0,
    snd (compress_message (default_compressor 0%Qc) short_message AUDIO_DATA
           0%Qc 0%Qc 0%Qc)
    = Py.Ok (x01 :: x00 :: n3 :: n2 :: n1 :: n0 :: payload short_message).
Proof.
  destruct (small_message_type_byte (default_compressor 0%Qc) short_message AUDIO_DATA
              0%Qc 0%Qc 0%Qc) as (n3 & n2 & n1 & n0 & Hp & _).
  - vm_compute. reflexivity.
  - vm_compute. reflexivity.
  - exists n3, n2, n1, n0. exact Hp.
Defined.


(** *** Message batcher *)

Lemma msg_size_nonneg (m : Message) : 0 <= msg_size m.
Proof. unfold msg_size. lia. Qed.

Lemma total_size_nonneg (work : list (Message * Qc)) : 0 <= total_size work.
Proof.
  induction work as [|w work IH]; [cbn; lia|].
  change (total_size (w :: work)) with (msg_size (fst w) + total_size work).
  pose proof (msg_size_nonneg (fst w)). lia.
Qed.

Lemma total_size_app (w1 w2 : list (Message * Qc)) :
  total_size (w1 ++ w2) = total_size w1 + total_size w2.
Proof.
  induction w1 as [|w w1 IH]; [reflexivity|].
  change (total_size ((w :: w1) ++ w2)) with (msg_size (fst w) + total_size (w1 ++ w2)).
  change (total_size (w :: w1)) with (msg_size (fst w) + total_size w1).
  rewrite IH. lia.
Qed.

Lemma add_messages_app (self : MessageBatcher) (w1 w2 : list (Message * Qc)) :
  add_messages self (w1 ++ w2)
  = (fst (add_messages (fst (add_messages self w1)) w2),
     snd (add_messages self w1) ++ snd (add_messages (fst (add_messages self w1)) w2)).
Proof.
  revert self. induction w1 as [|[m now] w1 IH]; intros self; cbn [app add_messages fst snd].
  - destruct (add_messages self w2); reflexivity.
  - destruct (add_message self m now) as [[self1 d1] r]. rewrite IH.
    destruct (add_messages self1 w1) as [self2 d2]. cbn [fst snd].
    destruct (add_messages self2 w2). cbn [fst snd]. rewrite app_assoc. reflexivity.
Qed.

(** With room for the message, in count and in bytes, [add_message] only
    queues it. *)
Lemma add_message_queued (self : MessageBatcher) (m : Message) (now : Qc) :
  Z.of_nat (length (_batch_queue self)) < max_batch_size self ->
  _batch_size_bytes self + msg_size m <= max_batch_bytes self ->
  let r := add_message self m now in
  snd (fst r) = []
  /\ _batch_queue (fst (fst r)) = _batch_queue self ++ [m]
  /\ _batch_size_bytes (fst (fst r)) = _batch_size_bytes self + msg_size m
  /\ max_batch_size (fst (fst r)) = max_batch_size self
  /\ max_batch_bytes (fst (fst r)) = max_batch_bytes self
  /\ _flush_callback (fst (fst r)) = _flush_callback self.
Proof.
  intros Hcount Hbytes. cbn zeta. unfold add_message.
  destruct (Z.leb_spec (max_batch_size self) (Z.of_nat (length (_batch_queue self))));
    [lia|].
  destruct (Z.ltb_spec (max_batch_bytes self) (_batch_size_bytes self + msg_size m));
    [lia|].
  cbn [orb _batch_queue]. destruct (_ =? 1); repeat split; reflexivity.
Qed.

(** With the queue at [max_batch_size], [add_message] first flushes it,
    handing one envelope with the whole queue to the callback, and then
    queues the message alone. *)
Lemma add_message_flushes (self : MessageBatcher) (m : Message) (now : Qc) :
  max_batch_size self <= Z.of_nat (length (_batch_queue self)) ->
  _batch_queue self <> [] ->
  _flush_callback self = true ->
  let r := add_message self m now in
  snd (fst r) = [ {| batch_type := "batch";
                     messages := _batch_queue self;
                     count := Z.of_nat (length (_batch_queue self));
                     timestamp := now |} ]
  /\ _batch_queue (fst (fst r)) = [m]
  /\ _batch_size_bytes (fst (fst r)) = msg_size m.
Proof.
  intros Hfull Hne Hcb. cbn zeta. unfold add_message.
  destruct (Z.leb_spec (max_batch_size self) (Z.of_nat (length (_batch_queue self))));
    [|lia].
  cbn [orb]. unfold _flush_batch.
  destruct (_batch_queue self) as [|m0 queue] eqn:Hq; [congruence|].
  rewrite Hcb. cbn. repeat split; reflexivity.
Qed.

(** A run of messages that fits, in count and in bytes, is queued without
    any flush. *)
Lemma add_messages_queued (work : list (Message * Qc)) (self : MessageBatcher) :
  Z.of_nat (length (_batch_queue self) + length work) <= max_batch_size self ->
  _batch_size_bytes self + total_size work <= max_batch_bytes self ->
  let r := add_messages self work in
  snd r = []
  /\ _batch_queue (fst r) = _batch_queue self ++ map fst work
  /\ _batch_size_bytes (fst r) = _batch_size_bytes self + total_size work
  /\ max_batch_size (fst r) = max_batch_size self
  /\ max_batch_bytes (fst r) = max_batch_bytes self
  /\ _flush_callback (fst r) = _flush_callback self.
Proof.
  revert self. induction work as [|[m now] work IH]; intros self Hcount Hbytes; cbn zeta.
  - cbn. rewrite app_nil_r. repeat split; lia.
  - cbn [add_messages]. cbn [length total_size fold_right fst] in Hcount, Hbytes.
    fold (total_size work) in Hbytes.
    pose proof (total_size_nonneg work) as Hpos.
    destruct (add_message_queued self m now) as (Hd & Hq & Hb & Hms & Hmb & Hcb);
      [lia | lia |].
    destruct (add_message self m now) as [[self1 d1] r1]. cbn [fst snd] in *.
    destruct (IH self1) as (Hd' & Hq' & Hb' & Hms' & Hmb' & Hcb').
    + rewrite Hq, Hms, length_app. cbn [length]. lia.
    + rewrite Hb, Hmb. lia.
    + destruct (add_messages self1 work) as [self2 d2]. cbn [fst snd] in *.
      subst d1 d2. rewrite Hq', Hq, Hb', Hb, Hms', Hms, Hmb', Hmb, Hcb', Hcb.
      cbn [map fst total_size fold_right]. fold (total_size work).
      rewrite <- app_assoc. repeat split; try reflexivity. lia.
Qed.

(** One message more than [max_batch_size] on a fresh batcher with a
    callback: if the bytes allow the first [max_batch_size] messages to
    queue up, the last message triggers the one flush, which delivers the
    first messages in order, and stays alone in the queue. *)
Lemma add_messages_one_flush (n : nat) (first : list (Message * Qc)) (m : Message)
    (now : Qc) (max_bytes : Z) (timeout : Qc) :
  length first = n -> n <> 0%nat ->
  total_size first <= max_bytes ->
  let r := add_messages (set_flush_callback (batcher_init (Z.of_nat n) max_bytes timeout))
             (first ++ [(m, now)]) in
  snd r = [ {| batch_type := "batch"; messages := map fst first;
               count := Z.of_nat n; timestamp := now |} ]
  /\ _batch_queue (fst r) = [m].
Proof.
  intros Hlen Hn Hbytes. cbn zeta.
  set (b := set_flush_callback (batcher_init (Z.of_nat n) max_bytes timeout)).
  rewrite add_messages_app.
  destruct (add_messages_queued first b) as (Hd & Hq & Hb & Hms & Hmb & Hcb).
  - cbn. lia.
  - cbn. lia.
  - destruct (add_messages b first) as [b1 d1]. cbn [fst snd] in *. subst d1.
    cbn [add_messages app].
    destruct (add_message_flushes b1 m now) as (Hd2 & Hq2 & _).
    + rewrite Hms, Hq. cbn. rewrite length_map. lia.
    + rewrite Hq. cbn. destruct first; [cbn in Hlen; lia | discriminate].
    + rewrite Hcb. reflexivity.
    + destruct (add_message b1 m now) as [[b2 d2] r2]. cbn [fst snd] in *.
      rewrite app_nil_r. subst d2. rewrite Hq. cbn [_batch_queue b batcher_init
        set_flush_callback app]. rewrite length_map, Hlen.
      split; [reflexivity | exact Hq2].
Qed.

(** C8, as the code has it: on a fresh batcher with [max_batch_size = 10]
    and a flush callback, eleven messages added before any timer fires,
    the first ten of which fit [max_batch_bytes] together, trigger exactly
    one flush, at the eleventh; it delivers one envelope with exactly the
    first ten messages in order, and the eleventh is the one message left
    pending. *)
Theorem eleven_messages_one_batch (work : list (Message * Qc)) (max_bytes : Z)
    (timeout : Qc) :
  length work = 11%nat ->
  total_size (take 10 work) <= max_bytes ->
  let r := add_messages (set_flush_callback (batcher_init 10 max_bytes timeout)) work in
  (exists now, snd r = [ {| batch_type := "batch"; messages := map fst (take 10 work);
                            count := 10; timestamp := now |} ])
  /\ _batch_queue (fst r) = map fst (drop 10 work)
  /\ length (_batch_queue (fst r)) = 1%nat.
Proof.
  intros Hlen Hbytes. cbn zeta.
  pose proof (take_drop 10 work) as Hw.
  destruct (drop 10 work) as [|[m now] [|? ?]] eqn:Hdrop;
    try (apply (f_equal length) in Hdrop; rewrite length_drop, Hlen in Hdrop;
         cbn in Hdrop; lia).
  remember (take 10 work) as first eqn:Hfirst.
  assert (Hten : length first = 10%nat) by (subst first; rewrite length_take; lia).
  rewrite <- Hw.
  destruct (add_messages_one_flush 10 first m now max_bytes timeout Hten)
    as (Hd & Hq); [lia | exact Hbytes |].
  change (Z.of_nat 10) with 10 in *.
  rewrite Hd, Hq. split; [eexists; reflexivity|]. split; reflexivity.
Qed.

Lemma eleven_messages_one_batch_witness :
  let r := add_messages (set_flush_callback (batcher_init 10 8192 (Py.Qc_of_Z 50)))
             eleven_small in
  (exists now, snd r = [ {| batch_type := "batch";
                            messages := map fst (take 10 eleven_small);
                            count := 10; timestamp := now |} ])
  /\ _batch_queue (fst r) = [small 11].
Proof.
  destruct (eleven_messages_one_batch eleven_small 8192 (Py.Qc_of_Z 50))
    as (Hd & Hq & _).
  - reflexivity.
  - vm_compute. discriminate.
  - split; [exact Hd | exact Hq].
Defined.

(** C8 as the claim words it fails on the default batcher: eleven messages
    of about a thousand characters each reach [max_batch_bytes = 8192] at
    the ninth, so the flush comes then and delivers eight messages, not
    ten, and three messages are left pending, not one. *)
Lemma eleven_large_messages_flush_early :
  let r := add_messages (set_flush_callback (batcher_init 10 8192 (Py.Qc_of_Z 50)))
             eleven_large in
  map count (snd r) = [8]
  /\ map messages (snd r) = [map fst (take 8 eleven_large)]
  /\ _batch_queue (fst r) = map fst (drop 8 eleven_large).
Proof. vm_compute. repeat split; reflexivity. Qed.

(** *** Framing of packets *)

Lemma parse_framed (header rest : list byte) (a b n : Z) :
  struct_unpack header = Py.Ok (a, b, n) -> length header = 6%nat -> 0 <= n ->
  _parse_packet (header ++ rest)
  = if Z.of_nat (length (take (Z.to_nat n) rest)) =? n
    then Py.Ok (default TRANSCRIPTION_RESULT (type_of_value a), negb (Z.land b 1 =? 0),
                take (Z.to_nat n) rest)
    else Py.Raise (Py.ValueError "Invalid packet: wrong length").
Proof.
  intros Hunpack Hlen Hn. unfold _parse_packet.
  assert (Hhead : Py.slice (header ++ rest) None (Some 6) = header).
  { unfold Py.slice, Py.slice_bound. cbn [from_option]. rewrite length_app, Hlen.
    change (6 <? 0) with false. cbv iota. rewrite Z.min_l by lia.
    change (Z.to_nat (6 - 0)) with 6%nat. change (Z.to_nat 0) with 0%nat. cbn [drop].
    apply take_app_length'. symmetry. exact Hlen. }
  assert (Hdata : Py.slice (header ++ rest) (Some 6) (Some (6 + n))
                  = take (Z.to_nat n) rest).
  { unfold Py.slice, Py.slice_bound. cbn [from_option]. rewrite length_app, Hlen.
    change (6 <? 0) with false. cbv iota.
    destruct (Z.ltb_spec (6 + n) 0); [lia|].
    rewrite (Z.min_l 6) by lia. change (Z.to_nat 6) with 6%nat.
    rewrite drop_app_length' by (symmetry; exact Hlen).
    destruct (Z.le_gt_cases n (Z.of_nat (length rest))).
    - rewrite Z.min_l by lia. f_equal. lia.
    - rewrite Z.min_r by lia. rewrite !take_ge by lia. reflexivity. }
  rewrite length_app, Hlen.
  destruct (Z.ltb_spec (Z.of_nat (6 + length rest)) 6); [lia|].
  rewrite Hhead, Hunpack. cbn [Py.bind]. rewrite Hdata. reflexivity.
Qed.

(** X23: the framing of packets. [_create_packet] of fewer than 2^32
    bytes returns the six bytes of the header and the data; [_parse_packet]
    reads the type, the flag and the data back from the packet, also when
    more bytes follow it, which it passes over; and of a packet cut short
    at any place it raises [ValueError]. *)
Theorem packet_framing (t : MessageType) (data : list byte) (compressed : bool) :
  Z.of_nat (length data) < 2 ^ 32 ->
  exists packet,
    _create_packet t data compressed = Py.Ok packet
    /\ length packet = (6 + length data)%nat
    /\ drop 6 packet = data
    /\ (forall extra, _parse_packet (packet ++ extra) = Py.Ok (t, compressed, data))
    /\ (forall k, (k < length packet)%nat ->
          exists msg, _parse_packet (take k packet) = Py.Raise (Py.ValueError msg)).
Proof.
  intros Hlen. unfold _create_packet.
  destruct (struct_pack_ok (type_value t) (if compressed then 1 else 0)
              (Z.of_nat (length data))) as (n3 & n2 & n1 & n0 & Hpack).
  { apply type_value_range. }
  { destruct compressed; lia. }
  { lia. }
  rewrite Hpack. cbn [Py.bind]. eexists. split; [reflexivity|].
  apply struct_unpack_pack in Hpack as [Hunpack Hsix].
  set (header := [byte_of_Z (type_value t); byte_of_Z (if compressed then 1 else 0);
                  n3; n2; n1; n0]) in *.
  assert (Hflag : negb (Z.land (if compressed then 1 else 0) 1 =? 0) = compressed)
    by (destruct compressed; reflexivity).
  split; [rewrite length_app, Hsix; reflexivity|].
  split; [apply drop_app_length'; symmetry; exact Hsix|].
  split.
  - intros extra. rewrite <- app_assoc.
    rewrite (parse_framed header (data ++ extra) _ _ _ Hunpack Hsix) by lia.
    rewrite Nat2Z.id, take_app_length, Z.eqb_refl, type_of_value_type_value, Hflag.
    reflexivity.
  - intros k Hk. rewrite length_app, Hsix in Hk.
    destruct (Nat.lt_ge_cases k 6) as [Hshort|Hlong].
    + unfold _parse_packet. rewrite length_take, length_app, Hsix.
      destruct (Z.ltb_spec (Z.of_nat (k `min` (6 + length data))) 6); [|lia].
      eexists. reflexivity.
    + rewrite take_app_ge by lia. rewrite Hsix.
      rewrite (parse_framed header (take (k - 6) data) _ _ _ Hunpack Hsix) by lia.
      rewrite Nat2Z.id, !length_take.
      destruct (Z.eqb_spec (Z.of_nat (length data `min` ((k - 6) `min` length data)))
                  (Z.of_nat (length data))); [lia|].
      eexists. reflexivity.
Qed.

Lemma packet_framing_witness :
  exists packet,
    _create_packet HEARTBEAT [x68; x69] false = Py.Ok packet
    /\ length packet = 8%nat
    /\ drop 6 packet = [x68; x69]
    /\ (forall extra, _parse_packet (packet ++ extra) = Py.Ok (HEARTBEAT, false, [x68; x69]))
    /\ (forall k, (k < length packet)%nat ->
          exists msg, _parse_packet (take k packet) = Py.Raise (Py.ValueError msg)).
Proof.
  apply (packet_framing HEARTBEAT [x68; x69] false). cbn. lia.
Defined.

(** *** The levels of compression *)

Lemma slice_from_1 {A} (l : list A) : Py.slice l (Some 1) None = drop 1 l.
Proof.
  unfold Py.slice, Py.slice_bound. cbn [from_option]. change (1 <? 0) with false. cbv iota.
  destruct l as [|x l]; [reflexivity|].
  rewrite Z.min_l by (cbn [length]; lia). change (Z.to_nat 1) with 1%nat.
  apply take_ge. rewrite length_drop. lia.
Qed.

(** What [_maybe_adjust_compression] changes: the levels, lowered only
    when the mean of the recent ratios is above 0.9. *)
Lemma maybe_adjust_spec (self : AdaptiveCompressor) (now : Qc) :
  let self' := _maybe_adjust_compression self now in
  min_compress_size self' = min_compress_size self
  /\ compression_threshold_ratio self' = compression_threshold_ratio self
  /\ performance_window self' = performance_window self
  /\ _recent_ratios self' = _recent_ratios self
  /\ (_compression_levels self' = _compression_levels self
      \/ (_compression_levels self' = _reduce_compression_levels (_compression_levels self)
          /\ _recent_ratios self <> []
          /\ (Q2Qc (9 # 10)
              < sum_Qc (_recent_ratios self)
                / Py.Qc_of_Z (Z.of_nat (length (_recent_ratios self))))%Qc)
      \/ _compression_levels self'
         = _increase_compression_levels (_compression_levels self)).
Proof.
  cbn zeta. unfold _maybe_adjust_compression.
  destruct (bool_decide _); [repeat (split; [reflexivity|]); left; reflexivity|].
  destruct (Z.ltb_spec (Z.of_nat (length (_recent_ratios self))) 10);
    [repeat (split; [reflexivity|]); left; reflexivity|].
  cbn [set_levels min_compress_size compression_threshold_ratio performance_window
       _recent_ratios _compression_levels].
  repeat (split; [reflexivity|]).
  destruct (bool_decide _) eqn:Hhigh.
  - right. left. apply bool_decide_eq_true in Hhigh. split; [reflexivity|].
    split; [|exact Hhigh]. destruct (_recent_ratios self); [cbn in *; lia | discriminate].
  - clear Hhigh.
    destruct (bool_decide _); [right; right; reflexivity | left; reflexivity].
Qed.

Section compressor_run_facts.

Context `{Zlib}.

(** What [compress_message] changes besides the statistics: it may note
    one more ratio, which is at most the threshold, and then adjust the
    levels. *)
Lemma compress_message_state (self : AdaptiveCompressor) (message : Message)
    (message_type : MessageType) (t1 t2 t3 : Qc) :
  let self' := fst (compress_message self message message_type t1 t2 t3) in
  min_compress_size self' = min_compress_size self
  /\ compression_threshold_ratio self' = compression_threshold_ratio self
  /\ performance_window self' = performance_window self
  /\ ((_recent_ratios self' = _recent_ratios self
       /\ _compression_levels self' = _compression_levels self)
      \/ exists ratio,
           (ratio <= compression_threshold_ratio self)%Qc
           /\ _recent_ratios self'
              = (if performance_window self
                    <? Z.of_nat (length (_recent_ratios self ++ [ratio]))
                 then drop 1 (_recent_ratios self ++ [ratio])
                 else _recent_ratios self ++ [ratio])
           /\ (_compression_levels self' = _compression_levels self
               \/ (_compression_levels self'
                   = _reduce_compression_levels (_compression_levels self)
                   /\ _recent_ratios self' <> []
                   /\ (Q2Qc (9 # 10)
                       < sum_Qc (_recent_ratios self')
                         / Py.Qc_of_Z (Z.of_nat (length (_recent_ratios self'))))%Qc)
               \/ _compression_levels self'
                  = _increase_compression_levels (_compression_levels self))).
Proof.
  cbn zeta. unfold compress_message. fold (payload message).
  set (counted := set_stats self _).
  assert (Hsame : forall r : Py.result (list byte),
            min_compress_size (fst (counted, r)) = min_compress_size self
            /\ compression_threshold_ratio (fst (counted, r)) = compression_threshold_ratio self
            /\ performance_window (fst (counted, r)) = performance_window self
            /\ ((_recent_ratios (fst (counted, r)) = _recent_ratios self
                 /\ _compression_levels (fst (counted, r)) = _compression_levels self)
                \/ exists ratio,
                     (ratio <= compression_threshold_ratio self)%Qc
                     /\ _recent_ratios (fst (counted, r))
                        = (if performance_window self
                              <? Z.of_nat (length (_recent_ratios self ++ [ratio]))
                           then drop 1 (_recent_ratios self ++ [ratio])
                           else _recent_ratios self ++ [ratio])
                     /\ (_compression_levels (fst (counted, r)) = _compression_levels self
                         \/ (_compression_levels (fst (counted, r))
                             = _reduce_compression_levels (_compression_levels self)
                             /\ _recent_ratios (fst (counted, r)) <> []
                             /\ (Q2Qc (9 # 10)
                                 < sum_Qc (_recent_ratios (fst (counted, r)))
                                   / Py.Qc_of_Z (Z.of_nat (length
                                       (_recent_ratios (fst (counted, r))))))%Qc)
                         \/ _compression_levels (fst (counted, r))
                            = _increase_compression_levels (_compression_levels self)))).
  { intros r. cbn. auto 10. }
  destruct (_ <? _); [apply Hsame|].
  destruct (decide _); [apply Hsame|].
  unfold try_compress.
  destruct (zlib_compress (payload message) _) as [packed|];
    cbn [zlib_call Py.bind]; [|apply Hsame].
  destruct (_ =? 0); [apply Hsame|].
  destruct (bool_decide _) eqn:Hratio.
  { destruct (_create_packet message_type (payload message) false);
      cbn [Py.bind]; apply Hsame. }
  apply bool_decide_eq_false in Hratio. apply Qcnot_lt_le in Hratio.
  destruct (_create_packet message_type packed true) as [packet| |];
    cbn [Py.bind]; [|apply Hsame..].
  rewrite slice_from_1.
  set (ratio := (Py.Qc_of_Z (Z.of_nat (length packed))
                 / Py.Qc_of_Z (Z.of_nat (length (payload message))))%Qc) in *.
  set (noted := set_ratios _ _).
  assert (Hnoted : min_compress_size noted = min_compress_size self
                   /\ compression_threshold_ratio noted = compression_threshold_ratio self
                   /\ performance_window noted = performance_window self
                   /\ _compression_levels noted = _compression_levels self
                   /\ _recent_ratios noted
                      = (if performance_window self
                            <? Z.of_nat (length (_recent_ratios self ++ [ratio]))
                         then drop 1 (_recent_ratios self ++ [ratio])
                         else _recent_ratios self ++ [ratio])).
  { unfold noted, counted. cbn. auto. }
  destruct Hnoted as (N1 & N2 & N3 & N4 & N5).
  cbn [fst]. destruct (_auto_adjust noted).
  - destruct (maybe_adjust_spec noted t3) as (A1 & A2 & A3 & A4 & A5). cbn zeta in *.
    rewrite A1, A2, A3, A4, N1, N2, N3. repeat (split; [reflexivity|]).
    right. exists ratio. split; [exact Hratio|]. split; [exact N5|].
    rewrite N4 in A5. exact A5.
  - rewrite N1, N2, N3. repeat (split; [reflexivity|]).
    right. exists ratio. split; [exact Hratio|]. split; [exact N5|]. left. exact N4.
Qed.

Lemma decompress_message_state (self : AdaptiveCompressor) (packet : list byte)
    (t1 t2 : Qc) :
  let self' := fst (decompress_message self packet t1 t2) in
  min_compress_size self' = min_compress_size self
  /\ compression_threshold_ratio self' = compression_threshold_ratio self
  /\ performance_window self' = performance_window self
  /\ _recent_ratios self' = _recent_ratios self
  /\ _compression_levels self' = _compression_levels self.
Proof.
  cbn zeta. unfold decompress_message.
  destruct (_parse_packet packet) as [[[t compressed] data]| |]; [|cbn; auto..].
  destruct compressed; [|cbn; auto].
  destruct (zlib_decompress data); cbn; auto.
Qed.

Lemma reachable_settings (min_size : Z) (threshold : Qc) (window : Z)
    (self : AdaptiveCompressor) :
  compressor_reachable min_size threshold window self ->
  min_compress_size self = min_size
  /\ compression_threshold_ratio self = threshold
  /\ performance_window self = window.
Proof.
  induction 1 as [now|self message message_type t1 t2 t3 _ IH|self packet t1 t2 _ IH].
  - cbn. auto.
  - destruct (compress_message_state self message message_type t1 t2 t3)
      as (H1 & H2 & H3 & _). cbn zeta in *. rewrite H1, H2, H3. exact IH.
  - destruct (decompress_message_state self packet t1 t2) as (H1 & H2 & H3 & _).
    cbn zeta in *. rewrite H1, H2, H3. exact IH.
Qed.

(** No level becomes [NONE] and none leaves it. *)
Lemma reachable_none (min_size : Z) (threshold : Qc) (window : Z)
    (self : AdaptiveCompressor) :
  compressor_reachable min_size threshold window self ->
  forall t, _compression_levels self t = NONE <-> initial_levels t = NONE.
Proof.
  induction 1 as [now|self message message_type t1 t2 t3 _ IH|self packet t1 t2 _ IH];
    intros t.
  - reflexivity.
  - destruct (compress_message_state self message message_type t1 t2 t3)
      as (_ & _ & _ & Hstate). cbn zeta in *. rewrite <- IH.
    assert (Hred : _reduce_compression_levels (_compression_levels self) t = NONE
                   <-> _compression_levels self t = NONE).
    { unfold _reduce_compression_levels.
      destruct (_compression_levels self t); split; congruence. }
    assert (Hinc : _increase_compression_levels (_compression_levels self) t = NONE
                   <-> _compression_levels self t = NONE).
    { unfold _increase_compression_levels.
      destruct (_compression_levels self t); split; congruence. }
    destruct Hstate as [[_ ->]|(ratio & _ & _ & [->|[(-> & _)| ->]])];
      [reflexivity | reflexivity | exact Hred | exact Hinc].
  - destruct (decompress_message_state self packet t1 t2) as (_ & _ & _ & _ & ->).
    apply IH.
Qed.

(** X24: error messages and heartbeats are never compressed. On a
    compressor that [__init__] has built and that has served any calls of
    [compress_message] and [decompress_message], whatever the ratios it has
    seen and the adjustments it has made, a message of type [ERROR_MESSAGE]
    or [HEARTBEAT] is sent as it is: the packet is the header with the flag
    byte 0 and the serialized form of the message; the type byte is that of
    the type, or 1 when the message is shorter than [min_compress_size]. *)
Theorem plain_types_never_compressed (min_size : Z) (threshold : Qc) (window : Z)
    (self : AdaptiveCompressor) (message : Message) (message_type : MessageType)
    (t1 t2 t3 : Qc) :
  compressor_reachable min_size threshold window self ->
  message_type = ERROR_MESSAGE \/ message_type = HEARTBEAT ->
  Z.of_nat (length (payload message)) < 2 ^ 32 ->
  exists n3 n2 n1 n0,
    snd (compress_message self message message_type t1 t2 t3)
    = Py.Ok (byte_of_Z (type_value (if Z.of_nat (length (payload message)) <? min_size
                                    then TRANSCRIPTION_RESULT else message_type))
             :: x00 :: n3 :: n2 :: n1 :: n0 :: payload message).
Proof.
  intros Hreach Htype Hlen.
  pose proof (reachable_none _ _ _ _ Hreach message_type) as Hnone.
  destruct (reachable_settings _ _ _ _ Hreach) as (Hmin & _ & _).
  assert (Hlevel : _compression_levels self message_type = NONE).
  { apply Hnone. destruct Htype as [-> | ->]; reflexivity. }
  unfold compress_message. fold (payload message).
  cbn [set_stats min_compress_size _compression_levels]. rewrite Hmin, Hlevel.
  destruct (_ <? _); cbn [snd].
  - destruct (create_packet_ok TRANSCRIPTION_RESULT (payload message) false Hlen)
      as (n3 & n2 & n1 & n0 & Hp). exists n3, n2, n1, n0. exact Hp.
  - rewrite decide_True by reflexivity. cbn [snd].
    destruct (create_packet_ok message_type (payload message) false Hlen)
      as (n3 & n2 & n1 & n0 & Hp). exists n3, n2, n1, n0. exact Hp.
Qed.

(** *** The window of ratios *)

Lemma sum_bound (c : Qc) (l : list Qc) :
  Forall (fun r => (r <= c)%Qc) l ->
  (sum_Qc l <= c * Py.Qc_of_Z (Z.of_nat (length l)))%Qc.
Proof.
  induction 1 as [|r l Hr _ IH].
  - cbn [length sum_Qc fold_right].
    replace (Py.Qc_of_Z (Z.of_nat 0)) with 0%Qc by (apply Qc_is_canon; reflexivity).
    rewrite Qcmult_0_r. apply Qcle_refl.
  - cbn [sum_Qc fold_right length]. fold (sum_Qc l).
    replace (Py.Qc_of_Z (Z.of_nat (S (length l))))
      with (1 + Py.Qc_of_Z (Z.of_nat (length l)))%Qc.
    + rewrite Qcmult_plus_distr_r, Qcmult_1_r. apply Qcplus_le_compat; assumption.
    + apply Qc_is_canon. unfold Py.Qc_of_Z. cbn [this Q2Qc Qcplus].
      rewrite !Qred_correct, Nat2Z.inj_succ. unfold Z.succ. rewrite inject_Z_plus.
      change (inject_Z 1) with 1%Q. lra.
Qed.

Lemma mean_bound (c : Qc) (l : list Qc) :
  Forall (fun r => (r <= c)%Qc) l -> l <> [] ->
  (sum_Qc l / Py.Qc_of_Z (Z.of_nat (length l)) <= c)%Qc.
Proof.
  intros Hall Hne. pose proof (sum_bound c l Hall) as Hsum.
  assert (Hpos : (0 < Py.Qc_of_Z (Z.of_nat (length l)))%Qc).
  { unfold Qclt, Py.Qc_of_Z. cbn [this Q2Qc]. rewrite !Qred_correct.
    change 0%Q with (inject_Z 0). rewrite <- Zlt_Qlt.
    destruct l; [congruence | cbn [length]; lia]. }
  unfold Qcdiv. apply (Qcmult_lt_0_le_reg_r _ _ _ Hpos).
  rewrite <- Qcmult_assoc, (Qcmult_comm (/ _)), Qcmult_inv_r, Qcmult_1_r; [exact Hsum|].
  intros Hzero. apply Qclt_not_eq in Hpos. apply Hpos. symmetry. exact Hzero.
Qed.

(** X25: with a threshold of at most 0.9, as the default 0.8 is, the
    compressor never lowers a level of compression. The ratios it notes
    are those of the messages it sent compressed, each at most the
    threshold, so their mean is never above 0.9; and it keeps at most
    [performance_window] of them. *)
Theorem levels_never_reduced (min_size : Z) (threshold : Qc) (window : Z)
    (self : AdaptiveCompressor) :
  (threshold <= Q2Qc (9 # 10))%Qc ->
  compressor_reachable min_size threshold window self ->
  (forall t, level_value (initial_levels t) <= level_value (_compression_levels self t))
  /\ Forall (fun r => (r <= threshold)%Qc) (_recent_ratios self)
  /\ Z.of_nat (length (_recent_ratios self)) <= Z.max 0 window.
Proof.
  intros Hthreshold Hreach.
  induction Hreach
    as [now|self message message_type t1 t2 t3 Hreach IH|self packet t1 t2 _ IH].
  - cbn. split; [intros t; lia|]. split; [constructor | lia].
  - destruct IH as (Hlevels & Hratios & Hwindow).
    destruct (reachable_settings _ _ _ _ Hreach) as (_ & Hthr & Hwin).
    destruct (compress_message_state self message message_type t1 t2 t3)
      as (_ & _ & _ & Hstate). cbn zeta in *. rewrite Hthr, Hwin in Hstate.
    destruct Hstate as [[-> ->]|(ratio & Hratio & Hnoted & Hadjusted)]; [auto|].
    assert (Hall : Forall (fun r => (r <= threshold)%Qc) (_recent_ratios self ++ [ratio])).
    { apply Forall_app. split; [exact Hratios|]. constructor; [exact Hratio | constructor]. }
    assert (Hkept : Forall (fun r => (r <= threshold)%Qc)
                      (_recent_ratios (fst (compress_message self message message_type
                                              t1 t2 t3)))).
    { rewrite Hnoted. destruct (_ <? _); [apply Forall_drop|]; exact Hall. }
    split; [|split; [exact Hkept|]].
    + intros t. specialize (Hlevels t).
      destruct Hadjusted as [->|[(_ & Hne & Hmean)| ->]].
      * exact Hlevels.
      * exfalso. pose proof (mean_bound threshold _ Hkept Hne) as Hle.
        apply (Qclt_not_le _ _ Hmean). eapply Qcle_trans; eassumption.
      * unfold _increase_compression_levels.
        destruct (_compression_levels self t), (initial_levels t); cbn in *; lia.
    + rewrite Hnoted. rewrite length_app. cbn [length].
      destruct (Z.ltb_spec window (Z.of_nat (length (_recent_ratios self) + 1))).
      * rewrite length_drop, length_app. cbn [length]. lia.
      * rewrite length_app. cbn [length]. lia.
  - destruct (decompress_message_state self packet t1 t2) as (_ & _ & _ & -> & ->).
    exact IH.
Qed.

End compressor_run_facts.

Lemma plain_types_never_compressed_witness :
  exists n3 n2 n1 n0,
    snd (compress_message
           (fst (compress_message (default_compressor 0%Qc) long_message
                   TRANSCRIPTION_RESULT 0%Qc 0%Qc 0%Qc))
           long_message HEARTBEAT 0%Qc 0%Qc 0%Qc)
    = Py.Ok (byte_of_Z 5 :: x00 :: n3 :: n2 :: n1 :: n0 :: payload long_message).
Proof.
  apply (plain_types_never_compressed 100 (Q2Qc (8 # 10)) 100
           (fst (compress_message (default_compressor 0%Qc) long_message
                   TRANSCRIPTION_RESULT 0%Qc 0%Qc 0%Qc))
           long_message HEARTBEAT 0%Qc 0%Qc 0%Qc).
  - apply compressor_reachable_compress, compressor_reachable_init.
  - right. reflexivity.
  - vm_compute. reflexivity.
Defined.

Lemma levels_never_reduced_witness :
  forall t,
    level_value (initial_levels t)
    <= level_value
         (_compression_levels
            (fst (compress_message (default_compressor 0%Qc) long_message
                    TRANSCRIPTION_RESULT 0%Qc 0%Qc (Py.Qc_of_Z 60))) t).
Proof.
  apply (levels_never_reduced 100 (Q2Qc (8 # 10)) 100).
  - vm_compute. discriminate.
  - apply compressor_reachable_compress, compressor_reachable_init.
Defined.

(** *** Runs of a batcher *)

Lemma queue_bytes_app (q1 q2 : list Message) :
  queue_bytes (q1 ++ q2) = queue_bytes q1 + queue_bytes q2.
Proof.
  induction q1 as [|m q1 IH]; [reflexivity|]. cbn [app queue_bytes fold_right] in *.
  fold (queue_bytes (q1 ++ q2)). fold (queue_bytes q1). rewrite IH. lia.
Qed.

Lemma flush_batch_spec (self : MessageBatcher) (now : Qc) :
  let r := _flush_batch self now in
  _batch_queue (fst r) = []
  /\ (_batch_queue self = [] -> fst r = self)
  /\ (_batch_queue self <> [] -> _batch_size_bytes (fst r) = 0)
  /\ max_batch_size (fst r) = max_batch_size self
  /\ max_batch_bytes (fst r) = max_batch_bytes self
  /\ _flush_callback (fst r) = _flush_callback self
  /\ snd r = (if _flush_callback self
              then match _batch_queue self with
                   | [] => []
                   | _ => [ {| batch_type := "batch";
                               messages := _batch_queue self;
                               count := Z.of_nat (length (_batch_queue self));
                               timestamp := now |} ]
                   end
              else []).
Proof.
  cbn zeta. unfold _flush_batch. destruct (_batch_queue self) as [|m queue] eqn:Hq.
  - cbn [fst snd]. rewrite Hq.
    split; [reflexivity|]. split; [reflexivity|]. split; [congruence|].
    repeat (split; [reflexivity|]). destruct (_flush_callback self); reflexivity.
  - cbn [fst snd _batch_queue _batch_size_bytes max_batch_size max_batch_bytes
         _flush_callback].
    repeat split; try reflexivity. intros [=].
Qed.

Lemma add_message_spec (self : MessageBatcher) (m : Message) (now : Qc) :
  let flushes := (max_batch_size self <=? Z.of_nat (length (_batch_queue self)))
                 || (max_batch_bytes self <? _batch_size_bytes self + msg_size m) in
  let before := if flushes then _flush_batch self now else (self, []) in
  let r := add_message self m now in
  _batch_queue (fst (fst r)) = _batch_queue (fst before) ++ [m]
  /\ _batch_size_bytes (fst (fst r)) = _batch_size_bytes (fst before) + msg_size m
  /\ max_batch_size (fst (fst r)) = max_batch_size self
  /\ max_batch_bytes (fst (fst r)) = max_batch_bytes self
  /\ _flush_callback (fst (fst r)) = _flush_callback self
  /\ snd (fst r) = snd before.
Proof.
  cbn zeta. unfold add_message.
  destruct (flush_batch_spec self now) as (_ & _ & _ & F1 & F2 & F3 & _). cbn zeta in F1, F2, F3.
  destruct (_ || _).
  - destruct (_flush_batch self now) as [flushed delivered]. cbn [fst snd] in *.
    destruct (_ =? 1); cbn; auto 10.
  - cbn [fst snd]. destruct (_ =? 1); cbn; auto 10.
Qed.

(** X26: a batcher with a callback loses no message and keeps the order.
    After any calls of [add_message] and any flushes in between, the
    messages of the envelopes delivered, one envelope after the other, and
    then the messages still in the queue are the messages that were in the
    queue at first and then the messages added, in the order of the
    calls. *)
Theorem batcher_keeps_order (self : MessageBatcher) (calls : list batcher_call) :
  _flush_callback self = true ->
  concat (messages <$> snd (batcher_run self calls))
    ++ _batch_queue (fst (batcher_run self calls))
  = _batch_queue self ++ added calls.
Proof.
  revert self. induction calls as [|[m now|now] calls IH]; intros self Hcb.
  - cbn. rewrite app_nil_r. reflexivity.
  - cbn [batcher_run added omap].
    destruct (add_message_spec self m now) as (A1 & _ & _ & _ & A5 & A6). cbn zeta in *.
    destruct (flush_batch_spec self now) as (F1 & F2 & _ & _ & _ & _ & F7). cbn zeta in *.
    destruct (add_message self m now) as [[self1 delivered] r]. cbn [fst snd] in *.
    specialize (IH self1). rewrite A5 in IH. specialize (IH Hcb).
    destruct (batcher_run self1 calls) as [self2 later]. cbn [fst snd] in *.
    rewrite fmap_app, concat_app, <- app_assoc, IH, A1, A6.
    fold (added calls).
    destruct (_ || _).
    + rewrite F1, F7, Hcb. destruct (_batch_queue self) as [|m0 queue]; [reflexivity|].
      cbn [fmap list_fmap concat messages]. rewrite app_nil_r, <- !app_assoc. reflexivity.
    + cbn [fst snd fmap list_fmap concat app]. rewrite <- app_assoc. reflexivity.
  - cbn [batcher_run added omap]. unfold flush_now.
    destruct (flush_batch_spec self now) as (F1 & _ & _ & _ & _ & F6 & F7). cbn zeta in *.
    destruct (_flush_batch self now) as [self1 delivered]. cbn [fst snd] in *.
    specialize (IH self1). rewrite F6 in IH. specialize (IH Hcb).
    destruct (batcher_run self1 calls) as [self2 later]. cbn [fst snd] in *.
    rewrite fmap_app, concat_app, <- app_assoc, IH, F1, F7, Hcb.
    fold (added calls).
    destruct (_batch_queue self) as [|m0 queue]; [reflexivity|].
    cbn [fmap list_fmap concat messages]. rewrite app_nil_r. reflexivity.
Qed.

Lemma batcher_keeps_order_witness :
  concat (messages <$> snd (batcher_run (set_flush_callback (batcher_init 2 8192 (Py.Qc_of_Z 50)))
                              [AddMessage (small 1) 0%Qc; AddMessage (small 2) 0%Qc;
                               AddMessage (small 3) 0%Qc; FlushNow 0%Qc;
                               AddMessage (small 4) 0%Qc]))
    ++ _batch_queue (fst (batcher_run (set_flush_callback
                                         (batcher_init 2 8192 (Py.Qc_of_Z 50)))
                            [AddMessage (small 1) 0%Qc; AddMessage (small 2) 0%Qc;
                             AddMessage (small 3) 0%Qc; FlushNow 0%Qc;
                             AddMessage (small 4) 0%Qc]))
  = [small 1; small 2; small 3; small 4].
Proof.
  apply (batcher_keeps_order (set_flush_callback (batcher_init 2 8192 (Py.Qc_of_Z 50)))
           [AddMessage (small 1) 0%Qc; AddMessage (small 2) 0%Qc;
            AddMessage (small 3) 0%Qc; FlushNow 0%Qc; AddMessage (small 4) 0%Qc]).
  reflexivity.
Defined.

Lemma batcher_run_fits (calls : list batcher_call) (self : MessageBatcher) :
  1 <= max_batch_size self ->
  queue_fits self ->
  let r := batcher_run self calls in
  Forall (fun b => count b = Z.of_nat (length (messages b))
                   /\ batch_fits (max_batch_size self) (max_batch_bytes self) (messages b))
    (snd r)
  /\ queue_fits (fst r)
  /\ max_batch_size (fst r) = max_batch_size self
  /\ max_batch_bytes (fst r) = max_batch_bytes self.
Proof.
  revert self. induction calls as [|[m now|now] calls IH]; intros self Hone Hfits; cbn zeta.
  - cbn. auto.
  - cbn [batcher_run].
    destruct (add_message_spec self m now) as (A1 & A2 & A3 & A4 & _ & A6). cbn zeta in *.
    destruct (flush_batch_spec self now) as (F1 & _ & F3 & _ & _ & _ & F7). cbn zeta in *.
    destruct (add_message self m now) as [[self1 delivered] r]. cbn [fst snd] in *.
    assert (Hdelivered : Forall (fun b => count b = Z.of_nat (length (messages b))
                            /\ batch_fits (max_batch_size self) (max_batch_bytes self)
                                 (messages b)) delivered
                         /\ queue_fits self1).
    { destruct Hfits as [Hbytes Hqueue]. pose proof (msg_size_nonneg m) as Hm.
      unfold queue_fits. rewrite A1, A2, A3, A4, A6.
      destruct (Z.leb_spec (max_batch_size self) (Z.of_nat (length (_batch_queue self))))
        as [Hfull|Hroom]; cbn [orb].
      - rewrite F1, F7. destruct (_batch_queue self) as [|m0 queue] eqn:Hq;
          [cbn [length] in Hfull; lia|].
        rewrite F3 by discriminate. split.
        + destruct (_flush_callback self); constructor; [|constructor].
          cbn [count messages]. split; [reflexivity|].
          destruct Hqueue as [[=]|Hq']. exact Hq'.
        + cbn [app queue_bytes fold_right]. split; [lia|]. right.
          unfold batch_fits. cbn [length]. split; [lia | left; reflexivity].
      - destruct (Z.ltb_spec (max_batch_bytes self) (_batch_size_bytes self + msg_size m))
          as [Hbig|Hsmall].
        + rewrite F7. destruct (_batch_queue self) as [|m0 queue] eqn:Hq.
          * destruct (flush_batch_spec self now) as (_ & F2 & _). cbn zeta in F2.
            rewrite (F2 Hq), Hq, Hbytes.
            split; [destruct (_flush_callback self); constructor|].
            cbn [app queue_bytes fold_right]. split; [lia|]. right.
            unfold batch_fits. cbn [length]. split; [lia | left; reflexivity].
          * rewrite F1, F3 by discriminate. split.
            -- destruct (_flush_callback self); constructor; [|constructor].
               cbn [count messages]. split; [reflexivity|].
               destruct Hqueue as [[=]|Hq']. exact Hq'.
            -- cbn [app queue_bytes fold_right]. split; [lia|]. right.
               unfold batch_fits. cbn [length]. split; [lia | left; reflexivity].
        + cbn [fst snd]. split; [constructor|].
          rewrite queue_bytes_app. cbn [queue_bytes fold_right]. split; [lia|]. right.
          unfold batch_fits. rewrite length_app. cbn [length]. split; [lia|].
          right. rewrite queue_bytes_app. cbn [queue_bytes fold_right]. lia. }
    destruct Hdelivered as [Hdelivered Hfits1].
    destruct (IH self1) as (I1 & I2 & I3 & I4); [lia | exact Hfits1 |].
    destruct (batcher_run self1 calls) as [self2 later]. cbn [fst snd] in *.
    rewrite A3, A4 in *. split; [apply Forall_app; auto | auto].
  - cbn [batcher_run]. unfold flush_now.
    destruct (flush_batch_spec self now) as (F1 & F2 & F3 & F4 & F5 & _ & F7). cbn zeta in *.
    destruct (_flush_batch self now) as [self1 delivered]. cbn [fst snd] in *.
    assert (Hdelivered : Forall (fun b => count b = Z.of_nat (length (messages b))
                            /\ batch_fits (max_batch_size self) (max_batch_bytes self)
                                 (messages b)) delivered
                         /\ queue_fits self1).
    { destruct Hfits as [Hbytes Hqueue]. unfold queue_fits. rewrite F1, F7.
      destruct (_batch_queue self) as [|m0 queue] eqn:Hq.
      - rewrite (F2 eq_refl), Hbytes.
        split; [destruct (_flush_callback self); constructor | auto].
      - rewrite F3 by discriminate. split; [|auto].
        destruct (_flush_callback self); constructor; [|constructor].
        cbn [count messages]. split; [reflexivity|].
        destruct Hqueue as [[=]|Hq']. exact Hq'. }
    destruct Hdelivered as [Hdelivered Hfits1].
    destruct (IH self1) as (I1 & I2 & I3 & I4); [lia | exact Hfits1 |].
    destruct (batcher_run self1 calls) as [self2 later]. cbn [fst snd] in *.
    rewrite F4, F5 in *. split; [apply Forall_app; auto | auto].
Qed.

(** X27: the batches keep the limits. On a batcher built with
    [max_batch_size] at least 1, after any calls of [add_message] and any
    flushes in between, every envelope delivered holds at least one message
    and at most [max_batch_size], its [count] being their number, and
    unless it holds one message alone their estimated size is at most
    [max_batch_bytes]; the same holds of the queue that is left, if it is
    not empty, and [_batch_size_bytes] is the estimated size of the
    queue. *)
Theorem batches_within_limits (max_size max_bytes : Z) (timeout : Qc)
    (calls : list batcher_call) :
  1 <= max_size ->
  let r := batcher_run (set_flush_callback (batcher_init max_size max_bytes timeout)) calls in
  Forall (fun b => count b = Z.of_nat (length (messages b))
                   /\ batch_fits max_size max_bytes (messages b)) (snd r)
  /\ (_batch_queue (fst r) = [] \/ batch_fits max_size max_bytes (_batch_queue (fst r)))
  /\ _batch_size_bytes (fst r) = queue_bytes (_batch_queue (fst r)).
Proof.
  intros Hone. cbn zeta.
  destruct (batcher_run_fits calls
              (set_flush_callback (batcher_init max_size max_bytes timeout)))
    as (Hdelivered & [Hbytes Hqueue] & Hsize & Hmax).
  - exact Hone.
  - split; [reflexivity | left; reflexivity].
  - cbn zeta in *. rewrite Hsize, Hmax in Hqueue.
    split; [exact Hdelivered|]. split; [exact Hqueue | exact Hbytes].
Qed.

Lemma batches_within_limits_witness :
  Forall (fun b => count b = Z.of_nat (length (messages b))
                   /\ batch_fits 10 8192 (messages b))
    (snd (batcher_run (set_flush_callback (batcher_init 10 8192 (Py.Qc_of_Z 50)))
            (map (fun w => AddMessage (fst w) (snd w)) eleven_large))).
Proof.
  apply (batches_within_limits 10 8192 (Py.Qc_of_Z 50)
           (map (fun w => AddMessage (fst w) (snd w)) eleven_large)).
  lia.
Defined.

End websocket_compression_facts.
